(* ===== verification/_CoqProject ===== *)
-Q . S2P
Prelude.v
GoLib.v
Deadline.v
Json.v
Utf8.v
JsonProofs.v
JsonRpc.v
Logging.v
Geth.v
Events.v
EventsAbi.v
TxDecode.v
Simulate.v
Flows.v
FlashLoans.v
Analysis.v
WellFormed.v
ChainState.v
FreshnessCache.v
Sanctions.v
SanctionsList.v
SanctionsCache.v
Interference.v
Shared.v
Rules.v
RulesSpec.v
DeployCall.v
Risk.v
Screen.v
Proxy.v
Pipeline.v
SharedRules.v
Concurrent.v
Questions.v
Timing.v
Budget.v
Response.v
Progress.v
Main.v
