(* ===== verification/Prelude.v ===== *)
(** * tx-firewall: a verification development

    tx-firewall is a JSON-RPC proxy in front of an Ethereum node. It screens every
    [eth_sendRawTransaction] before the node sees it: the transaction is decoded, simulated on
    the node with [debug_traceCall], summarised into an [Analysis], judged by eight rules whose
    findings a risk engine turns into a verdict, and forwarded only when the verdict does not
    block. This development translates the program into executable definitions and proves what
    they do.

    ** The program's parts and the files that model them

    - [Prelude] (this file): byte arrays, 64-bit integers, loops and list lemmas, the hint
      databases and tactics of the development.
    - [GoLib]: what the program uses of Go: errors with their [%w] chains, the effect monad
      [M W A] (a run from world [W] returns a value, an error or a panic), its program logic
      [triple], lenses to the state of each cache, slices, [strings], [bytes] and
      [bufio.Scanner].
    - [Deadline]: clocks, contexts with deadlines ([context.WithTimeout]), and a logic of time
      credits: [spends p m q] bounds how long a computation waits.
    - [Json], [Utf8], [JsonProofs]: [encoding/json]: grammar with raw texts, string literals of
      any bytes, encoding, compaction; the parser's fuel is twice the length of the input and is
      proved sufficient ([parse_value_bound]), so running out of it is never observed.
    - [JsonRpc]: [internal/jsonrpc/request.go].
    - [Logging]: [internal/logging], and loggers as the program uses them: levels, attributes,
      and records appended to standard error.
    - [Geth]: go-ethereum as the class [Geth] of parameters with the laws [GethLaws], and the
      concrete instance [Toy] on which every definition runs.
    - [Events]: [internal/events]: the decoders of Transfer, Approval, ApprovalForAll, privilege
      and flash-loan logs. [EventsAbi]: the events with all their arguments, as the ABI encodes them.
    - [TxDecode]: [internal/txdecode]; [Simulate]: [internal/simulate].
    - [Flows], [FlashLoans], [Analysis]: [internal/analysis]: who sent and received what, repaid
      loans, and the walk of the call tree. [WellFormed]: what every analysis satisfies.
    - [ChainState]: [internal/chainstate]: contract age, its cache, balances. [FreshnessCache]: the
      same on a growing chain and with concurrent callers of the cache.
    - [Sanctions], [SanctionsList], [SanctionsCache]: [internal/sanctions]: the list file, the
      oracle, their combination, and the cache with its concurrent callers.
    - [Interference], [Shared]: a logic of rely and guarantee for requests that run beside others,
      what may happen to the shared world meanwhile, and what lookups answer in spite of it.
    - [Rules], [RulesSpec], [DeployCall]: [internal/rules]: the eight rules and their exact
      meaning.
    - [Risk]: [internal/risk]; [Screen]: [internal/screen]; [Proxy]: [internal/proxy].
    - [Pipeline], [Main]: [cmd/firewall]: wiring, configuration, startup and exit statuses.
    - [SharedRules], [Concurrent]: the rules and whole requests beside other requests.
      [Questions]: what the rules ask the node, and in which order.
    - [Timing], [Budget], [Response], [Progress]: how long lookups, rules, transactions and
      requests take, alone and beside others.

    ** How code corresponds to definitions

    Definitions keep the names of the Go functions; a method [T.M] is [T_M] or [M], the body of
    a loop is a separate [_step] function folded over the slice, and the locals a loop changes
    are a tuple or a record. Go interfaces are records of operations ([Checker],
    [StatusReader], [BalanceReader], [Simulator], [Rule], [Screener]); what an implementation
    promises to its clients is a class ([CheckerSpec], [StatusSpec], [FreshSpec], [BalanceSpec],
    [RuleSpec]) proved for the implementations and assumed by the clients' lemmas. A
    computation that may panic without talking to the outside is an [option]. Contexts are
    passed as the code passes them; a client that is called receives the deadline, and whether
    it respects it is a hypothesis ([Honours]) of the timing theorems only. Integers that the
    code keeps in an [int] or a [uint64] are wrapped explicitly; [big.Int] is [Z].

    The state of the program is the two caches and what it has logged, located in the world by
    lenses. A locked region is one step; [SanctionsCache.cache_step] and
    [FreshnessCache.fresh_step] interleave the regions of any number of callers, and the methods
    for one caller are proved to be runs of them. Whole requests interleave as well: a request
    may be preempted around every such region and while it waits for the node
    ([Concurrent.shared_screener]), [Shared.other_step] is one thing that may happen then, and
    [Interference.guar] says what a request achieves in spite of that and that it does nothing
    else to the shared world itself. With nobody else running, [shared_screener] is the screener
    that [cmd/firewall] wires ([shared_screener_alone]).

    ** What the theorems show

    - End to end ([Pipeline], [Proxy], [Main]): a request is forwarded exactly when every
      transaction in it was screened and passed, no listed address is touched by a forwarded
      transaction, the pipeline refines the eight reference rules with the oracle and without,
      the score cannot overflow, the log tells what was forwarded and with which verdicts, and the server only starts on a checked configuration.
    - Beside other requests ([Concurrent]): screening returns the verdict of the reference rules for
      answers each of which was true while it ran, no interleaving lets a listed address
      through, and requests can be each other's environment.
    - Time ([Timing], [Budget], [Response], [Progress]): over clients that honour their deadlines
      the handler decides every request, by an answer of its own or by handing it to the reverse
      proxy, within a bound linear in the number of its transactions and the size of their
      traces. Others delay that by as long as they keep the processor at its points of
      preemption; in a finite chain of requests nested in each other every one is decided. What
      the reverse proxy does then has no deadline in the program, and its time is a parameter.
    - Verdicts ([Risk], [Screen]): which findings block, that errors of a rule are errors of the
      verdict, and what each answer of the node leads to.
    - Rules ([RulesSpec], [DeployCall]): each rule reports exactly what its reference definition
      says, although it memoises lookups and skips work; a whole screening asks an exact
      sequence of questions ([Questions]).
    - Analysis ([Analysis], [WellFormed], [Flows], [FlashLoans], [EventsAbi]): only frames that take
      effect count, touched addresses are exact, every analysis is well-formed, flows are a
      conserving ledger, repaid loans are exact, and the decoders are total, unambiguous and
      inverse to the ABI encoding.
    - Data sources ([ChainState], [FreshnessCache], [Sanctions], [SanctionsList],
      [SanctionsCache]): ages, balances, list files and oracle answers are read exactly; the caches
      are transparent and bounded; under concurrency an answer about sanctions is never older
      than its time to live, and an answer about age was true during the lookup.
    - Messages ([JsonRpc], [JsonProofs]): decoding terminates on every body, requests are read as
      clients wrote them, and error responses are read back with their id, code and message; bytes
      that are not UTF-8 become U+FFFD, all else is unchanged.

    Each theorem of importance carries a number [C1], [C2], ...; theorems with hypotheses are
    applied to concrete data in the [...Examples] module of their file.

    ** What is not modelled

    The reverse proxy of the Go library (its [ServeHTTP] is the parameter of [Proxy.served]) and
    the HTTP server, whose [WriteTimeout] may end a connection before the bounds of [Response],
    how handlers render log records,
    [url.Parse], dialling, and go-ethereum itself, with the JSON form in which its RPC client
    sends call arguments and reads traces: they are parameters. The time the program spends
    computing is not counted, only the time it waits for others. Go's memory model is not
    modelled: regions under a mutex are taken to be atomic, and none of them waits for anything
    while it holds the mutex. The lines of the sources that no definition is mapped to are
    comments, imports, assertions that a type implements an interface, and the declarations of
    two types that stand for what they wrap (a string, a set of addresses). *)

From Stdlib Require Import ZArith Lia Eqdep_dec.
From Stdlib Require Export Strings.Byte.
From stdpp Require Export base tactics option numbers strings pretty gmap list.

#[export] Set Warnings "-clear-no-such-hyp".
#[export] Set Default Goal Selector "!".

(** ** Scope, hint databases and tactics *)

Declare Scope fw_scope.
Delimit Scope fw_scope with fw.

Create HintDb fw discriminated.
Create Rewrite HintDb fw_simpl.

(** [split_bool] turns the boolean tests of the translated Go conditions into propositions. *)
Ltac split_bool :=
  repeat match goal with
  | H : andb _ _ = true |- _ => apply andb_true_iff in H as [? ?]
  | H : orb _ _ = false |- _ => apply orb_false_iff in H as [? ?]
  | H : negb _ = true |- _ => apply negb_true_iff in H
  | H : negb _ = false |- _ => apply negb_false_iff in H
  | H : bool_decide _ = true |- _ => apply bool_decide_eq_true_1 in H
  | H : bool_decide _ = false |- _ => apply bool_decide_eq_false_1 in H
  | H : Z.ltb _ _ = true |- _ => apply Z.ltb_lt in H
  | H : Z.ltb _ _ = false |- _ => apply Z.ltb_ge in H
  | H : Z.leb _ _ = true |- _ => apply Z.leb_le in H
  | H : Z.leb _ _ = false |- _ => apply Z.leb_gt in H
  | H : Z.eqb _ _ = true |- _ => apply Z.eqb_eq in H
  | H : Z.eqb _ _ = false |- _ => apply Z.eqb_neq in H
  | H : Nat.eqb _ _ = true |- _ => apply Nat.eqb_eq in H
  | H : Nat.eqb _ _ = false |- _ => apply Nat.eqb_neq in H
  | H : Nat.ltb _ _ = true |- _ => apply Nat.ltb_lt in H
  | H : Nat.ltb _ _ = false |- _ => apply Nat.ltb_ge in H
  end.

(** [go_cases] follows every branch of the translated control flow. *)
Ltac go_cases :=
  repeat (case_match; split_bool; simplify_eq/=).

(** ** Fixed-size byte arrays: Go's [[n]byte] *)

#[global] Instance byte_eq_dec : EqDecision byte := Byte.byte_eq_dec.

#[global] Program Instance byte_countable : Countable byte :=
  inj_countable Byte.to_N Byte.of_N _.
Next Obligation. intros b. apply Byte.of_to_N. Qed.

Definition zero_byte : byte := x00.

(** [crop n l] keeps the last [n] bytes of [l] and pads with zeroes on the left. *)
Definition crop (n : nat) (l : list byte) : list byte :=
  replicate (n - length l) zero_byte ++ drop (length l - n) l.

Lemma length_crop n l : length (crop n l) = n.
Proof. unfold crop. rewrite length_app, length_replicate, length_drop. lia. Qed.

Lemma crop_id n l : length l = n → crop n l = l.
Proof.
  intros <-. unfold crop. rewrite !Nat.sub_diag. simpl. by rewrite drop_0.
Qed.

(** A byte array carries the proof that it has [n] bytes; the proof is a boolean
    equation, so it is unique and two arrays are equal when their bytes are. *)
Record bytes_n (n : nat) : Type := BytesN {
  bytes : list byte;
  bytes_len : Nat.eqb (length bytes) n = true
}.
Arguments BytesN {n} _ _.
Arguments bytes {n} _.
Arguments bytes_len {n} _.

Definition canon_true {b : bool} : b = true → b = true :=
  match b return b = true → b = true with
  | true => λ _, eq_refl
  | false => λ H, H
  end.

Lemma crop_eqb n l : Nat.eqb (length (crop n l)) n = true.
Proof. apply Nat.eqb_eq, length_crop. Qed.

(** The array whose value is [l], cropped or zero-padded on the left. *)
Definition to_bytes_n (n : nat) (l : list byte) : bytes_n n :=
  BytesN (crop n l) (canon_true (crop_eqb n l)).

Lemma bytes_inj {n} (a b : bytes_n n) : bytes a = bytes b → a = b.
Proof.
  destruct a as [la Ha], b as [lb Hb]; simpl; intros ->.
  f_equal. apply UIP_dec. decide equality.
Qed.

Lemma length_bytes {n} (a : bytes_n n) : length (bytes a) = n.
Proof. apply Nat.eqb_eq, bytes_len. Qed.

Lemma bytes_to_bytes_n n l : length l = n → bytes (to_bytes_n n l) = l.
Proof. apply crop_id. Qed.

Lemma to_bytes_n_bytes {n} (a : bytes_n n) : to_bytes_n n (bytes a) = a.
Proof. apply bytes_inj, crop_id, length_bytes. Qed.

#[global] Instance bytes_n_eq_dec n : EqDecision (bytes_n n).
Proof.
  refine (λ a b, cast_if (decide (bytes a = bytes b)));
    abstract (by auto using bytes_inj || congruence).
Defined.

#[global] Program Instance bytes_n_countable n : Countable (bytes_n n) :=
  inj_countable' bytes (to_bytes_n n) _.
Next Obligation. intros n a. apply to_bytes_n_bytes. Qed.

(** The zero value of the array type, Go's [T{}]. *)
Definition zero_bytes (n : nat) : bytes_n n := to_bytes_n n [].

#[global] Arguments crop : simpl never.
#[global] Arguments to_bytes_n : simpl never.

#[export] Hint Rewrite @length_bytes @to_bytes_n_bytes length_crop : fw_simpl.
#[export] Hint Resolve bytes_inj length_bytes : fw.

#[global] Arguments Nat.div : simpl never.
#[global] Arguments Nat.modulo : simpl never.

(** ** Big-endian values: [big.Int.SetBytes] *)

Definition byte_Z (b : byte) : Z := Z.of_N (Byte.to_N b).

Definition be_Z (l : list byte) : Z := foldl (λ acc b, (acc * 256 + byte_Z b)%Z) 0%Z l.

Lemma byte_Z_range b : (0 ≤ byte_Z b < 256)%Z.
Proof.
  unfold byte_Z. pose proof (Byte.to_N_bounded b). lia.
Qed.

Lemma be_Z_snoc l b : be_Z (l ++ [b]) = (be_Z l * 256 + byte_Z b)%Z.
Proof. unfold be_Z. by rewrite foldl_app. Qed.

Lemma be_Z_range l : (0 ≤ be_Z l < 256 ^ Z.of_nat (length l))%Z.
Proof.
  induction l as [|b l IH] using rev_ind; [done|].
  rewrite be_Z_snoc, length_app, Nat2Z.inj_add, Z.pow_add_r by lia.
  pose proof (byte_Z_range b). change (256 ^ Z.of_nat (length [b]))%Z with 256%Z. lia.
Qed.

Lemma byte_Z_inj b1 b2 : byte_Z b1 = byte_Z b2 → b1 = b2.
Proof.
  unfold byte_Z. intros H%N2Z.inj.
  pose proof (Byte.of_to_N b1) as H1. pose proof (Byte.of_to_N b2) as H2. congruence.
Qed.

Lemma be_Z_inj l1 l2 : length l1 = length l2 → be_Z l1 = be_Z l2 → l1 = l2.
Proof.
  revert l2. induction l1 as [|b1 l1 IH] using rev_ind; intros l2 Hlen Heq.
  - by destruct l2.
  - destruct l2 as [|b2 l2 _] using rev_ind; [rewrite length_app in Hlen; simpl in Hlen; lia|].
    rewrite !length_app in Hlen. rewrite !be_Z_snoc in Heq. simpl in Hlen.
    pose proof (byte_Z_range b1). pose proof (byte_Z_range b2).
    f_equal; [apply IH; lia | f_equal; apply byte_Z_inj; lia].
Qed.

(** The [n]-byte big-endian encoding of a number. *)
Fixpoint be_bytes (n : nat) (z : Z) : list byte :=
  match n with
  | O => []
  | S n => be_bytes n (z / 256) ++ [default x00 (Byte.of_N (Z.to_N (z mod 256)))]
  end.

Lemma length_be_bytes n z : length (be_bytes n z) = n.
Proof. revert z. induction n as [|n IH]; intros z; simpl; [done|]. rewrite length_app, IH. simpl. lia. Qed.

Lemma byte_Z_of_Z z : (0 ≤ z < 256)%Z → byte_Z (default x00 (Byte.of_N (Z.to_N z))) = z.
Proof.
  intros Hz. unfold byte_Z. destruct (Byte.of_N (Z.to_N z)) as [b|] eqn:Hb; simpl.
  - apply Byte.to_of_N in Hb. lia.
  - apply Byte.of_N_None_iff in Hb. lia.
Qed.

Lemma be_Z_be_bytes n z : (0 ≤ z < 256 ^ Z.of_nat n)%Z → be_Z (be_bytes n z) = z.
Proof.
  revert z. induction n as [|n IH]; intros z Hz.
  { change (256 ^ Z.of_nat 0)%Z with 1%Z in Hz. change (be_Z (be_bytes 0 z)) with 0%Z. lia. }
  cbn [be_bytes]. rewrite Nat2Z.inj_succ, Z.pow_succ_r in Hz by lia.
  pose proof (Z.mod_pos_bound z 256 ltac:(lia)). pose proof (Z.div_mod z 256 ltac:(lia)).
  rewrite be_Z_snoc, byte_Z_of_Z by lia. rewrite IH; [lia|].
  split; [apply Z.div_pos; lia|apply Z.div_lt_upper_bound; lia].
Qed.

#[global] Arguments be_bytes : simpl never.
#[global] Arguments be_Z : simpl never.

(** ** Machine integers *)

(** Go's [int] and [int64] wrap around in two's complement, [uint64] modulo 2^64. *)
Definition wrap_i64 (z : Z) : Z := ((z + 2 ^ 63) mod 2 ^ 64 - 2 ^ 63)%Z.
Definition wrap_u64 (z : Z) : Z := (z mod 2 ^ 64)%Z.

Lemma wrap_i64_id z : (- 2 ^ 63 ≤ z < 2 ^ 63)%Z → wrap_i64 z = z.
Proof. intros. unfold wrap_i64. rewrite Z.mod_small; lia. Qed.

Lemma wrap_u64_id z : (0 ≤ z < 2 ^ 64)%Z → wrap_u64 z = z.
Proof. apply Z.mod_small. Qed.

(** ** Lists *)

Definition list_sum_Z : list Z → Z := foldr Z.add 0%Z.

Lemma list_sum_Z_app l1 l2 : list_sum_Z (l1 ++ l2) = (list_sum_Z l1 + list_sum_Z l2)%Z.
Proof. induction l1 as [|x l1 IH]; simpl; lia. Qed.

Lemma list_sum_Z_nonneg l : Forall (λ x, 0 ≤ x)%Z l → (0 ≤ list_sum_Z l)%Z.
Proof. induction 1; simpl; lia. Qed.

(** [for _, x := range xs { s = f(s, x) }] where the body may panic. *)
Fixpoint foldO {A B} (f : B → A → option B) (xs : list A) (b : B) : option B :=
  match xs with
  | [] => Some b
  | x :: xs => b' ← f b x; foldO f xs b'
  end.

Lemma foldO_app {A B} (f : B → A → option B) xs ys b :
  foldO f (xs ++ ys) b = foldO f xs b ≫= foldO f ys.
Proof. revert b. induction xs as [|x xs IH]; intros b; simpl; [done|]. by destruct (f b x); simpl. Qed.

(** A loop whose body never panics on the elements it visits is a fold. *)
Lemma foldO_foldl {A B} (f : B → A → option B) (g : B → A → B) (Inv : B → Prop) xs b :
  Inv b → (∀ b x, x ∈ xs → Inv b → f b x = Some (g b x) ∧ Inv (g b x)) →
  foldO f xs b = Some (foldl g b xs) ∧ Inv (foldl g b xs).
Proof.
  revert b. induction xs as [|x xs IH]; intros b Hb Hstep; simpl; [done|].
  destruct (Hstep b x) as [-> Hx]; [set_solver|done|]. simpl. apply IH; [done|set_solver].
Qed.

(** [add_new] appends an element unless it is already listed. *)
Definition add_new {A} `{EqDecision A} (l : list A) (x : A) : list A :=
  if bool_decide (x ∈ l) then l else l ++ [x].

Lemma NoDup_add_new {A} `{EqDecision A} (l xs : list A) : NoDup l → NoDup (foldl add_new l xs).
Proof.
  revert l. induction xs as [|x xs IH]; intros l Hl; simpl; [done|]. apply IH.
  unfold add_new. case_bool_decide; [done|]. apply NoDup_app. split_and!; [done| |apply NoDup_singleton].
  set_solver.
Qed.

Lemma elem_of_add_new {A} `{EqDecision A} (l xs : list A) x :
  x ∈ foldl add_new l xs ↔ x ∈ l ∨ x ∈ xs.
Proof.
  revert l. induction xs as [|y xs IH]; intros l; simpl; [set_solver|]. rewrite IH.
  unfold add_new. case_bool_decide; set_solver.
Qed.


(** Loops that only append to a slice of their state, or add to its set-like slice. *)
Lemma foldl_appends {A B C} (step : B → A → B) (proj : B → list C) (g : A → list C) xs b :
  (∀ b x, proj (step b x) = proj b ++ g x) → proj (foldl step b xs) = proj b ++ (xs ≫= g).
Proof.
  intros Hstep. revert b. induction xs as [|x xs IH]; intros b; simpl; [by rewrite app_nil_r|].
  by rewrite IH, Hstep, app_assoc.
Qed.

Lemma foldl_adds {A B C} `{EqDecision C} (step : B → A → B) (proj : B → list C) (g : A → list C) xs b :
  (∀ b x, proj (step b x) = foldl add_new (proj b) (g x)) →
  proj (foldl step b xs) = foldl add_new (proj b) (xs ≫= g).
Proof.
  intros Hstep. revert b. induction xs as [|x xs IH]; intros b; [done|].
  cbn [foldl]. rewrite IH, Hstep. change ((x :: xs) ≫= g) with (g x ++ (xs ≫= g)). by rewrite foldl_app.
Qed.

Lemma foldl_preserves {A B C} (step : B → A → B) (proj : B → C) xs b :
  (∀ b x, proj (step b x) = proj b) → proj (foldl step b xs) = proj b.
Proof. intros Hstep. revert b. induction xs as [|x xs IH]; intros b; simpl; [done|]. by rewrite IH. Qed.

Lemma omap_bind {A B C} (f : B → option C) (g : A → list B) xs :
  omap f (xs ≫= g) = xs ≫= λ x, omap f (g x).
Proof.
  induction xs as [|x xs IH]; [done|]. change ((x :: xs) ≫= g) with (g x ++ (xs ≫= g)).
  by rewrite omap_app, IH.
Qed.

Lemma elem_of_option_list {A} (x : A) (o : option A) : x ∈ option_list o ↔ o = Some x.
Proof. destruct o; simpl; rewrite ?list_elem_of_singleton, ?elem_of_nil; naive_solver. Qed.

(** A loop that appends a description of the elements that pass a test. *)
Lemma bind_filter {A B} (P : A → Prop) `{∀ x, Decision (P x)} (d : A → B) xs :
  (xs ≫= λ x, if bool_decide (P x) then [d x] else []) = d <$> filter P xs.
Proof.
  induction xs as [|x xs IH]; [done|]. rewrite bind_cons, IH, filter_cons.
  case_bool_decide; case_decide; done.
Qed.

Lemma filter_ext_elem {A} (P Q : A → Prop) `{∀ x, Decision (P x)} `{∀ x, Decision (Q x)} (xs : list A) :
  (∀ x, x ∈ xs → P x ↔ Q x) → filter P xs = filter Q xs.
Proof.
  induction xs as [|x xs IH]; intros Hpq; [done|]. rewrite !filter_cons.
  rewrite IH by (intros y Hy; apply Hpq; by right). pose proof (Hpq x (list_elem_of_here x xs)).
  do 2 case_decide; tauto.
Qed.

Lemma bind_ext_elem {A B} (f g : A → list B) (xs : list A) : (∀ x, x ∈ xs → f x = g x) → xs ≫= f = xs ≫= g.
Proof.
  induction xs as [|x xs IH]; intros Hfg; [done|].
  rewrite !bind_cons, IH by (intros y Hy; apply Hfg; by right). by rewrite (Hfg x (list_elem_of_here x xs)).
Qed.

(** Answers about distinct elements are a function of the element. *)
Lemma Forall2_choose {A B C} `{EqDecision A} (P : A → B → Prop) (g : A → B → list C) (d : A → B) (xs : list A) (yss : list (list C)) :
  NoDup xs → (∀ x, P x (d x)) → Forall2 (λ x ys, ∃ b, P x b ∧ ys = g x b) xs yss →
  ∃ f, (∀ x, P x (f x)) ∧ concat yss = xs ≫= λ x, g x (f x).
Proof.
  intros Hnd Hd H. induction H as [|x ys xs yss (b & Hb & ->) _ IH]; [by exists d|].
  apply NoDup_cons in Hnd as [Hx Hnd]. destruct (IH Hnd) as (f & Hf & Heq).
  exists (λ y, if decide (y = x) then b else f y). split; [intros y; by case_decide as Hy; [rewrite Hy|]|].
  rewrite bind_cons, decide_True by done. cbn [concat]. f_equal. rewrite Heq. apply bind_ext_elem.
  intros y Hy. by rewrite decide_False by (by intros ->).
Qed.
