(* ===== verification/GoLib.v ===== *)
(** * What the program uses of the Go language and its standard library

    Errors and their chains ([errors], [fmt.Errorf]), the effect monad of the
    translated functions with its program logic, indexing and slicing with
    their run-time panics, and the pieces of [strings], [bytes] and [bufio]
    the parsers call. *)

From Stdlib Require Import ZArith Lia.
From Stdlib Require Strings.String.
From S2P Require Import Prelude.


(** ** Errors

    An error made by [errors.New] or [fmt.Errorf] without [%w] is [Errorf]: it keeps the
    format and its arguments instead of the rendered text, which nothing in the program
    reads. [fmt.Errorf] with [%w] is [Wrapf]. [RpcError] is an error of the go-ethereum
    RPC client that implements [rpc.Error]: the node answered with a JSON-RPC error.
    [NodeError] is [*simulate.NodeError]. *)
Inductive error : Type :=
| Errorf (format : string) (args : list string)
| Wrapf (format : string) (args : list string) (inner : error)
| RpcError (code : Z) (message : string)
| NodeError (message : string).

(** [errors.As(err, &rpcErr)] with an [rpc.Error] target. *)
Fixpoint as_rpc_error (e : error) : option (Z * string) :=
  match e with
  | RpcError c m => Some (c, m)
  | Wrapf _ _ e' => as_rpc_error e'
  | _ => None
  end.

(** [errors.As(err, &nodeErr)] with a [*simulate.NodeError] target. *)
Fixpoint as_node_error (e : error) : option string :=
  match e with
  | NodeError m => Some m
  | Wrapf _ _ e' => as_node_error e'
  | _ => None
  end.

(** A set of errors closed under [%w] wrapping. *)
Class WrapClosed (E : error → Prop) : Prop :=
  wrap_closed : ∀ fmt args e, E e → E (Wrapf fmt args e).

#[global] Instance wrap_closed_False : WrapClosed (λ _, False).
Proof. by intros ???. Qed.
#[global] Instance wrap_closed_True : WrapClosed (λ _, True).
Proof. by intros ???. Qed.
#[global] Instance wrap_closed_no_node : WrapClosed (λ e, as_node_error e = None).
Proof. by intros ???. Qed.

(** ** Effects

    A function with a [(T, error)] result that talks to a node, a clock or a cache is a
    computation over the state [W] of the outside world. It returns a value, returns an
    error, or panics. *)
Inductive outcome (A : Type) : Type :=
| Ok (a : A)
| Err (e : error)
| Panic.
Arguments Ok {A} _.
Arguments Err {A} _.
Arguments Panic {A}.

Definition M (W A : Type) : Type := W → outcome A * W.

#[global] Instance M_ret W : MRet (M W) := λ A a w, (Ok a, w).
#[global] Instance M_bind W : MBind (M W) := λ A B f m w,
  match m w with
  | (Ok a, w') => f a w'
  | (Err e, w') => (Err e, w')
  | (Panic, w') => (Panic, w')
  end.

Definition fail {W A} (e : error) : M W A := λ w, (Err e, w).
Definition panic {W A} : M W A := λ w, (Panic, w).

(** Code without effects that may panic is an [option], [None] being the panic. *)
Definition lift {W A} (o : option A) : M W A :=
  match o with Some a => mret a | None => panic end.

(** [if err != nil { return nil, fmt.Errorf("...: %w", err) }] *)
Definition wrap_err {W A} (fmt : string) (args : list string) (m : M W A) : M W A := λ w,
  match m w with
  | (Err e, w') => (Err (Wrapf fmt args e), w')
  | r => r
  end.

(** [x, err := m] where the caller inspects [err] itself. *)
Definition try_err {W A} (m : M W A) : M W (error + A) := λ w,
  match m w with
  | (Ok a, w') => (Ok (inr a), w')
  | (Err e, w') => (Ok (inl e), w')
  | (Panic, w') => (Panic, w')
  end.

(** [for _, x := range xs { s = f(s, x) }] *)
Fixpoint foldM {W A B} (f : B → A → M W B) (xs : list A) (b : B) : M W B :=
  match xs with
  | [] => mret b
  | x :: xs => b' ← f b x; foldM f xs b'
  end.

(** ** Program logic

    [triple I m Q E]: started in a world satisfying [I], [m] does not panic, re-establishes
    [I], and either returns a value in [Q] or an error in [E]. With [E] empty this is
    total correctness. *)
Definition triple {W A} (I : W → Prop) (m : M W A) (Q : A → Prop) (E : error → Prop) : Prop :=
  ∀ w, I w →
    match m w with
    | (Ok a, w') => I w' ∧ Q a
    | (Err e, w') => I w' ∧ E e
    | (Panic, _) => False
    end.

Section logic.
Context {W : Type} (I : W → Prop) (E : error → Prop).

Lemma triple_ret {A} (a : A) (Q : A → Prop) : Q a → triple I (mret a) Q E.
Proof. intros HQ w Hw. by split. Qed.

Lemma triple_fail {A} e (Q : A → Prop) : E e → triple I (fail e) Q E.
Proof. intros HE w Hw. by split. Qed.

Lemma triple_lift {A} (o : option A) (a : A) (Q : A → Prop) :
  o = Some a → Q a → triple I (lift o) Q E.
Proof. intros -> HQ. by apply triple_ret. Qed.

Lemma triple_bind {A B} (m : M W A) (f : A → M W B) (P : A → Prop) (Q : B → Prop) :
  triple I m P E → (∀ a, P a → triple I (f a) Q E) → triple I (m ≫= f) Q E.
Proof.
  intros Hm Hf w Hw. specialize (Hm w Hw). unfold mbind, M_bind.
  destruct (m w) as [[a|e|] w']; [|done..].
  destruct Hm as [HI HP]. by apply Hf.
Qed.

Lemma triple_conseq {A} (m : M W A) (P Q : A → Prop) (E' : error → Prop) :
  triple I m P E' → (∀ a, P a → Q a) → (∀ e, E' e → E e) → triple I m Q E.
Proof.
  intros Hm HQ HE w Hw. specialize (Hm w Hw).
  destruct (m w) as [[a|e|] w']; [destruct Hm; auto|destruct Hm; auto|done].
Qed.

Lemma triple_post {A} (m : M W A) (P Q : A → Prop) :
  triple I m P E → (∀ a, P a → Q a) → triple I m Q E.
Proof. intros Hm HQ. by apply (triple_conseq m P Q E). Qed.

Lemma triple_wrap {A} `{!WrapClosed E} fmt args (m : M W A) (Q : A → Prop) :
  triple I m Q E → triple I (wrap_err fmt args m) Q E.
Proof.
  intros Hm w Hw. specialize (Hm w Hw). unfold wrap_err.
  destruct (m w) as [[a|e|] w']; [done| |done].
  destruct Hm. split; [done|]. by apply wrap_closed.
Qed.

Lemma triple_try {A} (m : M W A) (Q : A → Prop) (P : error + A → Prop) (E' : error → Prop) :
  triple I m Q E' → (∀ e, E' e → P (inl e)) → (∀ a, Q a → P (inr a)) →
  triple I (try_err m) P E.
Proof.
  intros Hm He Ha w Hw. specialize (Hm w Hw). unfold try_err.
  destruct (m w) as [[a|e|] w']; [destruct Hm; auto|destruct Hm; auto|done].
Qed.

(** Loops: an invariant over the elements already visited. *)
Lemma triple_foldM {A B} (f : B → A → M W B) (xs : list A) (b : B) (J : list A → B → Prop) :
  J [] b →
  (∀ pre x post b', xs = pre ++ x :: post → J pre b' →
    triple I (f b' x) (J (pre ++ [x])) E) →
  triple I (foldM f xs b) (J xs) E.
Proof.
  intros HJ Hstep.
  assert (∀ post pre b', xs = pre ++ post → J pre b' →
    triple I (foldM f post b') (J xs) E) as Hgen; [|by apply (Hgen xs [])].
  induction post as [|x post IH]; intros pre b' -> Hb.
  - rewrite app_nil_r in *. by apply triple_ret.
  - simpl. eapply triple_bind; [by eapply Hstep|].
    intros b'' Hb''. apply (IH (pre ++ [x])); [by rewrite <-app_assoc|done].
Qed.

(** Loops whose body computes a known function of its state. *)
Lemma triple_foldM_foldl {A B} (f : B → A → M W B) (g : B → A → B) (Inv : B → Prop)
    (xs : list A) (b : B) :
  Inv b →
  (∀ x b', x ∈ xs → Inv b' → triple I (f b' x) (λ r, r = g b' x ∧ Inv r) E) →
  triple I (foldM f xs b) (λ r, r = foldl g b xs ∧ Inv r) E.
Proof.
  intros Hb Hstep.
  apply (triple_foldM f xs b (λ pre r, r = foldl g b pre ∧ Inv r)); [done|].
  intros pre x post b' -> [-> HI]. rewrite foldl_app. simpl.
  apply Hstep; [set_solver|done].
Qed.

(** Loops that append [g x] to a part of their state for every element. *)
Lemma triple_foldM_appends {A B C} (f : B → A → M W B) (proj : B → list C) (g : A → list C)
    (Inv : B → Prop) (xs : list A) (b : B) :
  Inv b →
  (∀ x b', x ∈ xs → Inv b' → triple I (f b' x) (λ r, proj r = proj b' ++ g x ∧ Inv r) E) →
  triple I (foldM f xs b) (λ r, proj r = proj b ++ (xs ≫= g) ∧ Inv r) E.
Proof.
  intros Hb Hstep.
  apply (triple_foldM f xs b (λ pre r, proj r = proj b ++ (pre ≫= g) ∧ Inv r)).
  { simpl. by rewrite app_nil_r. }
  intros pre x post b' -> [Hp HI].
  eapply triple_post; [apply Hstep; [set_solver|done]|].
  intros r [Hr HIr]. split; [|done]. rewrite Hr, Hp, bind_app, <-app_assoc. simpl. by rewrite app_nil_r.
Qed.

End logic.

#[export] Hint Resolve triple_ret triple_fail triple_wrap : fw.

(** What a triple says of a run that produced a value, or an error. *)
Lemma triple_run_ok {W A} (I : W → Prop) (m : M W A) Q E w a w' :
  triple I m Q E → I w → m w = (Ok a, w') → I w' ∧ Q a.
Proof. intros Hm Hw Hrun. specialize (Hm w Hw). by rewrite Hrun in Hm. Qed.

Lemma triple_total {W A} (I : W → Prop) (m : M W A) Q w :
  triple I m Q (λ _, False) → I w → ∃ a w', m w = (Ok a, w') ∧ I w' ∧ Q a.
Proof.
  intros Hm Hw. specialize (Hm w Hw).
  destruct (m w) as [[a|e|] w']; [by eauto|by destruct Hm|done].
Qed.

(** A pure [(T, error)] result. *)
Definition of_result {W A} (r : error + A) : M W A :=
  match r with inl e => fail e | inr a => mret a end.

(** Inversion of runs that produced a value. *)
Section inversion.
Context {W : Type}.

Lemma bind_ok {A B} (m : M W A) (f : A → M W B) w b w' :
  (m ≫= f) w = (Ok b, w') → ∃ a w1, m w = (Ok a, w1) ∧ f a w1 = (Ok b, w').
Proof. unfold mbind, M_bind. destruct (m w) as [[a|e|] w1]; [by eauto|done..]. Qed.

Lemma wrap_ok {A} fmt args (m : M W A) w a w' : wrap_err fmt args m w = (Ok a, w') → m w = (Ok a, w').
Proof. unfold wrap_err. by destruct (m w) as [[]]. Qed.

Lemma ret_ok {A} (a b : A) (w w' : W) : (mret a : M W A) w = (Ok b, w') → b = a ∧ w' = w.
Proof. by intros [= <- <-]. Qed.

Lemma of_result_ok {A} (r : error + A) (w : W) a w' : of_result r w = (Ok a, w') → r = inr a ∧ w' = w.
Proof. destruct r; [done|]. by intros [= <- <-]. Qed.

Lemma lift_ok {A} (o : option A) (w : W) a w' : lift o w = (Ok a, w') → o = Some a ∧ w' = w.
Proof. destruct o; [|done]. by intros [= <- <-]. Qed.

End inversion.

(** ** State components

    Each cache keeps its own table; [Lens W S] locates it in the world. *)
Class Lens (W S : Type) : Type := {
  view : W → S;
  update : S → W → W
}.

Class LensLaws {W S} (L : Lens W S) : Prop := {
  view_update : ∀ s w, view (update s w) = s;
  update_view : ∀ w, update (view w) w = w;
  update_update : ∀ s1 s2 w, update s1 (update s2 w) = update s1 w
}.

Definition get {W S} `{Lens W S} : M W S := λ w, (Ok (view w), w).
Definition put {W S} `{Lens W S} (s : S) : M W () := λ w, (Ok (), update s w).

(** A computation over a part of the world runs in the whole world. *)
Definition zoom {W S A} `{Lens W S} (m : M S A) : M W A := λ w,
  let '(r, s) := m (view w) in (r, update s w).

(** ** Slices *)

(** [xs[lo:hi]]; a bound outside the slice panics. *)
Definition slice {A} (lo hi : nat) (xs : list A) : option (list A) :=
  if bool_decide (lo ≤ hi ∧ hi ≤ length xs) then Some (take (hi - lo) (drop lo xs)) else None.

Lemma slice_Some {A} lo hi (xs : list A) :
  lo ≤ hi → hi ≤ length xs → slice lo hi xs = Some (take (hi - lo) (drop lo xs)).
Proof. intros. unfold slice. by rewrite bool_decide_eq_true_2. Qed.

Lemma length_slice {A} lo hi (xs ys : list A) :
  slice lo hi xs = Some ys → length ys = hi - lo.
Proof.
  unfold slice. case_bool_decide; [|done]. intros [= <-].
  rewrite length_take, length_drop. lia.
Qed.

(** ** Byte strings *)

Definition to_bytes (s : string) : list byte := Strings.String.list_byte_of_string s.
Definition of_bytes (l : list byte) : string := Strings.String.string_of_list_byte l.

#[global] Arguments to_bytes : simpl never.
#[global] Arguments of_bytes : simpl never.

Lemma of_to_bytes s : of_bytes (to_bytes s) = s.
Proof. apply Strings.String.string_of_list_byte_of_string. Qed.
Lemma to_of_bytes l : to_bytes (of_bytes l) = l.
Proof. apply Strings.String.list_byte_of_string_of_list_byte. Qed.

(** [strings.Join] *)
Definition Join (parts : list string) (sep : string) : string := Strings.String.concat sep parts.

(** [before, _, _ := strings.Cut(s, sep)] for a one-byte separator. *)
Fixpoint Cut_before (sep : byte) (s : list byte) : list byte :=
  match s with
  | [] => []
  | b :: s' => if bool_decide (b = sep) then [] else b :: Cut_before sep s'
  end.

(** [unicode.IsSpace] on UTF-8 encodings of one, two and three bytes: tab to carriage
    return and space; U+0085 and U+00A0; U+1680, U+2000 to U+200A, U+2028, U+2029,
    U+202F, U+205F and U+3000. *)
Definition is_space1 (b : byte) : bool :=
  match b with x09 | x0a | x0b | x0c | x0d | x20 => true | _ => false end.
Definition is_space2 (b1 b2 : byte) : bool :=
  match b1, b2 with xc2, x85 | xc2, xa0 => true | _, _ => false end.
Definition is_space3 (b1 b2 b3 : byte) : bool :=
  match b1, b2, b3 with
  | xe1, x9a, x80 | xe2, x81, x9f | xe3, x80, x80 => true
  | xe2, x80, (x80|x81|x82|x83|x84|x85|x86|x87|x88|x89|x8a|xa8|xa9|xaf) => true
  | _, _, _ => false
  end.

Fixpoint trim_left (s : list byte) : list byte :=
  match s with
  | [] => []
  | b1 :: s1 =>
    if is_space1 b1 then trim_left s1 else
    match s1 with
    | [] => s
    | b2 :: s2 =>
      if is_space2 b1 b2 then trim_left s2 else
      match s2 with
      | [] => s
      | b3 :: s3 => if is_space3 b1 b2 b3 then trim_left s3 else s
      end
    end
  end.

(** The same from the end, on the reversed string. *)
Fixpoint trim_left_rev (s : list byte) : list byte :=
  match s with
  | [] => []
  | b1 :: s1 =>
    if is_space1 b1 then trim_left_rev s1 else
    match s1 with
    | [] => s
    | b2 :: s2 =>
      if is_space2 b2 b1 then trim_left_rev s2 else
      match s2 with
      | [] => s
      | b3 :: s3 => if is_space3 b3 b2 b1 then trim_left_rev s3 else s
      end
    end
  end.

(** [strings.TrimSpace] and [bytes.TrimSpace] *)
Definition TrimSpace (s : list byte) : list byte :=
  reverse (trim_left_rev (reverse (trim_left s))).

Lemma trim_left_length n s : length s ≤ n → length (trim_left s) ≤ length s.
Proof.
  revert s. induction n as [|n IH]; intros [|b1 s1] Hn; cbn [length] in Hn; [done|lia|done|]. cbn [trim_left length].
  destruct (is_space1 b1); [pose proof (IH s1); lia|]. destruct s1 as [|b2 s2]; [done|]. cbn [length] in Hn |- *.
  destruct (is_space2 b1 b2); [pose proof (IH s2); lia|]. destruct s2 as [|b3 s3]; [done|]. cbn [length] in Hn |- *.
  destruct (is_space3 b1 b2 b3); [pose proof (IH s3); lia|done].
Qed.

Lemma trim_left_rev_length n s : length s ≤ n → length (trim_left_rev s) ≤ length s.
Proof.
  revert s. induction n as [|n IH]; intros [|b1 s1] Hn; cbn [length] in Hn; [done|lia|done|]. cbn [trim_left_rev length].
  destruct (is_space1 b1); [pose proof (IH s1); lia|]. destruct s1 as [|b2 s2]; [done|]. cbn [length] in Hn |- *.
  destruct (is_space2 b2 b1); [pose proof (IH s2); lia|]. destruct s2 as [|b3 s3]; [done|]. cbn [length] in Hn |- *.
  destruct (is_space3 b3 b2 b1); [pose proof (IH s3); lia|done].
Qed.

Lemma TrimSpace_length s : length (TrimSpace s) ≤ length s.
Proof.
  unfold TrimSpace. rewrite length_reverse. etrans; [by eapply trim_left_rev_length|].
  rewrite length_reverse. by eapply trim_left_length.
Qed.

(** ** [bufio.Scanner] over lines *)

(** [bufio.MaxScanTokenSize]: the scanner's buffer; a line must fit with room to spare. *)
Definition MaxScanTokenSize : N := 64 * 1024.

Definition drop_cr (line : list byte) : list byte :=
  match reverse line with
  | x0d :: rest => reverse rest
  | _ => line
  end.

Definition ErrTooLong : error := Errorf "bufio.Scanner: token too long" [].

(** The lines the scanner yields and the error [Err()] reports when it stops. [cur] is
    the current line in reverse and [n] its length; [rerr] is the error the underlying
    reader ends with, if it is not [io.EOF]. *)
Fixpoint scan_lines (max : N) (content cur : list byte) (n : N) (rerr : option error)
    : list (list byte) * option error :=
  match content with
  | [] => (if bool_decide (cur = []) then [] else [drop_cr (reverse cur)], rerr)
  | x0a :: rest =>
      let '(ls, err) := scan_lines max rest [] 0%N rerr in (drop_cr (reverse cur) :: ls, err)
  | b :: rest =>
      if N.leb max (N.succ n) then ([], Some ErrTooLong)
      else scan_lines max rest (b :: cur) (N.succ n) rerr
  end.

Definition Scanner (content : list byte) (rerr : option error) : list (list byte) * option error :=
  scan_lines MaxScanTokenSize content [] 0%N rerr.
