(* ===== verification/Deadline.v ===== *)
(** * Time: clocks, contexts and deadlines

    What the program uses of [time] and [context]. Times and durations are nanoseconds. The
    world has a clock, which moves while the program waits for others; a context carries the
    deadline that the calls made with it must respect. The second half is a logic of time
    credits over the computations of [GoLib]: [spends p m q] says that [m], paid [p]
    nanoseconds, never panics and gives [q a] of them back when it returns [a]. *)

From Stdlib Require Import ZArith Lia.
From S2P Require Import Prelude GoLib.

(** ** Clocks and contexts *)

Class Clock (W : Type) : Type := clock : W → Z.

Definition Second : Z := 1000000000.
Definition Minute : Z := 60 * Second.

(** [context.Context] by its deadline; a cancelled call is an error of the client. *)
Record Ctx := mkCtx { ctx_deadline : option Z }.

(** [context.Background()] *)
Definition Background : Ctx := mkCtx None.

(** [context.WithDeadline]: a child never outlives its parent. *)
Definition WithDeadline (ctx : Ctx) (t : Z) : Ctx :=
  mkCtx (Some match ctx_deadline ctx with Some d => Z.min d t | None => t end).

Section time.
Context {W : Type} `{!Clock W}.

(** [time.Now()] *)
Definition time_Now : M W Z := λ w, (Ok (clock w), w).

(** [context.WithTimeout(ctx, d)] *)
Definition WithTimeout (ctx : Ctx) (d : Z) : M W Ctx :=
  now ← time_Now; mret (WithDeadline ctx (now + d)).

Lemma triple_WithTimeout (I : W → Prop) E ctx d : triple I (WithTimeout ctx d) (λ _, True) E.
Proof. intros w Hw. by split. Qed.

End time.

#[export] Hint Resolve triple_WithTimeout : fw.

(** ** Time credits *)
Section credits.
Context {W : Type} `{!Clock W}.

(** Paid [p], [m] never panics, takes no more than [p] when it fails, and no more than [p - q a]
    when it returns [a]: [q a] is what it gives back. *)
Definition spends {A} (p : Z) (m : M W A) (q : A → Z) : Prop :=
  ∀ w, match m w with
       | (Ok a, w') => (clock w ≤ clock w' ≤ clock w + (p - q a))%Z
       | (Err _, w') => (clock w ≤ clock w' ≤ clock w + p)%Z
       | (Panic, _) => False
       end.

Lemma spends_ret {A} p (a : A) q : (q a ≤ p)%Z → spends p (mret a) q.
Proof. intros Hq w. simpl. lia. Qed.

Lemma spends_fail {A} p e (q : A → Z) : (0 ≤ p)%Z → spends p (fail e) q.
Proof. intros Hp w. simpl. lia. Qed.

Lemma spends_of_result {A} (r : error + A) : spends 0 (of_result r) (λ _, 0%Z).
Proof. destruct r; [by apply spends_fail|by apply spends_ret]. Qed.

Lemma spends_lift {A} p (o : option A) q : is_Some o → (∀ a, q a ≤ p)%Z → spends p (lift o) q.
Proof. intros [a ->] Hq. by apply spends_ret. Qed.

Lemma spends_bind {A B} p (m : M W A) (f : A → M W B) q r :
  spends p m q → (∀ a, spends (q a) (f a) r) → spends p (m ≫= f) r.
Proof.
  intros Hm Hf w. specialize (Hm w). unfold mbind, M_bind. destruct (m w) as [[a|e|] w1]; [|lia|done].
  specialize (Hf a w1). destruct (f a w1) as [[b|e|] w2]; [lia|lia|done].
Qed.

(** The same, knowing something of what [m] returns. *)
Lemma spends_bind_post {A B} p (m : M W A) (f : A → M W B) q r (P : A → Prop) :
  spends p m q → (∀ w a w', m w = (Ok a, w') → P a) → (∀ a, P a → spends (q a) (f a) r) → spends p (m ≫= f) r.
Proof.
  intros Hm HP Hf w. specialize (Hm w). unfold mbind, M_bind. destruct (m w) as [[a|e|] w1] eqn:Hrun; [|lia|done].
  specialize (Hf a (HP _ _ _ Hrun) w1). destruct (f a w1) as [[b|e|] w2]; [lia|lia|done].
Qed.

(** Paying more and asking for less back; the difference may be kept for later. *)
Lemma spends_conseq {A} p p' (m : M W A) q q' :
  spends p m q → (p ≤ p')%Z → (∀ a, q' a ≤ q a + (p' - p))%Z → spends p' m q'.
Proof.
  intros Hm Hp Hq w. specialize (Hm w). destruct (m w) as [[a|e|] w1]; [specialize (Hq a); lia|lia|done].
Qed.

Lemma spends_wrap {A} p fmt args (m : M W A) q : spends p m q → spends p (wrap_err fmt args m) q.
Proof. intros Hm w. specialize (Hm w). unfold wrap_err. by destruct (m w) as [[]]. Qed.

Lemma spends_try {A} p (m : M W A) q :
  spends p m q → spends p (try_err m) (λ r, match r with inl _ => 0%Z | inr a => q a end).
Proof.
  intros Hm w. specialize (Hm w). unfold try_err. destruct (m w) as [[a|e|] w1]; simpl; [lia|lia|done].
Qed.

(** Loops: [Phi] is what the rest of the loop will cost. *)
Lemma spends_foldM {A B} (f : B → A → M W B) (Phi : list A → B → Z) xs b q :
  (∀ b', q b' ≤ Phi [] b')%Z →
  (∀ x rest b', spends (Phi (x :: rest) b') (f b' x) (Phi rest)) →
  spends (Phi xs b) (foldM f xs b) q.
Proof.
  intros Hq Hstep. revert b. induction xs as [|x xs IH]; intros b; [by apply spends_ret|].
  eapply spends_bind; [apply Hstep|]. intros b'. apply IH.
Qed.

Lemma spends_now p : spends p time_Now (λ _, p).
Proof. intros w. simpl. lia. Qed.

(** Tables that are no part of the clock. *)
Class Timeless {S} (L : Lens W S) : Prop := timeless : ∀ s w, clock (update s w) = clock w.

Lemma spends_get {S} `{L : Lens W S} p : spends p get (λ _ : S, p).
Proof. intros w. simpl. lia. Qed.

Lemma spends_put {S} `{L : Lens W S} `{!Timeless L} p s : spends p (put s) (λ _, p).
Proof. intros w. simpl. rewrite timeless. lia. Qed.

(** What a bound says of a run. *)
Lemma spends_run {A} p (m : M W A) q w :
  spends p m q → (∀ a, 0 ≤ q a)%Z →
  (m w).1 ≠ Panic ∧ (clock w ≤ clock (m w).2 ≤ clock w + p)%Z.
Proof.
  intros Hm Hq. specialize (Hm w). destruct (m w) as [[a|e|] w1]; simpl; [|done|done].
  split; [done|]. specialize (Hq a). lia.
Qed.

End credits.

#[export] Hint Resolve spends_ret spends_fail spends_wrap : fw.

(** ** Deadlines

    A client that honours contexts returns at most [slack] after the deadline of the context it
    was called with. *)
Section deadlines.
Context {W : Type} `{!Clock W} (slack : Z).

Class Honours {A} (call : Ctx → M W A) : Prop :=
  honours : ∀ ctx w, match call ctx w with
    | (Panic, _) => False
    | (_, w') => (clock w ≤ clock w')%Z ∧
        ∀ t, ctx_deadline ctx = Some t → (clock w' ≤ Z.max (clock w) t + slack)%Z
    end.

(** [m] makes at most [n] such calls, all with deadlines of at most [t]. *)
Definition until {A} (t : Z) (n : nat) (m : M W A) : Prop :=
  ∀ w, match m w with
       | (Panic, _) => False
       | (_, w') => (clock w ≤ clock w' ≤ Z.max (clock w) t + Z.of_nat n * slack)%Z
       end.

(** The contexts a deadline of [t] gives. *)
Definition expires_by (t : Z) (ctx : Ctx) : Prop := ∃ d, ctx_deadline ctx = Some d ∧ (d ≤ t)%Z.

Lemma until_call {A} t (call : Ctx → M W A) ctx : Honours call → expires_by t ctx → until t 1 (call ctx).
Proof.
  intros Hc (d & Hd & Ht) w. specialize (Hc ctx w). destruct (call ctx w) as [[a|e|] w1]; [| |done];
    destruct Hc as [Hle Hdl]; specialize (Hdl d Hd); lia.
Qed.

Context (Hslack : (0 ≤ slack)%Z).

Lemma until_ret {A} t n (a : A) : until t n (mret a).
Proof using Hslack. intros w. simpl. pose proof (Z.mul_nonneg_nonneg (Z.of_nat n) slack). lia. Qed.

Lemma until_fail {A} t n e : until t n (fail e : M W A).
Proof using Hslack. intros w. simpl. pose proof (Z.mul_nonneg_nonneg (Z.of_nat n) slack). lia. Qed.

Lemma until_bind {A B} t n k (m : M W A) (f : A → M W B) :
  until t n m → (∀ a, until t k (f a)) → until t (n + k) (m ≫= f).
Proof using Hslack.
  intros Hm Hf w. specialize (Hm w). unfold mbind, M_bind. pose proof (Z.mul_nonneg_nonneg (Z.of_nat k) slack).
  pose proof (Z.mul_nonneg_nonneg (Z.of_nat n) slack). rewrite Nat2Z.inj_add, Z.mul_add_distr_r.
  destruct (m w) as [[a|e|] w1]; [|lia|done].
  specialize (Hf a w1). destruct (f a w1) as [[b|e|] w2]; [lia|lia|done].
Qed.

Lemma until_wrap {A} t n fmt args (m : M W A) : until t n m → until t n (wrap_err fmt args m).
Proof using Type. intros Hm w. specialize (Hm w). unfold wrap_err. by destruct (m w) as [[]]. Qed.

Lemma until_try {A} t n (m : M W A) : until t n m → until t n (try_err m).
Proof using Type. intros Hm w. specialize (Hm w). unfold try_err. by destruct (m w) as [[]]. Qed.

(** A block under [context.WithTimeout(ctx, d)] costs [d] and the slack of its calls. *)
Lemma spends_WithTimeout {A} ctx d n (f : Ctx → M W A) :
  (0 ≤ d)%Z → (∀ t c, expires_by t c → until t n (f c)) →
  spends (d + Z.of_nat n * slack) (c ← WithTimeout ctx d; f c) (λ _, 0%Z).
Proof using Type.
  intros Hd Hf w. unfold mbind, M_bind, WithTimeout, time_Now. simpl.
  assert (expires_by (clock w + d) (WithDeadline ctx (clock w + d))) as He.
  { unfold WithDeadline. destruct (ctx_deadline ctx) as [d'|]; eexists; simpl; split; [done|lia|done|lia]. }
  specialize (Hf _ _ He w). destruct (f _ w) as [[a|e|] w1]; [lia|lia|done].
Qed.

End deadlines.

(** Worlds in which time stands still, for examples. *)
Module StillTime.

#[export] Instance still_clock W : Clock W := λ _, 0%Z.

End StillTime.
