(* ===== verification/Json.v ===== *)
(** * [encoding/json], as the program uses it

    The decoder's grammar with the raw text of every value (for [json.RawMessage]), the
    decoding of string literals, and the encoding of strings and the compaction of raw
    messages in responses. A syntax error carries no position: nothing in the program reads
    it. *)

From Stdlib Require Import ZArith Lia.
From S2P Require Import Prelude GoLib.

(** ** Lexical elements *)

Definition byte_in (lo hi : Z) (b : byte) : bool := Z.leb lo (byte_Z b) && Z.leb (byte_Z b) hi.

Definition is_ws (b : byte) : bool :=
  match b with x20 | x09 | x0a | x0d => true | _ => false end.

Fixpoint skip_ws (s : list byte) : list byte :=
  match s with
  | b :: r => if is_ws b then skip_ws r else s
  | [] => []
  end.

Definition is_digit (b : byte) : bool := byte_in 48 57 b.

Definition hex_val (b : byte) : option Z :=
  let z := byte_Z b in
  if byte_in 48 57 b then Some (z - 48)%Z
  else if byte_in 97 102 b then Some (z - 87)%Z
  else if byte_in 65 70 b then Some (z - 55)%Z
  else None.

(** Four hexadecimal digits. *)
Definition u4 (h1 h2 h3 h4 : byte) : option Z :=
  a ← hex_val h1; b ← hex_val h2; c ← hex_val h3; d ← hex_val h4;
  Some (((a * 16 + b) * 16 + c) * 16 + d)%Z.

Definition simple_escape (e : byte) : option byte :=
  match e with
  | x22 => Some x22 | x5c => Some x5c | x2f => Some x2f
  | x62 => Some x08 | x66 => Some x0c | x6e => Some x0a | x72 => Some x0d | x74 => Some x09
  | _ => None
  end.

(** The text of a string literal after its opening quote, up to the closing one, and what
    follows it. *)
Fixpoint scan_string (s : list byte) : option (list byte * list byte) :=
  match s with
  | [] => None
  | b :: r =>
      if bool_decide (b = x22) then Some ([], r)
      else if bool_decide (b = x5c) then
        match r with
        | [] => None
        | e :: r1 =>
            if bool_decide (e = x75) then
              match r1 with
              | h1 :: h2 :: h3 :: h4 :: r2 =>
                  _ ← u4 h1 h2 h3 h4;
                  '(c, r') ← scan_string r2; Some (x5c :: x75 :: h1 :: h2 :: h3 :: h4 :: c, r')
              | _ => None
              end
            else _ ← simple_escape e; '(c, r') ← scan_string r1; Some (x5c :: e :: c, r')
        end
      else if byte_in 0 31 b then None
      else '(c, r') ← scan_string r; Some (b :: c, r')
  end.

(** [utf8.AppendRune] *)
Definition byte_of (z : Z) : byte := default x00 (Byte.of_N (Z.to_N z)).

Definition encode_rune (r : Z) : list byte :=
  if Z.leb r 127 then [byte_of r]
  else if Z.leb r 2047 then [byte_of (192 + r / 64); byte_of (128 + r mod 64)]
  else if Z.leb r 65535
  then [byte_of (224 + r / 4096); byte_of (128 + (r / 64) mod 64); byte_of (128 + r mod 64)]
  else [byte_of (240 + r / 262144); byte_of (128 + (r / 4096) mod 64);
        byte_of (128 + (r / 64) mod 64); byte_of (128 + r mod 64)].

(** U+FFFD *)
Definition replacement : list byte := [xef; xbf; xbd].

(** The length of a valid encoding of a non-ASCII rune, or 0. *)
Definition rune_len (b1 : byte) (r : list byte) : nat :=
  match r with
  | b2 :: r2 =>
      if byte_in 194 223 b1 && byte_in 128 191 b2 then 2 else
      match r2 with
      | b3 :: r3 =>
          if byte_in 128 191 b3 &&
             ((bool_decide (b1 = xe0) && byte_in 160 191 b2) || (bool_decide (b1 = xed) && byte_in 128 159 b2) ||
              ((byte_in 225 236 b1 || byte_in 238 239 b1) && byte_in 128 191 b2)) then 3 else
          match r3 with
          | b4 :: _ =>
              if byte_in 128 191 b3 && byte_in 128 191 b4 &&
                 ((bool_decide (b1 = xf0) && byte_in 144 191 b2) || (bool_decide (b1 = xf4) && byte_in 128 143 b2) ||
                  (byte_in 241 243 b1 && byte_in 128 191 b2)) then 4 else 0
          | [] => 0
          end
      | [] => 0
      end
  | [] => 0
  end.

(** [utf16.DecodeRune] of a surrogate pair. *)
Definition surrogate_pair (hi lo : Z) : option Z :=
  if Z.leb 55296 hi && Z.ltb hi 56320 && Z.leb 56320 lo && Z.ltb lo 57344
  then Some ((hi - 55296) * 1024 + (lo - 56320) + 65536)%Z else None.

Definition is_surrogate (r : Z) : bool := Z.leb 55296 r && Z.ltb r 57344.

(** [getu4]: the code unit of a unicode escape at the start of [s]. *)
Definition getu4 (s : list byte) : option Z :=
  match s with
  | b :: e :: r =>
      if bool_decide (b = x5c) && bool_decide (e = x75)
      then match r with h1 :: h2 :: h3 :: h4 :: _ => u4 h1 h2 h3 h4 | _ => None end
      else None
  | _ => None
  end.

(** [unquote]: the value of a literal. [copy] counts the bytes of the current rune that are
    still to be copied, [skip] those of an escape that are still to be skipped. *)
Fixpoint unquote (copy skip : nat) (s : list byte) : list byte :=
  match s with
  | [] => []
  | b :: r =>
      match copy, skip with
      | S copy, _ => b :: unquote copy 0 r
      | O, S skip => unquote 0 skip r
      | O, O =>
          if bool_decide (b = x5c) then
            match getu4 s with
            | Some rr =>
                if is_surrogate rr then
                  match getu4 (drop 6 s) ≫= surrogate_pair rr with
                  | Some dec => encode_rune dec ++ unquote 0 11 r
                  | None => replacement ++ unquote 0 5 r
                  end
                else encode_rune rr ++ unquote 0 5 r
            | None =>
                match r with
                | e :: _ => match simple_escape e with Some c => c :: unquote 0 1 r | None => [] end
                | [] => []
                end
            end
          else if byte_in 0 127 b then b :: unquote 0 0 r
          else match rune_len b r with
               | O => replacement ++ unquote 0 0 r
               | S n => b :: unquote n 0 r
               end
      end
  end.

Definition unquote_string (s : list byte) : list byte := unquote 0 0 s.

Fixpoint skip_digits (s : list byte) : list byte :=
  match s with
  | b :: r => if is_digit b then skip_digits r else s
  | [] => []
  end.

Definition scan_digits1 (s : list byte) : option (list byte) :=
  match s with
  | b :: r => if is_digit b then Some (skip_digits r) else None
  | [] => None
  end.

Definition scan_exponent (s : list byte) : option (list byte) :=
  match s with
  | (x65 | x45) :: r =>
      match r with
      | (x2b | x2d) :: r' => scan_digits1 r'
      | _ => scan_digits1 r
      end
  | _ => Some s
  end.

Definition scan_fraction (s : list byte) : option (list byte) :=
  match s with
  | x2e :: r => scan_digits1 r
  | _ => Some s
  end.

Definition scan_sign (s : list byte) : list byte :=
  match s with
  | x2d :: r => r
  | _ => s
  end.

Definition scan_int (s : list byte) : option (list byte) :=
  match s with
  | x30 :: r => Some r
  | _ => scan_digits1 s
  end.

(** What follows a number literal. *)
Definition scan_number (s : list byte) : option (list byte) :=
  r ← scan_int (scan_sign s); r ← scan_fraction r; scan_exponent r.

(** ** Values *)

(** A value with its text in the input, which is what a [json.RawMessage] receives. *)
#[warnings="-register-all"] Inductive jvalue : Type :=
| JNull (raw : list byte)
| JBool (raw : list byte)
| JNumber (raw : list byte)
| JString (raw : list byte) (s : list byte)
| JArray (raw : list byte) (vs : list jvalue)
| JObject (raw : list byte) (ms : list (list byte * jvalue)).

Definition raw_of (v : jvalue) : list byte :=
  match v with
  | JNull r | JBool r | JNumber r | JString r _ | JArray r _ | JObject r _ => r
  end.

(** [s] up to its suffix [rest]. *)
Definition consumed (s rest : list byte) : list byte := take (length s - length rest) s.

(** [maxNestingDepth] *)
Definition maxNestingDepth : N := 10000.

(** What a value starts with, and what follows that. *)
Inductive lead : Type :=
| LNull (r : list byte)
| LBool (r : list byte)
| LString (r : list byte)
| LArray (r : list byte)
| LObject (r : list byte)
| LOther.

Definition lead_of (s : list byte) : lead :=
  match s with
  | x6e :: x75 :: x6c :: x6c :: r => LNull r
  | x74 :: x72 :: x75 :: x65 :: r => LBool r
  | x66 :: x61 :: x6c :: x73 :: x65 :: r => LBool r
  | x22 :: r => LString r
  | x5b :: r => LArray r
  | x7b :: r => LObject r
  | _ => LOther
  end.

(** The separator after an element: a comma, the closing bracket, or neither. *)
Inductive separator : Type :=
| SComma (r : list byte)
| SClose (r : list byte)
| SOther.

Definition sep_of (close : byte) (s : list byte) : separator :=
  match s with
  | b :: r => if bool_decide (b = x2c) then SComma r else if bool_decide (b = close) then SClose r else SOther
  | [] => SOther
  end.

Definition expect (b : byte) (s : list byte) : option (list byte) :=
  match s with
  | c :: r => if bool_decide (c = b) then Some r else None
  | [] => None
  end.

(** The grammar. [depth] is how much deeper values may nest; [fuel] bounds the recursion. *)
Fixpoint parse_value (fuel : nat) (depth : N) (s : list byte) : option (jvalue * list byte) :=
  match fuel with
  | O => None
  | S fuel =>
      match lead_of s with
      | LNull r => Some (JNull (consumed s r), r)
      | LBool r => Some (JBool (consumed s r), r)
      | LString r => '(c, r') ← scan_string r; Some (JString (consumed s r') (unquote_string c), r')
      | LArray r =>
          if N.eqb depth 0 then None else
          match sep_of x5d (skip_ws r) with
          | SClose r' => Some (JArray (consumed s r') [], r')
          | _ => '(vs, r') ← parse_elements fuel (N.pred depth) (skip_ws r); Some (JArray (consumed s r') vs, r')
          end
      | LObject r =>
          if N.eqb depth 0 then None else
          match sep_of x7d (skip_ws r) with
          | SClose r' => Some (JObject (consumed s r') [], r')
          | _ => '(ms, r') ← parse_members fuel (N.pred depth) (skip_ws r); Some (JObject (consumed s r') ms, r')
          end
      | LOther => r ← scan_number s; Some (JNumber (consumed s r), r)
      end
  end
with parse_elements (fuel : nat) (depth : N) (s : list byte) : option (list jvalue * list byte) :=
  match fuel with
  | O => None
  | S fuel =>
      '(v, r) ← parse_value fuel depth s;
      match sep_of x5d (skip_ws r) with
      | SComma r' => '(vs, r2) ← parse_elements fuel depth (skip_ws r'); Some (v :: vs, r2)
      | SClose r' => Some ([v], r')
      | SOther => None
      end
  end
with parse_members (fuel : nat) (depth : N) (s : list byte) : option (list (list byte * jvalue) * list byte) :=
  match fuel with
  | O => None
  | S fuel =>
      r ← expect x22 s;
      '(k, r1) ← scan_string r;
      r2 ← expect x3a (skip_ws r1);
      '(v, r3) ← parse_value fuel depth (skip_ws r2);
      match sep_of x7d (skip_ws r3) with
      | SComma r4 => '(ms, r5) ← parse_members fuel depth (skip_ws r4); Some ((unquote_string k, v) :: ms, r5)
      | SClose r4 => Some ([(unquote_string k, v)], r4)
      | SOther => None
      end
  end.

Definition parse_fuel (s : list byte) : nat := 2 * length s + 2.

(** A complete document: one value, surrounded by white space. *)
Definition parse_json (s : list byte) : option jvalue :=
  let s := skip_ws s in
  '(v, r) ← parse_value (parse_fuel s) maxNestingDepth s;
  if bool_decide (skip_ws r = []) then Some v else None.

Definition syntax_error : error := Errorf "invalid JSON" [].
Definition type_error (expected : string) : error := Errorf "json: cannot unmarshal value into Go value of type %s" [expected].

(** ** Unmarshalling *)

(** The new value of a string variable; null leaves it unchanged. *)
Definition string_field (old : list byte) (v : jvalue) : error + list byte :=
  match v with
  | JString _ s => inr s
  | JNull _ => inr old
  | _ => inl (type_error "string")
  end.

Fixpoint unmarshal_all {A} (f : jvalue → error + A) (vs : list jvalue) : error + list A :=
  match vs with
  | [] => inr []
  | v :: vs =>
      match f v, unmarshal_all f vs with
      | inr a, inr l => inr (a :: l)
      | inl e, _ => inl e
      | _, inl e => inl e
      end
  end.

(** [json.Unmarshal] into a nil slice; null leaves it nil. *)
Definition unmarshal_slice {A} (f : jvalue → error + A) (v : jvalue) : error + list A :=
  match v with
  | JArray _ vs => unmarshal_all f vs
  | JNull _ => inr []
  | _ => inl (type_error "slice")
  end.

Definition Unmarshal {A} (f : jvalue → error + A) (data : list byte) : error + A :=
  match parse_json data with
  | None => inl syntax_error
  | Some v => f v
  end.

(** ** Encoding *)

Definition hex_digit (z : Z) : byte := if Z.ltb z 10 then byte_of (48 + z) else byte_of (87 + z).

(** The escape of an ASCII byte in an encoded string, with HTML escaping. *)
Definition encode_ascii (b : byte) : list byte :=
  match b with
  | x22 => [x5c; x22] | x5c => [x5c; x5c]
  | x08 => [x5c; x62] | x0c => [x5c; x66] | x0a => [x5c; x6e] | x0d => [x5c; x72] | x09 => [x5c; x74]
  | x3c | x3e | x26 => [x5c; x75; x30; x30; hex_digit (byte_Z b / 16); hex_digit (byte_Z b mod 16)]
  | _ => if byte_in 0 31 b
         then [x5c; x75; x30; x30; hex_digit (byte_Z b / 16); hex_digit (byte_Z b mod 16)] else [b]
  end.

(** The body of an encoded string: invalid UTF-8 becomes U+FFFD, and U+2028 and U+2029 are
    escaped. *)
Fixpoint encode_string_body (skip : nat) (s : list byte) : list byte :=
  match s with
  | [] => []
  | b :: r =>
      match skip with
      | S skip => b :: encode_string_body skip r
      | O =>
          match s with
          | xe2 :: x80 :: xa8 :: r' => to_bytes "\u2028" ++ encode_string_body 0 r'
          | xe2 :: x80 :: xa9 :: r' => to_bytes "\u2029" ++ encode_string_body 0 r'
          | _ =>
              if byte_in 0 127 b then encode_ascii b ++ encode_string_body 0 r
              else match rune_len b r with
                   | O => to_bytes "\ufffd" ++ encode_string_body 0 r
                   | S n => b :: encode_string_body n r
                   end
          end
      end
  end.

Definition encode_string (s : list byte) : list byte := x22 :: encode_string_body 0 s ++ [x22].

(** [json.Compact] with HTML escaping, on the text of a valid value: white space outside
    strings is dropped. [instr] is set inside a string, [esc] after a backslash in it. *)
Fixpoint compact (instr esc : bool) (s : list byte) : list byte :=
  match s with
  | [] => []
  | (x3c | x3e | x26) as b :: r =>
      [x5c; x75; x30; x30; hex_digit (byte_Z b / 16); hex_digit (byte_Z b mod 16)] ++ compact instr false r
  | xe2 :: x80 :: xa8 :: r => to_bytes "\u2028" ++ compact instr false r
  | xe2 :: x80 :: xa9 :: r => to_bytes "\u2029" ++ compact instr false r
  | b :: r =>
      if instr then
        b :: (if esc then compact true false r
              else match b with
                   | x5c => compact true true r
                   | x22 => compact false false r
                   | _ => compact true false r
                   end)
      else if is_ws b then compact false false r
      else b :: compact (bool_decide (b = x22)) false r
  end.
