(* ===== verification/Utf8.v ===== *)
(** * Strings: UTF-8, and its encoding in JSON

    The proxy writes messages as JSON strings and reads what clients wrote. A text is a sequence of
    chunks: ASCII bytes, longer runes, and bytes that are not UTF-8; the encoder of [Json] escapes
    some of them, and the scanner, the decoder and the compaction treat the result chunk by
    chunk. Decoding what was encoded gives the text with U+FFFD for every byte that is not
    UTF-8 ([to_valid]), so it gives back every valid text. *)

From Stdlib Require Import ZArith Lia.
From S2P Require Import Prelude GoLib Json.

(** ** Valid texts *)

(** [utf8.Valid]; [skip] counts the bytes of the current rune. *)
Fixpoint valid_utf8 (skip : nat) (s : list byte) : bool :=
  match s with
  | [] => Nat.eqb skip 0
  | b :: r =>
      match skip with
      | S skip => valid_utf8 skip r
      | O => if byte_in 0 127 b then valid_utf8 0 r
             else match rune_len b r with O => false | S n => valid_utf8 n r end
      end
  end.

Definition utf8 (s : list byte) : Prop := valid_utf8 0 s = true.

(** The bytes [b :: r] of a rune that is not ASCII. *)
Definition rune (b : byte) (r : list byte) : Prop := byte_in 0 127 b = false ∧ rune_len b r = S (length r).

(** Every byte that is not part of a valid rune becomes U+FFFD; [copy] counts the bytes of the
    current rune. *)
Fixpoint to_valid (copy : nat) (s : list byte) : list byte :=
  match s with
  | [] => []
  | b :: r =>
      match copy with
      | S copy => b :: to_valid copy r
      | O => if byte_in 0 127 b then b :: to_valid 0 r
             else match rune_len b r with O => replacement ++ to_valid 0 r | S n => b :: to_valid n r end
      end
  end.

Definition ToValid (s : list byte) : list byte := to_valid 0 s.

Inductive chunks : list byte → Prop :=
| chunks_nil : chunks []
| chunks_ascii b s : byte_in 0 127 b = true → chunks s → chunks (b :: s)
| chunks_rune b r s : rune b r → chunks s → chunks (b :: r ++ s)
| chunks_bad b s : byte_in 0 127 b = false → rune_len b s = 0 → chunks s → chunks (b :: s).

Lemma byte_in_iff lo hi b : byte_in lo hi b = true ↔ (lo ≤ byte_Z b ≤ hi)%Z.
Proof. unfold byte_in. rewrite andb_true_iff, !Z.leb_le. done. Qed.

(** Where the bytes of a rune lie, by its length. *)
Definition rune_shape (b : byte) (r : list byte) (n : nat) : Prop :=
  match r, n with
  | x :: _, 1 => (194 ≤ byte_Z b ≤ 223)%Z ∧ (128 ≤ byte_Z x ≤ 191)%Z
  | x :: y :: _, 2 => (224 ≤ byte_Z b ≤ 239)%Z ∧ (128 ≤ byte_Z x ≤ 191)%Z ∧ (128 ≤ byte_Z y ≤ 191)%Z
  | x :: y :: z :: _, 3 =>
      (240 ≤ byte_Z b ≤ 244)%Z ∧ (128 ≤ byte_Z x ≤ 191)%Z ∧ (128 ≤ byte_Z y ≤ 191)%Z ∧ (128 ≤ byte_Z z ≤ 191)%Z
  | _, _ => False
  end.

Lemma rune_len_shape b r n : rune_len b r = S n → rune_shape b r n.
Proof.
  destruct r as [|x [|y [|z r]]]; cbn [rune_len]; [done|..]; intros Hlen; repeat case_match; simplify_eq;
    repeat match goal with
    | H : _ && _ = true |- _ => apply andb_true_iff in H as [? ?]
    | H : _ || _ = true |- _ => apply orb_true_iff in H as [H|H]
    | H : byte_in _ _ _ = true |- _ => apply byte_in_iff in H
    | H : bool_decide (b = _) = true |- _ => apply bool_decide_eq_true_1 in H; subst b
    end; cbn [rune_shape]; change (byte_Z xe0) with 224%Z in *; change (byte_Z xed) with 237%Z in *;
    change (byte_Z xf0) with 240%Z in *; change (byte_Z xf4) with 244%Z in *; lia.
Qed.

(** What follows a rune does not matter. *)
Lemma rune_len_app b r s : rune_len b r = S (length r) → rune_len b (r ++ s) = S (length r).
Proof.
  destruct r as [|x [|y [|z [|u r]]]]; intros H; pose proof (rune_len_shape _ _ _ H) as Hs; cbn [length rune_shape] in Hs; try done;
    cbn [rune_len app length] in *; repeat (case_match; try done).
Qed.

(** A rune is read as one chunk. *)
Lemma rune_split b s n : rune_len b s = S n → ∃ r rest, s = r ++ rest ∧ length r = n ∧ rune_len b r = S n.
Proof.
  intros H. pose proof (rune_len_shape _ _ _ H) as Hs.
  destruct s as [|x [|y [|z s]]], n as [|[|[|[|n]]]]; cbn [rune_shape] in Hs; try done.
  all: let read l := (exists l; eexists; split; [reflexivity|split; [reflexivity|]]) in
    first [read [x]|read [x; y]|read [x; y; z]].
  all: cbn [rune_len] in *; repeat case_match; try done.
Qed.

Lemma text_chunks s : chunks s.
Proof.
  remember (length s) as n eqn:Hn. revert s Hn. induction (lt_wf n) as [n _ IH]. intros s ->.
  destruct s as [|b s]; [constructor|]. destruct (byte_in 0 127 b) eqn:Hb.
  { apply chunks_ascii; [done|]. by apply (IH (length s)); [simpl; lia|]. }
  destruct (rune_len b s) as [|n] eqn:Hlen.
  { apply chunks_bad; [done..|]. by apply (IH (length s)); [simpl; lia|]. }
  destruct (rune_split _ _ _ Hlen) as (r & rest & -> & Hr & Hrune). apply chunks_rune; [split; [done|congruence]|].
  apply (IH (length rest)); [|done]. simpl. rewrite length_app. lia.
Qed.

(** ** Replacing what is not UTF-8 *)

Lemma to_valid_copy r s : to_valid (length r) (r ++ s) = r ++ to_valid 0 s.
Proof. induction r as [|x r IH]; [done|]. cbn [length app to_valid]. by rewrite IH. Qed.

Lemma to_valid_ascii b s : byte_in 0 127 b = true → to_valid 0 (b :: s) = b :: to_valid 0 s.
Proof. intros Hb. cbn [to_valid]. by rewrite Hb. Qed.

Lemma to_valid_rune b r s : rune b r → to_valid 0 (b :: r ++ s) = b :: r ++ to_valid 0 s.
Proof. intros [Hb Hlen]. cbn [to_valid]. by rewrite Hb, rune_len_app, to_valid_copy. Qed.

Lemma to_valid_bad b s : byte_in 0 127 b = false → rune_len b s = 0 → to_valid 0 (b :: s) = replacement ++ to_valid 0 s.
Proof. intros Hb Hlen. cbn [to_valid]. by rewrite Hb, Hlen. Qed.

Lemma valid_copy r s : valid_utf8 (length r) (r ++ s) = valid_utf8 0 s.
Proof. by induction r. Qed.

Lemma valid_rune b r s : rune b r → valid_utf8 0 (b :: r ++ s) = valid_utf8 0 s.
Proof. intros [Hb Hlen]. cbn [valid_utf8]. by rewrite Hb, rune_len_app, valid_copy. Qed.

Lemma ToValid_utf8 s : utf8 (ToValid s).
Proof.
  unfold utf8, ToValid. induction (text_chunks s) as [|b s Hb _ IH|b r s Hr _ IH|b s Hb Hlen _ IH]; [done|..].
  - rewrite to_valid_ascii by done. cbn [valid_utf8]. by rewrite Hb.
  - by rewrite to_valid_rune, valid_rune.
  - by rewrite to_valid_bad.
Qed.

Lemma ToValid_id s : utf8 s → ToValid s = s.
Proof.
  unfold utf8, ToValid. induction (text_chunks s) as [|b s Hb _ IH|b r s Hr _ IH|b s Hb Hlen _ IH]; intros Hs; [done|..].
  - rewrite to_valid_ascii by done. cbn [valid_utf8] in Hs. rewrite Hb in Hs. by rewrite IH.
  - rewrite valid_rune in Hs by done. by rewrite to_valid_rune, IH.
  - cbn [valid_utf8] in Hs. by rewrite Hb, Hlen in Hs.
Qed.

Lemma rune_bytes b r : rune b r → Forall (λ x, 128 ≤ byte_Z x)%Z (b :: r) ∧ Forall (λ x, byte_Z x ≤ 191)%Z r.
Proof.
  intros [_ Hlen]. pose proof (rune_len_shape _ _ _ Hlen) as Hs.
  destruct r as [|x [|y [|z [|u r]]]]; cbn [rune_shape length] in Hs; try done; repeat constructor; lia.
Qed.

(** ** The encoding of a chunk *)

Lemma scan_encode_ascii b rest :
  byte_in 0 127 b = true →
  scan_string (encode_ascii b ++ rest) = '(c, r) ← scan_string rest; Some (encode_ascii b ++ c, r).
Proof.
  destruct b; try (intros H; vm_compute in H; discriminate H); intros _; reflexivity.
Qed.

Lemma unquote_encode_ascii b rest :
  byte_in 0 127 b = true → unquote 0 0 (encode_ascii b ++ rest) = b :: unquote 0 0 rest.
Proof.
  destruct b; try (intros H; vm_compute in H; discriminate H); intros _; reflexivity.
Qed.

Lemma compact_encode_ascii b rest :
  byte_in 0 127 b = true → compact true false (encode_ascii b ++ rest) = encode_ascii b ++ compact true false rest.
Proof. intros H. destruct b; try (vm_compute in H; discriminate H); reflexivity. Qed.

Lemma encode_body_cons b s :
  byte_in 0 127 b = true → encode_string_body 0 (b :: s) = encode_ascii b ++ encode_string_body 0 s.
Proof.
  destruct b; try (intros H; vm_compute in H; discriminate H); intros _; reflexivity.
Qed.

(** U+2028 and U+2029 are escaped, other runes are copied. *)
Definition encode_long (b : byte) (r : list byte) : list byte :=
  if bool_decide (b :: r = [xe2; x80; xa8]) then to_bytes "\u2028"
  else if bool_decide (b :: r = [xe2; x80; xa9]) then to_bytes "\u2029" else b :: r.

Lemma encode_skip r s : encode_string_body (length r) (r ++ s) = r ++ encode_string_body 0 s.
Proof. induction r as [|x r IH]; [done|]. cbn [length app encode_string_body]. by rewrite IH. Qed.

(** Where the matches on the separators fall through. *)
Definition separator_at (b : byte) (t : list byte) : bool :=
  match b, t with
  | xe2, x80 :: (xa8 | xa9) :: _ => true
  | _, _ => false
  end.

Lemma separator_falls {A} (f g : list byte → A) (d : A) t :
  separator_at xe2 t = false →
  match t with
  | x80 :: xa8 :: r => f r
  | x80 :: xa9 :: r => g r
  | _ => d
  end = d.
Proof.
  intros Hsep. destruct t as [|x t]; [done|]. destruct x; try done. destruct t as [|y t]; [done|]. destruct y; done.
Qed.

Lemma encode_no_separator b t :
  separator_at b t = false →
  encode_string_body 0 (b :: t) =
    if byte_in 0 127 b then encode_ascii b ++ encode_string_body 0 t
    else match rune_len b t with O => to_bytes "\ufffd" ++ encode_string_body 0 t | S n => b :: encode_string_body n t end.
Proof.
  intros Hsep. cbn [encode_string_body].
  generalize (if byte_in 0 127 b then encode_ascii b ++ encode_string_body 0 t
    else match rune_len b t with O => to_bytes "\ufffd" ++ encode_string_body 0 t | S n => b :: encode_string_body n t end).
  intros d. destruct b; try done.
  exact (separator_falls (λ r, to_bytes "\u2028" ++ encode_string_body 0 r) (λ r, to_bytes "\u2029" ++ encode_string_body 0 r) d t Hsep).
Qed.

Lemma compact_no_separator b t :
  separator_at b t = false → (128 ≤ byte_Z b)%Z → compact true false (b :: t) = b :: compact true false t.
Proof.
  intros Hsep Hb. destruct b; try (exfalso; apply Hb; reflexivity); cbn [compact]; try reflexivity.
  generalize (xe2 :: compact true false t). intros d.
  exact (separator_falls (λ r, to_bytes "\u2028" ++ compact true false r) (λ r, to_bytes "\u2029" ++ compact true false r) d t Hsep).
Qed.

(** A rune is one of the separators or none starts with it. *)
Lemma rune_separator b r : rune b r →
  (b :: r = [xe2; x80; xa8] ∨ b :: r = [xe2; x80; xa9]) ∨
  (b :: r ≠ [xe2; x80; xa8] ∧ b :: r ≠ [xe2; x80; xa9] ∧ ∀ s, separator_at b (r ++ s) = false).
Proof.
  intros [_ Hlen]. destruct (decide (b :: r = [xe2; x80; xa8])); [by left; left|].
  destruct (decide (b :: r = [xe2; x80; xa9])); [by left; right|]. right. split_and!; [done|done|].
  intros s. pose proof (rune_len_shape _ _ _ Hlen) as Hs. unfold separator_at. destruct b; try done.
  destruct r as [|x [|y [|z [|u r]]]]; cbn [rune_shape length] in Hs; try (exfalso; change (byte_Z xe2) with 226%Z in Hs; lia).
  cbn [app]. destruct x; try done. destruct y; done.
Qed.

Lemma encode_body_rune b r s : rune b r → encode_string_body 0 (b :: r ++ s) = encode_long b r ++ encode_string_body 0 s.
Proof.
  intros Hrune. unfold encode_long. destruct (rune_separator b r Hrune) as [[[= -> ->]|[= -> ->]]|(H1 & H2 & Hsep)]; [reflexivity..|].
  destruct Hrune as [Hb Hlen].
  rewrite !bool_decide_eq_false_2, encode_no_separator, Hb, rune_len_app by done. cbn [app]. f_equal. apply encode_skip.
Qed.

Lemma scan_high l rest :
  Forall (λ x, 128 ≤ byte_Z x)%Z l → scan_string (l ++ rest) = '(c, r) ← scan_string rest; Some (l ++ c, r).
Proof.
  induction 1 as [|x l Hx _ IH]; [cbn; by destruct (scan_string rest) as [[]|]|].
  cbn [app scan_string]. rewrite !bool_decide_eq_false_2 by (intros ->; vm_compute in Hx; by apply Hx).
  assert (byte_in 0 31 x = false) as ->.
  { apply not_true_iff_false. rewrite byte_in_iff. lia. }
  rewrite IH. by destruct (scan_string rest) as [[]|].
Qed.

Lemma scan_encode_long b r rest :
  rune b r → scan_string (encode_long b r ++ rest) = '(c, r') ← scan_string rest; Some (encode_long b r ++ c, r').
Proof.
  intros Hrune. unfold encode_long. repeat case_bool_decide; [reflexivity..|]. by apply scan_high, rune_bytes.
Qed.

Lemma unquote_copy r s : unquote (length r) 0 (r ++ s) = r ++ unquote 0 0 s.
Proof. induction r as [|x r IH]; [done|]. cbn [length app unquote]. by rewrite IH. Qed.

Lemma unquote_encode_long b r rest : rune b r → unquote 0 0 (encode_long b r ++ rest) = b :: r ++ unquote 0 0 rest.
Proof.
  intros Hrune. unfold encode_long. 
  case_bool_decide as H1; [by injection H1 as -> ->|]. case_bool_decide as H2; [by injection H2 as -> ->|].
  destruct (rune_bytes b r Hrune) as [Hhigh _]. apply Forall_cons in Hhigh as [Hb' _]. destruct Hrune as [Hb Hlen].
  cbn [app unquote]. rewrite bool_decide_eq_false_2 by (intros ->; vm_compute in Hb'; by apply Hb').
  rewrite Hb, rune_len_app by done. f_equal. apply unquote_copy.
Qed.

Lemma compact_high r s : Forall (λ x, 128 ≤ byte_Z x ≤ 191)%Z r → compact true false (r ++ s) = r ++ compact true false s.
Proof.
  induction 1 as [|x r Hx _ IH]; [done|]. cbn [app]. rewrite compact_no_separator; [by rewrite IH| |lia].
  destruct x; try done. exfalso. change (byte_Z xe2) with 226%Z in Hx. lia.
Qed.

Lemma compact_encode_long b r rest :
  rune b r → compact true false (encode_long b r ++ rest) = encode_long b r ++ compact true false rest.
Proof.
  intros Hrune. unfold encode_long. destruct (rune_separator b r Hrune) as [[[= -> ->]|[= -> ->]]|(H1 & H2 & Hsep)]; [reflexivity..|].
  destruct (rune_bytes b r Hrune) as [Hhigh Hlow]. apply Forall_cons in Hhigh as [Hb Hr].
  rewrite !bool_decide_eq_false_2 by done. cbn [app]. rewrite compact_no_separator by done. f_equal.
  apply compact_high. apply Forall_and. by split.
Qed.

Lemma separator_rune b t : rune_len b t = 0 → separator_at b t = false.
Proof.
  intros Hlen. unfold separator_at. destruct b; try done. destruct t as [|x t]; [done|]. destruct x; try done.
  destruct t as [|y t]; [done|]. destruct y; done.
Qed.

Lemma encode_body_bad b s :
  byte_in 0 127 b = false → rune_len b s = 0 → encode_string_body 0 (b :: s) = to_bytes "\ufffd" ++ encode_string_body 0 s.
Proof. intros Hb Hlen. by rewrite encode_no_separator, Hb, Hlen by by apply separator_rune. Qed.

Lemma scan_ufffd rest :
  scan_string (to_bytes "\ufffd" ++ rest) = '(c, r) ← scan_string rest; Some (to_bytes "\ufffd" ++ c, r).
Proof. reflexivity. Qed.

(** ** The encoding of a text *)

Lemma scan_encode s rest :
  scan_string (encode_string_body 0 s ++ x22 :: rest) = Some (encode_string_body 0 s, rest).
Proof.
  induction (text_chunks s) as [|b s Hb _ IH|b r s Hr _ IH|b s Hb Hlen _ IH]; [reflexivity|..].
  - by rewrite encode_body_cons, <-app_assoc, scan_encode_ascii, IH.
  - by rewrite encode_body_rune, <-app_assoc, scan_encode_long, IH.
  - by rewrite encode_body_bad, <-app_assoc, scan_ufffd, IH.
Qed.

Lemma unquote_encode s : unquote_string (encode_string_body 0 s) = ToValid s.
Proof.
  unfold unquote_string, ToValid. induction (text_chunks s) as [|b s Hb _ IH|b r s Hr _ IH|b s Hb Hlen _ IH]; [done|..].
  - by rewrite encode_body_cons, unquote_encode_ascii, to_valid_ascii, IH.
  - by rewrite encode_body_rune, unquote_encode_long, to_valid_rune, IH.
  - rewrite encode_body_bad, to_valid_bad, <-IH by done. reflexivity.
Qed.

Lemma compact_encode s rest :
  compact true false (encode_string_body 0 s ++ rest) = encode_string_body 0 s ++ compact true false rest.
Proof.
  induction (text_chunks s) as [|b s Hb _ IH|b r s Hr _ IH|b s Hb Hlen _ IH]; [done|..].
  - by rewrite encode_body_cons, <-!app_assoc, compact_encode_ascii, IH.
  - by rewrite encode_body_rune, <-!app_assoc, compact_encode_long, IH.
  - by rewrite encode_body_bad, <-!app_assoc, <-IH.
Qed.
