(* ===== verification/JsonProofs.v ===== *)
(** * The JSON decoder: fuel, raw texts and round trips

    Proofs about [Json]: the recursion bound of [parse_json] is never reached, a value's raw
    text is the part of the input it was read from, values nest within the limit, and printed
    documents are read back and have nothing to compact. *)

From Stdlib Require Import ZArith Lia.
From S2P Require Import Prelude GoLib Json Utf8.

(** ** The parser consumes a prefix of its input *)

(** [r] is what is left of [s] after at least one byte. *)
Definition after (r s : list byte) : Prop := ∃ x l, s = x :: l ++ r.

Lemma after_length r s : after r s → length r < length s.
Proof. intros (x & l & ->). simpl. rewrite length_app. lia. Qed.

Lemma after_cons x r : after r (x :: r).
Proof. by exists x, []. Qed.

Lemma after_suffix r s s' : after r s → s `suffix_of` s' → after r s'.
Proof.
  intros (x & l & ->) [k ->]. destruct k as [|y k]; [by exists x, l|].
  exists y, (k ++ x :: l). simpl. by rewrite <-app_assoc.
Qed.

Lemma suffix_after r r' s : r `suffix_of` r' → after r' s → after r s.
Proof. intros [k ->] (x & l & ->). exists x, (l ++ k). by rewrite <-app_assoc. Qed.

Lemma after_trans r s t : after r s → after s t → after r t.
Proof. intros Hr (x & l & ->). eapply after_suffix; [exact Hr|]. by exists (x :: l). Qed.

Lemma after_is_suffix r s : after r s → r `suffix_of` s.
Proof. intros (x & l & ->). by exists (x :: l). Qed.

Lemma skip_ws_suffix s : skip_ws s `suffix_of` s.
Proof.
  induction s as [|b s IH]; simpl; [done|]. destruct (is_ws b); [|done]. by apply suffix_cons_r.
Qed.

Lemma skip_digits_suffix s : skip_digits s `suffix_of` s.
Proof.
  induction s as [|b s IH]; simpl; [done|]. destruct (is_digit b); [|done]. by apply suffix_cons_r.
Qed.

Lemma scan_digits1_after s r : scan_digits1 s = Some r → after r s.
Proof.
  destruct s as [|b s]; simpl; [done|]. destruct (is_digit b); [|done]. intros [= <-].
  eapply suffix_after; [apply skip_digits_suffix|apply after_cons].
Qed.

Lemma scan_fraction_suffix s r : scan_fraction s = Some r → r `suffix_of` s.
Proof.
  unfold scan_fraction. destruct s as [|b s]; [by intros [= <-]|].
  destruct b; first [by intros [= <-]|intros H%scan_digits1_after%after_is_suffix; by apply suffix_cons_r].
Qed.

Lemma scan_exponent_suffix s r : scan_exponent s = Some r → r `suffix_of` s.
Proof.
  unfold scan_exponent. destruct s as [|b s]; [by intros [= <-]|].
  assert (∀ s', scan_digits1 s' = Some r → s' `suffix_of` s → r `suffix_of` b :: s) as Hd.
  { intros s' H%scan_digits1_after%after_is_suffix Hs. apply suffix_cons_r. by etrans. }
  destruct b; try (by intros [= <-]);
    (destruct s as [|c s]; [by intros [=]|]; destruct c; intros H; eapply Hd; first [exact H|done|by apply suffix_cons_r]).
Qed.

Lemma scan_int_after s r : scan_int s = Some r → after r s.
Proof.
  unfold scan_int. destruct s as [|b s]; [done|].
  destruct b; first [intros [= <-]; apply after_cons|apply scan_digits1_after].
Qed.

Lemma scan_sign_suffix s : scan_sign s `suffix_of` s.
Proof. destruct s as [|b s]; [done|]. destruct b; first [done|by apply suffix_cons_r]. Qed.

Lemma scan_number_after s r : scan_number s = Some r → after r s.
Proof.
  unfold scan_number. intros (r1 & H1 & (r2 & H2 & H3)%bind_Some)%bind_Some.
  apply scan_fraction_suffix in H2. apply scan_exponent_suffix in H3. apply scan_int_after in H1.
  eapply suffix_after; [by etrans|]. eapply after_suffix; [exact H1|apply scan_sign_suffix].
Qed.

Lemma scan_string_suffix n s c r : length s ≤ n → scan_string s = Some (c, r) → after r s.
Proof.
  revert s c. induction n as [|n IH]; intros s c Hn; destruct s as [|b s]; simpl in *; [done|lia|done|].
  case_bool_decide; [intros [= <- <-]; apply after_cons|].
  assert (∀ s' c', s' `suffix_of` s → scan_string s' = Some (c', r) → after r (b :: s)) as Hrec.
  { intros s' c' Hs' Hr. pose proof (suffix_length _ _ Hs').
    eapply after_suffix; [eapply IH; [|exact Hr]; lia|]. by apply suffix_cons_r. }
  case_bool_decide; [|destruct (byte_in 0 31 b); [done|];
    intros ([c' r'] & Hr & [= <- <-])%bind_Some; by apply (Hrec s c')].
  destruct s as [|e s]; [done|]. case_bool_decide.
  - destruct s as [|h1 [|h2 [|h3 [|h4 s]]]]; try done.
    intros (z & _ & ([c' r'] & Hr & [= <- <-])%bind_Some)%bind_Some.
    apply (Hrec s c'); [by exists [e; h1; h2; h3; h4]|done].
  - intros (z & _ & ([c' r'] & Hr & [= <- <-])%bind_Some)%bind_Some.
    apply (Hrec s c'); [by exists [e]|done].
Qed.

Lemma scan_string_after s c r : scan_string s = Some (c, r) → after r s.
Proof. by apply (scan_string_suffix (length s)). Qed.

Lemma lead_of_after s :
  match lead_of s with
  | LNull r | LBool r | LString r | LArray r | LObject r => after r s
  | LOther => True
  end.
Proof.
  unfold lead_of. destruct s as [|b s]; [done|].
  destruct b; try done; try apply after_cons;
    repeat match goal with
    | |- context [match ?l with [] => _ | _ :: _ => _ end] => is_var l; destruct l as [|[] l]; try done
    end.
  - by eexists _, [_; _; _; _].
  - by eexists _, [_; _; _].
  - by eexists _, [_; _; _].
Qed.

Lemma sep_of_after close s :
  match sep_of close s with SComma r | SClose r => after r s | SOther => True end.
Proof.
  destruct s as [|b s]; simpl; [done|]. repeat case_bool_decide; first [apply after_cons|done].
Qed.

Lemma expect_after b s r : expect b s = Some r → after r s.
Proof. destruct s as [|c s]; simpl; [done|]. case_bool_decide; [intros [= <-]; apply after_cons|done]. Qed.

Lemma consumed_app l r : consumed (l ++ r) r = l.
Proof. unfold consumed. rewrite length_app, Nat.add_sub. by apply take_app_length'. Qed.

Lemma consumed_suffix s r : r `suffix_of` s → s = consumed s r ++ r.
Proof. intros [k ->]. by rewrite consumed_app. Qed.

(** Every parser leaves less than it was given. *)
Record parses_after (n : nat) : Prop := {
  value_after : ∀ d s v r, parse_value n d s = Some (v, r) → after r s;
  elements_after : ∀ d s vs r, parse_elements n d s = Some (vs, r) → after r s;
  members_after : ∀ d s ms r, parse_members n d s = Some (ms, r) → after r s
}.

Lemma after_skip r s : after r (skip_ws s) → after r s.
Proof. intros H. eapply after_suffix; [exact H|apply skip_ws_suffix]. Qed.

Lemma parse_all_after n : parses_after n.
Proof.
  induction n as [|n [IHv IHe IHm]]; split; intros d s v r; [done..| | |].
  - cbn [parse_value]. pose proof (lead_of_after s) as Hl. destruct (lead_of s) as [r'|r'|r'|r'|r'|].
    + by intros [= <- <-].
    + by intros [= <- <-].
    + intros ([c r1] & H & [= <- <-])%bind_Some. apply scan_string_after in H. by eapply after_trans.
    + destruct (N.eqb d 0); [done|]. pose proof (sep_of_after x5d (skip_ws r')) as Hs.
      destruct (sep_of _ _); [|intros [= <- <-]; apply after_skip in Hs; by eapply after_trans|];
        intros ([vs r1] & H%IHe%after_skip & [= <- <-])%bind_Some; by eapply after_trans.
    + destruct (N.eqb d 0); [done|]. pose proof (sep_of_after x7d (skip_ws r')) as Hs.
      destruct (sep_of _ _); [|intros [= <- <-]; apply after_skip in Hs; by eapply after_trans|];
        intros ([vs r1] & H%IHm%after_skip & [= <- <-])%bind_Some; by eapply after_trans.
    + intros (r1 & H & [= <- <-])%bind_Some. by apply scan_number_after.
  - cbn [parse_elements]. intros ([v0 r1] & H1%IHv & H)%bind_Some.
    pose proof (sep_of_after x5d (skip_ws r1)) as Hs. destruct (sep_of _ _); [| |done].
    + apply bind_Some in H as ([vs r2] & H%IHe%after_skip & [= <- <-]). apply after_skip in Hs.
      eapply after_trans; [exact H|]. by eapply after_trans.
    + injection H as <- <-. apply after_skip in Hs. by eapply after_trans.
  - cbn [parse_members]. intros (r1 & H1%expect_after & H)%bind_Some.
    apply bind_Some in H as ([k r2] & H2%scan_string_after & H).
    apply bind_Some in H as (r3 & H3%expect_after%after_skip & H).
    apply bind_Some in H as ([v0 r4] & H4%IHv%after_skip & H).
    assert (after r4 s) as H5 by (do 3 (eapply after_trans; [|eassumption]); done).
    pose proof (sep_of_after x7d (skip_ws r4)) as Hs. destruct (sep_of _ _); [| |done].
    + apply bind_Some in H as ([ms r5] & H%IHm%after_skip & [= <- <-]). apply after_skip in Hs.
      eapply after_trans; [exact H|]. by eapply after_trans.
    + injection H as <- <-. apply after_skip in Hs. by eapply after_trans.
Qed.

(** A raw message is exactly the text of its value. *)
Lemma parse_value_raw n d s v r : parse_value n d s = Some (v, r) → s = raw_of v ++ r.
Proof.
  intros H. pose proof (value_after n (parse_all_after n) d s v r H) as Ha%after_is_suffix%consumed_suffix.
  rewrite Ha at 1. f_equal. destruct n as [|n]; [done|]. cbn [parse_value] in H.
  destruct (lead_of s) as [r'|r'|r'|r'|r'|].
  - by injection H as <- <-.
  - by injection H as <- <-.
  - by apply bind_Some in H as ([c r1] & _ & [= <- <-]).
  - destruct (N.eqb d 0); [done|]. destruct (sep_of _ _); [|by injection H as <- <-|];
      by apply bind_Some in H as ([vs r1] & _ & [= <- <-]).
  - destruct (N.eqb d 0); [done|]. destruct (sep_of _ _); [|by injection H as <- <-|];
      by apply bind_Some in H as ([vs r1] & _ & [= <- <-]).
  - by apply bind_Some in H as (r1 & _ & [= <- <-]).
Qed.

(** ** Fuel *)

(** More fuel never changes a result, and what is needed is bounded by the input. *)
Record fuel_enough (n : nat) : Prop := {
  value_fuel : ∀ d s x m, parse_value n d s = Some x → 2 * length s + 1 ≤ m → parse_value m d s = Some x;
  elements_fuel : ∀ d s x m, parse_elements n d s = Some x → 2 * length s + 2 ≤ m → parse_elements m d s = Some x;
  members_fuel : ∀ d s x m, parse_members n d s = Some x → 2 * length s + 2 ≤ m → parse_members m d s = Some x
}.

Lemma skip_ws_length s : length (skip_ws s) ≤ length s.
Proof. apply suffix_length, skip_ws_suffix. Qed.

Lemma parse_fuel_enough n : fuel_enough n.
Proof.
  induction n as [|n [IHv IHe IHm]]; split; intros d s x m H Hm; [done..| | |]; (destruct m as [|m]; [lia|]).
  - cbn [parse_value] in H |- *. pose proof (lead_of_after s) as Hl.
    destruct (lead_of s) as [r|r|r|r|r|]; try done; apply after_length in Hl; pose proof (skip_ws_length r) as L1;
      (destruct (N.eqb d 0); [done|]); (destruct (sep_of _ _); [|done|]);
      apply bind_Some in H as ([vs r1] & H & Hx); apply bind_Some; exists (vs, r1); (split; [|done]);
      first [apply (IHe _ _ _ _ H)|apply (IHm _ _ _ _ H)]; lia.
  - cbn [parse_elements] in H |- *. apply bind_Some in H as ([v r] & H1 & H). apply bind_Some.
    exists (v, r). split; [apply (IHv _ _ _ _ H1); lia|].
    apply (value_after n (parse_all_after n)), after_length in H1.
    pose proof (sep_of_after x5d (skip_ws r)) as Hs. destruct (sep_of _ _) as [r'|r'|]; [|done..].
    apply after_length in Hs. pose proof (skip_ws_length r) as L2. pose proof (skip_ws_length r') as L3.
    apply bind_Some in H as ([vs r2] & H & Hx). apply bind_Some. exists (vs, r2). split; [|done].
    apply (IHe _ _ _ _ H). lia.
  - cbn [parse_members] in H |- *. apply bind_Some in H as (r1 & H1 & H). apply bind_Some. exists r1.
    split; [done|]. apply expect_after, after_length in H1.
    apply bind_Some in H as ([k r2] & H2 & H). apply bind_Some. exists (k, r2). split; [done|].
    apply scan_string_after, after_length in H2.
    apply bind_Some in H as (r3 & H3 & H). apply bind_Some. exists r3. split; [done|].
    apply expect_after, after_length in H3. pose proof (skip_ws_length r2) as L4. pose proof (skip_ws_length r3) as L5.
    apply bind_Some in H as ([v r4] & H4 & H). apply bind_Some. exists (v, r4).
    split; [apply (IHv _ _ _ _ H4); lia|]. apply (value_after n (parse_all_after n)), after_length in H4.
    pose proof (sep_of_after x7d (skip_ws r4)) as Hs. destruct (sep_of _ _) as [r'|r'|]; [|done..].
    apply after_length in Hs. pose proof (skip_ws_length r4) as L6. pose proof (skip_ws_length r') as L7.
    apply bind_Some in H as ([ms r5] & H & Hx). apply bind_Some. exists (ms, r5). split; [|done].
    apply (IHm _ _ _ _ H). lia.
Qed.

(** ** Documents *)

(** A document, as a client would write it: numbers are integers. *)
#[warnings="-register-all"] Inductive jtree : Type :=
| TNull
| TBool (b : bool)
| TNumber (digits : list byte)
| TString (s : list byte)
| TArray (ts : list jtree)
| TObject (ms : list (list byte * jtree)).

Section jtree_induction.
Context (P : jtree → Prop) (Hnull : P TNull) (Hbool : ∀ b, P (TBool b)) (Hnum : ∀ ds, P (TNumber ds))
  (Hstr : ∀ s, P (TString s)) (Harr : ∀ ts, Forall P ts → P (TArray ts))
  (Hobj : ∀ ms, Forall (λ m, P m.2) ms → P (TObject ms)).

Fixpoint jtree_ind' (t : jtree) : P t :=
  match t with
  | TNull => Hnull
  | TBool b => Hbool b
  | TNumber ds => Hnum ds
  | TString s => Hstr s
  | TArray ts => Harr ts ((fix go ts : Forall P ts :=
      match ts return Forall P ts with
      | [] => List.Forall_nil _
      | t :: ts => List.Forall_cons _ t ts (jtree_ind' t) (go ts)
      end) ts)
  | TObject ms => Hobj ms ((fix go ms : Forall (λ m, P m.2) ms :=
      match ms return Forall (λ m, P m.2) ms with
      | [] => List.Forall_nil _
      | m :: ms => List.Forall_cons _ m ms (jtree_ind' m.2) (go ms)
      end) ms)
  end.

End jtree_induction.

Fixpoint commas (ls : list (list byte)) : list byte :=
  match ls with
  | [] => []
  | [l] => l
  | l :: ls => l ++ x2c :: commas ls
  end.

Fixpoint print (t : jtree) : list byte :=
  match t with
  | TNull => to_bytes "null"
  | TBool true => to_bytes "true"
  | TBool false => to_bytes "false"
  | TNumber ds => ds
  | TString s => encode_string s
  | TArray ts => x5b :: commas (map print ts) ++ [x5d]
  | TObject ms => x7b :: commas (map (λ m, encode_string m.1 ++ x3a :: print m.2) ms) ++ [x7d]
  end.

(** The value the decoder should see: printing a string replaces what is not UTF-8. *)
Fixpoint value_of (t : jtree) : jvalue :=
  match t with
  | TNull => JNull (print t)
  | TBool _ => JBool (print t)
  | TNumber _ => JNumber (print t)
  | TString s => JString (print t) (ToValid s)
  | TArray ts => JArray (print t) (map value_of ts)
  | TObject ms => JObject (print t) (map (λ m, (ToValid m.1, value_of m.2)) ms)
  end.

Definition plain_number (ds : list byte) : Prop :=
  Forall (λ b, is_digit b = true) (scan_sign ds) ∧
  match scan_sign ds with [] => False | [_] => True | d :: _ => d ≠ x30 end.

Fixpoint wf_tree (t : jtree) : Prop :=
  match t with
  | TNumber ds => plain_number ds
  | TArray ts => foldr (λ t, and (wf_tree t)) True ts
  | TObject ms => foldr (λ m, and (wf_tree m.2)) True ms
  | _ => True
  end.

Fixpoint tree_depth (t : jtree) : N :=
  match t with
  | TArray ts => N.succ (foldr (λ t, N.max (tree_depth t)) 0%N ts)
  | TObject ms => N.succ (foldr (λ m, N.max (tree_depth m.2)) 0%N ms)
  | _ => 0%N
  end.

(** Numbers. *)
Definition delimiter (rest : list byte) : Prop :=
  match rest with [] => True | b :: _ => b = x2c ∨ b = x5d ∨ b = x7d ∨ b = x0a end.

Lemma skip_digits_all ds rest :
  Forall (λ b, is_digit b = true) ds → delimiter rest → skip_digits (ds ++ rest) = rest.
Proof.
  intros Hds Hrest. induction Hds as [|d ds Hd _ IH]; simpl; [|by rewrite Hd].
  destruct rest as [|b rest]; [done|]. by destruct Hrest as [->|[->|[->| ->]]].
Qed.

Lemma scan_tail_delimiter rest : delimiter rest → scan_fraction rest = Some rest ∧ scan_exponent rest = Some rest.
Proof. destruct rest as [|b rest]; [done|]. by intros [->|[->|[->| ->]]]. Qed.

Lemma digit_scan d s :
  is_digit d = true → lead_of (d :: s) = LOther ∧ scan_sign (d :: s) = d :: s ∧
  (d ≠ x30 → scan_int (d :: s) = Some (skip_digits s)).
Proof. destruct d; try (intros H; vm_compute in H; discriminate H); intros _; by split_and!. Qed.

(** A number is digits, perhaps after a sign. *)
Lemma plain_number_cases ds :
  plain_number ds → ∃ d l, is_digit d = true ∧ Forall (λ b, is_digit b = true) l ∧ (l = [] ∨ d ≠ x30) ∧
    (ds = d :: l ∨ ds = x2d :: d :: l).
Proof.
  unfold plain_number. intros [Hds Hform]. remember (scan_sign ds) as ds' eqn:Hs.
  destruct ds' as [|d l]; [done|]. inversion Hds as [|? ? Hd Hl]. subst. exists d, l. split_and!; [done|done| |].
  - destruct l; [by left|by right].
  - destruct ds as [|b ds]; [done|]. destruct b; simpl in Hs; try (left; by symmetry). right. by rewrite Hs.
Qed.

Lemma scan_plain_number ds rest :
  plain_number ds → delimiter rest → lead_of (ds ++ rest) = LOther ∧ scan_number (ds ++ rest) = Some rest.
Proof.
  intros (d & l & Hd & Hl & Hform & Hds)%plain_number_cases Hrest.
  destruct (digit_scan d (l ++ rest) Hd) as (Hlead & Hs & Hi).
  destruct (scan_tail_delimiter rest Hrest) as [Hf He].
  assert (scan_int (d :: l ++ rest) = Some rest) as Hint.
  { destruct (decide (d = x30)) as [->|Hd0].
    - by destruct Hform as [->|].
    - rewrite Hi by done. by rewrite skip_digits_all. }
  unfold scan_number. destruct Hds as [->| ->]; cbn [app]; (split; [done|]).
  - rewrite Hs, Hint. simpl. by rewrite Hf.
  - cbn [scan_sign]. rewrite Hint. simpl. by rewrite Hf.
Qed.

(** Printed text starts with a byte that is neither white space nor a separator. *)
Definition starts (s : list byte) : Prop :=
  match s with
  | [] => False
  | b :: _ => is_ws b = false ∧ b ≠ x2c ∧ b ≠ x5d ∧ b ≠ x7d
  end.

Lemma starts_app s r : starts s → starts (s ++ r).
Proof. by destruct s. Qed.

Lemma starts_skip s : starts s → skip_ws s = s.
Proof. destruct s as [|b s]; [done|]. intros [Hb _]. simpl. by rewrite Hb. Qed.

Lemma starts_sep close s : starts s → close = x5d ∨ close = x7d → sep_of close s = SOther.
Proof.
  destruct s as [|b s]; [done|]. intros (_ & H1 & H2 & H3) Hc. simpl.
  rewrite bool_decide_eq_false_2 by done. rewrite bool_decide_eq_false_2; [done|]. by destruct Hc as [->| ->].
Qed.

Lemma starts_digit d s : is_digit d = true → starts (d :: s).
Proof. destruct d; try (intros H; vm_compute in H; discriminate H); intros _; by split_and!. Qed.

Lemma starts_print t : wf_tree t → starts (print t).
Proof.
  destruct t as [|[]|ds|s|ts|ms]; simpl; try (intros _; by split_and!).
  intros (d & l & Hd & _ & _ & [->| ->])%plain_number_cases; [by apply starts_digit|by split_and!].
Qed.

Lemma starts_commas ls : ls ≠ [] → Forall starts ls → starts (commas ls).
Proof.
  intros Hne Hls. destruct Hls as [|l ls Hl _]; [done|]. destruct ls; [done|]. by apply starts_app.
Qed.

(** The sequences inside brackets, given what their elements do. *)
Definition reads (d : N) (l : list byte) (v : jvalue) : Prop :=
  ∀ rest m, delimiter rest → 2 * length (l ++ rest) + 1 ≤ m → parse_value m d (l ++ rest) = Some (v, rest).

Lemma read_elements d ls vs rest m :
  Forall2 (reads d) ls vs → Forall starts ls → ls ≠ [] →
  2 * length (commas ls ++ x5d :: rest) + 2 ≤ m →
  parse_elements m d (commas ls ++ x5d :: rest) = Some (vs, rest).
Proof.
  intros Hls. revert m. induction Hls as [|l v ls vs Hl Hls IH]; intros m Hst Hne Hm; [done|].
  inversion Hst as [|? ? Hs Hst']; subst. destruct m as [|m]; [lia|]. cbn [parse_elements].
  destruct Hls as [|l' v' ls vs Hl' Hls].
  - cbn [commas] in *. rewrite Hl; [|simpl; tauto|lia]. done.
  - cbn [commas] in Hm |- *. rewrite <-app_assoc in Hm |- *. cbn [app] in Hm |- *.
    rewrite Hl; [|simpl; tauto|lia]. cbn [mbind option_bind skip_ws is_ws sep_of].
    rewrite (bool_decide_eq_true_2 (x2c = x2c)) by done.
    fold (commas (l' :: ls)) in *.
    assert (starts (commas (l' :: ls) ++ x5d :: rest)) as Hs' by (apply starts_app, starts_commas; done).
    rewrite starts_skip by done. rewrite IH; [done|done|done|].
    rewrite length_app in Hm. simpl in Hm. simpl. destruct l; [done|]. simpl in Hm. lia.
Qed.

Lemma scan_key k rest :
  ∃ r, expect x22 (encode_string k ++ rest) = Some r ∧
    scan_string r = Some (encode_string_body 0 k, rest).
Proof.
  exists (encode_string_body 0 k ++ x22 :: rest). split; [|apply scan_encode].
  unfold encode_string. cbn [app expect]. rewrite bool_decide_eq_true_2 by done. by rewrite <-app_assoc.
Qed.

Definition member_text (m : list byte * list byte) : list byte := encode_string m.1 ++ x3a :: m.2.

(** One round of [parse_members]. *)
Lemma read_member d m k l v tail :
  reads d l v → starts l → delimiter tail → 2 * length (member_text (k, l) ++ tail) + 1 ≤ m →
  parse_members (S m) d (member_text (k, l) ++ tail) =
  match sep_of x7d (skip_ws tail) with
  | SComma r4 => '(ms, r5) ← parse_members m d (skip_ws r4); Some ((ToValid k, v) :: ms, r5)
  | SClose r4 => Some ([(ToValid k, v)], r4)
  | SOther => None
  end.
Proof.
  intros Hl Hs Htail Hlen. unfold member_text in *. cbn [fst snd parse_members] in *. rewrite <-app_assoc in *. cbn [app] in *.
  destruct (scan_key k (x3a :: l ++ tail)) as (r & -> & Hscan). cbn [mbind option_bind]. rewrite Hscan.
  cbn [mbind option_bind]. change (expect x3a (skip_ws (x3a :: l ++ tail))) with (Some (l ++ tail)).
  cbn [mbind option_bind]. rewrite starts_skip by by apply starts_app.
  rewrite length_app in Hlen. simpl in Hlen. rewrite Hl by (done || lia). cbn [mbind option_bind].
  by rewrite unquote_encode.
Qed.

Lemma starts_members ls : ls ≠ [] → starts (commas (map member_text ls)).
Proof.
  intros Hne. apply starts_commas; [by destruct ls|]. apply Forall_forall. intros x Hx.
  apply list_elem_of_In, in_map_iff in Hx as (y & <- & _). by split_and!.
Qed.

Lemma read_members d (ls : list (list byte * list byte)) vs rest m :
  Forall2 (λ l v, reads d l.2 v) ls vs → Forall (λ l, starts l.2) ls → ls ≠ [] →
  2 * length (commas (map member_text ls) ++ x7d :: rest) + 2 ≤ m →
  parse_members m d (commas (map member_text ls) ++ x7d :: rest) = Some (zip (map (λ l, ToValid l.1) ls) vs, rest).
Proof.
  intros Hls. revert m. induction Hls as [|[k l] v ls vs Hl Hls IH]; intros m Hst Hne Hm; [done|].
  apply Forall_cons in Hst as [Hs Hst]. simpl in Hs, Hl. destruct m as [|m]; [lia|].
  destruct Hls as [|l' v' ls vs Hl' Hls].
  - cbn [map commas] in Hm |- *. rewrite (read_member _ _ _ _ v); [done|done|done|simpl; tauto|lia].
  - change (map member_text ((k, l) :: l' :: ls)) with (member_text (k, l) :: map member_text (l' :: ls)) in *.
    change (commas (member_text (k, l) :: map member_text (l' :: ls)))
      with (member_text (k, l) ++ x2c :: commas (map member_text (l' :: ls))) in *.
    rewrite <-app_assoc in Hm |- *. cbn [app] in Hm |- *. rewrite (read_member _ _ _ _ v); [|done|done|simpl; tauto|lia].
    cbn [skip_ws is_ws sep_of]. rewrite (bool_decide_eq_true_2 (x2c = x2c)) by done.
    rewrite starts_skip by by apply starts_app, starts_members. rewrite IH; [done|done|done|].
    rewrite length_app in Hm. cbn [length] in Hm. lia.
Qed.

(** ** Round trip *)

Lemma wf_elements ts : wf_tree (TArray ts) ↔ Forall wf_tree ts.
Proof.
  simpl. induction ts as [|t ts IH]; simpl; [by split|]. rewrite IH, Forall_cons. done.
Qed.

Lemma wf_members ms : wf_tree (TObject ms) ↔ Forall (λ m, wf_tree m.2) ms.
Proof.
  simpl. induction ms as [|m ms IH]; simpl; [by split|]. rewrite IH, Forall_cons. done.
Qed.

Lemma depth_elements ts d :
  (tree_depth (TArray ts) ≤ d)%N → d ≠ 0%N ∧ Forall (λ t, tree_depth t ≤ N.pred d)%N ts.
Proof.
  simpl. intros H. split; [lia|].
  assert (foldr (λ t, N.max (tree_depth t)) 0%N ts ≤ N.pred d)%N as Hf by lia. clear H.
  induction ts as [|t ts IH]; simpl in *; constructor; [lia|]. apply IH. lia.
Qed.

Lemma depth_members ms d :
  (tree_depth (TObject ms) ≤ d)%N → d ≠ 0%N ∧ Forall (λ m, tree_depth m.2 ≤ N.pred d)%N ms.
Proof.
  simpl. intros H. split; [lia|].
  assert (foldr (λ m, N.max (tree_depth m.2)) 0%N ms ≤ N.pred d)%N as Hf by lia. clear H.
  induction ms as [|m ms IH]; simpl in *; constructor; [lia|]. apply IH. lia.
Qed.

Lemma read_array d (ls : list (list byte)) vs rest m :
  d ≠ 0%N → Forall2 (reads (N.pred d)) ls vs → Forall starts ls →
  2 * length ((x5b :: commas ls ++ [x5d]) ++ rest) + 1 ≤ m →
  parse_value m d ((x5b :: commas ls ++ [x5d]) ++ rest) = Some (JArray (x5b :: commas ls ++ [x5d]) vs, rest).
Proof.
  intros Hd Hls Hst Hm. destruct m as [|m]; [lia|].
  assert ((x5b :: commas ls ++ [x5d]) ++ rest = x5b :: commas ls ++ x5d :: rest) as Heq
    by (cbn [app]; by rewrite <-app_assoc).
  pose proof (consumed_app (x5b :: commas ls ++ [x5d]) rest) as Hc. rewrite Heq in *.
  cbn [parse_value lead_of]. destruct (N.eqb_spec d 0); [done|].
  destruct (decide (ls = [])) as [->|Hne].
  - inversion Hls. subst. change (sep_of x5d (skip_ws (commas [] ++ x5d :: rest))) with (SClose rest).
    exact (f_equal (λ raw, Some (JArray raw [], rest)) Hc).
  - assert (starts (commas ls ++ x5d :: rest)) as Hs by (apply starts_app, starts_commas; done).
    rewrite starts_skip, starts_sep by (done || by left). rewrite (read_elements _ ls vs rest m); [|done..|].
    + cbn [mbind option_bind]. by rewrite Hc.
    + simpl in Hm. lia.
Qed.

Lemma read_object d (ls : list (list byte * list byte)) vs rest m :
  d ≠ 0%N → Forall2 (λ l v, reads (N.pred d) l.2 v) ls vs → Forall (λ l, starts l.2) ls →
  2 * length ((x7b :: commas (map member_text ls) ++ [x7d]) ++ rest) + 1 ≤ m →
  parse_value m d ((x7b :: commas (map member_text ls) ++ [x7d]) ++ rest) =
  Some (JObject (x7b :: commas (map member_text ls) ++ [x7d]) (zip (map (λ l, ToValid l.1) ls) vs), rest).
Proof.
  intros Hd Hls Hst Hm. destruct m as [|m]; [lia|].
  assert ((x7b :: commas (map member_text ls) ++ [x7d]) ++ rest = x7b :: commas (map member_text ls) ++ x7d :: rest)
    as Heq by (cbn [app]; by rewrite <-app_assoc).
  pose proof (consumed_app (x7b :: commas (map member_text ls) ++ [x7d]) rest) as Hc. rewrite Heq in *.
  cbn [parse_value lead_of]. destruct (N.eqb_spec d 0); [done|].
  destruct (decide (ls = [])) as [->|Hne].
  - inversion Hls. subst. change (sep_of x7d (skip_ws (commas (map member_text []) ++ x7d :: rest))) with (SClose rest).
    exact (f_equal (λ raw, Some (JObject raw [], rest)) Hc).
  - assert (starts (commas (map member_text ls) ++ x7d :: rest)) as Hs.
    { by apply starts_app, starts_members. }
    rewrite starts_skip, starts_sep by (done || by right). rewrite (read_members _ ls vs rest m); [|done..|].
    + cbn [mbind option_bind]. by rewrite Hc.
    + simpl in Hm. lia.
Qed.

Lemma print_reads t d : wf_tree t → (tree_depth t ≤ d)%N → reads d (print t) (value_of t).
Proof.
  revert d. induction t as [|b|ds|s|ts IH|ms IH] using jtree_ind'; intros d Hwf Hdep rest m Hrest Hm;
    match goal with |- context [print ?t ++ rest] => pose proof (consumed_app (print t) rest) as Hc end.
  - destruct m as [|m]; [lia|]. exact (f_equal (λ raw, Some (JNull raw, rest)) Hc).
  - destruct m as [|m]; [lia|]. destruct b; exact (f_equal (λ raw, Some (JBool raw, rest)) Hc).
  - destruct m as [|m]; [lia|]. cbn [parse_value]. cbn [print] in *.
    destruct (scan_plain_number ds rest Hwf Hrest) as [-> ->].
    exact (f_equal (λ raw, Some (JNumber raw, rest)) Hc).
  - destruct m as [|m]; [lia|]. cbn [parse_value].
    assert (lead_of (print (TString s) ++ rest) = LString (encode_string_body 0 s ++ x22 :: rest)) as ->.
    { cbn [print]. unfold encode_string. cbn [app lead_of]. by rewrite <-app_assoc. }
    rewrite scan_encode. cbn [mbind option_bind]. rewrite unquote_encode.
    exact (f_equal (λ raw, Some (JString raw (ToValid s), rest)) Hc).
  - apply depth_elements in Hdep as [Hd Hdep]. apply wf_elements in Hwf. cbn [print value_of].
    apply read_array; [done| | |done].
    + rewrite Forall_forall in IH, Hwf, Hdep. apply Forall2_fmap_2. apply Forall_Forall2_diag.
      apply Forall_forall. intros t Ht. by apply IH; auto.
    + apply Forall_fmap. eapply Forall_impl; [exact Hwf|]. intros t. apply starts_print.
  - apply depth_members in Hdep as [Hd Hdep]. apply wf_members in Hwf. cbn [print value_of] in Hm |- *. clear Hc.
    replace (map (λ m, encode_string m.1 ++ x3a :: print m.2) ms)
      with (map member_text (map (λ m, (m.1, print m.2)) ms)) in * by (rewrite map_map; by apply map_ext).
    replace (map (λ m, (ToValid m.1, value_of m.2)) ms)
      with (zip (map (λ l, ToValid l.1) (map (λ m, (m.1, print m.2)) ms)) (map (λ m, value_of m.2) ms))
      by (clear; induction ms as [|x ms IHms]; [done|]; simpl; by rewrite <-IHms).
    apply read_object; [done| | |].
    + rewrite Forall_forall in IH, Hwf, Hdep. apply Forall2_fmap_2. apply Forall_Forall2_diag.
      apply Forall_forall. intros x Hx. simpl. apply (IH x Hx); [by apply Hwf|by apply Hdep].
    + apply Forall_fmap. eapply Forall_impl; [exact Hwf|]. intros x. apply starts_print.
    + done.
Qed.

Lemma parse_json_print t :
  wf_tree t → (tree_depth t ≤ maxNestingDepth)%N → parse_json (print t) = Some (value_of t).
Proof.
  intros Hwf Hd. unfold parse_json. cbv zeta. rewrite starts_skip by by apply starts_print.
  pose proof (print_reads t maxNestingDepth Hwf Hd [] (parse_fuel (print t)) I) as Hr.
  rewrite app_nil_r in Hr. rewrite Hr; [done|]. unfold parse_fuel. lia.
Qed.

(** A document that ends its line, as [json.Encoder] writes it. *)
Lemma parse_json_line t :
  wf_tree t → (tree_depth t ≤ maxNestingDepth)%N → parse_json (print t ++ [x0a]) = Some (value_of t).
Proof.
  intros Hwf Hd. unfold parse_json. cbv zeta. rewrite starts_skip by by apply starts_app, starts_print.
  rewrite (print_reads t maxNestingDepth Hwf Hd [x0a]); [done|simpl; tauto|unfold parse_fuel; lia].
Qed.

(** The bound on the recursion is never what makes a document invalid. *)
Lemma parse_json_fuel s v :
  parse_json s = Some v ↔
  ∃ n r, parse_value n maxNestingDepth (skip_ws s) = Some (v, r) ∧ skip_ws r = [].
Proof.
  unfold parse_json. cbv zeta. split.
  - intros ([v' r] & H & Hr)%bind_Some. case_bool_decide; [|done]. injection Hr as ->. eauto.
  - intros (n & r & H & Hr).
    rewrite (value_fuel n (parse_fuel_enough n) _ _ _ (parse_fuel (skip_ws s)) H) by (unfold parse_fuel; lia).
    cbn [mbind option_bind]. by rewrite bool_decide_eq_true_2.
Qed.

(** From the bound on, the recursion bound does not matter, whether there is a value or not. *)
Lemma parse_value_bound n d s : parse_fuel s ≤ n → parse_value n d s = parse_value (parse_fuel s) d s.
Proof.
  intros Hn. destruct (parse_value n d s) as [x|] eqn:H1.
  - symmetry. apply (value_fuel n (parse_fuel_enough n) _ _ _ _ H1). unfold parse_fuel. lia.
  - destruct (parse_value (parse_fuel s) d s) as [x|] eqn:H2; [|done]. rewrite <-H1.
    apply (value_fuel _ (parse_fuel_enough (parse_fuel s)) _ _ _ n H2). unfold parse_fuel in Hn. lia.
Qed.

(** ** Nesting *)

(** How deep a value nests. *)
Fixpoint nesting (v : jvalue) : N :=
  match v with
  | JArray _ vs => N.succ (foldr (λ v, N.max (nesting v)) 0%N vs)
  | JObject _ ms => N.succ (foldr (λ m, N.max (nesting m.2)) 0%N ms)
  | _ => 0%N
  end.

Record nests_within (n : nat) : Prop := {
  value_nesting : ∀ d s v r, parse_value n d s = Some (v, r) → (nesting v ≤ d)%N;
  elements_nesting : ∀ d s vs r, parse_elements n d s = Some (vs, r) → (foldr (λ v, N.max (nesting v)) 0 vs ≤ d)%N;
  members_nesting : ∀ d s ms r, parse_members n d s = Some (ms, r) → (foldr (λ m, N.max (nesting m.2)) 0 ms ≤ d)%N
}.

Lemma parse_nesting n : nests_within n.
Proof.
  induction n as [|n [IHv IHe IHm]]; split; intros d s v r; [done..| | |].
  - cbn [parse_value]. destruct (lead_of s) as [r'|r'|r'|r'|r'|].
    1,2: intros [= <- <-]; simpl; lia.
    + intros ([c r1] & _ & [= <- <-])%bind_Some. simpl. lia.
    + destruct (N.eqb_spec d 0); [done|]. destruct (sep_of _ _); [|intros [= <- <-]; simpl; lia|];
        intros ([vs r1] & H%IHe & [= <- <-])%bind_Some; cbn [nesting]; lia.
    + destruct (N.eqb_spec d 0); [done|]. destruct (sep_of _ _); [|intros [= <- <-]; simpl; lia|];
        intros ([ms r1] & H%IHm & [= <- <-])%bind_Some; cbn [nesting]; lia.
    + intros (r1 & _ & [= <- <-])%bind_Some. simpl. lia.
  - cbn [parse_elements]. intros ([v0 r1] & H1%IHv & H)%bind_Some. destruct (sep_of _ _); [| |done].
    + apply bind_Some in H as ([vs r2] & H%IHe & [= <- <-]). cbn [foldr]. lia.
    + injection H as <- <-. cbn [foldr]. lia.
  - cbn [parse_members]. intros (r1 & _ & H)%bind_Some. apply bind_Some in H as ([k r2] & _ & H).
    apply bind_Some in H as (r3 & _ & H). apply bind_Some in H as ([v0 r4] & H4%IHv & H).
    destruct (sep_of _ _); [| |done].
    + apply bind_Some in H as ([ms r5] & H%IHm & [= <- <-]). cbn [foldr snd]. lia.
    + injection H as <- <-. cbn [foldr snd]. lia.
Qed.

(** An array has no more elements than its text has bytes. *)
Lemma elements_count n d s vs r : parse_elements n d s = Some (vs, r) → length vs + length r ≤ length s.
Proof.
  revert s vs r. induction n as [|n IH]; intros s vs r; [done|]. cbn [parse_elements].
  intros ([v r1] & H1 & H)%bind_Some. apply (value_after n (parse_all_after n)), after_length in H1.
  pose proof (skip_ws_length r1). pose proof (sep_of_after x5d (skip_ws r1)) as Hs.
  destruct (sep_of _ _) as [r2|r2|]; [| |done]; apply after_length in Hs.
  - apply bind_Some in H as ([vs' r3] & H%IH & [= <- <-]). pose proof (skip_ws_length r2). simpl. lia.
  - injection H as <- <-. simpl. lia.
Qed.

Lemma array_count n d s raw vs r : parse_value n d s = Some (JArray raw vs, r) → length vs ≤ length s.
Proof.
  destruct n as [|n]; [done|]. cbn [parse_value]. pose proof (lead_of_after s) as Hl.
  destruct (lead_of s) as [r'|r'|r'|r'|r'|]; [done|done|by intros ([c r1] & _ & [=])%bind_Some| | |by intros (r1 & _ & [=])%bind_Some].
  - apply after_length in Hl. pose proof (skip_ws_length r'). destruct (N.eqb d 0); [done|].
    destruct (sep_of _ _); [|intros [= _ <- _]; simpl; lia|];
      intros ([vs1 r1] & He%elements_count & [= _ -> _])%bind_Some; lia.
  - destruct (N.eqb d 0); [done|]. destruct (sep_of _ _); [|done|]; by intros ([ms r1] & _ & [=])%bind_Some.
Qed.

Lemma parse_json_array_count s raw vs : parse_json s = Some (JArray raw vs) → length vs ≤ length s.
Proof.
  intros (n & r & H%array_count & _)%parse_json_fuel. pose proof (skip_ws_length s). lia.
Qed.

(** ** Compaction *)

(** Text that ends outside strings and that [json.Compact] copies. *)
Definition solid (l : list byte) : Prop := ∀ rest, compact false false (l ++ rest) = l ++ compact false false rest.

Lemma solid_nil : solid [].
Proof. done. Qed.

Lemma solid_app l1 l2 : solid l1 → solid l2 → solid (l1 ++ l2).
Proof. intros H1 H2 rest. by rewrite <-!app_assoc, H1, H2. Qed.

(** Bytes copied outside strings: neither white space, nor quotes, nor escaped for HTML. *)
Definition copied (b : byte) : bool :=
  byte_in 33 126 b && negb (bool_decide (b ∈ [x22; x3c; x3e; x26])).

Lemma solid_byte b : copied b = true → solid [b].
Proof. intros H rest. destruct b; try (vm_compute in H; discriminate H); reflexivity. Qed.

Lemma solid_cons b l : copied b = true → solid l → solid (b :: l).
Proof. intros Hb Hl. apply (solid_app [b] l); [by apply solid_byte|done]. Qed.

Lemma solid_bytes l : Forall (λ b, copied b = true) l → solid l.
Proof. induction 1; [apply solid_nil|by apply solid_cons]. Qed.

Lemma solid_string s : solid (encode_string s).
Proof.
  intros rest. unfold encode_string. cbn [app]. rewrite <-!app_assoc. cbn [app].
  pose proof (compact_encode s (x22 :: rest)) as Hbody.
  etrans; [|apply f_equal, Hbody]. reflexivity.
Qed.

Lemma solid_commas ls : Forall solid ls → solid (commas ls).
Proof.
  induction 1 as [|l ls Hl Hls IH]; [apply solid_nil|]. destruct ls as [|l' ls]; [done|].
  change (solid (l ++ x2c :: commas (l' :: ls))). apply solid_app; [done|]. by apply solid_cons.
Qed.

Lemma digit_copied d : is_digit d = true → copied d = true.
Proof. intros H. destruct d; try (vm_compute in H; discriminate H); reflexivity. Qed.

(** Printed documents have nothing to compact. *)
Lemma solid_print t : wf_tree t → solid (print t).
Proof.
  induction t as [|[]|ds|s|ts IH|ms IH] using jtree_ind'; intros Hwf.
  1-3: apply solid_bytes; by repeat constructor.
  - apply plain_number_cases in Hwf as (d & l & Hd & Hl & _ & Hds).
    assert (solid (d :: l)) as Hdl.
    { apply solid_bytes. constructor; [by apply digit_copied|]. eapply Forall_impl; [exact Hl|]. apply digit_copied. }
    destruct Hds as [->| ->]; [done|]. by apply solid_cons.
  - apply solid_string.
  - apply wf_elements in Hwf. cbn [print]. apply solid_cons; [done|]. apply solid_app; [|by apply solid_byte].
    apply solid_commas, Forall_fmap. rewrite Forall_forall in IH, Hwf |- *. intros t Ht. by apply IH, Hwf.
  - apply wf_members in Hwf. cbn [print]. apply solid_cons; [done|]. apply solid_app; [|by apply solid_byte].
    apply solid_commas, Forall_fmap. rewrite Forall_forall in IH, Hwf |- *. intros m Hm.
    apply solid_app; [apply solid_string|]. apply solid_cons; [done|]. by apply IH, Hwf.
Qed.

Lemma compact_print t : wf_tree t → compact false false (print t) = print t.
Proof. intros Hwf. pose proof (solid_print t Hwf []) as H. by rewrite !app_nil_r in H. Qed.
