(* ===== verification/JsonRpc.v ===== *)
(** * Package jsonrpc: requests and error responses

    [internal/jsonrpc/request.go]: the decoding of a request or a batch into [Request]s with
    [encoding/json]'s rules for structs (exact names first, then case folding; unknown names
    ignored; the last occurrence of a field wins; null leaves a string unchanged), and the
    error response. *)

From Stdlib Require Import ZArith Lia.
From S2P Require Import Prelude GoLib Json Utf8 JsonProofs.

(** [ID] and [Params] are raw messages; an absent one is empty. *)
Record Request := mkRequest {
  rq_JSONRPC : list byte;
  rq_ID : list byte;
  rq_Method : list byte;
  rq_Params : list byte
}.

Definition zero_request : Request := mkRequest [] [] [] [].

Inductive field := FJSONRPC | FID | FMethod | FParams.

(** [foldName] as far as it yields ASCII letters: upper case, with U+017F and U+212A folding to S
    and K. *)
Definition fold_byte (b : byte) : byte := if byte_in 97 122 b then byte_of (byte_Z b - 32) else b.

Fixpoint fold_name (s : list byte) : list byte :=
  match s with
  | [] => []
  | b :: r =>
      match s with
      | xc5 :: xbf :: r2 => x53 :: fold_name r2
      | xe2 :: x84 :: xaa :: r3 => x4b :: fold_name r3
      | _ => fold_byte b :: fold_name r
      end
  end.

Definition field_names : list (list byte * field) :=
  [(to_bytes "jsonrpc", FJSONRPC); (to_bytes "id", FID); (to_bytes "method", FMethod); (to_bytes "params", FParams)].

Fixpoint find_name (key : list byte) (names : list (list byte * field)) : option field :=
  match names with
  | [] => None
  | (n, f) :: names => if bool_decide (n = key) then Some f else find_name key names
  end.

(** The struct field a member is stored in. *)
Definition field_of (key : list byte) : option field :=
  match find_name key field_names with
  | Some f => Some f
  | None => find_name (fold_name key) ((λ p, (fold_name p.1, p.2)) <$> field_names)
  end.

Definition set_member (req : Request) (m : list byte * jvalue) : error + Request :=
  match field_of m.1 with
  | None => inr req
  | Some FID => inr (mkRequest (rq_JSONRPC req) (raw_of m.2) (rq_Method req) (rq_Params req))
  | Some FParams => inr (mkRequest (rq_JSONRPC req) (rq_ID req) (rq_Method req) (raw_of m.2))
  | Some FJSONRPC =>
      match string_field (rq_JSONRPC req) m.2 with
      | inl e => inl e
      | inr s => inr (mkRequest s (rq_ID req) (rq_Method req) (rq_Params req))
      end
  | Some FMethod =>
      match string_field (rq_Method req) m.2 with
      | inl e => inl e
      | inr s => inr (mkRequest (rq_JSONRPC req) (rq_ID req) s (rq_Params req))
      end
  end.

Fixpoint set_members (req : Request) (ms : list (list byte * jvalue)) : error + Request :=
  match ms with
  | [] => inr req
  | m :: ms => match set_member req m with inl e => inl e | inr req => set_members req ms end
  end.

(** [json.Unmarshal] into a zero [Request]. *)
Definition unmarshal_request (v : jvalue) : error + Request :=
  match v with
  | JObject _ ms => set_members zero_request ms
  | JNull _ => inr zero_request
  | _ => inl (type_error "jsonrpc.Request")
  end.

Definition ParseRequests (body : list byte) : error + list Request :=
  let trimmed := TrimSpace body in
  match trimmed with
  | [] => inl (Errorf "empty request body" [])
  | b :: _ =>
      if bool_decide (b = x5b) then
        match Unmarshal (unmarshal_slice unmarshal_request) trimmed with
        | inl e => inl e
        | inr [] => inl (Errorf "empty batch" [])
        | inr batch => inr batch
        end
      else
        match Unmarshal unmarshal_request trimmed with
        | inl e => inl e
        | inr req => inr [req]
        end
  end.

Definition CodeParseError : Z := -32700.
Definition CodeInvalidParams : Z := -32602.
Definition CodeTxRejected : Z := -32003.

(** The body [WriteError] sends, with HTTP status 200. The id is compacted as any raw message. *)
Definition WriteError (id : list byte) (code : Z) (message : list byte) : list byte :=
  let id := if bool_decide (length id = 0) then to_bytes "null" else id in
  let error := x7b :: commas [member_text (to_bytes "code", to_bytes (pretty code));
                              member_text (to_bytes "message", encode_string message)] ++ [x7d] in
  x7b :: commas [member_text (to_bytes "jsonrpc", encode_string (to_bytes "2.0"));
                 member_text (to_bytes "id", compact false false id);
                 member_text (to_bytes "error", error)] ++ [x7d; x0a].

(** ** What a request decodes to *)

(** The members that decide the method: the string values under a name that folds to it. *)
Definition method_values (ms : list (list byte * jvalue)) : list (list byte) :=
  omap (λ m, match field_of m.1, m.2 with Some FMethod, JString _ s => Some s | _, _ => None end) ms.

Lemma set_members_method req ms req' :
  set_members req ms = inr req' → rq_Method req' = default (rq_Method req) (last (method_values ms)).
Proof.
  revert req. induction ms as [|[k v] ms IH]; intros req; cbn [set_members].
  - by intros [= ->].
  - destruct (set_member req (k, v)) as [e|req1] eqn:Hm; [done|]. intros ->%IH.
    unfold set_member in Hm. unfold method_values. cbn [fst snd omap list_omap] in *.
    fold (method_values ms).
    destruct (field_of k) as [[]|].
    + destruct (string_field _ v); [done|]. by injection Hm as <-.
    + by injection Hm as <-.
    + destruct v; try done; injection Hm as <-; [done|]. unfold method_values.
      destruct (omap _ ms) as [|x xs]; [done|]. rewrite last_cons_cons.
      destruct (last (x :: xs)) eqn:Hl; [done|]. by apply last_None in Hl.
    + by injection Hm as <-.
    + by injection Hm as <-.
Qed.

(** The method a value of the body stands for. *)
Definition value_method (v : jvalue) : list byte :=
  match v with JObject _ ms => default [] (last (method_values ms)) | _ => [] end.

(** The values of a body: the elements of an array, and otherwise the value itself. *)
Definition request_values (body : list byte) : list jvalue :=
  match parse_json (TrimSpace body) with
  | Some (JArray _ vs) => vs
  | Some v => [v]
  | None => []
  end.

Lemma unmarshal_request_method v req : unmarshal_request v = inr req → rq_Method req = value_method v.
Proof.
  destruct v; try done; cbn [unmarshal_request value_method]; [by intros [= <-]|]. by intros ->%set_members_method.
Qed.

Lemma unmarshal_all_methods vs reqs :
  unmarshal_all unmarshal_request vs = inr reqs → rq_Method <$> reqs = value_method <$> vs.
Proof.
  revert reqs. induction vs as [|v vs IH]; intros reqs; cbn [unmarshal_all]; [by intros [= <-]|].
  destruct (unmarshal_request v) as [|req] eqn:Hv; [done|]. destruct (unmarshal_all _ vs) as [|l]; [done|].
  intros [= <-]. rewrite !fmap_cons, (unmarshal_request_method _ _ Hv). f_equal. by apply IH.
Qed.

(** ** Requests as clients write them *)

Record client_request := mkClientRequest {
  cr_version : list byte;
  cr_id : jtree;
  cr_method : list byte;
  cr_params : jtree
}.

Definition request_tree (c : client_request) : jtree :=
  TObject [(to_bytes "jsonrpc", TString (cr_version c)); (to_bytes "id", cr_id c);
           (to_bytes "method", TString (cr_method c)); (to_bytes "params", cr_params c)].

(** Printing replaces the bytes of a string that are not UTF-8. *)
Definition request_of (c : client_request) : Request :=
  mkRequest (ToValid (cr_version c)) (print (cr_id c)) (ToValid (cr_method c)) (print (cr_params c)).

Definition wf_client (c : client_request) : Prop :=
  wf_tree (cr_id c) ∧ wf_tree (cr_params c) ∧
  (tree_depth (cr_id c) ≤ 9998)%N ∧ (tree_depth (cr_params c) ≤ 9998)%N.

Lemma raw_value_of t : raw_of (value_of t) = print t.
Proof. by destruct t. Qed.

Lemma wf_request_tree c : wf_client c → wf_tree (request_tree c) ∧ (tree_depth (request_tree c) ≤ 9999)%N.
Proof.
  intros (Hi & Hp & Hdi & Hdp). split; [|cbn [tree_depth request_tree foldr snd]; lia].
  apply wf_members. unfold request_tree.
  repeat (apply Forall_cons; split); [..|apply Forall_nil_2]; done.
Qed.

Lemma unmarshal_request_tree c : unmarshal_request (value_of (request_tree c)) = inr (request_of c).
Proof.
  destruct c as [v i m p]. unfold request_of. cbn [cr_version cr_id cr_method cr_params].
  rewrite <-(raw_value_of i), <-(raw_value_of p). reflexivity.
Qed.

Lemma unmarshal_all_trees cs :
  unmarshal_all unmarshal_request (map value_of (map request_tree cs)) = inr (map request_of cs).
Proof.
  induction cs as [|c cs IH]; [done|]. cbn [map unmarshal_all]. by rewrite unmarshal_request_tree, IH.
Qed.

(** Text between brackets has no white space to trim. *)
Lemma close_solid c :
  c = x5d ∨ c = x7d →
  is_space1 c = false ∧ (∀ b, is_space2 b c = false) ∧ (∀ b b', is_space3 b b' c = false).
Proof.
  intros [->| ->]; (split_and!; [done|intros b; by destruct b|intros b b'; destruct b; try done; by destruct b']).
Qed.

Lemma trim_left_rev_close c l : c = x5d ∨ c = x7d → trim_left_rev (c :: l) = c :: l.
Proof.
  intros (H1 & H2 & H3)%close_solid. cbn [trim_left_rev]. rewrite H1.
  destruct l as [|b l]; [done|]. rewrite H2. destruct l as [|b' l]; [done|]. by rewrite H3.
Qed.

Lemma trim_left_open o l : o = x5b ∨ o = x7b → trim_left (o :: l) = o :: l.
Proof. intros [->| ->]; by destruct l as [|b1 [|b2 l]]. Qed.

Lemma TrimSpace_brackets o c mid :
  o = x5b ∨ o = x7b → c = x5d ∨ c = x7d → TrimSpace (o :: mid ++ [c]) = o :: mid ++ [c].
Proof.
  intros Ho Hc. unfold TrimSpace. rewrite trim_left_open by done.
  change (o :: mid ++ [c]) with ((o :: mid) ++ [c]). rewrite reverse_snoc, trim_left_rev_close by done.
  by rewrite reverse_cons, reverse_involutive.
Qed.

Lemma ParseRequests_single c : wf_client c → ParseRequests (print (request_tree c)) = inr [request_of c].
Proof.
  intros Hc. destruct (wf_request_tree c Hc) as [Hwf Hd].
  assert (parse_json (print (request_tree c)) = Some (value_of (request_tree c))) as Hp
    by (apply parse_json_print; [done|unfold maxNestingDepth; lia]).
  pose proof (unmarshal_request_tree c) as Hu. unfold ParseRequests, Unmarshal.
  unfold request_tree in *. cbn [print] in *. rewrite TrimSpace_brackets by (by right). cbv zeta.
  rewrite bool_decide_eq_false_2 by done. rewrite Hp. by rewrite Hu.
Qed.

(** A body holds no more requests than bytes. *)
Lemma unmarshal_all_length {A} (f : jvalue → error + A) vs l : unmarshal_all f vs = inr l → length l = length vs.
Proof.
  revert l. induction vs as [|v vs IH]; intros l; cbn [unmarshal_all]; [by intros [= <-]|].
  destruct (f v); [done|]. destruct (unmarshal_all f vs) as [|l']; [done|]. intros [= <-]. simpl. by rewrite (IH l').
Qed.

Lemma ParseRequests_count body reqs : ParseRequests body = inr reqs → 0 < length reqs ≤ length body.
Proof.
  unfold ParseRequests. pose proof (TrimSpace_length body) as Ht. destruct (TrimSpace body) as [|b s]; [done|].
  unfold Unmarshal. case_bool_decide.
  - destruct (parse_json (b :: s)) as [v|] eqn:Hp; [|done]. destruct (unmarshal_slice _ v) as [e|[|q qs]] eqn:Hu; [done|done|].
    intros [= <-]. split; [simpl; lia|]. destruct v as [| | | |raw vs|]; try done. apply parse_json_array_count in Hp.
    apply unmarshal_all_length in Hu. lia.
  - destruct (parse_json (b :: s)) as [v|]; [|done]. destruct (unmarshal_request v); [done|].
    intros [= <-]. simpl in *. lia.
Qed.

(** ** Error responses as clients read them *)

Definition response_tree (id : jtree) (code : Z) (message : list byte) : jtree :=
  TObject [(to_bytes "jsonrpc", TString (to_bytes "2.0")); (to_bytes "id", id);
           (to_bytes "error", TObject [(to_bytes "code", TNumber (to_bytes (pretty code)));
                                       (to_bytes "message", TString message)])].

(** What a client finds under [error.message] in a response. *)
Definition member (name : string) (v : jvalue) : option jvalue :=
  match v with
  | JObject _ ms => snd <$> find (λ m, bool_decide (m.1 = to_bytes name)) ms
  | _ => None
  end.

Definition message_of (v : jvalue) : option (list byte) :=
  error ← member "error" v; message ← member "message" error;
  match message with JString _ s => Some s | _ => None end.

Definition error_codes : list Z := [CodeParseError; CodeInvalidParams; CodeTxRejected].

Lemma error_code_plain code : code ∈ error_codes → plain_number (to_bytes (pretty code)).
Proof.
  intros [->|[->|[->|[]%elem_of_nil]%elem_of_cons]%elem_of_cons]%elem_of_cons;
    (split; [by repeat constructor|by vm_compute]).
Qed.

Lemma print_nonempty t : wf_tree t → length (print t) ≠ 0.
Proof. intros H%starts_print. by destruct (print t). Qed.

Lemma WriteError_print id code message :
  wf_tree id → WriteError (print id) code message = print (response_tree id code message) ++ [x0a].
Proof.
  intros Hid. unfold WriteError. rewrite bool_decide_eq_false_2 by by apply print_nonempty.
  cbv zeta. rewrite compact_print by done. unfold response_tree. cbn [print map fst snd]. unfold member_text.
  cbn [fst snd app]. f_equal. by rewrite <-app_assoc.
Qed.

Lemma wf_response_tree id code message :
  wf_tree id → (tree_depth id ≤ 9998)%N → code ∈ error_codes →
  wf_tree (response_tree id code message) ∧ (tree_depth (response_tree id code message) ≤ maxNestingDepth)%N.
Proof.
  intros Hid Hd Hcode. split; [|cbn [tree_depth response_tree foldr snd]; unfold maxNestingDepth; lia].
  apply error_code_plain in Hcode. apply wf_members.
  repeat (apply Forall_cons; split); [..|apply Forall_nil_2]; done.
Qed.

Lemma WriteError_read_back id code message :
  wf_tree id → (tree_depth id ≤ 9998)%N → code ∈ error_codes →
  parse_json (WriteError (print id) code message) = Some (value_of (response_tree id code message)).
Proof.
  intros Hid Hd Hcode. destruct (wf_response_tree id code message Hid Hd Hcode) as [Hwf Hdep].
  rewrite WriteError_print by done. by apply parse_json_line.
Qed.

(** ** Claims *)

(** C32: Requests round-trip: a request object, or a non-empty batch of them, printed by a client (any
    strings with the escapes the encoder needs, arbitrary ids and parameters within the
    nesting limit) is parsed to exactly those requests, with the ids and parameters kept as the
    raw text the client wrote, and the version and the method unchanged when they are UTF-8; any
    other byte of them is read as U+FFFD. *)
Theorem ParseRequests_roundtrip (cs : list client_request) (Hcs : Forall wf_client cs) (Hne : cs ≠ []) :
  ParseRequests (print (TArray (map request_tree cs))) = inr (map request_of cs) ∧
  ∀ c, c ∈ cs → ParseRequests (print (request_tree c)) = inr [request_of c] ∧
    (utf8 (cr_version c) → utf8 (cr_method c) →
     request_of c = mkRequest (cr_version c) (print (cr_id c)) (cr_method c) (print (cr_params c))).
Proof.
  assert (Forall (λ c, wf_tree (request_tree c) ∧ tree_depth (request_tree c) ≤ 9999)%N cs) as Htrees.
  { eapply Forall_impl; [exact Hcs|]. intros c. apply wf_request_tree. }
  split.
  - assert (parse_json (print (TArray (map request_tree cs))) = Some (value_of (TArray (map request_tree cs)))) as Hp.
    { apply parse_json_print.
      - apply wf_elements, Forall_fmap. eapply Forall_impl; [exact Htrees|]. by intros c [? _].
      - cbn [tree_depth]. unfold maxNestingDepth.
        assert (foldr (λ t, N.max (tree_depth t)) 0%N (map request_tree cs) ≤ 9999)%N; [|lia].
        clear Hcs Hne. induction Htrees as [|c cs [_ Hc] _ IH]; cbn [map foldr]; lia. }
    unfold ParseRequests, Unmarshal. cbn [print] in *. rewrite TrimSpace_brackets by (by left). cbv zeta.
    rewrite bool_decide_eq_true_2 by done. rewrite Hp. cbn [value_of unmarshal_slice].
    rewrite unmarshal_all_trees. by destruct cs.
  - intros c Hc. split; [apply ParseRequests_single; by eapply Forall_forall in Hcs|].
    intros Hv Hm. unfold request_of. by rewrite !ToValid_id.
Qed.

(** C33: Error responses round-trip: whatever request a client wrote, with any id (a string, a number,
    even an object), the error the proxy answers with any of its codes and any message is a
    JSON document that reads back as a JSON-RPC 2.0 response with the client's own id, that code
    and that message, however many characters of the message had to be escaped. Only bytes that
    are not UTF-8, as an error text may quote them, are read back as U+FFFD: what is read is
    always UTF-8, and the message itself if that is. A reply without an id reads back with a
    null one. *)
Theorem error_response_roundtrip (c : client_request) (code : Z) (message : list byte)
    (Hc : wf_client c) (Hcode : code ∈ error_codes) :
  (∃ req, ParseRequests (print (request_tree c)) = inr [req] ∧
     parse_json (WriteError (rq_ID req) code message) = Some (value_of (response_tree (cr_id c) code message))) ∧
  parse_json (WriteError [] code message) = Some (value_of (response_tree TNull code message)) ∧
  message_of (value_of (response_tree (cr_id c) code message)) = Some (ToValid message) ∧
  utf8 (ToValid message) ∧ (utf8 message → ToValid message = message).
Proof.
  split_and!; [| |done|apply ToValid_utf8|apply ToValid_id].
  - exists (request_of c). split; [by apply ParseRequests_single|]. destruct Hc as (Hid & _ & Hd & _).
    by apply WriteError_read_back.
  - change (WriteError [] code message) with (WriteError (print TNull) code message).
    by apply WriteError_read_back.
Qed.

(** C34: Decoding terminates on every body: the recursion never needs more than two steps a byte, so
    every larger bound gives the same outcome, be it a value or an error; what is read is a
    non-empty piece of the input, no value nests deeper than the decoder's limit of 10000
    levels, and what [ParseRequests] returns has at least one request and no more than the body
    has bytes, so that the loop over them ends too. *)
Theorem decoding_terminates (s : list byte) (n : nat) (Hn : 2 * length s + 2 ≤ n) :
  parse_value n maxNestingDepth s = parse_value (2 * length s + 2) maxNestingDepth s ∧
  (∀ v rest, parse_value n maxNestingDepth s = Some (v, rest) →
    s = raw_of v ++ rest ∧ length rest < length s ∧ (nesting v ≤ 10000)%N) ∧
  (∀ reqs, ParseRequests s = inr reqs → 0 < length reqs ≤ length s).
Proof.
  split; [by apply parse_value_bound|]. split; [|apply ParseRequests_count]. intros v rest H.
  split_and!; [by eapply parse_value_raw| |by eapply (value_nesting n (parse_nesting n))].
  by eapply after_length, (value_after n (parse_all_after n)).
Qed.

(** C35: The method that decides whether a request is screened is the last string member whose name
    matches "method" exactly or under case folding: members written later, under any case,
    replace the earlier ones. This holds for the request in every body that is parsed, and for
    each request of a batch: there are as many as the body has values, in their order, and one
    without such a member (or a null) has the empty method. *)
Theorem method_last_wins (body : list byte) (reqs : list Request) (Hparse : ParseRequests body = inr reqs) :
  rq_Method <$> reqs = value_method <$> request_values body.
Proof.
  unfold ParseRequests, Unmarshal, request_values in *. destruct (TrimSpace body) as [|b s]; [done|]. revert Hparse. case_bool_decide.
  - destruct (parse_json (b :: s)) as [v|]; [|done]. destruct v; try done. cbn [unmarshal_slice].
    destruct (unmarshal_all _ vs) as [|l] eqn:Hu; [done|]. intros Hl. apply unmarshal_all_methods. rewrite Hu. by destruct l.
  - destruct (parse_json (b :: s)) as [v|]; [|done]. destruct (unmarshal_request v) as [|req] eqn:Hv; [done|].
    intros [= <-]. apply unmarshal_request_method in Hv as Hm. by destruct v; try done; rewrite list_fmap_singleton, Hm.
Qed.

(** ** Concrete instances *)
Module JsonRpcExamples.

(** Text with single quotes for double ones. *)
Definition json_text (s : string) : list byte := map (λ b, if bool_decide (b = x27) then x22 else b) (to_bytes s).

Definition send_request : client_request :=
  mkClientRequest (to_bytes "2.0") (TNumber (to_bytes "17")) (to_bytes "eth_sendRawTransaction")
    (TArray [TString (to_bytes "0x02")]).
Definition chain_request : client_request :=
  mkClientRequest (to_bytes "2.0") (TString (to_bytes "a<b" ++ [xe2; x80; xa8; xc3; xa9])) (to_bytes "eth_chainId") (TArray []).

Lemma demo_requests_wf : Forall wf_client [send_request; chain_request].
Proof.
  repeat constructor; try (apply (bool_decide_unpack _); by vm_compute); done.
Qed.

Lemma ParseRequests_roundtrip_witness :
  ParseRequests (print (TArray (map request_tree [send_request; chain_request]))) =
    inr (map request_of [send_request; chain_request]) ∧
  ∀ c, c ∈ [send_request; chain_request] → ParseRequests (print (request_tree c)) = inr [request_of c] ∧
    (utf8 (cr_version c) → utf8 (cr_method c) →
     request_of c = mkRequest (cr_version c) (print (cr_id c)) (cr_method c) (print (cr_params c))).
Proof. by apply (ParseRequests_roundtrip [send_request; chain_request] demo_requests_wf). Defined.

(** An error that quotes a byte that is not UTF-8. *)
Definition quoting : list byte := to_bytes "a<b" ++ [xff; xc3; xa9; xc3].

Example quoting_read : ToValid quoting = to_bytes "a<b" ++ replacement ++ [xc3; xa9] ++ replacement.
Proof. reflexivity. Qed.

Lemma error_response_roundtrip_witness :
  (∃ req, ParseRequests (print (request_tree chain_request)) = inr [req] ∧
     parse_json (WriteError (rq_ID req) CodeTxRejected quoting) =
       Some (value_of (response_tree (cr_id chain_request) CodeTxRejected quoting))) ∧
  parse_json (WriteError [] CodeTxRejected quoting) = Some (value_of (response_tree TNull CodeTxRejected quoting)) ∧
  message_of (value_of (response_tree (cr_id chain_request) CodeTxRejected quoting)) = Some (ToValid quoting) ∧
  utf8 (ToValid quoting) ∧ (utf8 quoting → ToValid quoting = quoting).
Proof.
  apply (error_response_roundtrip chain_request CodeTxRejected quoting).
  - apply (proj1 (Forall_forall _ _) demo_requests_wf). right. by left.
  - right. right. by left.
Defined.

Lemma decoding_terminates_witness :
  parse_value 100 maxNestingDepth (to_bytes "[[1],[2,3]] ") =
    parse_value 26 maxNestingDepth (to_bytes "[[1],[2,3]] ") ∧
  (∀ v rest, parse_value 100 maxNestingDepth (to_bytes "[[1],[2,3]] ") = Some (v, rest) →
    to_bytes "[[1],[2,3]] " = raw_of v ++ rest ∧ length rest < length (to_bytes "[[1],[2,3]] ") ∧ (nesting v ≤ 10000)%N) ∧
  (∀ reqs, ParseRequests (to_bytes "[[1],[2,3]] ") = inr reqs → 0 < length reqs ≤ length (to_bytes "[[1],[2,3]] ")).
Proof. apply (decoding_terminates (to_bytes "[[1],[2,3]] ") 100). by vm_compute; lia. Defined.

Example nesting_limit :
  (λ n, bool_decide (parse_value (2 * (2 * n) + 2) 3 (replicate n x5b ++ replicate n x5d) = None)) <$> [1; 3; 4]
  = [false; false; true].
Proof. by vm_compute. Qed.

(** A request that names its method twice, the second time in capitals. *)
Definition shadowed : list byte :=
  json_text "{'method':'eth_sendRawTransaction','params':['0x02'],'METHOD':'eth_chainId'}".

(** A batch of that request and a plain one. *)
Definition shadowed_batch : list byte := x5b :: shadowed ++ x2c :: json_text "{'method':'net_version','Method':null}" ++ [x5d].

Example batch_methods :
  rq_Method <$> (match ParseRequests shadowed_batch with inr l => l | inl _ => [] end) =
  [to_bytes "eth_chainId"; to_bytes "net_version"].
Proof. by vm_compute. Qed.

Lemma method_last_wins_witness :
  rq_Method <$> (match ParseRequests shadowed_batch with inr l => l | inl _ => [] end) =
  value_method <$> request_values shadowed_batch.
Proof. apply (method_last_wins shadowed_batch). by vm_compute. Defined.

(** A single body is one value. *)
Example shadowed_method : value_method <$> request_values shadowed = [to_bytes "eth_chainId"].
Proof. by vm_compute. Qed.

Example parse_errors :
  (λ s, match ParseRequests (json_text s) with inl _ => true | inr _ => false end) <$>
    [""; "   "; "[]"; "not json"; "{'method':"; "[1]"; "{'method':7}"; "{} x"] = replicate 8 true.
Proof. by vm_compute. Qed.

Example error_text :
  WriteError [] CodeTxRejected (to_bytes "a<b") =
  json_text "{'jsonrpc':'2.0','id':null,'error':{'code':-32003,'message':'a\u003cb'}}" ++ [x0a].
Proof. by vm_compute. Qed.

End JsonRpcExamples.
