(* ===== verification/Logging.v ===== *)
(** * Package logging, and the loggers of the program

    [internal/logging/logging.go]: which settings give a logger. A logger is what [log/slog]
    makes of them: the kind of handler, the lowest level it lets through and the attributes
    added by [With]. Records that pass are appended to the program's standard error, a
    component of the world; how a handler renders a record is not modelled. *)

From Stdlib Require Import ZArith Lia.
From S2P Require Import Prelude GoLib Json JsonRpc.

(** ** [strconv] *)

Fixpoint parse_digits (s : list byte) (acc : Z) : option Z :=
  match s with
  | [] => Some acc
  | b :: r => if is_digit b then parse_digits r (acc * 10 + (byte_Z b - 48))%Z else None
  end.

(** [strconv.ParseUint(s, 10, 64)] *)
Definition ParseUint (s : list byte) : option Z :=
  match s with
  | [] => None
  | _ => n ← parse_digits s 0; if Z.ltb n (2 ^ 64) then Some n else None
  end.

Definition signed_digits (s : list byte) : option Z :=
  match s with
  | [] => None
  | b :: r =>
      if bool_decide (b = x2b) then (if bool_decide (r = []) then None else parse_digits r 0)
      else if bool_decide (b = x2d) then (if bool_decide (r = []) then None else n ← parse_digits r 0; Some (- n)%Z)
      else parse_digits s 0
  end.

(** [strconv.Atoi] *)
Definition Atoi (s : list byte) : option Z :=
  n ← signed_digits s; if Z.leb (- 2 ^ 63) n && Z.ltb n (2 ^ 63) then Some n else None.

Lemma Atoi_range s n : Atoi s = Some n → (- 2 ^ 63 ≤ n < 2 ^ 63)%Z.
Proof.
  unfold Atoi. intros (m & _ & Hm)%bind_Some. destruct (_ && _) eqn:Hr; [|done]. split_bool. injection Hm as <-. lia.
Qed.

Lemma parse_digits_ge s acc n : (0 ≤ acc)%Z → parse_digits s acc = Some n → (0 ≤ n)%Z.
Proof.
  revert acc. induction s as [|b s IH]; intros acc Hacc; simpl; [by intros [= <-]|].
  destruct (is_digit b) eqn:Hb; [|done]. unfold is_digit, byte_in in Hb. split_bool. apply IH. lia.
Qed.

Lemma ParseUint_range s n : ParseUint s = Some n → (0 ≤ n < 2 ^ 64)%Z.
Proof.
  unfold ParseUint. destruct s as [|b s]; [done|]. intros (m & Hm & Hn)%bind_Some.
  destruct (Z.ltb_spec m (2 ^ 64)); [|done]. injection Hn as <-. split; [|done]. by eapply parse_digits_ge.
Qed.

(** ** Loggers *)

Inductive LogFormat := Pretty | Text | JSON.

#[global] Instance LogFormat_eq_dec : EqDecision LogFormat.
Proof. solve_decision. Defined.

Definition LevelDebug : Z := -4.
Definition LevelInfo : Z := 0.
Definition LevelWarn : Z := 4.
Definition LevelError : Z := 8.

(** The values of attributes: strings, integers, string slices and errors. *)
Inductive AttrValue :=
| AString (s : string)
| AInt (n : Z)
| AStrings (l : list string)
| AError (e : error).

Abbreviation Attr := (string * AttrValue)%type.

(** What the program writes to standard error: a record by the handler of its format, or an error
    printed before there is a logger. *)
Inductive Line :=
| LogRecord (format : LogFormat) (level : Z) (message : string) (attrs : list Attr)
| Printed (e : error).

Record Logger := mkLogger { lg_Format : LogFormat; lg_Level : Z; lg_Attrs : list Attr }.

(** [logger.With(key, value)] *)
Definition With (lg : Logger) (a : Attr) : Logger :=
  mkLogger (lg_Format lg) (lg_Level lg) (lg_Attrs lg ++ [a]).

(** The line of a record, if the logger's level lets it through. *)
Definition log_lines (lg : Logger) (level : Z) (message : string) (attrs : list Attr) : list Line :=
  if Z.leb (lg_Level lg) level then [LogRecord (lg_Format lg) level message (lg_Attrs lg ++ attrs)] else [].

Section effects.
Context {W : Type} `{LL : Lens W (list Line)}.

(** The world with lines appended to standard error. *)
Definition written (ls : list Line) (w : W) : W := update (view w ++ ls) w.

Definition write_lines (ls : list Line) : M W () := λ w, (Ok (), written ls w).

Definition LogAt (lg : Logger) (level : Z) (message : string) (attrs : list Attr) : M W () :=
  write_lines (log_lines lg level message attrs).

Lemma view_written `{!LensLaws LL} ls w : view (written ls w) = view w ++ ls.
Proof. apply view_update. Qed.

Lemma written_nil `{!LensLaws LL} w : written [] w = w.
Proof. unfold written. rewrite app_nil_r. apply update_view. Qed.

Lemma written_app `{!LensLaws LL} ls1 ls2 w : written ls2 (written ls1 w) = written (ls1 ++ ls2) w.
Proof. unfold written. by rewrite view_update, update_update, <-app_assoc. Qed.

End effects.

(** ** [logging.New] *)

(** [strings.ToUpper] as far as it yields the ASCII letters of a level name: U+0131 is the only
    other letter whose upper case is one of them. *)
Fixpoint upper (s : list byte) : list byte :=
  match s with
  | [] => []
  | b :: r =>
      match s with
      | xc4 :: xb1 :: r2 => x49 :: upper r2
      | _ => fold_byte b :: upper r
      end
  end.

(** The text before the first sign, and the sign with what follows it. *)
Fixpoint split_sign (s : list byte) : list byte * list byte :=
  match s with
  | [] => ([], [])
  | b :: r => if bool_decide (b = x2b) || bool_decide (b = x2d) then ([], s)
              else let '(x, y) := split_sign r in (b :: x, y)
  end.

(** [slog.Level.UnmarshalText]: a level name in any case, optionally followed by an offset. *)
Definition parse_level (level : list byte) : option Z :=
  let '(name, offset) := split_sign level in
  off ← match offset with [] => Some 0%Z | _ => Atoi offset end;
  base ← (if bool_decide (upper name = to_bytes "DEBUG") then Some LevelDebug
          else if bool_decide (upper name = to_bytes "INFO") then Some LevelInfo
          else if bool_decide (upper name = to_bytes "WARN") then Some LevelWarn
          else if bool_decide (upper name = to_bytes "ERROR") then Some LevelError
          else None);
  Some (wrap_i64 (base + off)).

(** [logging.New] *)
Definition logging_New (format level : string) : error + Logger :=
  match parse_level (to_bytes level) with
  | None => inl (Wrapf "invalid log level %q: %w" [level] (Errorf "unknown level" []))
  | Some lvl =>
      if bool_decide (format = "pretty") then inr (mkLogger Pretty lvl [])
      else if bool_decide (format = "text") then inr (mkLogger Text lvl [])
      else if bool_decide (format = "json") then inr (mkLogger JSON lvl [])
      else inl (Errorf "invalid log format %q (want pretty, text or json)" [format])
  end.
