(* ===== verification/Geth.v ===== *)
(** * The go-ethereum library, as the program uses it

    go-ethereum is not part of the repository: its functions are the fields of the class
    [Geth], and what the program relies on is stated by the laws of [GethLaws], each one the
    documented behaviour of the function it names. [Toy] is a concrete instance, so that
    the hypotheses are satisfiable and the definitions run. *)

From Stdlib Require Import ZArith Lia.
From S2P Require Import Prelude GoLib.

(** [common.Address] and [common.Hash] are byte arrays. *)
Abbreviation Address := (bytes_n 20).
Abbreviation Hash := (bytes_n 32).

Abbreviation zero_address := (zero_bytes 20).
Abbreviation zero_hash := (zero_bytes 32).

Class Geth : Type := {
  (** [common] *)
  BytesToAddress : list byte → Address;
  BytesToHash : list byte → Hash;
  Hash_Big : Hash → Z;
  Address_Hex : Address → string;
  Hash_Hex : Hash → string;
  LeftPadBytes : list byte → nat → list byte;
  IsHexAddress : string → bool;
  HexToAddress : string → Address;
  (** [crypto] *)
  Keccak256 : list byte → list byte;
  Keccak256Hash : list byte → Hash;
  (** [common/hexutil] *)
  hexutil_Decode : string → error + list byte;
  hexutil_Encode : list byte → string;
  (** [core/types]: a signed transaction, its accessors, its binary decoding and the
      recovery of its sender with the latest signer of a chain. *)
  Transaction : Type;
  tx_To : Transaction → option Address;
  tx_Gas : Transaction → Z;
  tx_Value : Transaction → Z;
  tx_Data : Transaction → list byte;
  tx_Hash : Transaction → Hash;
  tx_Type : Transaction → Z;
  tx_Nonce : Transaction → Z;
  tx_ChainId : Transaction → Z;
  tx_UnmarshalBinary : list byte → error + Transaction;
  Sender : Z → Transaction → error + Address
}.

(** A hexadecimal digit in ASCII. *)
Definition is_hex_digit (b : byte) : bool :=
  let z := byte_Z b in
  (Z.leb 48 z && Z.leb z 57) || (Z.leb 65 z && Z.leb z 70) || (Z.leb 97 z && Z.leb z 102).

(** ["0x"] followed by [n] hexadecimal digits. *)
Definition hex_form (n : nat) (s : string) : Prop :=
  ∃ ds, to_bytes s = x30 :: x78 :: ds ∧ length ds = n ∧ Forall (λ b, is_hex_digit b = true) ds.

Class GethLaws (G : Geth) : Prop := {
  BytesToAddress_exact : ∀ b, length b = 20 → bytes (BytesToAddress b) = b;
  BytesToHash_exact : ∀ b, length b = 32 → bytes (BytesToHash b) = b;
  Hash_Big_be : ∀ h, Hash_Big h = be_Z (bytes h);
  LeftPadBytes_pad : ∀ b n, length b ≤ n →
    LeftPadBytes b n = replicate (n - length b) zero_byte ++ b;
  Address_Hex_form : ∀ a, hex_form 40 (Address_Hex a);
  IsHexAddress_Hex : ∀ a, IsHexAddress (Address_Hex a) = true;
  HexToAddress_Hex : ∀ a, HexToAddress (Address_Hex a) = a;
  Keccak256_length : ∀ b, length (Keccak256 b) = 32
}.

(** ** A concrete instance *)
Module Toy.

Definition nibble (z : Z) : byte :=
  let code := if Z.ltb z 10 then (48 + z)%Z else (87 + z)%Z in
  default x00 (Byte.of_N (Z.to_N code)).

Definition unnibble (b : byte) : option Z :=
  let z := byte_Z b in
  if Z.leb 48 z && Z.leb z 57 then Some (z - 48)%Z
  else if Z.leb 97 z && Z.leb z 102 then Some (z - 87)%Z
  else if Z.leb 65 z && Z.leb z 70 then Some (z - 55)%Z
  else None.

Definition hex_byte (b : byte) : list byte :=
  [nibble (byte_Z b / 16); nibble (byte_Z b mod 16)].

Fixpoint hex (l : list byte) : list byte :=
  match l with
  | [] => []
  | b :: l' => hex_byte b ++ hex l'
  end.

Fixpoint unhex (l : list byte) : option (list byte) :=
  match l with
  | [] => Some []
  | h :: l' :: rest =>
      a ← unnibble h; b ← unnibble l'; r ← unhex rest;
      c ← Byte.of_N (Z.to_N (a * 16 + b)); Some (c :: r)
  | _ => None
  end.

Definition strip_0x (l : list byte) : list byte :=
  match l with
  | x30 :: (x78 | x58) :: rest => rest
  | _ => l
  end.

(** A transaction that carries its sender: 20 bytes of sender, 20 of recipient, calldata. *)
Record transaction := Tx { sender : Address; to : option Address; data : list byte }.

Definition decode_tx (raw : list byte) : error + transaction :=
  if bool_decide (40 ≤ length raw)
  then inr (Tx (to_bytes_n 20 (take 20 raw)) (Some (to_bytes_n 20 (take 20 (drop 20 raw)))) (drop 40 raw))
  else inl (Errorf "typed transaction too short" []).

#[export] Instance geth : Geth := {|
  BytesToAddress := to_bytes_n 20;
  BytesToHash := to_bytes_n 32;
  Hash_Big h := be_Z (bytes h);
  Address_Hex a := of_bytes (x30 :: x78 :: hex (bytes a));
  Hash_Hex h := of_bytes (x30 :: x78 :: hex (bytes h));
  LeftPadBytes b n := replicate (n - length b) zero_byte ++ b;
  IsHexAddress s := match unhex (strip_0x (to_bytes s)) with
                    | Some l => bool_decide (length l = 20)
                    | None => false
                    end;
  HexToAddress s := to_bytes_n 20 (default [] (unhex (strip_0x (to_bytes s))));
  Keccak256 b := crop 32 b;
  Keccak256Hash := to_bytes_n 32;
  hexutil_Decode s := match to_bytes s with
                      | x30 :: (x78 | x58) :: rest =>
                          match unhex rest with
                          | Some l => inr l
                          | None => inl (Errorf "invalid hex string" [])
                          end
                      | _ => inl (Errorf "hex string without 0x prefix" [])
                      end;
  hexutil_Encode b := of_bytes (x30 :: x78 :: hex b);
  Transaction := transaction;
  tx_To := to;
  tx_Gas _ := 100000%Z;
  tx_Value _ := 0%Z;
  tx_Data := data;
  tx_Hash t := to_bytes_n 32 (data t);
  tx_Type _ := 2%Z;
  tx_Nonce _ := 0%Z;
  tx_ChainId _ := 1%Z;
  tx_UnmarshalBinary := decode_tx;
  Sender _ t := inr (sender t)
|}.

Definition all_bytes : list byte :=
  omap (λ n, Byte.of_N (N.of_nat n)) (seq 0 256).

Lemma elem_of_all_bytes b : b ∈ all_bytes.
Proof.
  apply list_elem_of_omap. exists (N.to_nat (Byte.to_N b)). split.
  - apply elem_of_seq. pose proof (Byte.to_N_bounded b). lia.
  - by rewrite N2Nat.id, Byte.of_to_N.
Qed.

Lemma hex_byte_ok :
  Forall (λ b, unhex (hex_byte b) = Some [b] ∧ Forall (λ d, is_hex_digit d = true) (hex_byte b)) all_bytes.
Proof. apply (bool_decide_unpack _). by vm_compute. Qed.

Lemma hex_byte_spec b :
  unhex (hex_byte b) = Some [b] ∧ Forall (λ d, is_hex_digit d = true) (hex_byte b).
Proof. exact (proj1 (Forall_forall _ _) hex_byte_ok b (elem_of_all_bytes b)). Qed.

Lemma unhex_hex l : unhex (hex l) = Some l.
Proof.
  induction l as [|b l IH]; [done|].
  destruct (hex_byte_spec b) as [Hb _]. cbn [hex hex_byte app unhex] in Hb |- *. rewrite IH.
  destruct (unnibble (nibble (byte_Z b / 16))); [|done].
  destruct (unnibble (nibble (byte_Z b mod 16))); [|done]. simpl in *.
  by destruct (Byte.of_N _); simplify_eq/=.
Qed.

Lemma hex_digits l : Forall (λ d, is_hex_digit d = true) (hex l).
Proof.
  induction l as [|b l IH]; [done|]. apply Forall_app. split; [apply hex_byte_spec|done].
Qed.

Lemma length_hex l : length (hex l) = 2 * length l.
Proof. induction l as [|b l IH]; simpl in *; [done|]. lia. Qed.

#[export] Instance laws : GethLaws geth.
Proof.
  split.
  - apply bytes_to_bytes_n.
  - apply bytes_to_bytes_n.
  - done.
  - done.
  - intros a. exists (hex (bytes a)). simpl. rewrite to_of_bytes, length_hex, length_bytes.
    split_and!; [done..|]. apply hex_digits.
  - intros a. unfold IsHexAddress, Address_Hex, geth. rewrite to_of_bytes. simpl. rewrite unhex_hex. apply bool_decide_eq_true_2, length_bytes.
  - intros a. unfold HexToAddress, Address_Hex, geth. rewrite to_of_bytes. simpl. rewrite unhex_hex. apply to_bytes_n_bytes.
  - apply length_crop.
Qed.

End Toy.
