(* ===== verification/Events.v ===== *)
(** * Package events: decoding contract events from raw logs

    [internal/events]: the four decoders the analysis runs on every log. A decoder returns
    [Some (Some ev)] for a recognised event, [Some None] for any other log, and [None] if it
    panics (an index or a slice out of range). *)

From Stdlib Require Import ZArith Lia.
From S2P Require Import Prelude GoLib Geth.

(** ** Data *)

(** [type PrivilegeKind string] and its constants. *)
Abbreviation PrivilegeKind := string (only parsing).
Definition OwnershipTransferred : PrivilegeKind := "OwnershipTransferred".
Definition Upgraded : PrivilegeKind := "Upgraded".
Definition AdminChanged : PrivilegeKind := "AdminChanged".
Definition RoleGranted : PrivilegeKind := "RoleGranted".

Record PrivilegeChange := mkPrivilegeChange {
  pc_Kind : PrivilegeKind;
  pc_Contract : Address;
  pc_Subject : Address;
  pc_Previous : Address;
  pc_Role : Hash
}.

Inductive TokenStandard := ERC20 | ERC721.

Record Transfer := mkTransfer {
  tr_Standard : TokenStandard;
  tr_Token : Address;
  tr_From : Address;
  tr_To : Address;
  tr_Amount : option Z;
  tr_TokenID : option Z
}.

Record Approval := mkApproval {
  ap_Token : Address;
  ap_Owner : Address;
  ap_Spender : Address;
  ap_Amount : Z
}.

Record ApprovalForAll := mkApprovalForAll {
  afa_Collection : Address;
  afa_Owner : Address;
  afa_Operator : Address;
  afa_Approved : bool
}.

Record FlashLoanEvent := mkFlashLoanEvent {
  fle_Protocol : string;
  fle_Lender : Address;
  fle_Token : Address;
  fle_Amount : option Z
}.

#[global] Instance TokenStandard_eq_dec : EqDecision TokenStandard.
Proof. solve_decision. Defined.
#[global] Instance Transfer_eq_dec : EqDecision Transfer.
Proof. solve_decision. Defined.
#[global] Instance PrivilegeChange_eq_dec : EqDecision PrivilegeChange.
Proof. solve_decision. Defined.

Section events.
Context `{G : Geth}.

(** ** Topics *)

Definition topic (signature : string) : Hash := Keccak256Hash (to_bytes signature).

Definition ownershipTransferredTopic : Hash := topic "OwnershipTransferred(address,address)".
Definition upgradedTopic : Hash := topic "Upgraded(address)".
Definition adminChangedTopic : Hash := topic "AdminChanged(address,address)".
Definition roleGrantedTopic : Hash := topic "RoleGranted(bytes32,address,address)".
Definition transferTopic : Hash := topic "Transfer(address,address,uint256)".
Definition approvalTopic : Hash := topic "Approval(address,address,uint256)".
Definition approvalForAllTopic : Hash := topic "ApprovalForAll(address,address,bool)".
Definition aaveV3FlashLoanTopic : Hash :=
  topic "FlashLoan(address,address,address,uint256,uint8,uint256,uint16)".
Definition balancerV2FlashLoanTopic : Hash := topic "FlashLoan(address,address,uint256,uint256)".
Definition uniswapV3FlashTopic : Hash :=
  topic "Flash(address,address,uint256,uint256,uint256,uint256)".

(** [addressArg]: the low 20 bytes of a 32-byte word. *)
Definition addressArg (word : Hash) : Address := BytesToAddress (drop 12 (bytes word)).

(** ** Privilege changes *)

(** The loop [for i := 0; i < len(data); i += 32] of [eventArgs]; [fuel] bounds its
    iterations and running out of it counts as a panic. *)
Fixpoint eventArgs_loop (fuel i : nat) (data : list byte) (args : list Hash) : option (list Hash) :=
  if bool_decide (i < length data) then
    match fuel with
    | O => None
    | S fuel =>
        w ← slice i (i + 32) data;
        eventArgs_loop fuel (i + 32) data (args ++ [BytesToHash w])
    end
  else Some args.

(** [None] is a panic, [Some None] the [(nil, false)] result. *)
Definition eventArgs (indexed : list Hash) (data : list byte) : option (option (list Hash)) :=
  if bool_decide (length data mod 32 ≠ 0) then Some None
  else args ← eventArgs_loop (length data) 0 data indexed; Some (Some args).

Record privilegeEvent := mkPrivilegeEvent {
  pe_kind : PrivilegeKind;
  pe_nargs : nat;
  pe_build : list Hash → option PrivilegeChange
}.

(** The builders leave [Kind] and [Contract] at their zero values. *)
Definition build_previous_subject (a : list Hash) : option PrivilegeChange :=
  a0 ← a !! 0; a1 ← a !! 1;
  Some (mkPrivilegeChange "" zero_address (addressArg a1) (addressArg a0) zero_hash).
Definition build_subject (a : list Hash) : option PrivilegeChange :=
  a0 ← a !! 0;
  Some (mkPrivilegeChange "" zero_address (addressArg a0) zero_address zero_hash).
Definition build_role_subject (a : list Hash) : option PrivilegeChange :=
  a0 ← a !! 0; a1 ← a !! 1;
  Some (mkPrivilegeChange "" zero_address (addressArg a1) zero_address a0).

Definition privilegeEvents : gmap Hash privilegeEvent :=
  <[roleGrantedTopic := mkPrivilegeEvent RoleGranted 3 build_role_subject]>
  (<[adminChangedTopic := mkPrivilegeEvent AdminChanged 2 build_previous_subject]>
  (<[upgradedTopic := mkPrivilegeEvent Upgraded 1 build_subject]>
  (<[ownershipTransferredTopic :=
      mkPrivilegeEvent OwnershipTransferred 2 build_previous_subject]> ∅))).

Definition DecodePrivilegeChange (contract : Address) (topics : list Hash) (data : list byte)
    : option (option PrivilegeChange) :=
  if bool_decide (length topics = 0) then Some None else
  t0 ← topics !! 0;
  match privilegeEvents !! t0 with
  | None => Some None
  | Some ev =>
      indexed ← slice 1 (length topics) topics;
      oargs ← eventArgs indexed data;
      match oargs with
      | None => Some None
      | Some args =>
          if bool_decide (length args ≠ pe_nargs ev) then Some None else
          pc ← pe_build ev args;
          Some (Some (mkPrivilegeChange (pe_kind ev) contract
            (pc_Subject pc) (pc_Previous pc) (pc_Role pc)))
      end
  end.

(** ** Transfers *)

Definition DecodeTransfer (token : Address) (topics : list Hash) (data : list byte)
    : option (option Transfer) :=
  if bool_decide (length topics = 0) then Some None else
  t0 ← topics !! 0;
  if bool_decide (t0 ≠ transferTopic) then Some None else
  if bool_decide (length topics = 3) && bool_decide (length data = 32) then
    t1 ← topics !! 1; t2 ← topics !! 2;
    Some (Some (mkTransfer ERC20 token (addressArg t1) (addressArg t2) (Some (be_Z data)) None))
  else if bool_decide (length topics = 4) && bool_decide (length data = 0) then
    t1 ← topics !! 1; t2 ← topics !! 2; t3 ← topics !! 3;
    Some (Some (mkTransfer ERC721 token (addressArg t1) (addressArg t2) None (Some (Hash_Big t3))))
  else Some None.

(** ** Approvals *)

Definition DecodeApproval (token : Address) (topics : list Hash) (data : list byte)
    : option (option Approval) :=
  if bool_decide (length topics ≠ 3) then Some None else
  t0 ← topics !! 0;
  if bool_decide (t0 ≠ approvalTopic) || bool_decide (length data ≠ 32) then Some None else
  t1 ← topics !! 1; t2 ← topics !! 2;
  Some (Some (mkApproval token (addressArg t1) (addressArg t2) (be_Z data))).

Definition DecodeApprovalForAll (collection : Address) (topics : list Hash) (data : list byte)
    : option (option ApprovalForAll) :=
  if bool_decide (length topics ≠ 3) then Some None else
  t0 ← topics !! 0;
  if bool_decide (t0 ≠ approvalForAllTopic) || bool_decide (length data ≠ 32) then Some None else
  t1 ← topics !! 1; t2 ← topics !! 2;
  Some (Some (mkApprovalForAll collection (addressArg t1) (addressArg t2)
    (bool_decide (BytesToHash data ≠ zero_hash)))).

(** ** Flash loans *)

Definition DecodeFlashLoan (lender : Address) (topics : list Hash) (data : list byte)
    : option (option FlashLoanEvent) :=
  if bool_decide (length topics = 0) then Some None else
  t0 ← topics !! 0;
  if bool_decide (t0 = aaveV3FlashLoanTopic) && bool_decide (length topics = 4)
     && bool_decide (length data = 4 * 32) then
    t2 ← topics !! 2; w ← slice 32 64 data;
    Some (Some (mkFlashLoanEvent "Aave V3" lender (addressArg t2) (Some (be_Z w))))
  else if bool_decide (t0 = balancerV2FlashLoanTopic) && bool_decide (length topics = 3)
     && bool_decide (length data = 2 * 32) then
    t2 ← topics !! 2; w ← slice 0 32 data;
    Some (Some (mkFlashLoanEvent "Balancer V2" lender (addressArg t2) (Some (be_Z w))))
  else if bool_decide (t0 = uniswapV3FlashTopic) && bool_decide (length topics = 3)
     && bool_decide (length data = 4 * 32) then
    Some (Some (mkFlashLoanEvent "Uniswap V3" lender zero_address None))
  else Some None.

End events.

(** ** No decoder panics *)
Section decoders.
Context `{G : Geth}.
Implicit Types (topics : list Hash) (data : list byte).

(** An index below the length of the slice is in range. *)
Lemma lookup_in_range {A} (l : list A) i n : length l = n → i < n → ∃ x, l !! i = Some x.
Proof. intros <- Hi. apply lookup_lt_is_Some_2 in Hi as [x Hx]. by exists x. Qed.

(** Cuts a byte string into consecutive words of [n] bytes. *)
Fixpoint words_of (k : nat) (data : list byte) : list Hash :=
  match k with
  | O => []
  | S k => BytesToHash (take 32 data) :: words_of k (drop 32 data)
  end.

Lemma eventArgs_loop_words k fuel i data args :
  length data = i + 32 * k → k ≤ fuel →
  eventArgs_loop fuel i data args = Some (args ++ words_of k (drop i data)).
Proof.
  revert fuel i args. induction k as [|k IH]; intros fuel i args Hlen Hfuel.
  - destruct fuel; simpl; rewrite bool_decide_eq_false_2 by lia; by rewrite app_nil_r.
  - destruct fuel as [|fuel]; [lia|]. simpl.
    rewrite bool_decide_eq_true_2 by lia. rewrite slice_Some by lia. simpl.
    rewrite IH by lia. rewrite <-app_assoc. simpl. rewrite drop_drop.
    by replace (i + 32 - i) with 32 by lia.
Qed.

Lemma eventArgs_words indexed data :
  length data mod 32 = 0 →
  eventArgs indexed data = Some (Some (indexed ++ words_of (length data / 32) data)).
Proof.
  intros Hmod. unfold eventArgs. rewrite bool_decide_eq_false_2 by tauto.
  pose proof (Nat.div_mod_eq (length data) 32).
  rewrite (eventArgs_loop_words (length data / 32)) by lia. by rewrite drop_0.
Qed.

Lemma eventArgs_no_panic indexed data : is_Some (eventArgs indexed data).
Proof.
  destruct (decide (length data mod 32 = 0)) as [H|H].
  - rewrite eventArgs_words by done. eauto.
  - unfold eventArgs. rewrite bool_decide_eq_true_2 by done. eauto.
Qed.

Lemma length_words_of k data : length (words_of k data) = k.
Proof. revert data. induction k; intros; simpl; auto. Qed.

(** ** Reference definitions

    What each decoder computes, by pattern matching on the layout of the log. *)
Definition transfer_of (token : Address) topics data : option Transfer :=
  match topics with
  | [t0; t1; t2] =>
      if bool_decide (t0 = transferTopic ∧ length data = 32)
      then Some (mkTransfer ERC20 token (addressArg t1) (addressArg t2) (Some (be_Z data)) None)
      else None
  | [t0; t1; t2; t3] =>
      if bool_decide (t0 = transferTopic ∧ length data = 0)
      then Some (mkTransfer ERC721 token (addressArg t1) (addressArg t2) None (Some (Hash_Big t3)))
      else None
  | _ => None
  end.

Definition approval_of (token : Address) topics data : option Approval :=
  match topics with
  | [t0; t1; t2] =>
      if bool_decide (t0 = approvalTopic ∧ length data = 32)
      then Some (mkApproval token (addressArg t1) (addressArg t2) (be_Z data)) else None
  | _ => None
  end.

Definition approval_for_all_of (collection : Address) topics data : option ApprovalForAll :=
  match topics with
  | [t0; t1; t2] =>
      if bool_decide (t0 = approvalForAllTopic ∧ length data = 32)
      then Some (mkApprovalForAll collection (addressArg t1) (addressArg t2)
             (bool_decide (BytesToHash data ≠ zero_hash)))
      else None
  | _ => None
  end.

Definition flash_loan_of (lender : Address) topics data : option FlashLoanEvent :=
  match topics with
  | [t0; _; t2; _] =>
      if bool_decide (t0 = aaveV3FlashLoanTopic ∧ length data = 128)
      then Some (mkFlashLoanEvent "Aave V3" lender (addressArg t2)
             (Some (be_Z (take 32 (drop 32 data)))))
      else None
  | [t0; _; t2] =>
      if bool_decide (t0 = balancerV2FlashLoanTopic ∧ length data = 64)
      then Some (mkFlashLoanEvent "Balancer V2" lender (addressArg t2) (Some (be_Z (take 32 data))))
      else if bool_decide (t0 = uniswapV3FlashTopic ∧ length data = 128)
      then Some (mkFlashLoanEvent "Uniswap V3" lender zero_address None)
      else None
  | _ => None
  end.

Definition privilege_of (contract : Address) topics data : option PrivilegeChange :=
  match topics with
  | [] => None
  | t0 :: indexed =>
      ev ← privilegeEvents !! t0;
      let args := indexed ++ words_of (length data / 32) data in
      if bool_decide (length data mod 32 = 0 ∧ length args = pe_nargs ev) then
        pc ← pe_build ev args;
        Some (mkPrivilegeChange (pe_kind ev) contract (pc_Subject pc) (pc_Previous pc) (pc_Role pc))
      else None
  end.

Ltac solve_decoder :=
  repeat (case_bool_decide || case_match); split_bool; simplify_eq/=;
  first [done | lia | tauto].

Lemma DecodeTransfer_ref token topics data :
  DecodeTransfer token topics data = Some (transfer_of token topics data).
Proof.
  unfold DecodeTransfer, transfer_of.
  destruct topics as [|t0 [|t1 [|t2 [|t3 [|t4 l]]]]]; simpl; solve_decoder.
Qed.

Lemma DecodeApproval_ref token topics data :
  DecodeApproval token topics data = Some (approval_of token topics data).
Proof.
  unfold DecodeApproval, approval_of.
  destruct topics as [|t0 [|t1 [|t2 [|t3 l]]]]; simpl; solve_decoder.
Qed.

Lemma DecodeApprovalForAll_ref collection topics data :
  DecodeApprovalForAll collection topics data = Some (approval_for_all_of collection topics data).
Proof.
  unfold DecodeApprovalForAll, approval_for_all_of.
  destruct topics as [|t0 [|t1 [|t2 [|t3 l]]]]; simpl; solve_decoder.
Qed.

Lemma DecodeFlashLoan_ref lender topics data :
  DecodeFlashLoan lender topics data = Some (flash_loan_of lender topics data).
Proof.
  unfold DecodeFlashLoan, flash_loan_of.
  destruct topics as [|t0 [|t1 [|t2 [|t3 [|t4 l]]]]]; simpl;
    repeat (case_bool_decide; simpl; split_bool; try tauto); try done; try lia;
    destruct_and?; rewrite slice_Some by lia; done.
Qed.

(** The four builders read exactly the arguments their event has. *)
Lemma privilegeEvents_build t0 ev args :
  privilegeEvents !! t0 = Some ev → length args = pe_nargs ev → is_Some (pe_build ev args).
Proof.
  unfold privilegeEvents. rewrite !lookup_insert_Some.
  intros [[_ <-]|[_ [[_ <-]|[_ [[_ <-]|[_ [[_ <-]|[_ H]]]]]]]] Hlen; simpl in *; [..|done].
  all: by destruct args as [|a0 [|a1 [|a2 [|a3 l]]]]; simpl in *.
Qed.

Lemma DecodePrivilegeChange_ref contract topics data :
  DecodePrivilegeChange contract topics data = Some (privilege_of contract topics data).
Proof.
  unfold DecodePrivilegeChange, privilege_of.
  destruct topics as [|t0 indexed]; [done|]. rewrite bool_decide_eq_false_2 by done.
  change ((t0 :: indexed) !! 0) with (Some t0). simpl.
  destruct (privilegeEvents !! t0) as [ev|] eqn:Hev; [|done].
  rewrite slice_Some by (simpl; lia). simpl. rewrite Nat.sub_0_r, drop_0, firstn_all.
  destruct (decide (length data mod 32 = 0)) as [Hmod|Hmod].
  - rewrite eventArgs_words by done. simpl.
    destruct (decide (length (indexed ++ words_of (length data / 32) data) = pe_nargs ev)) as [Hn|Hn].
    + destruct (privilegeEvents_build _ _ _ Hev Hn) as [pc Hpc].
      repeat case_bool_decide; try tauto. by rewrite Hpc.
    + by repeat case_bool_decide; try tauto.
  - unfold eventArgs. rewrite bool_decide_eq_true_2 by done. simpl.
    by rewrite bool_decide_eq_false_2 by tauto.
Qed.

End decoders.

#[export] Hint Rewrite @DecodeTransfer_ref @DecodeApproval_ref @DecodeApprovalForAll_ref
  @DecodeFlashLoan_ref @DecodePrivilegeChange_ref : fw_simpl.

(** ** Correctness of the decoders *)
Section properties.
Context `{G : Geth} {L : GethLaws G}.
Implicit Types (topics args : list Hash) (data : list byte).

(** ABI encodings of an address and of a uint256. *)
Definition address_word (a : Address) : Hash := to_bytes_n 32 (bytes a).
Definition uint256_word (z : Z) : Hash := to_bytes_n 32 (be_bytes 32 z).

(** The data section that holds the given words. *)
Fixpoint flatten_words (ws : list Hash) : list byte :=
  match ws with
  | [] => []
  | w :: ws => bytes w ++ flatten_words ws
  end.

Lemma addressArg_address_word a : addressArg (address_word a) = a.
Proof.
  apply bytes_inj. unfold addressArg, address_word. simpl.
  assert (drop 12 (crop 32 (bytes a)) = bytes a) as ->.
  { unfold crop. by rewrite length_bytes, drop_app_length', drop_0 by by rewrite length_replicate. }
  by rewrite BytesToAddress_exact by by rewrite length_bytes.
Qed.

Lemma length_flatten_words ws : length (flatten_words ws) = length ws * 32.
Proof.
  induction ws as [|w ws IH]; [done|]. simpl.
  rewrite length_app, length_bytes. lia.
Qed.

Lemma words_of_flatten ws : words_of (length ws) (flatten_words ws) = ws.
Proof.
  induction ws as [|w ws IH]; [done|]. simpl.
  rewrite take_app_length', drop_app_length' by by rewrite length_bytes.
  rewrite IH. f_equal. apply bytes_inj. by rewrite BytesToHash_exact by by rewrite length_bytes.
Qed.

Lemma privilege_of_split contract t0 args k :
  privilege_of contract (t0 :: take k args) (flatten_words (drop k args)) =
  privilege_of contract (t0 :: args) [].
Proof.
  unfold privilege_of. rewrite length_flatten_words, Nat.div_mul, Nat.Div0.mod_mul by lia.
  rewrite words_of_flatten. change (length (@nil byte) / 32) with 0. simpl.
  by rewrite take_drop, app_nil_r.
Qed.

End properties.

(** The topics of all recognised events, by decoder. *)
Definition privilege_topics `{Geth} : list Hash :=
  [ownershipTransferredTopic; upgradedTopic; adminChangedTopic; roleGrantedTopic].
Definition flash_loan_topics `{Geth} : list Hash :=
  [aaveV3FlashLoanTopic; balancerV2FlashLoanTopic; uniswapV3FlashTopic].
Definition event_topics `{Geth} : list Hash :=
  [transferTopic] ++ [approvalTopic] ++ [approvalForAllTopic] ++ privilege_topics ++ flash_loan_topics.

Definition recognised {A} (r : option (option A)) : nat :=
  match r with Some (Some _) => 1 | _ => 0 end.

Section exclusive.
Context `{G : Geth}.

(** A decoder that recognises a log has found one of its own topics first. *)
Definition own_topic {A} (ts : list Hash) (topics : list Hash) (r : option A) : Prop :=
  is_Some r → ∃ t0 rest, topics = t0 :: rest ∧ t0 ∈ ts.

Lemma transfer_own c topics data : own_topic [transferTopic] topics (transfer_of c topics data).
Proof. intros [? H]. unfold transfer_of in H. go_cases; set_solver. Qed.
Lemma approval_own c topics data : own_topic [approvalTopic] topics (approval_of c topics data).
Proof. intros [? H]. unfold approval_of in H. go_cases; set_solver. Qed.
Lemma approval_for_all_own c topics data :
  own_topic [approvalForAllTopic] topics (approval_for_all_of c topics data).
Proof. intros [? H]. unfold approval_for_all_of in H. go_cases; set_solver. Qed.
Lemma flash_loan_own c topics data :
  own_topic flash_loan_topics topics
    (flash_loan_of c topics data).
Proof. intros [? H]. unfold flash_loan_of, flash_loan_topics in *. go_cases; set_solver. Qed.
Lemma privilege_own c topics data :
  own_topic privilege_topics topics
    (privilege_of c topics data).
Proof.
  intros [? H]. unfold privilege_of in H. destruct topics as [|t0 rest]; [done|].
  exists t0, rest. split; [done|]. destruct (privilegeEvents !! t0) as [ev|] eqn:Hev; [|done].
  unfold privilegeEvents in Hev. rewrite !lookup_insert_Some in Hev. unfold privilege_topics.
  rewrite !elem_of_cons. naive_solver.
Qed.

Lemma own_topic_exclusive {A B} ts1 ts2 topics (r1 : option A) (r2 : option B) :
  own_topic ts1 topics r1 → own_topic ts2 topics r2 → (∀ t, t ∈ ts1 → t ∉ ts2) →
  recognised (Some r1) + recognised (Some r2) ≤ 1.
Proof.
  intros H1 H2 Hd. destruct r1 as [x|], r2 as [y|]; simpl; try lia.
  destruct (H1 (mk_is_Some _ _ eq_refl)) as (t0 & rest & -> & Ht).
  destruct (H2 (mk_is_Some _ _ eq_refl)) as (t1 & rest' & [= <- <-] & Ht').
  by destruct (Hd t0).
Qed.

End exclusive.

(** Two decoders with own topics [H1] and [H2], separated by the disjointness [Hd]. *)
Ltac exclude H1 H2 Hd :=
  let H := fresh in
  pose proof (own_topic_exclusive _ _ _ _ _ H1 H2) as H; specialize (H ltac:(
    let t := fresh in let Hi := fresh in let Hj := fresh in
    intros t Hi Hj; apply (Hd t Hi); rewrite ?elem_of_app; tauto)).

Section event_claims.
Context `{G : Geth}.

(** None of the five decoders panics, whatever the topics and the data of the log: every
    index and slice they evaluate is in range, and the word loop of [eventArgs] ends. *)
Theorem decoders_never_panic (emitter : Address) (topics : list Hash) (data : list byte) :
  is_Some (DecodeTransfer emitter topics data) ∧ is_Some (DecodeApproval emitter topics data) ∧
  is_Some (DecodeApprovalForAll emitter topics data) ∧
  is_Some (DecodePrivilegeChange emitter topics data) ∧
  is_Some (DecodeFlashLoan emitter topics data).
Proof.
  rewrite DecodeTransfer_ref, DecodeApproval_ref, DecodeApprovalForAll_ref,
    DecodePrivilegeChange_ref, DecodeFlashLoan_ref. eauto 10.
Qed.

(** A Transfer event encoded by the ABI decodes to exactly its fields: an ERC-20 transfer
    with its amount for every uint256, and an ERC-721 transfer with its token id. *)
Theorem transfer_roundtrip {L : GethLaws G} (token from to : Address) (z : Z)
    (Hz : (0 ≤ z < 2 ^ 256)%Z) :
  DecodeTransfer token [transferTopic; address_word from; address_word to] (be_bytes 32 z) =
    Some (Some (mkTransfer ERC20 token from to (Some z) None)) ∧
  DecodeTransfer token [transferTopic; address_word from; address_word to; uint256_word z] [] =
    Some (Some (mkTransfer ERC721 token from to None (Some z))).
Proof.
  assert (be_Z (be_bytes 32 z) = z) as Hbe by by apply be_Z_be_bytes.
  rewrite !DecodeTransfer_ref. unfold transfer_of.
  rewrite !bool_decide_eq_true_2 by by rewrite ?length_be_bytes.
  rewrite !addressArg_address_word, Hash_Big_be. unfold uint256_word.
  by rewrite bytes_to_bytes_n, Hbe by by rewrite length_be_bytes.
Qed.

(** A privilege event is recognised, with the same result, whether its arguments are
    indexed or not: moving the arguments from position [k] on out of the topics and into
    the data changes nothing. *)
Theorem privilege_change_indexing_irrelevant {L : GethLaws G} (contract : Address) (t0 : Hash)
    (args : list Hash) (k : nat) :
  DecodePrivilegeChange contract (t0 :: take k args) (flatten_words (drop k args)) =
  DecodePrivilegeChange contract (t0 :: args) [].
Proof. by rewrite !DecodePrivilegeChange_ref, privilege_of_split. Qed.

(** When the topics of the ten events are distinct, a log is recognised by at most one of
    the five decoders, so one event never counts as two. *)
Theorem log_recognised_once (emitter : Address) (topics : list Hash) (data : list byte)
    (Hdistinct : NoDup event_topics) :
  recognised (DecodeTransfer emitter topics data) + recognised (DecodeApproval emitter topics data) +
  recognised (DecodeApprovalForAll emitter topics data) +
  recognised (DecodePrivilegeChange emitter topics data) +
  recognised (DecodeFlashLoan emitter topics data) ≤ 1.
Proof.
  rewrite DecodeTransfer_ref, DecodeApproval_ref, DecodeApprovalForAll_ref,
    DecodePrivilegeChange_ref, DecodeFlashLoan_ref.
  unfold event_topics in Hdistinct. rewrite !NoDup_app in Hdistinct.
  destruct Hdistinct as (_ & Ht & _ & Ha & _ & Hf & _ & Hp & _).
  pose proof (transfer_own emitter topics data) as H1.
  pose proof (approval_own emitter topics data) as H2.
  pose proof (approval_for_all_own emitter topics data) as H3.
  pose proof (privilege_own emitter topics data) as H4.
  pose proof (flash_loan_own emitter topics data) as H5.
  exclude H1 H2 Ht. exclude H1 H3 Ht. exclude H1 H4 Ht. exclude H1 H5 Ht. exclude H2 H3 Ha.
  exclude H2 H4 Ha. exclude H2 H5 Ha. exclude H3 H4 Hf. exclude H3 H5 Hf. exclude H4 H5 Hp. lia.
Qed.

End event_claims.

(** ** Concrete instances *)
Module EventsExamples.
Import Toy.

Definition addr (n : Z) : Address := to_bytes_n 20 (be_bytes 20 n).

Lemma transfer_roundtrip_witness :
  DecodeTransfer (addr 1) [transferTopic; address_word (addr 2); address_word (addr 3)]
    (be_bytes 32 (2 ^ 128)) = Some (Some (mkTransfer ERC20 (addr 1) (addr 2) (addr 3) (Some (2 ^ 128)%Z) None)) ∧
  DecodeTransfer (addr 1) [transferTopic; address_word (addr 2); address_word (addr 3); uint256_word (2 ^ 128)] [] =
    Some (Some (mkTransfer ERC721 (addr 1) (addr 2) (addr 3) None (Some (2 ^ 128)%Z))).
Proof. apply (transfer_roundtrip (addr 1) (addr 2) (addr 3) (2 ^ 128)). lia. Defined.

Lemma privilege_change_indexing_witness :
  DecodePrivilegeChange (addr 9) [adminChangedTopic] (flatten_words [address_word (addr 1); address_word (addr 2)]) =
  DecodePrivilegeChange (addr 9) [adminChangedTopic; address_word (addr 1); address_word (addr 2)] [].
Proof.
  apply (privilege_change_indexing_irrelevant (addr 9) adminChangedTopic
    [address_word (addr 1); address_word (addr 2)] 0).
Defined.

Example privilege_change_decodes :
  DecodePrivilegeChange (addr 9) [adminChangedTopic] (flatten_words [address_word (addr 1); address_word (addr 2)]) =
  Some (Some (mkPrivilegeChange AdminChanged (addr 9) (addr 2) (addr 1) zero_hash)).
Proof. by vm_compute. Qed.

Lemma log_recognised_once_witness :
  recognised (DecodeTransfer (addr 1) [approvalTopic; address_word (addr 2); address_word (addr 3)] (be_bytes 32 7)) +
  recognised (DecodeApproval (addr 1) [approvalTopic; address_word (addr 2); address_word (addr 3)] (be_bytes 32 7)) +
  recognised (DecodeApprovalForAll (addr 1) [approvalTopic; address_word (addr 2); address_word (addr 3)] (be_bytes 32 7)) +
  recognised (DecodePrivilegeChange (addr 1) [approvalTopic; address_word (addr 2); address_word (addr 3)] (be_bytes 32 7)) +
  recognised (DecodeFlashLoan (addr 1) [approvalTopic; address_word (addr 2); address_word (addr 3)] (be_bytes 32 7)) ≤ 1.
Proof.
  apply log_recognised_once. apply (bool_decide_unpack _). by vm_compute.
Defined.

End EventsExamples.
