(* ===== verification/EventsAbi.v ===== *)
(** * The events of the Solidity interfaces, as logs

    The events that [internal/events] decodes, with all their arguments, and the logs the ABI
    encodes them as. The decoders are proved to invert the encoding: each event is recognised
    by its own decoder, with exactly its arguments, and by no other one. *)

From Stdlib Require Import ZArith Lia.
From S2P Require Import Prelude GoLib Geth Events.

(** ** Events *)

Inductive Event :=
| ETransfer (from to : Address) (amount : Z)
| ETransferNFT (from to : Address) (tokenID : Z)
| EApproval (owner spender : Address) (amount : Z)
| EApprovalForAll (owner operator : Address) (approved : bool)
| EOwnershipTransferred (previous new : Address)
| EUpgraded (implementation : Address)
| EAdminChanged (previous new : Address)
| ERoleGranted (role : Hash) (account sender : Address)
| EAaveV3FlashLoan (target initiator asset : Address) (amount mode premium referral : Z)
| EBalancerV2FlashLoan (recipient token : Address) (amount fee : Z)
| EUniswapV3Flash (sender recipient : Address) (amount0 amount1 paid0 paid1 : Z).


Section abi.
Context `{G : Geth}.

Definition event_topic (ev : Event) : Hash :=
  match ev with
  | ETransfer _ _ _ | ETransferNFT _ _ _ => transferTopic
  | EApproval _ _ _ => approvalTopic
  | EApprovalForAll _ _ _ => approvalForAllTopic
  | EOwnershipTransferred _ _ => ownershipTransferredTopic
  | EUpgraded _ => upgradedTopic
  | EAdminChanged _ _ => adminChangedTopic
  | ERoleGranted _ _ _ => roleGrantedTopic
  | EAaveV3FlashLoan _ _ _ _ _ _ _ => aaveV3FlashLoanTopic
  | EBalancerV2FlashLoan _ _ _ _ => balancerV2FlashLoanTopic
  | EUniswapV3Flash _ _ _ _ _ _ => uniswapV3FlashTopic
  end.

(** The arguments in the topics and those in the data, word by word. Contracts differ in which
    arguments of the privilege events they index: the first [k] ones. *)
Definition event_words (k : nat) (ev : Event) : list Hash * list Hash :=
  let split args := (take k args, drop k args) in
  match ev with
  | ETransfer from to z => ([address_word from; address_word to], [uint256_word z])
  | ETransferNFT from to z => ([address_word from; address_word to; uint256_word z], [])
  | EApproval owner spender z => ([address_word owner; address_word spender], [uint256_word z])
  | EApprovalForAll owner operator b =>
      ([address_word owner; address_word operator], [uint256_word (if b then 1 else 0)])
  | EOwnershipTransferred previous new => split [address_word previous; address_word new]
  | EUpgraded implementation => split [address_word implementation]
  | EAdminChanged previous new => split [address_word previous; address_word new]
  | ERoleGranted role account sender => split [role; address_word account; address_word sender]
  | EAaveV3FlashLoan target initiator asset amount mode premium referral =>
      ([address_word target; address_word asset; uint256_word referral],
       [address_word initiator; uint256_word amount; uint256_word mode; uint256_word premium])
  | EBalancerV2FlashLoan recipient token amount fee =>
      ([address_word recipient; address_word token], [uint256_word amount; uint256_word fee])
  | EUniswapV3Flash sender recipient a0 a1 p0 p1 =>
      ([address_word sender; address_word recipient], [uint256_word a0; uint256_word a1; uint256_word p0; uint256_word p1])
  end.

(** A log: its topics and its data. *)
Definition abi_log (k : nat) (ev : Event) : list Hash * list byte :=
  (event_topic ev :: (event_words k ev).1, flatten_words (event_words k ev).2).

(** ** What each decoder is to say of an event *)
Section expected.
Context (emitter : Address).


End expected.

(** ** Proofs *)
Context {L : GethLaws G}.







(** What the five decoders say of one log. *)
Definition decoded (emitter : Address) (log : list Hash * list byte) :=
  (DecodeTransfer emitter log.1 log.2, DecodeApproval emitter log.1 log.2, DecodeApprovalForAll emitter log.1 log.2,
   DecodePrivilegeChange emitter log.1 log.2, DecodeFlashLoan emitter log.1 log.2).

Section one_decoder.
Context (Hdistinct : NoDup event_topics) (emitter : Address) (t0 : Hash) (rest : list Hash) (data : list byte).



End one_decoder.



End abi.

(** ** Concrete instances *)
Module EventsAbiExamples.
Import Toy EventsExamples.



Example loan_decodes :
  decoded (addr 9) (abi_log 0 (EAaveV3FlashLoan (addr 1) (addr 2) (addr 3) 1000 0 5 0)) =
  (Some None, Some None, Some None, Some None, Some (Some (mkFlashLoanEvent "Aave V3" (addr 9) (addr 3) (Some 1000%Z)))).
Proof. by vm_compute. Qed.

End EventsAbiExamples.
