(* ===== verification/TxDecode.v ===== *)
(** * Package txdecode: the decoded transaction

    [internal/txdecode]. The hexadecimal, RLP and signature decoders are fields of [Geth]. *)

From Stdlib Require Import ZArith Lia.
From S2P Require Import Prelude GoLib Json Geth.

(** [type Decoded struct], over the type of transactions. *)
Record DecodedTx (T : Type) := mkDecoded {
  d_Tx : T;
  d_From : Address
}.
Arguments mkDecoded {T} _ _.
Arguments d_Tx {T} _.
Arguments d_From {T} _.
Abbreviation Decoded := (DecodedTx Transaction).

(** [json.Unmarshal(params, &args)] with a [[]string]. *)
Definition params_strings (params : list byte) : error + list string :=
  Unmarshal (unmarshal_slice (λ v, match string_field [] v with inl e => inl e | inr s => inr (of_bytes s) end)) params.

Section txdecode.
Context `{G : Geth}.

(** [if err != nil { return nil, fmt.Errorf(format+": %w", err) }] on a pure call. *)
Definition wrapped {A} (format : string) (r : error + A) : error + A :=
  match r with inl e => inl (Wrapf format [] e) | inr a => inr a end.

Definition DecodeRawTransaction (params : list byte) : error + Decoded :=
  match wrapped "params must be an array of strings: %w" (params_strings params) with
  | inl e => inl e
  | inr args =>
    match args with
    | [arg] =>
      match wrapped "invalid hex: %w" (hexutil_Decode arg) with
      | inl e => inl e
      | inr raw =>
        match wrapped "invalid transaction encoding: %w" (tx_UnmarshalBinary raw) with
        | inl e => inl e
        | inr tx =>
          match wrapped "invalid signature: %w" (Sender (tx_ChainId tx) tx) with
          | inl e => inl e
          | inr from => inr (mkDecoded tx from)
          end
        end
      end
    | _ => inl (Errorf "expected exactly 1 param, got %d" [pretty (length args)])
    end
  end.

(** A transaction is decoded exactly when there is one parameter, it is the hexadecimal
    encoding of a signed transaction, and the sender can be recovered. *)
Lemma DecodeRawTransaction_inr params d :
  DecodeRawTransaction params = inr d ↔
  ∃ arg raw, params_strings params = inr [arg] ∧ hexutil_Decode arg = inr raw ∧
    tx_UnmarshalBinary raw = inr (d_Tx d) ∧ Sender (tx_ChainId (d_Tx d)) (d_Tx d) = inr (d_From d).
Proof.
  unfold DecodeRawTransaction, wrapped. split.
  - intros H. go_cases. eauto 10.
  - intros (arg & raw & -> & -> & -> & ->). by destruct d.
Qed.

End txdecode.
