(* ===== verification/Simulate.v ===== *)
(** * Package simulate: the call trace of a transaction

    [internal/simulate]: the trace types, and the simulator that asks the node for a trace
    with [debug_traceCall]. The RPC client is a parameter ([RpcClient]). *)

From Stdlib Require Import ZArith Lia.
From S2P Require Import Prelude GoLib Deadline Geth TxDecode.

(** ** Traces *)

Record Log := mkLog {
  log_Address : Address;
  log_Topics : list Hash;
  log_Data : list byte
}.

(** One call of the trace. [cf_Error] is non-empty when the frame reverted. *)
#[warnings="-register-all"] Inductive CallFrame : Type := mkCallFrame {
  cf_Type : string;
  cf_From : Address;
  cf_To : option Address;
  cf_Value : option Z;
  cf_Gas : Z;
  cf_GasUsed : Z;
  cf_Input : list byte;
  cf_Output : list byte;
  cf_Error : string;
  cf_Logs : list Log;
  cf_Calls : list CallFrame
}.

(** Induction over a call tree: the sub-calls satisfy the property. *)
Section CallFrame_induction.
Context (P : CallFrame → Prop)
  (Hframe : ∀ f, Forall P (cf_Calls f) → P f).

Fixpoint CallFrame_ind' (f : CallFrame) : P f :=
  Hframe f ((fix calls (fs : list CallFrame) : Forall P fs :=
    match fs return Forall P fs with
    | [] => List.Forall_nil P
    | f' :: fs' => List.Forall_cons P f' fs' (CallFrame_ind' f') (calls fs')
    end) (cf_Calls f)).

End CallFrame_induction.

(** ** The simulator *)
Section simulate.
Context `{G : Geth}.

Record callArgs := mkCallArgs {
  ca_From : Address;
  ca_To : option Address;
  ca_Gas : Z;
  ca_Value : Z;
  ca_Input : list byte
}.

Definition newCallArgs (tx : Decoded) : callArgs := {|
  ca_From := d_From tx;
  ca_To := tx_To (d_Tx tx);
  ca_Gas := tx_Gas (d_Tx tx);
  ca_Value := tx_Value (d_Tx tx);
  ca_Input := tx_Data (d_Tx tx)
|}.

Record TraceConfig := mkTraceConfig { tc_tracer : string; tc_withLog : bool }.
Definition traceConfig : TraceConfig := mkTraceConfig "callTracer" true.

(** [rpc.Client.CallContext] with a [CallFrame] result: what the node answers to a method
    with the given arguments, block and tracer. An expired context is an error. *)
Record RpcClient (W : Type) := mkRpcClient {
  CallContext : Ctx → string → callArgs → string → TraceConfig → M W CallFrame
}.
Arguments CallContext {W} _ _ _ _ _ _.

(** [type Simulator interface] *)
Record Simulator (W : Type) := mkSimulator {
  Simulate : Ctx → Decoded → M W CallFrame
}.
Arguments Simulate {W} _ _ _.

Definition isTxRejection (code : Z) : bool := Z.eqb code (-32000) || Z.eqb code (-32003).

Context {W : Type} `{!Clock W} (client : RpcClient W) (timeout : Z).

Definition trace (ctx : Ctx) (args : callArgs) : M W CallFrame :=
  ctx ← WithTimeout ctx timeout;
  r ← try_err (CallContext client ctx "debug_traceCall" args "latest" traceConfig);
  match r with
  | inl err =>
      match as_rpc_error err with
      | Some (code, message) =>
          if isTxRejection code then fail (NodeError message)
          else fail (Wrapf "debug_traceCall: %w" [] err)
      | None => fail (Wrapf "debug_traceCall: %w" [] err)
      end
  | inr frame =>
      if bool_decide (cf_Type frame = "") then fail (Errorf "debug_traceCall: empty trace" [])
      else mret frame
  end.

Definition RPCSimulate (ctx : Ctx) (tx : Decoded) : M W CallFrame := trace ctx (newCallArgs tx).

Definition RPCSimulator : Simulator W := mkSimulator W RPCSimulate.

Definition probe : callArgs := mkCallArgs zero_address (Some zero_address) 100000 0 [].

Definition Verify_simulator (ctx : Ctx) : M W () :=
  _ ← wrap_err "node does not support debug_traceCall with callTracer: %w" [] (trace ctx probe);
  mret ().

(** What the simulator makes of each answer of the node. *)
Definition trace_answer (r : outcome CallFrame) : outcome CallFrame :=
  match r with
  | Ok frame => if bool_decide (cf_Type frame = "")
                then Err (Errorf "debug_traceCall: empty trace" []) else Ok frame
  | Err e => match as_rpc_error e with
             | Some (code, message) =>
                 if isTxRejection code then Err (NodeError message)
                 else Err (Wrapf "debug_traceCall: %w" [] e)
             | None => Err (Wrapf "debug_traceCall: %w" [] e)
             end
  | Panic => Panic
  end.

Lemma trace_run ctx args w :
  trace ctx args w =
  let '(r, w') := CallContext client (WithDeadline ctx (clock w + timeout)) "debug_traceCall" args "latest" traceConfig w in
  (trace_answer r, w').
Proof.
  unfold trace, mbind, M_bind, try_err, fail, WithTimeout, time_Now. simpl.
  destruct (CallContext _ _ _ _ _ _ w) as [[f|e|] w']; simpl; [by case_bool_decide| |done].
  destruct (as_rpc_error e) as [[code message]|]; [by destruct (isTxRejection code)|done].
Qed.

End simulate.
#[global] Arguments CallContext {W} _ _ _ _ _ _.
#[global] Arguments Simulate {G W} _ _ _.
