(* ===== verification/Flows.v ===== *)
(** * Package analysis, frames and flows

    [internal/analysis/flows.go] and the [Frame] type of [analysis.go]: how much of each
    asset every address sent and received. [computeFlows] keeps the Go code's index map into
    a growing slice; [None] is a panic (a nil amount or an index out of range). *)

From Stdlib Require Import ZArith Lia.
From S2P Require Import Prelude GoLib Geth Events.

(** ** Frames *)

Record Frame := mkFrame {
  f_Type : string;
  f_From : Address;
  f_To : Address;
  f_Value : option Z;
  f_Depth : nat
}.

Definition IsCall (f : Frame) : bool :=
  bool_decide (f_Type f = "CALL") || bool_decide (f_Type f = "STATICCALL") ||
  bool_decide (f_Type f = "DELEGATECALL") || bool_decide (f_Type f = "CALLCODE").

Definition IsCreate (f : Frame) : bool :=
  bool_decide (f_Type f = "CREATE") || bool_decide (f_Type f = "CREATE2").

(** ** Flows *)

Definition ETH : Address := zero_address.

Record Flow := mkFlow {
  fl_Asset : Address;
  fl_Holder : Address;
  fl_Out : Z;
  fl_In : Z
}.

#[global] Instance Flow_eq_dec : EqDecision Flow.
Proof. solve_decision. Defined.

Definition NetOut (f : Flow) : Z := fl_Out f - fl_In f.

(** The local variables [index] and [flows] of [computeFlows]. *)
Record flow_state := mkFlowState {
  index : gmap (Address * Address) nat;
  flows : list Flow
}.

(** The closure [flow]: the position of the flow, added to the slice when it is new. *)
Definition flow (asset holder : Address) (st : flow_state) : nat * flow_state :=
  let k := (asset, holder) in
  match index st !! k with
  | Some i => (i, st)
  | None =>
      let i := length (flows st) in
      (i, mkFlowState (<[k := i]> (index st)) (flows st ++ [mkFlow asset holder 0 0]))
  end.

(** [out.Out.Add(out.Out, amount)] and [in.In.Add(in.In, amount)] through the pointer
    [&flows[i]]. *)
Definition add_out (i : nat) (amount : Z) (st : flow_state) : option flow_state :=
  f ← flows st !! i;
  Some (mkFlowState (index st)
    (<[i := mkFlow (fl_Asset f) (fl_Holder f) (fl_Out f + amount) (fl_In f)]> (flows st))).
Definition add_in (i : nat) (amount : Z) (st : flow_state) : option flow_state :=
  f ← flows st !! i;
  Some (mkFlowState (index st)
    (<[i := mkFlow (fl_Asset f) (fl_Holder f) (fl_Out f) (fl_In f + amount)]> (flows st))).

(** The closure [move]. A nil [amount] panics when it is read. *)
Definition move (asset from to : Address) (amount : option Z) (st : flow_state) : option flow_state :=
  if bool_decide (from = to) then Some st else
  let '(i, st) := flow asset from st in
  a ← amount; st ← add_out i a st;
  let '(j, st) := flow asset to st in
  add_in j a st.

Definition moves_eth (f : Frame) : bool :=
  bool_decide (f_Type f = "CALL") || bool_decide (f_Type f = "CREATE") ||
  bool_decide (f_Type f = "CREATE2") || bool_decide (f_Type f = "SELFDESTRUCT").

Definition flow_frame (st : flow_state) (f : Frame) : option flow_state :=
  if moves_eth f then
    match f_Value f with
    | Some v => move ETH (f_From f) (f_To f) (Some v) st
    | None => Some st
    end
  else Some st.

Definition flow_transfer (st : flow_state) (t : Transfer) : option flow_state :=
  if bool_decide (tr_Standard t = ERC20)
  then move (tr_Token t) (tr_From t) (tr_To t) (tr_Amount t) st
  else Some st.

Definition computeFlows (frames : list Frame) (transfers : list Transfer) : option (list Flow) :=
  st ← foldO flow_frame frames (mkFlowState ∅ []);
  st ← foldO flow_transfer transfers st;
  Some (flows st).

(** ** Reference definition

    The movements of value in order, and a table updated by each of them. *)
Record Move := mkMove { mv_Asset : Address; mv_From : Address; mv_To : Address; mv_Amount : Z }.

Definition eth_move (f : Frame) : option Move :=
  if moves_eth f then v ← f_Value f; Some (mkMove ETH (f_From f) (f_To f) v) else None.
Definition erc20_move (t : Transfer) : option Move :=
  if bool_decide (tr_Standard t = ERC20)
  then a ← tr_Amount t; Some (mkMove (tr_Token t) (tr_From t) (tr_To t) a) else None.

(** The movements between two different addresses. *)
Definition moves_of (frames : list Frame) (transfers : list Transfer) : list Move :=
  filter (λ m, mv_From m ≠ mv_To m) (omap eth_move frames ++ omap erc20_move transfers).

(** An ERC-20 transfer has an amount. *)
Definition wf_transfer (t : Transfer) : Prop := tr_Standard t = ERC20 → is_Some (tr_Amount t).

Definition key (f : Flow) : Address * Address := (fl_Asset f, fl_Holder f).

Fixpoint bump (k : Address * Address) (out inn : Z) (fs : list Flow) : list Flow :=
  match fs with
  | [] => [mkFlow k.1 k.2 out inn]
  | f :: fs' =>
      if bool_decide (key f = k)
      then mkFlow (fl_Asset f) (fl_Holder f) (fl_Out f + out) (fl_In f + inn) :: fs'
      else f :: bump k out inn fs'
  end.

Definition bump_move (fs : list Flow) (m : Move) : list Flow :=
  bump (mv_Asset m, mv_To m) 0 (mv_Amount m) (bump (mv_Asset m, mv_From m) (mv_Amount m) 0 fs).

(** What an address sends and receives of an asset, over a list of movements. *)
Definition sent (k : Address * Address) (ms : list Move) : Z :=
  list_sum_Z ((λ m, if bool_decide ((mv_Asset m, mv_From m) = k) then mv_Amount m else 0%Z) <$> ms).
Definition received (k : Address * Address) (ms : list Move) : Z :=
  list_sum_Z ((λ m, if bool_decide ((mv_Asset m, mv_To m) = k) then mv_Amount m else 0%Z) <$> ms).

(** The (asset, holder) pairs of the movements, in order. *)
Definition move_keys (ms : list Move) : list (Address * Address) :=
  ms ≫= λ m, [(mv_Asset m, mv_From m); (mv_Asset m, mv_To m)].

(** ** The index map agrees with the slice *)

Definition flow_inv (st : flow_state) : Prop :=
  ∀ k i, index st !! k = Some i ↔ (key <$> flows st) !! i = Some k.

Definition add_at (i : nat) (out inn : Z) (st : flow_state) : option flow_state :=
  f ← flows st !! i;
  Some (mkFlowState (index st)
    (<[i := mkFlow (fl_Asset f) (fl_Holder f) (fl_Out f + out) (fl_In f + inn)]> (flows st))).

Lemma add_out_at i a st : add_out i a st = add_at i a 0 st.
Proof. unfold add_out, add_at. destruct (flows st !! i); simpl; [|done]. by rewrite Z.add_0_r. Qed.
Lemma add_in_at i a st : add_in i a st = add_at i 0 a st.
Proof. unfold add_in, add_at. destruct (flows st !! i); simpl; [|done]. by rewrite Z.add_0_r. Qed.

Lemma bump_absent k out inn fs :
  k ∉ key <$> fs → bump k out inn fs = fs ++ [mkFlow k.1 k.2 out inn].
Proof.
  induction fs as [|f fs IH]; intros Hk; simpl; [done|].
  rewrite bool_decide_eq_false_2 by set_solver. by rewrite IH by set_solver.
Qed.

Lemma bump_present k out inn fs i f :
  fs !! i = Some f → key f = k → (∀ j, (key <$> fs) !! j = Some k → j = i) →
  bump k out inn fs =
  <[i := mkFlow (fl_Asset f) (fl_Holder f) (fl_Out f + out) (fl_In f + inn)]> fs.
Proof.
  revert i. induction fs as [|f' fs IH]; intros i Hi Hk Huniq; [done|]. simpl.
  destruct i as [|i]; simplify_eq/=.
  - by rewrite bool_decide_eq_true_2.
  - rewrite bool_decide_eq_false_2.
    + f_equal. apply IH; [done..|]. intros j Hj. by specialize (Huniq (S j) Hj) as [= ->].
    + intros Hk'. assert (0 = S i) by (apply Huniq; simpl; congruence). done.
Qed.

Lemma keys_bump k out inn fs : key <$> bump k out inn fs = add_new (key <$> fs) k.
Proof.
  unfold add_new. induction fs as [|f fs IH]; [by destruct k|].
  cbn [bump]. destruct (decide (key f = k)) as [Hk|Hk].
  - rewrite (bool_decide_eq_true_2 (key f = k)) by done. rewrite !fmap_cons.
    rewrite (bool_decide_eq_true_2 (k ∈ _)) by (rewrite <-Hk; left). done.
  - rewrite (bool_decide_eq_false_2 (key f = k)) by done. rewrite !fmap_cons, IH.
    destruct (decide (k ∈ key <$> fs)).
    + rewrite !bool_decide_eq_true_2; [done|by right|done].
    + rewrite !bool_decide_eq_false_2; [done|set_solver|done].
Qed.

Lemma flow_inv_keys st st' :
  flow_inv st → index st' = index st → key <$> flows st' = key <$> flows st → flow_inv st'.
Proof. intros Hinv Hi Hk k i. by rewrite Hi, Hk. Qed.

(** Finding or adding a flow and then adding to it is one [bump]. *)
Lemma flow_add_at asset holder out inn st :
  flow_inv st →
  ∃ st', (let '(i, st1) := flow asset holder st in add_at i out inn st1) = Some st' ∧
    flows st' = bump (asset, holder) out inn (flows st) ∧ flow_inv st'.
Proof.
  intros Hinv. unfold flow. destruct (index st !! (asset, holder)) as [i|] eqn:Hi.
  - pose proof Hi as Hkey. apply Hinv, list_lookup_fmap_Some in Hkey as (f & Hkf & Hf).
    unfold add_at. rewrite Hf. simpl. eexists. split; [done|].
    assert (bump (asset, holder) out inn (flows st) =
      <[i := mkFlow (fl_Asset f) (fl_Holder f) (fl_Out f + out) (fl_In f + inn)]> (flows st)) as Hb.
    { apply bump_present; [done..|]. intros j Hj%Hinv. congruence. }
    split; [done|]. eapply flow_inv_keys; [done..|]. simpl. rewrite list_fmap_insert.
    apply list_insert_id. rewrite list_lookup_fmap, Hf. done.
  - assert ((asset, holder) ∉ key <$> flows st) as Hnew.
    { intros [j Hj]%list_elem_of_lookup. apply Hinv in Hj. congruence. }
    unfold add_at. cbn [flows index]. rewrite lookup_app_r, Nat.sub_diag by lia. simpl.
    eexists. split; [done|]. cbn [flows index].
    rewrite insert_app_r_alt, Nat.sub_diag by lia. simpl.
    rewrite bump_absent by done. split; [done|].
    intros k i. cbn [flows index]. rewrite fmap_app. simpl.
    rewrite lookup_insert_Some, lookup_snoc_Some, length_fmap, (Hinv k i).
    unfold key at 3. simpl. split.
    + intros [[<- <-]|[Hne Hk]]; [auto|]. left. split; [|done].
      apply lookup_lt_Some in Hk. by rewrite length_fmap in Hk.
    + intros [[Hlt Hk]|[-> <-]]; [right|by left]. split; [|done]. intros <-.
      apply Hnew, list_elem_of_lookup. eauto.
Qed.

Lemma move_spec asset from to a st :
  flow_inv st →
  ∃ st', move asset from to (Some a) st = Some st' ∧ flow_inv st' ∧
    flows st' = if bool_decide (from = to) then flows st
                else bump_move (flows st) (mkMove asset from to a).
Proof.
  intros Hinv. unfold move. case_bool_decide; [by eauto|].
  destruct (flow_add_at asset from a 0 st Hinv) as (st1 & H1 & Hf1 & Hinv1).
  destruct (flow asset from st) as [i st0]. simpl. rewrite add_out_at, H1. simpl.
  destruct (flow_add_at asset to 0 a st1 Hinv1) as (st2 & H2 & Hf2 & Hinv2).
  destruct (flow asset to st1) as [j st3]. rewrite add_in_at, H2.
  exists st2. split_and!; [done..|]. unfold bump_move. simpl. by rewrite <-Hf1.
Qed.

(** One step of either loop performs at most one movement. *)
Definition flow_step {A} (step : flow_state → A → option flow_state) (mv : A → option Move) (x : A) : Prop :=
  ∀ st, flow_inv st → ∃ st', step st x = Some st' ∧ flow_inv st' ∧
    flows st' = match mv x with
                | Some m => if bool_decide (mv_From m = mv_To m) then flows st else bump_move (flows st) m
                | None => flows st
                end.

Lemma flow_loop {A} step (mv : A → option Move) xs st :
  Forall (flow_step step mv) xs → flow_inv st →
  ∃ st', foldO step xs st = Some st' ∧ flow_inv st' ∧
    flows st' = foldl bump_move (flows st) (filter (λ m, mv_From m ≠ mv_To m) (omap mv xs)).
Proof.
  intros Hsteps. revert st. induction Hsteps as [|x xs Hx _ IH]; intros st Hinv; [by eauto|].
  simpl. destruct (Hx st Hinv) as (st1 & -> & Hinv1 & Hf1). simpl.
  destruct (IH st1 Hinv1) as (st' & -> & Hinv' & Hf'). exists st'. split_and!; [done..|].
  rewrite Hf', Hf1. destruct (mv x) as [m|]; simpl; [|done].
  destruct (decide (mv_From m = mv_To m)).
  - rewrite bool_decide_eq_true_2 by done. by rewrite filter_cons_False by tauto.
  - rewrite bool_decide_eq_false_2 by done. by rewrite filter_cons_True by done.
Qed.

Lemma flow_frame_step f : flow_step flow_frame eth_move f.
Proof.
  intros st Hinv. unfold flow_frame, eth_move.
  destruct (moves_eth f), (f_Value f) as [v|]; simpl; [|by eauto..]. by apply move_spec.
Qed.

Lemma flow_transfer_step t : wf_transfer t → flow_step flow_transfer erc20_move t.
Proof.
  intros Ht st Hinv. unfold flow_transfer, erc20_move. case_bool_decide as Hstd; [|by eauto].
  destruct (Ht Hstd) as [a ->]. simpl. by apply move_spec.
Qed.

(** The optimised table is the reference table. *)
Lemma computeFlows_ref frames transfers :
  Forall wf_transfer transfers →
  computeFlows frames transfers = Some (foldl bump_move [] (moves_of frames transfers)).
Proof.
  intros Hwf. unfold computeFlows, moves_of.
  assert (flow_inv (mkFlowState ∅ [])) as Hinv by by intros k i; simpl; rewrite lookup_empty.
  destruct (flow_loop flow_frame eth_move frames _ (Forall_true _ _ flow_frame_step) Hinv) as (st1 & -> & Hinv1 & Hf1). simpl.
  destruct (flow_loop flow_transfer erc20_move transfers st1
    (Forall_impl _ _ _ Hwf flow_transfer_step) Hinv1) as (st2 & -> & _ & Hf2). simpl.
  by rewrite Hf2, Hf1, filter_app, foldl_app.
Qed.

(** ** What the table says of the movements *)

(** The sum of a field over the flows whose key is selected. *)
Definition sum_where (P : Address * Address → bool) (g : Flow → Z) (fs : list Flow) : Z :=
  list_sum_Z ((λ f, if P (key f) then g f else 0%Z) <$> fs).

Lemma sum_where_cons P g f fs :
  sum_where P g (f :: fs) = ((if P (key f) then g f else 0) + sum_where P g fs)%Z.
Proof. done. Qed.

(** [g] is additive when updating a flow by [(out, inn)] changes it by [d]. *)
Lemma sum_where_bump P g d k out inn fs :
  (∀ f, g (mkFlow (fl_Asset f) (fl_Holder f) (fl_Out f + out) (fl_In f + inn)) = (g f + d)%Z) →
  g (mkFlow k.1 k.2 out inn) = d →
  sum_where P g (bump k out inn fs) = (sum_where P g fs + if P k then d else 0)%Z.
Proof.
  intros Hadd Hnew. unfold sum_where. induction fs as [|f fs IH]; cbn [bump].
  - simpl. rewrite Hnew. unfold key. simpl. destruct k; simpl. case_match; lia.
  - destruct (decide (key f = k)) as [<-|Hk].
    + rewrite (bool_decide_eq_true_2 (key f = key f)) by done. rewrite !fmap_cons.
      cbn [list_sum_Z foldr]. rewrite Hadd.
      change (key (mkFlow (fl_Asset f) (fl_Holder f) _ _)) with (key f). case_match; lia.
    + rewrite (bool_decide_eq_false_2 (key f = k)) by done. rewrite !fmap_cons.
      cbn [list_sum_Z foldr]. fold list_sum_Z. unfold list_sum_Z in *. lia.
Qed.

Definition out_of (k : Address * Address) : list Flow → Z := sum_where (λ k', bool_decide (k' = k)) fl_Out.
Definition in_of (k : Address * Address) : list Flow → Z := sum_where (λ k', bool_decide (k' = k)) fl_In.

(** The net outflow of an asset over all its holders. *)
Definition asset_net (asset : Address) : list Flow → Z :=
  sum_where (λ k, bool_decide (k.1 = asset)) NetOut.

Lemma out_of_bump k k' out inn fs :
  out_of k (bump k' out inn fs) = (out_of k fs + if bool_decide (k' = k) then out else 0)%Z.
Proof. by apply sum_where_bump. Qed.

Lemma in_of_bump k k' out inn fs :
  in_of k (bump k' out inn fs) = (in_of k fs + if bool_decide (k' = k) then inn else 0)%Z.
Proof. by apply sum_where_bump. Qed.

Lemma asset_net_bump asset k out inn fs :
  asset_net asset (bump k out inn fs) =
  (asset_net asset fs + if bool_decide (k.1 = asset) then out - inn else 0)%Z.
Proof. apply (sum_where_bump (λ k, bool_decide (k.1 = asset)) NetOut (out - inn)); [|done]. intros f. unfold NetOut. simpl. lia. Qed.

Lemma sent_cons k m ms :
  sent k (m :: ms) = ((if bool_decide ((mv_Asset m, mv_From m) = k) then mv_Amount m else 0) + sent k ms)%Z.
Proof. done. Qed.
Lemma received_cons k m ms :
  received k (m :: ms) = ((if bool_decide ((mv_Asset m, mv_To m) = k) then mv_Amount m else 0) + received k ms)%Z.
Proof. done. Qed.

Lemma out_of_moves k ms fs : out_of k (foldl bump_move fs ms) = (out_of k fs + sent k ms)%Z.
Proof.
  revert fs. induction ms as [|m ms IH]; intros fs; [unfold sent; simpl; lia|].
  rewrite sent_cons. simpl. rewrite IH. unfold bump_move. rewrite !out_of_bump.
  repeat case_bool_decide; lia.
Qed.

Lemma in_of_moves k ms fs : in_of k (foldl bump_move fs ms) = (in_of k fs + received k ms)%Z.
Proof.
  revert fs. induction ms as [|m ms IH]; intros fs; [unfold received; simpl; lia|].
  rewrite received_cons. simpl. rewrite IH. unfold bump_move. rewrite !in_of_bump.
  repeat case_bool_decide; lia.
Qed.

Lemma keys_moves ms fs :
  key <$> foldl bump_move fs ms = foldl add_new (key <$> fs) (move_keys ms).
Proof.
  revert fs. induction ms as [|m ms IH]; intros fs; [done|]. simpl. rewrite IH.
  unfold bump_move. by rewrite !keys_bump.
Qed.

Lemma sum_where_none P g fs : (∀ f, f ∈ fs → P (key f) = false) → sum_where P g fs = 0%Z.
Proof.
  induction fs as [|f fs IH]; intros Hf; [done|]. rewrite sum_where_cons, Hf by left.
  rewrite IH; [done|]. intros f' Hf'. apply Hf. by right.
Qed.

(** With distinct keys, the flow of a key carries the whole sum. *)
Lemma sum_where_unique g fs f :
  NoDup (key <$> fs) → f ∈ fs → sum_where (λ k, bool_decide (k = key f)) g fs = g f.
Proof.
  induction fs as [|f' fs IH]; [by intros _ ?%not_elem_of_nil|]. rewrite fmap_cons, NoDup_cons.
  rewrite sum_where_cons. intros [Hnin Hnd] [->|Hin]%elem_of_cons.
  - rewrite bool_decide_eq_true_2 by done.
    rewrite sum_where_none; [lia|]. intros f Hf. apply bool_decide_eq_false_2.
    intros Heq. apply Hnin. rewrite <-Heq. by apply list_elem_of_fmap_2.
  - rewrite IH by done. rewrite bool_decide_eq_false_2; [done|].
    intros Heq. apply Hnin. rewrite Heq. by apply list_elem_of_fmap_2.
Qed.

Lemma asset_net_moves asset ms fs : asset_net asset (foldl bump_move fs ms) = asset_net asset fs.
Proof.
  revert fs. induction ms as [|m ms IH]; intros fs; simpl; [done|]. rewrite IH.
  unfold bump_move. rewrite !asset_net_bump. simpl. case_bool_decide; lia.
Qed.

(** ** Correctness of the flows *)

Lemma computeFlows_keys frames transfers fs :
  Forall wf_transfer transfers → computeFlows frames transfers = Some fs →
  key <$> fs = foldl add_new [] (move_keys (moves_of frames transfers)).
Proof. intros Hwf. rewrite computeFlows_ref by done. intros [= <-]. by rewrite keys_moves. Qed.

Lemma computeFlows_nodup frames transfers fs :
  Forall wf_transfer transfers → computeFlows frames transfers = Some fs → NoDup (key <$> fs).
Proof. intros Hwf Hfs. rewrite (computeFlows_keys _ _ _ Hwf Hfs). apply NoDup_add_new, NoDup_nil_2. Qed.

Lemma computeFlows_amounts frames transfers fs f :
  Forall wf_transfer transfers → computeFlows frames transfers = Some fs → f ∈ fs →
  fl_Out f = sent (key f) (moves_of frames transfers) ∧
  fl_In f = received (key f) (moves_of frames transfers).
Proof.
  intros Hwf Hfs Hin. pose proof (computeFlows_nodup _ _ _ Hwf Hfs) as Hnd.
  rewrite computeFlows_ref in Hfs by done. injection Hfs as <-.
  rewrite <-(sum_where_unique fl_Out _ _ Hnd Hin), <-(sum_where_unique fl_In _ _ Hnd Hin).
  fold (out_of (key f)) (in_of (key f)). by rewrite out_of_moves, in_of_moves.
Qed.

(** C12: On transfers the decoder produces, [computeFlows] does not panic and its slice is the
    ledger of the transaction: one entry per (asset, holder) pair that takes part in a
    movement, in order of first appearance, holding exactly the sums the holder sent and
    received; movements from an address to itself do not count. *)
Theorem computeFlows_ledger (frames : list Frame) (transfers : list Transfer)
    (Hwf : Forall wf_transfer transfers) :
  ∃ fs, computeFlows frames transfers = Some fs ∧
    key <$> fs = foldl add_new [] (move_keys (moves_of frames transfers)) ∧
    ∀ f, f ∈ fs →
      fl_Out f = sent (key f) (moves_of frames transfers) ∧
      fl_In f = received (key f) (moves_of frames transfers).
Proof.
  pose proof (computeFlows_ref frames transfers Hwf) as Hfs. eexists. split; [exact Hfs|].
  eauto using computeFlows_keys, computeFlows_amounts.
Qed.

(** C36: Flows conserve every asset: summed over all holders, the net outflow of an asset is zero. *)
Theorem computeFlows_conserves (frames : list Frame) (transfers : list Transfer) (fs : list Flow)
    (asset : Address) (Hwf : Forall wf_transfer transfers)
    (Hfs : computeFlows frames transfers = Some fs) : asset_net asset fs = 0%Z.
Proof.
  rewrite computeFlows_ref in Hfs by done. injection Hfs as <-. by rewrite asset_net_moves.
Qed.

(** ** Concrete instances *)
Module FlowsExamples.
Import EventsExamples.

Definition frames : list Frame :=
  [mkFrame "CALL" (addr 1) (addr 2) (Some 5%Z) 0; mkFrame "DELEGATECALL" (addr 2) (addr 3) (Some 5%Z) 1;
   mkFrame "CALL" (addr 2) (addr 1) (Some 2%Z) 1].
Definition transfers : list Transfer :=
  [mkTransfer ERC20 (addr 9) (addr 1) (addr 2) (Some 7%Z) None;
   mkTransfer ERC721 (addr 8) (addr 1) (addr 2) None (Some 7%Z);
   mkTransfer ERC20 (addr 9) (addr 3) (addr 3) (Some 4%Z) None].

Lemma transfers_wf : Forall wf_transfer transfers.
Proof. repeat constructor; intros ?; done || eauto. Qed.

Example flows_run : computeFlows frames transfers =
  Some [mkFlow ETH (addr 1) 5 2; mkFlow ETH (addr 2) 2 5; mkFlow (addr 9) (addr 1) 7 0;
        mkFlow (addr 9) (addr 2) 0 7].
Proof. by vm_compute. Qed.

Lemma computeFlows_ledger_witness : ∃ fs, computeFlows frames transfers = Some fs ∧
    key <$> fs = foldl add_new [] (move_keys (moves_of frames transfers)) ∧
    ∀ f, f ∈ fs →
      fl_Out f = sent (key f) (moves_of frames transfers) ∧
      fl_In f = received (key f) (moves_of frames transfers).
Proof. apply (computeFlows_ledger frames transfers). apply transfers_wf. Defined.

Lemma computeFlows_conserves_witness :
  asset_net ETH [mkFlow ETH (addr 1) 5 2; mkFlow ETH (addr 2) 2 5; mkFlow (addr 9) (addr 1) 7 0;
    mkFlow (addr 9) (addr 2) 0 7] = 0%Z.
Proof. apply (computeFlows_conserves frames transfers _ ETH transfers_wf). by vm_compute. Defined.

End FlowsExamples.
