(* ===== verification/FlashLoans.v ===== *)
(** * Package analysis, flash loans

    [internal/analysis/flashloan.go]: loans recognised from the transfers of a transaction,
    and their union with the loans announced by protocol events. *)

From Stdlib Require Import ZArith Lia.
From S2P Require Import Prelude GoLib Geth Events Flows.

Definition RepaidPattern : string := "borrow-and-repay pattern".

Record FlashLoan := mkFlashLoan {
  ln_Lender : Address;
  ln_Token : Address;
  ln_Amount : option Z;
  ln_Source : string
}.

(** The condition of the inner loop: [back] returns the token to the lender of [out]. *)
Definition comes_back (out back : Transfer) : bool :=
  bool_decide (tr_Standard back = ERC20) && bool_decide (tr_Token back = tr_Token out) &&
  bool_decide (tr_To back = tr_From out) && bool_decide (tr_From back ≠ tr_From out).

(** The inner loop over [transfers[i+1:]]; [None] is a panic on a nil amount. *)
Definition repaid_amount (out : Transfer) (rest : list Transfer) : option Z :=
  foldO (λ repaid back, if comes_back out back then a ← tr_Amount back; Some (repaid + a)%Z
                        else Some repaid) rest 0%Z.

(** The outer loop, with its [seen] map and its [loans] slice. *)
Fixpoint findRepaidLoans_loop (ts : list Transfer) (seen : gset (Address * Address))
    (loans : list FlashLoan) : option (list FlashLoan) :=
  match ts with
  | [] => Some loans
  | out :: rest =>
      if bool_decide (tr_Standard out ≠ ERC20) || bool_decide (tr_From out = zero_address) ||
         bool_decide (tr_From out = tr_To out)
      then findRepaidLoans_loop rest seen loans else
      amount ← tr_Amount out;
      if Z.eqb (Z.sgn amount) 0 then findRepaidLoans_loop rest seen loans else
      if bool_decide ((tr_From out, tr_Token out) ∈ seen) then findRepaidLoans_loop rest seen loans else
      repaid ← repaid_amount out rest;
      if Z.leb amount repaid
      then findRepaidLoans_loop rest ({[(tr_From out, tr_Token out)]} ∪ seen)
             (loans ++ [mkFlashLoan (tr_From out) (tr_Token out) (Some amount) RepaidPattern])
      else findRepaidLoans_loop rest seen loans
  end.

Definition findRepaidLoans (transfers : list Transfer) : option (list FlashLoan) :=
  findRepaidLoans_loop transfers ∅ [].

(** [named] collects the lenders of the announced loans. *)
Definition named_lenders (announced : list FlashLoan) : gset Address :=
  foldl (λ named l, {[ln_Lender l]} ∪ named) ∅ announced.

Definition mergeFlashLoans (announced repaid : list FlashLoan) : list FlashLoan :=
  let named := named_lenders announced in
  foldl (λ loans l, if bool_decide (ln_Lender l ∉ named) then loans ++ [l] else loans) announced repaid.

(** ** Specification *)

Definition loan_key (l : FlashLoan) : Address * Address := (ln_Lender l, ln_Token l).

(** What comes back to the lender of [out] over the later transfers. *)
Definition back_sum (out : Transfer) (rest : list Transfer) : Z :=
  list_sum_Z ((λ back, if comes_back out back then default 0%Z (tr_Amount back) else 0%Z) <$> rest).

(** [out] lends [amount]: an ERC-20 amount leaves a real address for another one. *)
Definition lends (out : Transfer) (amount : Z) : Prop :=
  tr_Standard out = ERC20 ∧ tr_From out ≠ zero_address ∧ tr_From out ≠ tr_To out ∧
  tr_Amount out = Some amount ∧ amount ≠ 0%Z.

(** Some transfer of [ts] lends from [k.1] an amount of [k.2] that the later transfers return. *)
Definition repaid_loan (ts : list Transfer) (k : Address * Address) (amount : Z) : Prop :=
  ∃ pre out post, ts = pre ++ out :: post ∧ lends out amount ∧ k = (tr_From out, tr_Token out) ∧
    (amount ≤ back_sum out post)%Z.

Lemma back_sum_cons out t rest :
  back_sum out (t :: rest) =
  ((if comes_back out t then default 0 (tr_Amount t) else 0) + back_sum out rest)%Z.
Proof. done. Qed.

Lemma repaid_amount_sum out rest :
  Forall wf_transfer rest → repaid_amount out rest = Some (back_sum out rest).
Proof.
  intros Hwf. unfold repaid_amount.
  assert (∀ acc, foldO (λ repaid back, if comes_back out back
    then a ← tr_Amount back; Some (repaid + a)%Z else Some repaid) rest acc =
    Some (acc + back_sum out rest)%Z) as Hgen; [|by rewrite Hgen].
  induction Hwf as [|t rest Ht _ IH]; intros acc; [unfold back_sum; simpl; by rewrite Z.add_0_r|].
  rewrite back_sum_cons. cbn [foldO]. destruct (comes_back out t) eqn:Hb; [|apply IH].
  unfold comes_back in Hb. split_bool. destruct (Ht ltac:(done)) as [a ->].
  cbn [mbind option_bind default from_option]. rewrite IH. f_equal. unfold id. lia.
Qed.

Lemma repaid_loan_cons out rest k amount :
  repaid_loan (out :: rest) k amount ↔
  (lends out amount ∧ k = (tr_From out, tr_Token out) ∧ (amount ≤ back_sum out rest)%Z) ∨
  repaid_loan rest k amount.
Proof.
  split.
  - intros (pre & out' & post & Heq & Hl). destruct pre as [|t pre]; simplify_eq/=; [by left|].
    right. by exists pre, out', post.
  - intros [Hl|(pre & out' & post & -> & Hl)]; [by exists [], out, rest|].
    by exists (out :: pre), out', post.
Qed.

(** The loop adds to [loans] one loan for each repaid pair not seen before. *)
Definition loans_for (ts : list Transfer) (seen : gset (Address * Address)) (loans : list FlashLoan) : Prop :=
  NoDup (loan_key <$> loans) ∧
  (∀ l, l ∈ loans → (loan_key l ∉ seen) ∧ ln_Source l = RepaidPattern ∧
     ∃ amount, ln_Amount l = Some amount ∧ repaid_loan ts (loan_key l) amount) ∧
  (∀ k amount, repaid_loan ts k amount → k ∈ seen ∨ k ∈ (loan_key <$> loans)).

Lemma loans_for_skip out ts seen loans :
  (∀ amount, lends out amount → (amount ≤ back_sum out ts)%Z → (tr_From out, tr_Token out) ∈ seen) →
  loans_for ts seen loans → loans_for (out :: ts) seen loans.
Proof.
  intros Hskip (Hnd & Hsound & Hcomplete). split_and!; [done|..].
  - intros l Hl. destruct (Hsound l Hl) as (? & ? & amount & ? & ?).
    split_and!; [done..|]. exists amount. rewrite repaid_loan_cons. auto.
  - intros k amount. rewrite repaid_loan_cons. intros [(Hl & -> & Ha)|Hr]; eauto.
Qed.

Lemma loans_for_add out ts seen amount loans :
  lends out amount → (amount ≤ back_sum out ts)%Z → (tr_From out, tr_Token out) ∉ seen →
  loans_for ts ({[(tr_From out, tr_Token out)]} ∪ seen) loans →
  loans_for (out :: ts) seen (mkFlashLoan (tr_From out) (tr_Token out) (Some amount) RepaidPattern :: loans).
Proof.
  intros Hl Ha Hnew (Hnd & Hsound & Hcomplete). split_and!.
  - rewrite fmap_cons, NoDup_cons. split; [|done].
    intros (l & Heq & Hin)%list_elem_of_fmap. destruct (Hsound l Hin) as [Hns _].
    apply Hns. rewrite <-Heq. by apply elem_of_union_l, elem_of_singleton_2.
  - intros l [->|Hin]%elem_of_cons.
    + split_and!; [done..|]. exists amount. rewrite repaid_loan_cons. split; [done|]. by left.
    + destruct (Hsound l Hin) as (? & ? & a & ? & ?). split_and!; [by eapply not_elem_of_union|done|].
      exists a. rewrite repaid_loan_cons. auto.
  - intros k a. rewrite repaid_loan_cons. intros [(_ & -> & _)|Hr].
    + right. left.
    + destruct (Hcomplete k a Hr) as [[->%elem_of_singleton|?]%elem_of_union|?];
        [right; left|by left|right; by right].
Qed.

Lemma findRepaidLoans_loop_spec ts seen loans :
  Forall wf_transfer ts →
  ∃ new, findRepaidLoans_loop ts seen loans = Some (loans ++ new) ∧ loans_for ts seen new.
Proof.
  intros Hwf. revert seen loans. induction Hwf as [|out ts Hout Hts IH]; intros seen loans.
  { exists []. rewrite app_nil_r. split; [done|]. split_and!; [apply NoDup_nil_2|..].
    - by intros l ?%not_elem_of_nil.
    - intros k a (pre & ? & ? & ? & _). by destruct pre. }
  assert (∀ seen', (∀ a, lends out a → (a ≤ back_sum out ts)%Z → (tr_From out, tr_Token out) ∈ seen') →
    ∃ new, findRepaidLoans_loop ts seen' loans = Some (loans ++ new) ∧ loans_for (out :: ts) seen' new) as Hcont.
  { intros seen' Hskip. destruct (IH seen' loans) as (new & -> & Hnew). eauto using loans_for_skip. }
  simpl. destruct (bool_decide (tr_Standard out ≠ ERC20)) eqn:Hs; simpl; split_bool.
  { apply Hcont. intros a (? & _) _. done. }
  apply dec_stable in Hs. destruct (bool_decide (tr_From out = zero_address)) eqn:Hz; simpl; split_bool.
  { apply Hcont. intros a (_ & ? & _) _. done. }
  destruct (bool_decide (tr_From out = tr_To out)) eqn:Ht; simpl; split_bool.
  { apply Hcont. intros a (_ & _ & ? & _) _. done. }
  destruct (Hout Hs) as [amount Ham]. rewrite Ham. simpl.
  destruct (Z.eqb (Z.sgn amount) 0) eqn:Hsgn; split_bool.
  { apply Hcont. intros a (_ & _ & _ & ? & ?) _. simplify_eq. lia. }
  destruct (bool_decide ((tr_From out, tr_Token out) ∈ seen)) eqn:Hseen; split_bool.
  { by apply Hcont. }
  rewrite repaid_amount_sum by done. simpl. destruct (Z.leb amount (back_sum out ts)) eqn:Hle; split_bool.
  - assert (lends out amount) as Hl by (unfold lends; split_and!; [done..|lia]).
    destruct (IH ({[(tr_From out, tr_Token out)]} ∪ seen)
      (loans ++ [mkFlashLoan (tr_From out) (tr_Token out) (Some amount) RepaidPattern])) as (new & -> & Hnew).
    eexists. rewrite <-app_assoc. split; [done|]. by apply loans_for_add.
  - apply Hcont. intros a (_ & _ & _ & ? & _) Hle'. simplify_eq. lia.
Qed.

Lemma named_lenders_elem announced a :
  a ∈ named_lenders announced ↔ a ∈ ln_Lender <$> announced.
Proof.
  unfold named_lenders.
  assert (∀ acc : gset Address, a ∈ foldl (λ named l, {[ln_Lender l]} ∪ named) acc announced ↔
    a ∈ acc ∨ a ∈ (ln_Lender <$> announced)) as Hgen.
  { induction announced as [|l announced IH]; intros acc; simpl.
    - rewrite elem_of_nil. tauto.
    - rewrite IH, elem_of_union, elem_of_singleton, elem_of_cons. tauto. }
  rewrite Hgen, elem_of_empty. tauto.
Qed.

Lemma mergeFlashLoans_filter announced repaid :
  mergeFlashLoans announced repaid =
  announced ++ filter (λ l, ln_Lender l ∉ ln_Lender <$> announced) repaid.
Proof.
  unfold mergeFlashLoans. pose proof (named_lenders_elem announced) as Hn.
  generalize (named_lenders announced) Hn. intros named Hnamed. clear Hn.
  revert Hnamed. generalize (ln_Lender <$> announced). intros lenders Hnamed. revert announced.
  induction repaid as [|l repaid IH]; intros loans; simpl; [by rewrite app_nil_r|].
  rewrite IH, filter_cons. case_bool_decide as H1; case_decide as H2; rewrite Hnamed in H1; try done.
  by rewrite <-app_assoc.
Qed.

(** C18: [findRepaidLoans] does not panic on decoded transfers and reports exactly the
    (lender, token) pairs for which some ERC-20 amount leaves the lender and at least as
    much comes back to it, from other addresses, in the later transfers; no pair twice. *)
Theorem findRepaidLoans_exact (transfers : list Transfer) (Hwf : Forall wf_transfer transfers) :
  ∃ loans, findRepaidLoans transfers = Some loans ∧ NoDup (loan_key <$> loans) ∧
    (∀ k, k ∈ (loan_key <$> loans) ↔ ∃ amount, repaid_loan transfers k amount) ∧
    (∀ l, l ∈ loans → ln_Source l = RepaidPattern ∧
      ∃ amount, ln_Amount l = Some amount ∧ repaid_loan transfers (loan_key l) amount).
Proof.
  destruct (findRepaidLoans_loop_spec transfers ∅ [] Hwf) as (loans & Hrun & Hnd & Hsound & Hcomplete).
  exists loans. split_and!; [done..| |].
  - intros k. split.
    + intros (l & -> & Hl)%list_elem_of_fmap. destruct (Hsound l Hl) as (_ & _ & a & _ & ?). eauto.
    + intros [a Ha]. destruct (Hcomplete k a Ha) as [?%not_elem_of_empty|?]; done.
  - intros l Hl. by destruct (Hsound l Hl) as (_ & ? & ?).
Qed.

(** The merged list keeps every announced loan, in order, followed by exactly the pattern
    loans whose lender no event names. *)
Theorem mergeFlashLoans_members (announced repaid : list FlashLoan) :
  (∃ added, mergeFlashLoans announced repaid = announced ++ added) ∧
  ∀ l, l ∈ mergeFlashLoans announced repaid ↔
    l ∈ announced ∨ (l ∈ repaid ∧ ln_Lender l ∉ (ln_Lender <$> announced)).
Proof.
  rewrite mergeFlashLoans_filter. split; [by eexists|].
  intros l. rewrite elem_of_app, list_elem_of_filter. tauto.
Qed.

(** ** Concrete instances *)
Module FlashLoansExamples.
Import EventsExamples.

Definition pool_trip : list Transfer :=
  [mkTransfer ERC20 (addr 9) (addr 5) (addr 1) (Some 100%Z) None;
   mkTransfer ERC20 (addr 9) (addr 1) (addr 5) (Some 60%Z) None;
   mkTransfer ERC20 (addr 9) (addr 2) (addr 5) (Some 41%Z) None].

Example pool_trip_loans :
  findRepaidLoans pool_trip = Some [mkFlashLoan (addr 5) (addr 9) (Some 100%Z) RepaidPattern].
Proof. by vm_compute. Qed.

Lemma findRepaidLoans_exact_witness :
  ∃ loans, findRepaidLoans pool_trip = Some loans ∧ NoDup (loan_key <$> loans) ∧
    (∀ k, k ∈ (loan_key <$> loans) ↔ ∃ amount, repaid_loan pool_trip k amount) ∧
    (∀ l, l ∈ loans → ln_Source l = RepaidPattern ∧
      ∃ amount, ln_Amount l = Some amount ∧ repaid_loan pool_trip (loan_key l) amount).
Proof. apply (findRepaidLoans_exact pool_trip). repeat constructor; intros ?; eauto. Defined.

End FlashLoansExamples.
