(* ===== verification/Analysis.v ===== *)
(** * Package analysis: the rule-ready view of a transaction

    [internal/analysis/analysis.go]: walking the call tree, skipping reverted subtrees, and
    collecting frames, logs, decoded events and touched addresses. [None] is a panic. *)

From Stdlib Require Import ZArith Lia.
From S2P Require Import Prelude GoLib Geth Events TxDecode Simulate Flows FlashLoans.

(** [type Analysis struct], over the type of transactions. *)
Record AnalysisTx (T : Type) := mkAnalysis {
  a_Tx : DecodedTx T;
  a_Addresses : list Address;
  a_Reverted : bool;
  a_Frames : list Frame;
  a_Created : list Address;
  a_Logs : list Log;
  a_Transfers : list Transfer;
  a_Approvals : list Approval;
  a_ApprovalsForAll : list ApprovalForAll;
  a_Privileged : list PrivilegeChange;
  a_Flows : list Flow;
  a_FlashLoans : list FlashLoan
}.
Arguments mkAnalysis {T} _ _ _ _ _ _ _ _ _ _ _ _.
Arguments a_Tx {T} _.
Arguments a_Addresses {T} _.
Arguments a_Reverted {T} _.
Arguments a_Frames {T} _.
Arguments a_Created {T} _.
Arguments a_Logs {T} _.
Arguments a_Transfers {T} _.
Arguments a_Approvals {T} _.
Arguments a_ApprovalsForAll {T} _.
Arguments a_Privileged {T} _.
Arguments a_Flows {T} _.
Arguments a_FlashLoans {T} _.
Abbreviation Analysis := (AnalysisTx Transaction).

Section analysis.
Context `{G : Geth}.

Definition FromTx (tx : Decoded) : Analysis :=
  let addrs := match tx_To (d_Tx tx) with
               | Some to => if bool_decide (to ≠ d_From tx) then [d_From tx; to] else [d_From tx]
               | None => [d_From tx]
               end in
  mkAnalysis tx addrs false [] [] [] [] [] [] [] [] [].

(** [addAddress]: appends unless already listed. *)
Definition addAddress (a : Analysis) (addr : Address) : Analysis :=
  if bool_decide (addr ∈ a_Addresses a) then a else
  mkAnalysis (a_Tx a) (a_Addresses a ++ [addr]) (a_Reverted a) (a_Frames a) (a_Created a) (a_Logs a)
    (a_Transfers a) (a_Approvals a) (a_ApprovalsForAll a) (a_Privileged a) (a_Flows a) (a_FlashLoans a).

Definition CreatedInTx (a : Analysis) (addr : Address) : bool := bool_decide (addr ∈ a_Created a).

(** The appends of [collect]. *)
Definition append_created (a : Analysis) (addr : Address) : Analysis :=
  mkAnalysis (a_Tx a) (a_Addresses a) (a_Reverted a) (a_Frames a) (a_Created a ++ [addr]) (a_Logs a)
    (a_Transfers a) (a_Approvals a) (a_ApprovalsForAll a) (a_Privileged a) (a_Flows a) (a_FlashLoans a).
Definition append_frame (a : Analysis) (f : Frame) : Analysis :=
  mkAnalysis (a_Tx a) (a_Addresses a) (a_Reverted a) (a_Frames a ++ [f]) (a_Created a) (a_Logs a)
    (a_Transfers a) (a_Approvals a) (a_ApprovalsForAll a) (a_Privileged a) (a_Flows a) (a_FlashLoans a).
Definition append_log (a : Analysis) (l : Log) : Analysis :=
  mkAnalysis (a_Tx a) (a_Addresses a) (a_Reverted a) (a_Frames a) (a_Created a) (a_Logs a ++ [l])
    (a_Transfers a) (a_Approvals a) (a_ApprovalsForAll a) (a_Privileged a) (a_Flows a) (a_FlashLoans a).
Definition append_transfer (a : Analysis) (t : Transfer) : Analysis :=
  mkAnalysis (a_Tx a) (a_Addresses a) (a_Reverted a) (a_Frames a) (a_Created a) (a_Logs a)
    (a_Transfers a ++ [t]) (a_Approvals a) (a_ApprovalsForAll a) (a_Privileged a) (a_Flows a) (a_FlashLoans a).
Definition append_approval (a : Analysis) (x : Approval) : Analysis :=
  mkAnalysis (a_Tx a) (a_Addresses a) (a_Reverted a) (a_Frames a) (a_Created a) (a_Logs a)
    (a_Transfers a) (a_Approvals a ++ [x]) (a_ApprovalsForAll a) (a_Privileged a) (a_Flows a) (a_FlashLoans a).
Definition append_approval_for_all (a : Analysis) (x : ApprovalForAll) : Analysis :=
  mkAnalysis (a_Tx a) (a_Addresses a) (a_Reverted a) (a_Frames a) (a_Created a) (a_Logs a)
    (a_Transfers a) (a_Approvals a) (a_ApprovalsForAll a ++ [x]) (a_Privileged a) (a_Flows a) (a_FlashLoans a).
Definition append_privileged (a : Analysis) (x : PrivilegeChange) : Analysis :=
  mkAnalysis (a_Tx a) (a_Addresses a) (a_Reverted a) (a_Frames a) (a_Created a) (a_Logs a)
    (a_Transfers a) (a_Approvals a) (a_ApprovalsForAll a) (a_Privileged a ++ [x]) (a_Flows a) (a_FlashLoans a).
Definition append_flash_loan (a : Analysis) (x : FlashLoan) : Analysis :=
  mkAnalysis (a_Tx a) (a_Addresses a) (a_Reverted a) (a_Frames a) (a_Created a) (a_Logs a)
    (a_Transfers a) (a_Approvals a) (a_ApprovalsForAll a) (a_Privileged a) (a_Flows a) (a_FlashLoans a ++ [x]).
Definition set_reverted (a : Analysis) (b : bool) : Analysis :=
  mkAnalysis (a_Tx a) (a_Addresses a) b (a_Frames a) (a_Created a) (a_Logs a)
    (a_Transfers a) (a_Approvals a) (a_ApprovalsForAll a) (a_Privileged a) (a_Flows a) (a_FlashLoans a).
Definition set_flows_loans (a : Analysis) (fs : list Flow) (ls : list FlashLoan) : Analysis :=
  mkAnalysis (a_Tx a) (a_Addresses a) (a_Reverted a) (a_Frames a) (a_Created a) (a_Logs a)
    (a_Transfers a) (a_Approvals a) (a_ApprovalsForAll a) (a_Privileged a) fs ls.

(** The first half of [collect]: the frame itself, its recipient and its creation. *)
Definition new_frame (f : CallFrame) (depth : nat) : Frame :=
  mkFrame (cf_Type f) (cf_From f) (default zero_address (cf_To f))
    (match cf_Value f with
     | Some v => if Z.ltb 0 (Z.sgn v) then Some v else None
     | None => None
     end) depth.

Definition collect_frame (a : Analysis) (f : CallFrame) (depth : nat) : Analysis :=
  let frame := new_frame f depth in
  let a := match cf_To f with
           | Some to =>
               let a := addAddress a to in
               if IsCreate frame then append_created a to else a
           | None => a
           end in
  append_frame a frame.

(** The body of the loop over the logs of a frame. *)
Definition collect_log (a : Analysis) (l : Log) : option Analysis :=
  let a := append_log a l in
  tr ← DecodeTransfer (log_Address l) (log_Topics l) (log_Data l);
  let a := match tr with
           | Some tr => addAddress (append_transfer a tr) (tr_To tr)
           | None => a
           end in
  ap ← DecodeApproval (log_Address l) (log_Topics l) (log_Data l);
  let a := match ap with Some ap => append_approval a ap | None => a end in
  afa ← DecodeApprovalForAll (log_Address l) (log_Topics l) (log_Data l);
  let a := match afa with Some afa => append_approval_for_all a afa | None => a end in
  pc ← DecodePrivilegeChange (log_Address l) (log_Topics l) (log_Data l);
  let a := match pc with Some pc => append_privileged a pc | None => a end in
  fl ← DecodeFlashLoan (log_Address l) (log_Topics l) (log_Data l);
  Some match fl with
       | Some fl => append_flash_loan a
                      (mkFlashLoan (fle_Lender fl) (fle_Token fl) (fle_Amount fl) (fle_Protocol fl))
       | None => a
       end.

(** [collect]: pre-order over the frames that did not revert. *)
Fixpoint collect (f : CallFrame) (depth : nat) (a : Analysis) {struct f} : option Analysis :=
  if bool_decide (cf_Error f ≠ "") then Some a else
  a ← foldO collect_log (cf_Logs f) (collect_frame a f depth);
  (fix calls (fs : list CallFrame) (a : Analysis) {struct fs} : option Analysis :=
     match fs with
     | [] => Some a
     | c :: fs => a ← collect c (S depth) a; calls fs a
     end) (cf_Calls f) a.

(** [Build]; [trace] is nil without simulation. *)
Definition Build (tx : Decoded) (trace : option CallFrame) : option Analysis :=
  let a := FromTx tx in
  match trace with
  | None => Some a
  | Some t =>
      a ← collect t 0 (set_reverted a (bool_decide (cf_Error t ≠ "")));
      fs ← computeFlows (a_Frames a) (a_Transfers a);
      repaid ← findRepaidLoans (a_Transfers a);
      Some (set_flows_loans a fs (mergeFlashLoans (a_FlashLoans a) repaid))
  end.

(** The loop of [SubtreeEnd] over the frames from [j] on. *)
Fixpoint subtree_loop (rest : list Frame) (depth j : nat) : nat :=
  match rest with
  | f :: rest => if Nat.ltb depth (f_Depth f) then subtree_loop rest depth (S j) else j
  | [] => j
  end.

(** [None] is the panic of [a.Frames[i]] out of range. When [i] is out of range the Go code
    panics only if the loop evaluates [a.Frames[i]], which it does not for [i+1 >= len]. *)
Definition SubtreeEnd (a : Analysis) (i : nat) : option nat :=
  if bool_decide (S i < length (a_Frames a)) then
    f ← a_Frames a !! i; Some (subtree_loop (drop (S i) (a_Frames a)) (f_Depth f) (S i))
  else Some (S i).

End analysis.

(** ** The frames that take effect *)
Section live.
Context `{G : Geth}.

(** The frames of a call tree that did not revert and have no reverted ancestor, in pre-order
    and with their depth. *)
Fixpoint live (f : CallFrame) (depth : nat) {struct f} : list (CallFrame * nat) :=
  if bool_decide (cf_Error f ≠ "") then [] else
  (f, depth) :: (fix calls (fs : list CallFrame) : list (CallFrame * nat) :=
    match fs with
    | [] => []
    | c :: fs => live c (S depth) ++ calls fs
    end) (cf_Calls f).

Lemma live_unfold f depth :
  live f depth = if bool_decide (cf_Error f ≠ "") then []
                 else (f, depth) :: (cf_Calls f ≫= λ c, live c (S depth)).
Proof.
  by destruct f.
Qed.

Definition live_logs (L : list (CallFrame * nat)) : list Log := L ≫= λ p, cf_Logs p.1.

(** The logs as the reference decoders read them. *)
Definition log_transfer (l : Log) : option Transfer := transfer_of (log_Address l) (log_Topics l) (log_Data l).
Definition log_approval (l : Log) : option Approval := approval_of (log_Address l) (log_Topics l) (log_Data l).
Definition log_approval_for_all (l : Log) : option ApprovalForAll :=
  approval_for_all_of (log_Address l) (log_Topics l) (log_Data l).
Definition log_privileged (l : Log) : option PrivilegeChange :=
  privilege_of (log_Address l) (log_Topics l) (log_Data l).
Definition log_flash_loan (l : Log) : option FlashLoan :=
  fl ← flash_loan_of (log_Address l) (log_Topics l) (log_Data l);
  Some (mkFlashLoan (fle_Lender fl) (fle_Token fl) (fle_Amount fl) (fle_Protocol fl)).

(** The address a frame deploys to, and the addresses it touches. *)
Definition frame_created (p : CallFrame * nat) : list Address :=
  match cf_To p.1 with
  | Some to => if IsCreate (new_frame p.1 p.2) then [to] else []
  | None => []
  end.
Definition log_recipients (l : Log) : list Address := option_list (tr_To <$> log_transfer l).
Definition frame_touched (p : CallFrame * nat) : list Address :=
  option_list (cf_To p.1) ++ (cf_Logs p.1 ≫= log_recipients).

(** One visited log and one visited frame, without panics. *)
Definition log_step (a : Analysis) (l : Log) : Analysis :=
  let a := append_log a l in
  let a := match log_transfer l with Some tr => addAddress (append_transfer a tr) (tr_To tr) | None => a end in
  let a := match log_approval l with Some x => append_approval a x | None => a end in
  let a := match log_approval_for_all l with Some x => append_approval_for_all a x | None => a end in
  let a := match log_privileged l with Some x => append_privileged a x | None => a end in
  match log_flash_loan l with Some x => append_flash_loan a x | None => a end.

Definition visit (a : Analysis) (p : CallFrame * nat) : Analysis :=
  foldl log_step (collect_frame a p.1 p.2) (cf_Logs p.1).

Lemma collect_log_step a l : collect_log a l = Some (log_step a l).
Proof.
  unfold collect_log. rewrite DecodeTransfer_ref, DecodeApproval_ref, DecodeApprovalForAll_ref,
    DecodePrivilegeChange_ref, DecodeFlashLoan_ref. cbn [mbind option_bind].
  unfold log_step, log_flash_loan. f_equal. by destruct (flash_loan_of _ _ _).
Qed.

Lemma collect_logs logs a : foldO collect_log logs a = Some (foldl log_step a logs).
Proof.
  revert a. induction logs as [|l logs IH]; intros a; [done|]. cbn [foldO]. rewrite collect_log_step. apply IH.
Qed.

(** [collect] visits exactly the live frames, and never panics. *)
Lemma collect_live f depth a : collect f depth a = Some (foldl visit a (live f depth)).
Proof.
  revert depth a. induction f as [f IH] using CallFrame_ind'; intros depth a. rewrite live_unfold.
  destruct f as [ty from to v g gu inp out err logs calls]. cbn [collect cf_Error cf_Calls cf_Logs] in *.
  case_bool_decide; [done|]. rewrite collect_logs. cbn [mbind option_bind foldl].
  change (foldl log_step (collect_frame a _ depth) logs)
    with (visit a (mkCallFrame ty from to v g gu inp out err logs calls, depth)).
  generalize (visit a (mkCallFrame ty from to v g gu inp out err logs calls, depth)). clear a.
  induction IH as [|c calls Hc _ IHcalls]; intros a; [done|].
  rewrite Hc. cbn [mbind option_bind]. rewrite IHcalls.
  by rewrite bind_cons, foldl_app.
Qed.

End live.

(** ** What the walk collects *)
Section collected.
Context `{G : Geth}.
Implicit Types (a : Analysis) (l : Log) (p : CallFrame * nat) (L : list (CallFrame * nat)).

Ltac step_field :=
  unfold log_step, collect_frame, addAddress; repeat (case_match; simpl; simplify_eq/=);
  rewrite ?app_nil_r; done.

Lemma log_step_logs a l : a_Logs (log_step a l) = a_Logs a ++ [l].
Proof. step_field. Qed.
Lemma log_step_frames a l : a_Frames (log_step a l) = a_Frames a.
Proof. step_field. Qed.
Lemma log_step_created a l : a_Created (log_step a l) = a_Created a.
Proof. step_field. Qed.
Lemma log_step_reverted a l : a_Reverted (log_step a l) = a_Reverted a.
Proof. step_field. Qed.
Lemma log_step_tx a l : a_Tx (log_step a l) = a_Tx a.
Proof. step_field. Qed.
Lemma log_step_transfers a l : a_Transfers (log_step a l) = a_Transfers a ++ option_list (log_transfer l).
Proof. step_field. Qed.
Lemma log_step_approvals a l : a_Approvals (log_step a l) = a_Approvals a ++ option_list (log_approval l).
Proof. step_field. Qed.
Lemma log_step_approvals_for_all a l :
  a_ApprovalsForAll (log_step a l) = a_ApprovalsForAll a ++ option_list (log_approval_for_all l).
Proof. step_field. Qed.
Lemma log_step_privileged a l : a_Privileged (log_step a l) = a_Privileged a ++ option_list (log_privileged l).
Proof. step_field. Qed.
Lemma log_step_loans a l : a_FlashLoans (log_step a l) = a_FlashLoans a ++ option_list (log_flash_loan l).
Proof. step_field. Qed.

Lemma addAddress_addresses a x : a_Addresses (addAddress a x) = add_new (a_Addresses a) x.
Proof. unfold addAddress, add_new. by case_bool_decide. Qed.

Lemma log_step_addresses a l :
  a_Addresses (log_step a l) = foldl add_new (a_Addresses a) (log_recipients l).
Proof.
  unfold log_step, log_recipients.
  destruct (log_transfer l) as [tr|]; repeat (case_match; simpl; simplify_eq/=);
    rewrite ?addAddress_addresses; done.
Qed.

Lemma visit_frames a p : a_Frames (visit a p) = a_Frames a ++ [new_frame p.1 p.2].
Proof.
  unfold visit. rewrite (foldl_preserves _ a_Frames) by apply log_step_frames. step_field.
Qed.
Lemma visit_created a p : a_Created (visit a p) = a_Created a ++ frame_created p.
Proof.
  unfold visit, frame_created. rewrite (foldl_preserves _ a_Created) by apply log_step_created. step_field.
Qed.
Lemma visit_reverted a p : a_Reverted (visit a p) = a_Reverted a.
Proof. unfold visit. rewrite (foldl_preserves _ a_Reverted) by apply log_step_reverted. step_field. Qed.
Lemma visit_tx a p : a_Tx (visit a p) = a_Tx a.
Proof. unfold visit. rewrite (foldl_preserves _ a_Tx) by apply log_step_tx. step_field. Qed.

(** The slices that only the log loop extends. *)
Lemma visit_appends {C} (proj : Analysis → list C) (g : Log → list C) a p :
  (∀ a l, proj (log_step a l) = proj a ++ g l) →
  (∀ a f d, proj (collect_frame a f d) = proj a) →
  proj (visit a p) = proj a ++ (cf_Logs p.1 ≫= g).
Proof. intros Hlog Hframe. unfold visit. by rewrite (foldl_appends _ proj g), Hframe. Qed.

Lemma visit_addresses a p : a_Addresses (visit a p) = foldl add_new (a_Addresses a) (frame_touched p).
Proof.
  unfold visit, frame_touched. rewrite (foldl_adds _ a_Addresses log_recipients) by apply log_step_addresses.
  rewrite foldl_app. f_equal. unfold collect_frame.
  destruct (cf_To p.1) as [to|]; [|done]. simpl. case_match; simpl; by rewrite addAddress_addresses.
Qed.

Lemma bind_option_list {A B} (f : A → option B) xs : (xs ≫= λ x, option_list (f x)) = omap f xs.
Proof. induction xs as [|x xs IH]; [done|]. rewrite bind_cons, IH. simpl. by destruct (f x). Qed.

Lemma visits_appends {C} (proj : Analysis → list C) (g : Log → option C) L a :
  (∀ a l, proj (log_step a l) = proj a ++ option_list (g l)) →
  (∀ a f d, proj (collect_frame a f d) = proj a) →
  proj (foldl visit a L) = proj a ++ omap g (live_logs L).
Proof.
  intros Hlog Hframe. unfold live_logs. rewrite omap_bind.
  apply (foldl_appends visit proj (λ p, omap g (cf_Logs p.1))). intros b p.
  rewrite <-bind_option_list. by apply visit_appends.
Qed.

Ltac frame_field := intros; step_field.

Lemma visits_frames L a : a_Frames (foldl visit a L) = a_Frames a ++ ((λ p, new_frame p.1 p.2) <$> L).
Proof.
  rewrite (foldl_appends _ a_Frames _ _ _ visit_frames). done.
Qed.
Lemma visits_created L a : a_Created (foldl visit a L) = a_Created a ++ (L ≫= frame_created).
Proof. apply foldl_appends, visit_created. Qed.
Lemma visits_logs L a : a_Logs (foldl visit a L) = a_Logs a ++ live_logs L.
Proof.
  apply (foldl_appends visit a_Logs (λ p, cf_Logs p.1)). intros b p.
  rewrite (visit_appends a_Logs (λ l, [l])); [|apply log_step_logs|frame_field].
  f_equal. induction (cf_Logs p.1) as [|l ls IH]; [done|]. by rewrite bind_cons, IH.
Qed.
Lemma visits_transfers L a : a_Transfers (foldl visit a L) = a_Transfers a ++ omap log_transfer (live_logs L).
Proof. apply visits_appends; [apply log_step_transfers|frame_field]. Qed.
Lemma visits_approvals L a : a_Approvals (foldl visit a L) = a_Approvals a ++ omap log_approval (live_logs L).
Proof. apply visits_appends; [apply log_step_approvals|frame_field]. Qed.
Lemma visits_approvals_for_all L a :
  a_ApprovalsForAll (foldl visit a L) = a_ApprovalsForAll a ++ omap log_approval_for_all (live_logs L).
Proof. apply visits_appends; [apply log_step_approvals_for_all|frame_field]. Qed.
Lemma visits_privileged L a : a_Privileged (foldl visit a L) = a_Privileged a ++ omap log_privileged (live_logs L).
Proof. apply visits_appends; [apply log_step_privileged|frame_field]. Qed.
Lemma visits_loans L a : a_FlashLoans (foldl visit a L) = a_FlashLoans a ++ omap log_flash_loan (live_logs L).
Proof. apply visits_appends; [apply log_step_loans|frame_field]. Qed.
Lemma visits_addresses L a :
  a_Addresses (foldl visit a L) = foldl add_new (a_Addresses a) (L ≫= frame_touched).
Proof. apply foldl_adds, visit_addresses. Qed.

(** A decoded transfer has an amount when it is an ERC-20 transfer. *)
Lemma log_transfers_wf logs : Forall wf_transfer (omap log_transfer logs).
Proof.
  apply Forall_forall. intros t (l & _ & Hl)%list_elem_of_omap.
  unfold log_transfer, transfer_of in Hl. intros Hs. go_cases; eauto.
Qed.

End collected.

(** ** The analysis [Build] returns *)
Section build.
Context `{G : Geth}.
Implicit Types (tx : Decoded) (t f : CallFrame).

(** The loans of a transaction: announced ones, then the pattern matches. *)
Definition loans_of (logs : list Log) : list FlashLoan :=
  mergeFlashLoans (omap log_flash_loan logs)
    (default [] (findRepaidLoans (omap log_transfer logs))).

Definition frames_of (L : list (CallFrame * nat)) : list Frame := (λ p, new_frame p.1 p.2) <$> L.

(** The analysis as a function of the live frames. *)
Definition analysis_of tx t : Analysis :=
  let L := live t 0 in
  let logs := live_logs L in
  mkAnalysis tx (foldl add_new (a_Addresses (FromTx tx)) (L ≫= frame_touched))
    (bool_decide (cf_Error t ≠ "")) (frames_of L) (L ≫= frame_created) logs
    (omap log_transfer logs) (omap log_approval logs) (omap log_approval_for_all logs)
    (omap log_privileged logs)
    (foldl bump_move [] (moves_of (frames_of L) (omap log_transfer logs))) (loans_of logs).

Lemma Build_ref tx t : Build tx (Some t) = Some (analysis_of tx t).
Proof.
  unfold Build. rewrite collect_live. cbn [mbind option_bind].
  set (a := foldl visit _ _).
  assert (a_Transfers a = omap log_transfer (live_logs (live t 0))) as Htr
    by (unfold a; by rewrite visits_transfers).
  assert (a_Frames a = frames_of (live t 0)) as Hfr by (unfold a; by rewrite visits_frames).
  pose proof (log_transfers_wf (live_logs (live t 0))) as Hwf.
  rewrite Htr, Hfr, computeFlows_ref by done. cbn [mbind option_bind].
  destruct (findRepaidLoans_loop_spec (omap log_transfer (live_logs (live t 0))) ∅ [] Hwf) as (loans & Hl & _).
  change (findRepaidLoans_loop _ ∅ []) with (findRepaidLoans (omap log_transfer (live_logs (live t 0)))) in Hl.
  rewrite Hl. cbn [mbind option_bind]. unfold analysis_of, set_flows_loans, loans_of. rewrite Hl.
  unfold a. f_equal. f_equal; rewrite ?visits_addresses, ?visits_frames, ?visits_created, ?visits_logs,
    ?visits_transfers, ?visits_approvals, ?visits_approvals_for_all, ?visits_privileged, ?visits_loans,
    ?(foldl_preserves _ a_Tx _ _ visit_tx), ?(foldl_preserves _ a_Reverted _ _ visit_reverted); done.
Qed.

Lemma FromTx_addresses tx x :
  x ∈ a_Addresses (FromTx tx) ↔ x = d_From tx ∨ tx_To (d_Tx tx) = Some x.
Proof.
  unfold FromTx. simpl. destruct (tx_To (d_Tx tx)) as [to|]; [case_bool_decide|];
    rewrite ?elem_of_cons, ?elem_of_nil; naive_solver.
Qed.

Lemma FromTx_nodup tx : NoDup (a_Addresses (FromTx tx)).
Proof.
  unfold FromTx. simpl. destruct (tx_To (d_Tx tx)) as [to|]; [case_bool_decide|];
    repeat constructor; rewrite ?elem_of_cons, ?elem_of_nil; naive_solver.
Qed.

(** [f] is a frame of the tree [t] that takes effect. *)
Definition takes_effect t f : Prop := ∃ d, (f, d) ∈ live t 0.

Lemma elem_of_live_logs t l : l ∈ live_logs (live t 0) ↔ ∃ f, takes_effect t f ∧ l ∈ cf_Logs f.
Proof.
  unfold live_logs, takes_effect. rewrite list_elem_of_bind. split.
  - intros ([f d] & Hl & Hf). eauto.
  - intros (f & [d Hf] & Hl). by exists (f, d).
Qed.

Lemma elem_of_frame_touched p x :
  x ∈ frame_touched p ↔ cf_To p.1 = Some x ∨ ∃ l tr, l ∈ cf_Logs p.1 ∧ log_transfer l = Some tr ∧ tr_To tr = x.
Proof.
  unfold frame_touched, log_recipients. rewrite elem_of_app, elem_of_option_list, list_elem_of_bind.
  setoid_rewrite elem_of_option_list. setoid_rewrite fmap_Some. naive_solver.
Qed.

Lemma elem_of_touched t x :
  x ∈ (live t 0 ≫= frame_touched) ↔
  (∃ f, takes_effect t f ∧ cf_To f = Some x) ∨
  (∃ f l tr, takes_effect t f ∧ l ∈ cf_Logs f ∧ log_transfer l = Some tr ∧ tr_To tr = x).
Proof.
  rewrite list_elem_of_bind. setoid_rewrite elem_of_frame_touched. unfold takes_effect. split.
  - intros ([f d] & [?|(l & tr & ?)] & ?); simpl in *; [left|right]; naive_solver.
  - intros [(f & [d ?] & ?)|(f & l & tr & [d ?] & ?)]; exists (f, d); simpl; naive_solver.
Qed.

(** ** Depths and subtrees *)

Lemma live_depth t d : Forall (λ p, d ≤ p.2) (live t d).
Proof.
  revert d. induction t as [t IH] using CallFrame_ind'; intros d. rewrite live_unfold.
  case_bool_decide; [constructor|]. constructor; [done|]. apply Forall_bind.
  eapply Forall_impl; [exact IH|]. intros c Hc. eapply Forall_impl; [apply Hc|]. simpl. lia.
Qed.

Lemma live_children_depth (cs : list CallFrame) d : Forall (λ p, d ≤ p.2) (cs ≫= λ c, live c d).
Proof. apply Forall_bind, Forall_true. intros c. apply live_depth. Qed.

(** The first frame after a subtree, if any, is not deeper than its root. *)
Definition not_deeper (d : nat) (post : list (CallFrame * nat)) : Prop :=
  ∀ p rest, post = p :: rest → p.2 ≤ d.

Lemma live_head_depth c d p rest : live c d = p :: rest → p.2 = d.
Proof. rewrite live_unfold. case_bool_decide; [done|]. by intros [= <- _]. Qed.

Lemma live_children_head (cs : list CallFrame) d p rest : (cs ≫= λ c, live c d) = p :: rest → p.2 = d.
Proof.
  induction cs as [|c cs IH]; [done|]. rewrite bind_cons. destruct (live c d) eqn:Hc; [apply IH|].
  intros [= -> _]. by eapply live_head_depth.
Qed.

(** Every live frame is followed by its whole live subtree, then by a frame that is not deeper. *)
Lemma live_subtree t d i f d' :
  live t d !! i = Some (f, d') →
  cf_Error f = "" ∧
  ∃ pre post, live t d = pre ++ live f d' ++ post ∧ length pre = i ∧ d ≤ d' ∧ not_deeper d' post.
Proof.
  revert d i. induction t as [t IH] using CallFrame_ind'; intros d i Hi.
  pose proof Hi as Hi'. rewrite live_unfold in Hi'. case_bool_decide as Herr; [done|].
  destruct i as [|i]; simplify_eq/=.
  { split; [done|]. exists [], []. rewrite app_nil_r. split_and!; [done..|]. by intros. }
  rewrite live_unfold, bool_decide_eq_false_2 by tauto. clear Hi.
  cut (cf_Error f = "" ∧ ∃ pre post, (cf_Calls t ≫= λ c, live c (S d)) = pre ++ live f d' ++ post ∧ length pre = i ∧
    S d ≤ d' ∧ not_deeper d' post).
  { intros (He & pre & post & -> & <- & Hd & Hpost). split; [done|]. exists ((t, d) :: pre), post.
    split_and!; [done|done|lia|done]. }
  clear Herr. revert i Hi'. induction IH as [|c cs Hc _ IHcs]; intros i Hi; [done|].
  rewrite bind_cons in Hi |- *. apply lookup_app_Some in Hi as [Hi|[Hlen Hi]].
  - destruct (Hc _ _ Hi) as (He & pre & post & Hlive & Hpre & Hd & Hpost).
    split; [done|]. exists pre, (post ++ (cs ≫= λ c, live c (S d))). rewrite Hlive, <-!app_assoc. split_and!; [done..|].
    intros p rest Hp. destruct post as [|q post]; simplify_eq/=; [|by eapply Hpost].
    apply live_children_head in Hp. lia.
  - destruct (IHcs _ Hi) as (He & pre & post & -> & Hpre & Hd & Hpost).
    split; [done|]. exists (live c (S d) ++ pre), post. rewrite <-app_assoc, length_app. split_and!; [done|lia|done|done].
Qed.

Lemma subtree_loop_deeper L post d j :
  Forall (λ p, d < p.2) L → not_deeper d post →
  subtree_loop (frames_of (L ++ post)) d j = j + length L.
Proof.
  intros HL. revert j. induction HL as [|p L Hp _ IH]; intros j Hpost; simpl.
  - destruct post as [|q post]; simpl; [lia|]. specialize (Hpost q post eq_refl).
    destruct (Nat.ltb_spec d q.2); lia.
  - destruct (Nat.ltb_spec d p.2) as [_|]; [|lia]. rewrite IH by done. lia.
Qed.

Lemma SubtreeEnd_live tx t i f d :
  live t 0 !! i = Some (f, d) →
  SubtreeEnd (analysis_of tx t) i = Some (i + length (live f d)).
Proof.
  intros Hi. destruct (live_subtree _ _ _ _ _ Hi) as (He & pre & post & Hlive & <- & _ & Hpost).
  unfold SubtreeEnd. cbn [a_Frames analysis_of]. rewrite Hlive. clear Hi Hlive.
  rewrite live_unfold, (bool_decide_eq_false_2 (cf_Error f ≠ "")) by tauto.
  pose proof (live_children_depth (cf_Calls f) (S d)) as Hdeep.
  set (L := cf_Calls f ≫= _) in *. cbn [app]. unfold frames_of. rewrite fmap_app, fmap_cons.
  rewrite lookup_app_r, length_fmap, Nat.sub_diag by (by rewrite length_fmap).
  rewrite drop_app_ge, length_fmap, Nat.sub_succ_l, Nat.sub_diag by (rewrite ?length_fmap; lia).
  cbn [lookup list_lookup mbind option_bind drop f_Depth new_frame snd length].
  rewrite length_app, length_cons, !length_fmap, length_app.
  rewrite drop_0. fold (frames_of (L ++ post)). rewrite subtree_loop_deeper by done.
  case_bool_decide; f_equal; lia.
Qed.

End build.

(** ** Reverted frames *)
Section prune.
Context `{G : Geth}.
Implicit Types (tx : Decoded) (t f : CallFrame).

(** The call tree without its reverted sub-calls. *)
Fixpoint prune (f : CallFrame) : CallFrame :=
  mkCallFrame (cf_Type f) (cf_From f) (cf_To f) (cf_Value f) (cf_Gas f) (cf_GasUsed f) (cf_Input f)
    (cf_Output f) (cf_Error f) (cf_Logs f)
    ((fix calls (fs : list CallFrame) : list CallFrame :=
       match fs with
       | [] => []
       | c :: fs => if bool_decide (cf_Error c ≠ "") then calls fs else prune c :: calls fs
       end) (cf_Calls f)).

Definition prune_entry (p : CallFrame * nat) : CallFrame * nat := (prune p.1, p.2).

Lemma prune_calls f :
  cf_Calls (prune f) = (cf_Calls f ≫= λ c, if bool_decide (cf_Error c ≠ "") then [] else [prune c]).
Proof.
  destruct f as [ty from to v g gu inp out err logs calls]. simpl.
  induction calls as [|c calls IH]; [done|]. rewrite bind_cons, <-IH. by case_bool_decide.
Qed.

Lemma prune_error f : cf_Error (prune f) = cf_Error f.
Proof. by destruct f. Qed.

Lemma live_prune f d : live (prune f) d = prune_entry <$> live f d.
Proof.
  revert d. induction f as [f IH] using CallFrame_ind'; intros d.
  rewrite (live_unfold (prune f)), (live_unfold f), prune_error, prune_calls.
  case_bool_decide; [done|]. rewrite fmap_cons. f_equal.
  induction IH as [|c cs Hc _ IHcs]; [done|]. rewrite !bind_cons, bind_app, fmap_app, IHcs, <-Hc. f_equal.
  case_bool_decide as Hr; [by rewrite live_unfold, prune_error, bool_decide_eq_true_2|].
  by rewrite bind_cons, app_nil_r.
Qed.

(** Nothing collected from a frame depends on its sub-calls. *)
Lemma bind_prune {B} (g : CallFrame * nat → list B) L :
  (∀ p, g (prune_entry p) = g p) → (prune_entry <$> L) ≫= g = L ≫= g.
Proof. intros Hg. induction L as [|p L IH]; [done|]. by rewrite fmap_cons, !bind_cons, IH, Hg. Qed.

Lemma analysis_of_prune tx t : analysis_of tx (prune t) = analysis_of tx t.
Proof.
  unfold analysis_of. rewrite live_prune, prune_error.
  assert (live_logs (prune_entry <$> live t 0) = live_logs (live t 0)) as ->
    by (apply bind_prune; by intros [[] ?]).
  assert (frames_of (prune_entry <$> live t 0) = frames_of (live t 0)) as ->.
  { unfold frames_of. rewrite <-list_fmap_compose. apply list_fmap_ext. by intros _ [[] ?] _. }
  rewrite !bind_prune by by intros [[] ?]. done.
Qed.

End prune.

Section analysis_claims.
Context `{G : Geth}.
Implicit Types (tx : Decoded) (t f : CallFrame).

(** C16: Building the analysis of any trace returns (it never panics), and what it collects
    comes from the frames that take effect and from nothing else: the frames in pre-order
    with their depths, the contracts they deploy, their logs grouped by frame, the decoded
    events of those logs, the flows of those frames and transfers, and the loans. *)
Theorem Build_collects tx t :
  ∃ a, Build tx (Some t) = Some a ∧ a_Tx a = tx ∧
    a_Frames a = frames_of (live t 0) ∧ a_Created a = (live t 0 ≫= frame_created) ∧
    a_Logs a = live_logs (live t 0) ∧
    a_Transfers a = omap log_transfer (a_Logs a) ∧ a_Approvals a = omap log_approval (a_Logs a) ∧
    a_ApprovalsForAll a = omap log_approval_for_all (a_Logs a) ∧
    a_Privileged a = omap log_privileged (a_Logs a) ∧
    Some (a_Flows a) = computeFlows (a_Frames a) (a_Transfers a) ∧
    (∃ repaid, findRepaidLoans (a_Transfers a) = Some repaid ∧
      a_FlashLoans a = mergeFlashLoans (omap log_flash_loan (a_Logs a)) repaid).
Proof.
  exists (analysis_of tx t). rewrite Build_ref. simpl.
  pose proof (log_transfers_wf (live_logs (live t 0))) as Hwf.
  rewrite computeFlows_ref by done. split_and!; [done..|].
  destruct (findRepaidLoans_loop_spec _ ∅ [] Hwf) as (repaid & Hl & _).
  exists repaid. split; [exact Hl|]. unfold loans_of. change (findRepaidLoans_loop _ ∅ []) with
    (findRepaidLoans (omap log_transfer (live_logs (live t 0)))) in Hl. by rewrite Hl.
Qed.

(** C11: [Addresses] has no duplicates and is exactly the set of touched addresses: the sender,
    the recipient, every contract called or created by a frame that takes effect, and the
    recipient of every token transfer logged by such a frame. *)
Theorem Build_addresses tx t a (Hbuild : Build tx (Some t) = Some a) :
  NoDup (a_Addresses a) ∧
  ∀ x, x ∈ a_Addresses a ↔
    x = d_From tx ∨ tx_To (d_Tx tx) = Some x ∨
    (∃ f, takes_effect t f ∧ cf_To f = Some x) ∨
    (∃ f l tr, takes_effect t f ∧ l ∈ cf_Logs f ∧
      DecodeTransfer (log_Address l) (log_Topics l) (log_Data l) = Some (Some tr) ∧ tr_To tr = x).
Proof.
  rewrite Build_ref in Hbuild. injection Hbuild as <-. cbn [a_Addresses analysis_of].
  split; [apply NoDup_add_new, FromTx_nodup|]. intros x.
  rewrite elem_of_add_new, FromTx_addresses, elem_of_touched. setoid_rewrite DecodeTransfer_ref.
  assert (∀ l tr, log_transfer l = Some tr ↔
    Some (transfer_of (log_Address l) (log_Topics l) (log_Data l)) = Some (Some tr)) as Heq
    by (unfold log_transfer; split; congruence).
  setoid_rewrite Heq. tauto.
Qed.

(** C37: Reverted frames contribute nothing: removing every reverted sub-call from the trace,
    with everything below it, gives the same analysis. *)
Theorem Build_ignores_reverted tx t : Build tx (Some (prune t)) = Build tx (Some t).
Proof. by rewrite !Build_ref, analysis_of_prune. Qed.

(** [SubtreeEnd] is exact: for the [i]-th frame, the frames up to [SubtreeEnd i] are the
    frame itself and all its descendants that take effect, and no others. *)
Theorem SubtreeEnd_exact tx t a i f d
    (Hbuild : Build tx (Some t) = Some a) (Hi : live t 0 !! i = Some (f, d)) :
  a_Frames a !! i = Some (new_frame f d) ∧ SubtreeEnd a i = Some (i + length (live f d)).
Proof.
  rewrite Build_ref in Hbuild. injection Hbuild as <-.
  split; [|by apply SubtreeEnd_live]. cbn [a_Frames analysis_of]. unfold frames_of.
  by rewrite list_lookup_fmap, Hi.
Qed.

(** The transfers handed to the loan detector are grouped by frame, not in execution order:
    all the transfers a frame logs come before all those of its sub-calls, even the ones the
    sub-calls logged first. *)
Theorem Build_transfers_grouped tx t a (Hbuild : Build tx (Some t) = Some a) (Hok : cf_Error t = "") :
  a_Transfers a = omap log_transfer (cf_Logs t) ++
                  omap log_transfer (live_logs (cf_Calls t ≫= λ c, live c 1)).
Proof.
  rewrite Build_ref in Hbuild. injection Hbuild as <-. cbn [a_Transfers analysis_of].
  rewrite live_unfold, bool_decide_eq_false_2 by tauto. unfold live_logs. by rewrite bind_cons, omap_app.
Qed.

End analysis_claims.

(** ** Concrete instances *)
Module AnalysisExamples.
Import Toy EventsExamples.

Definition node (ty : string) (from to : Z) (err : string) (logs : list Log) (calls : list CallFrame) : CallFrame :=
  mkCallFrame ty (addr from) (Some (addr to)) None 0 0 [] [] err logs calls.
Definition erc20_log (token from to amount : Z) : Log :=
  mkLog (addr token) [transferTopic; address_word (addr from); address_word (addr to)] (be_bytes 32 amount).

Definition demo_tx : Decoded := mkDecoded (Tx (addr 1) (Some (addr 2)) [] : Transaction) (addr 1).

(** A call that deploys 10, calls it, and makes a call that reverts. *)
Definition demo_trace : CallFrame :=
  node "CALL" 1 2 "" [erc20_log 9 5 6 100]
    [node "CREATE" 2 10 "" [] [node "CALL" 10 11 "" [] []];
     node "CALL" 2 12 "execution reverted" [erc20_log 9 5 13 1] [node "CALL" 12 14 "" [] []];
     node "CALL" 2 10 "" [] []].

Definition demo_analysis : Analysis := analysis_of demo_tx demo_trace.

Example demo_addresses :
  a_Addresses <$> Build demo_tx (Some demo_trace) = Some [addr 1; addr 2; addr 6; addr 10; addr 11].
Proof. by vm_compute. Qed.

Lemma Build_addresses_witness :
  NoDup (a_Addresses demo_analysis) ∧
  ∀ x, x ∈ a_Addresses demo_analysis ↔
    x = d_From demo_tx ∨ tx_To (d_Tx demo_tx) = Some x ∨
    (∃ f, takes_effect demo_trace f ∧ cf_To f = Some x) ∨
    (∃ f l tr, takes_effect demo_trace f ∧ l ∈ cf_Logs f ∧
      DecodeTransfer (log_Address l) (log_Topics l) (log_Data l) = Some (Some tr) ∧ tr_To tr = x).
Proof. apply (Build_addresses demo_tx demo_trace demo_analysis). by vm_compute. Defined.

Lemma SubtreeEnd_exact_witness :
  a_Frames demo_analysis !! 1 =
    Some (new_frame (node "CREATE" 2 10 "" [] [node "CALL" 10 11 "" [] []]) 1) ∧
  SubtreeEnd demo_analysis 1 = Some (1 + 2).
Proof. apply (SubtreeEnd_exact demo_tx demo_trace); by vm_compute. Defined.

(** The pool 5 lends to 1 in a sub-call, which pays it to 6; then 8 repays and the pool logs
    that itself. The repayment is read before the loan, which is missed. *)
Definition misordered : CallFrame :=
  node "CALL" 1 5 "" [erc20_log 5 8 5 100] [node "CALL" 5 7 "" [erc20_log 5 5 1 100; erc20_log 5 1 6 100] []].

Lemma Build_transfers_grouped_witness :
  a_Transfers (analysis_of demo_tx misordered) =
  omap log_transfer (cf_Logs misordered) ++
  omap log_transfer (live_logs (cf_Calls misordered ≫= λ c, live c 1)).
Proof. apply (Build_transfers_grouped demo_tx misordered); by vm_compute. Defined.

Example misordered_loan_missed :
  (a_FlashLoans <$> Build demo_tx (Some misordered) = Some []) ∧
  findRepaidLoans (omap log_transfer [erc20_log 5 5 1 100; erc20_log 5 1 6 100; erc20_log 5 8 5 100]) =
    Some [mkFlashLoan (addr 5) (addr 5) (Some 100%Z) RepaidPattern].
Proof. by vm_compute. Qed.

End AnalysisExamples.
