(* ===== verification/WellFormed.v ===== *)
(** * What every analysis satisfies

    [Build] (internal/analysis/analysis.go) hands the rules values they index, divide and compare
    without checking them again. [wf_analysis] is what they may rely on: the well-formedness of
    the type [Analysis], which every result of [Build] has, with a trace or without. *)

From Stdlib Require Import ZArith Lia.
From S2P Require Import Prelude GoLib Geth Events TxDecode Simulate Flows FlashLoans Analysis.

(** ** The invariant *)

Definition is_uint256 (z : Z) : Prop := (0 ≤ z < 2 ^ 256)%Z.

(** Exactly one of the amount and the token id is there, and is a 256-bit number. *)
Definition transfer_typed (t : Transfer) : Prop :=
  match tr_Standard t with
  | ERC20 => tr_TokenID t = None ∧ ∃ v, tr_Amount t = Some v ∧ is_uint256 v
  | ERC721 => tr_Amount t = None ∧ ∃ v, tr_TokenID t = Some v ∧ is_uint256 v
  end.

(** Depths as a walk of a tree produces them: no frame is more than one deeper than the one
    before it, which is at depth [d - 1]. *)
Fixpoint nested (d : nat) (frames : list Frame) : Prop :=
  match frames with
  | [] => True
  | f :: frames => f_Depth f ≤ d ∧ nested (S (f_Depth f)) frames
  end.

(** One root, and everything else below it. *)
Definition call_tree (frames : list Frame) : Prop :=
  nested 0 frames ∧ Forall (λ f, 0 < f_Depth f) (tail frames).

(** A loan is announced by a known protocol, or its amount was seen to leave and come back. *)
Definition loan_typed (l : FlashLoan) : Prop :=
  (ln_Source l = "Aave V3" ∨ ln_Source l = "Balancer V2") ∧ (∃ v, ln_Amount l = Some v ∧ is_uint256 v) ∨
  ln_Source l = "Uniswap V3" ∧ ln_Token l = zero_address ∧ ln_Amount l = None ∨
  ln_Source l = RepaidPattern ∧ ln_Lender l ≠ zero_address ∧ (∃ v, ln_Amount l = Some v ∧ (0 < v < 2 ^ 256)%Z).

Definition flow_typed (f : Flow) : Prop := (0 ≤ fl_Out f)%Z ∧ (0 ≤ fl_In f)%Z.

Section wf_analysis.
Context `{G : Geth}.

Record wf_analysis (a : Analysis) : Prop := {
  wfa_addresses : NoDup (a_Addresses a);
  wfa_sender : d_From (a_Tx a) ∈ a_Addresses a;
  wfa_reverted : a_Reverted a = true → a_Frames a = [] ∧ a_Logs a = [];
  wfa_frames : call_tree (a_Frames a);
  wfa_values : Forall (λ f, ∀ v, f_Value f = Some v → (0 < v)%Z) (a_Frames a);
  wfa_targets : ∀ f, f ∈ a_Frames a → f_To f = zero_address ∨ f_To f ∈ a_Addresses a;
  wfa_created : ∀ x, x ∈ a_Created a → x ∈ a_Addresses a ∧ ∃ f, f ∈ a_Frames a ∧ IsCreate f = true ∧ f_To f = x;
  wfa_transfers : ∀ t, t ∈ a_Transfers a → transfer_typed t ∧ tr_To t ∈ a_Addresses a;
  wfa_approvals : Forall (λ x, is_uint256 (ap_Amount x)) (a_Approvals a);
  wfa_flows : NoDup (key <$> a_Flows a) ∧ Forall flow_typed (a_Flows a) ∧ ∀ asset, asset_net asset (a_Flows a) = 0%Z;
  wfa_loans : Forall loan_typed (a_FlashLoans a)
}.

(** ** Numbers in logs *)

Context {HL : GethLaws G}.

Lemma be_Z_uint256 l : length l ≤ 32 → is_uint256 (be_Z l).
Proof.
  intros Hl. pose proof (be_Z_range l) as [H0 H1]. split; [done|]. eapply Z.lt_le_trans; [exact H1|].
  change (2 ^ 256)%Z with (256 ^ 32)%Z. apply Z.pow_le_mono_r; lia.
Qed.

Lemma log_transfer_typed l t : log_transfer l = Some t → transfer_typed t.
Proof.
  unfold log_transfer, transfer_of, transfer_typed. intros H. go_cases; split; try done; eexists; (split; [done|]).
  - apply be_Z_uint256. lia.
  - rewrite Hash_Big_be. apply be_Z_uint256. by rewrite length_bytes.
Qed.

Lemma log_approval_typed l x : log_approval l = Some x → is_uint256 (ap_Amount x).
Proof. unfold log_approval, approval_of. intros H. go_cases. apply be_Z_uint256. lia. Qed.

Lemma log_loan_typed l x : log_flash_loan l = Some x → loan_typed x.
Proof.
  unfold log_flash_loan, loan_typed. intros (e & H & [= <-])%bind_Some. unfold flash_loan_of in H. cbn [ln_Source ln_Token ln_Amount].
  go_cases; first [by right; left|left; (split; [by auto|]); eexists; (split; [done|]); apply be_Z_uint256; rewrite length_take; lia].
Qed.

(** ** The call tree *)

Lemma nested_mono k k' frames : k ≤ k' → nested k frames → nested k' frames.
Proof. destruct frames; simpl; [done|]. intros ? [? ?]. split; [lia|done]. Qed.

Lemma nested_live (t : CallFrame) (d k : nat) (rest : list Frame) :
  d ≤ k → nested d rest → nested k (frames_of (live t d) ++ rest).
Proof.
  revert d k rest. induction t as [t IH] using CallFrame_ind'. intros d k rest Hk Hrest. rewrite live_unfold.
  case_bool_decide; [by eapply nested_mono|]. cbn [frames_of fmap list_fmap app nested fst snd]. split; [done|].
  cbn [new_frame f_Depth]. clear Hk k.
  induction IH as [|c cs Hc _ IHcs]; [apply (nested_mono d); [lia|exact Hrest]|].
  rewrite bind_cons. fold (frames_of (live c (S d) ++ (cs ≫= λ c, live c (S d)))). unfold frames_of.
  rewrite fmap_app, <-app_assoc. apply Hc; [done|]. apply IHcs.
Qed.

Lemma call_tree_live t : call_tree (frames_of (live t 0)).
Proof.
  split; [rewrite <-(app_nil_r (frames_of _)); by apply nested_live|]. rewrite live_unfold.
  case_bool_decide; [constructor|]. cbn [frames_of fmap list_fmap tail]. apply Forall_fmap.
  eapply Forall_impl; [apply (live_children_depth (cf_Calls t) 1)|]. intros p Hp. exact Hp.
Qed.

Lemma new_frame_value f d v : f_Value (new_frame f d) = Some v → (0 < v)%Z.
Proof.
  unfold new_frame. cbn [f_Value]. destruct (cf_Value f) as [u|]; [|done].
  destruct (Z.ltb_spec 0 (Z.sgn u)); [|done]. intros [= <-]. lia.
Qed.

(** ** Flows *)

Lemma Forall_kept {A} (P Q : A → Prop) `{∀ x, Decision (Q x)} l : Forall P l → Forall P (filter Q l).
Proof. rewrite !Forall_forall. intros Hl x [_ Hx]%list_elem_of_filter. auto. Qed.

Lemma moves_nonneg frames transfers :
  Forall (λ f, ∀ v, f_Value f = Some v → (0 < v)%Z) frames → Forall transfer_typed transfers →
  Forall (λ m, (0 ≤ mv_Amount m)%Z) (moves_of frames transfers).
Proof.
  intros Hf Ht. apply Forall_kept, Forall_app. rewrite Forall_forall in Hf. rewrite Forall_forall in Ht. split; apply Forall_forall.
  - intros m (f & Hin & Hm)%list_elem_of_omap. unfold eth_move in Hm. destruct (moves_eth f); [|done].
    apply bind_Some in Hm as (v & Hv & [= <-]). specialize (Hf f Hin v Hv). cbn. lia.
  - intros m (t & Hin & Hm)%list_elem_of_omap. unfold erc20_move in Hm. case_bool_decide as Hs; [|done].
    apply bind_Some in Hm as (v & Hv & [= <-]). specialize (Ht t Hin). unfold transfer_typed in Ht. rewrite Hs in Ht.
    destruct Ht as (_ & v' & Hv' & Hr & _). cbn. congruence.
Qed.

Lemma sums_nonneg (P : Move → bool) ms :
  Forall (λ m, (0 ≤ mv_Amount m)%Z) ms → (0 ≤ list_sum_Z ((λ m, if P m then mv_Amount m else 0%Z) <$> ms))%Z.
Proof.
  intros Hms. apply list_sum_Z_nonneg, Forall_fmap. eapply Forall_impl; [exact Hms|]. intros m Hm. cbn. by destruct (P m).
Qed.

Lemma flows_typed frames transfers fs :
  Forall (λ f, ∀ v, f_Value f = Some v → (0 < v)%Z) frames → Forall transfer_typed transfers →
  Forall wf_transfer transfers → computeFlows frames transfers = Some fs → Forall flow_typed fs.
Proof.
  intros Hf Ht Hwf Hfs. apply Forall_forall. intros f Hin.
  destruct (computeFlows_amounts _ _ _ f Hwf Hfs Hin) as [Ho Hi]. pose proof (moves_nonneg _ _ Hf Ht) as Hms.
  unfold flow_typed. rewrite Ho, Hi. split; by apply sums_nonneg.
Qed.

(** ** Loans *)

Lemma pattern_loans_typed transfers loans :
  Forall transfer_typed transfers → Forall wf_transfer transfers →
  findRepaidLoans transfers = Some loans → Forall loan_typed loans.
Proof.
  intros Ht Hwf Hrun. destruct (findRepaidLoans_loop_spec transfers ∅ [] Hwf) as (loans' & Hrun' & _ & Hsound & _).
  unfold findRepaidLoans in Hrun. rewrite Hrun in Hrun'. injection Hrun' as <-.
  apply Forall_forall. intros l Hl. destruct (Hsound l Hl) as (_ & Hs & v & Hv & pre & out & post & -> & Hlend & Hk & _).
  right. right. destruct Hlend as (Hstd & Hfrom & _ & Ha & Hnz). injection Hk as Hlender _.
  split; [done|]. split; [congruence|]. exists v. split; [done|].
  apply Forall_app in Ht as [_ [Hout _]%Forall_cons]. unfold transfer_typed in Hout. rewrite Hstd, Ha in Hout.
  destruct Hout as (_ & v' & [= <-] & Hr). unfold is_uint256 in Hr. lia.
Qed.

Lemma loans_typed logs : Forall loan_typed (loans_of logs).
Proof.
  unfold loans_of. rewrite mergeFlashLoans_filter. apply Forall_app. split.
  - apply Forall_forall. intros l (e & _ & He)%list_elem_of_omap. by eapply log_loan_typed.
  - apply Forall_kept. destruct (findRepaidLoans _) as [loans|] eqn:Hrun; [|constructor].
    eapply pattern_loans_typed; [|apply log_transfers_wf|exact Hrun].
    apply Forall_forall. intros t (e & _ & He)%list_elem_of_omap. by eapply log_transfer_typed.
Qed.

(** ** Addresses *)

Lemma target_listed tx t p to :
  p ∈ live t 0 → cf_To p.1 = Some to → to ∈ a_Addresses (analysis_of tx t).
Proof.
  intros Hp Hto. apply elem_of_add_new. right. apply list_elem_of_bind. exists p. split; [|done].
  apply elem_of_app. left. rewrite Hto. by left.
Qed.

Lemma created_listed tx t x :
  x ∈ a_Created (analysis_of tx t) →
  x ∈ a_Addresses (analysis_of tx t) ∧ ∃ f, f ∈ a_Frames (analysis_of tx t) ∧ IsCreate f = true ∧ f_To f = x.
Proof.
  intros (p & Hx & Hp)%list_elem_of_bind. unfold frame_created in Hx.
  destruct (cf_To p.1) as [to|] eqn:Hto; [|by apply elem_of_nil in Hx].
  destruct (IsCreate _) eqn:Hc; [apply list_elem_of_singleton in Hx as ->|by apply elem_of_nil in Hx].
  split; [by eapply target_listed|]. exists (new_frame p.1 p.2).
  split; [by apply list_elem_of_fmap_2 with (f := λ p, new_frame p.1 p.2)|].
  split; [done|]. cbn [new_frame f_To]. by rewrite Hto.
Qed.

Lemma recipient_listed tx t x :
  x ∈ a_Transfers (analysis_of tx t) → tr_To x ∈ a_Addresses (analysis_of tx t).
Proof.
  intros (l & Hl & Hx)%list_elem_of_omap. apply list_elem_of_bind in Hl as (p & Hl & Hp).
  apply elem_of_add_new. right. apply list_elem_of_bind. exists p. split; [|done].
  apply elem_of_app. right. apply list_elem_of_bind. exists l. split; [|done]. unfold log_recipients. rewrite Hx. by left.
Qed.

Lemma targets_listed tx t f :
  f ∈ a_Frames (analysis_of tx t) → f_To f = zero_address ∨ f_To f ∈ a_Addresses (analysis_of tx t).
Proof.
  intros (p & -> & Hp)%list_elem_of_fmap. cbn [new_frame f_To].
  destruct (cf_To p.1) as [to|] eqn:Hto; [right; by eapply target_listed|by left].
Qed.

(** ** [Build] *)

(** C17: Every result of [Build] is well-formed, whatever the node's trace: addresses are distinct and
    include the sender and everything frames and transfers reach; a reverted transaction has no
    frames; the frames are one call tree in pre-order and move positive values only; created
    contracts are targets of creations; every ERC-20 transfer has a 256-bit amount and every
    ERC-721 transfer a 256-bit id instead; flows are one per asset and holder, never negative, and
    cancel out per asset; and every loan is announced by a known protocol or was seen repaid. *)
Theorem Build_well_formed (tx : Decoded) (trace : option CallFrame) (a : Analysis) (Hbuild : Build tx trace = Some a) :
  wf_analysis a.
Proof.
  destruct trace as [t|].
  - rewrite Build_ref in Hbuild. injection Hbuild as <-.
    assert (Forall transfer_typed (a_Transfers (analysis_of tx t))) as Ht.
    { apply Forall_forall. intros x (e & _ & He)%list_elem_of_omap. by eapply log_transfer_typed. }
    assert (Forall (λ f, ∀ v, f_Value f = Some v → (0 < v)%Z) (frames_of (live t 0))) as Hv.
    { apply Forall_fmap, Forall_true. intros p v. apply new_frame_value. }
    pose proof (log_transfers_wf (live_logs (live t 0))) as Hwf.
    pose proof (computeFlows_ref (frames_of (live t 0)) _ Hwf) as Hfs.
    split; try done.
    + apply NoDup_add_new, FromTx_nodup.
    + apply elem_of_add_new. left. apply FromTx_addresses. by left.
    + intros Hr. cbn [a_Reverted a_Frames a_Logs analysis_of] in *. rewrite live_unfold, Hr. done.
    + apply call_tree_live.
    + apply targets_listed.
    + apply created_listed.
    + intros x Hx. split; [by eapply Forall_forall in Ht|by apply recipient_listed].
    + apply Forall_forall. intros x (e & _ & He)%list_elem_of_omap. by eapply log_approval_typed.
    + split_and!.
      * by eapply computeFlows_nodup.
      * by eapply flows_typed.
      * intros asset. cbn [a_Flows analysis_of]. by rewrite asset_net_moves.
    + apply loans_typed.
  - injection Hbuild as <-. split; try done; [apply FromTx_nodup|apply FromTx_addresses; by left|..].
    + intros x Hx. by apply elem_of_nil in Hx.
    + intros x Hx. by apply elem_of_nil in Hx.
    + intros x Hx. by apply elem_of_nil in Hx.
    + split_and!; [apply NoDup_nil_2|constructor|done].
Qed.

End wf_analysis.

(** ** Concrete instances *)
Module WellFormedExamples.
Import Toy AnalysisExamples.

Lemma Build_well_formed_witness : wf_analysis demo_analysis.
Proof. apply (Build_well_formed demo_tx (Some demo_trace)). by vm_compute. Defined.

End WellFormedExamples.
