(* ===== verification/ChainState.v ===== *)
(** * Package chainstate: contract age and balances

    [internal/chainstate]: the age of a contract's code ([RPCFreshness]), the cache of
    established contracts ([CachedFreshness]) and balances before the transaction
    ([RPCBalances]). The RPC clients are parameters that receive the context they are called
    with. *)

From Stdlib Require Import ZArith Lia.
From S2P Require Import Prelude GoLib Deadline Geth.

(** ** Interfaces *)

Inductive Status := NoCode | Fresh | Established.

#[global] Instance Status_eq_dec : EqDecision Status.
Proof. solve_decision. Defined.

Record StatusReader (W : Type) := mkStatusReader { StatusOf : Ctx → Address → M W Status }.
Arguments mkStatusReader {W} _.
Arguments StatusOf {W} _ _ _.

Record FreshnessChecker (W : Type) := mkFreshnessChecker { IsFreshContract : Ctx → Address → M W bool }.
Arguments mkFreshnessChecker {W} _.
Arguments IsFreshContract {W} _ _ _.

(** [Balance] returns [None] for [ok = false]. *)
Record BalanceReader (W : Type) := mkBalanceReader { Balance : Ctx → Address → Address → M W (option Z) }.
Arguments mkBalanceReader {W} _.
Arguments Balance {W} _ _ _ _.

(** The parts of the RPC client: a [None] block is the latest one. *)
Record CodeReader (W : Type) := mkCodeReader {
  BlockNumber : Ctx → M W Z;
  CodeAt : Ctx → Address → option Z → M W (list byte)
}.
Arguments mkCodeReader {W} _ _.
Arguments BlockNumber {W} _ _.
Arguments CodeAt {W} _ _ _ _.

Record CallMsg := mkCallMsg { msg_To : Address; msg_Data : list byte }.

Record BalanceClient (W : Type) := mkBalanceClient {
  BalanceAt : Ctx → Address → option Z → M W Z;
  CallContract : Ctx → CallMsg → option Z → M W (list byte)
}.
Arguments mkBalanceClient {W} _ _.
Arguments BalanceAt {W} _ _ _ _.
Arguments CallContract {W} _ _ _ _.

(** What the rules rely on: a reader answers [st] and fails only with errors in [E]. *)
Class StatusSpec {W} (I : W → Prop) (E : error → Prop) (r : StatusReader W) (st : Address → Status) : Prop :=
  status_spec : ∀ ctx a, triple I (StatusOf r ctx a) (λ s, s = st a) E.
Class FreshSpec {W} (I : W → Prop) (E : error → Prop) (r : FreshnessChecker W) (st : Address → Status) : Prop :=
  fresh_spec : ∀ ctx a, triple I (IsFreshContract r ctx a) (λ b, b = bool_decide (st a = Fresh)) E.
Class BalanceSpec {W} (I : W → Prop) (E : error → Prop) (r : BalanceReader W)
    (bal : Address → Address → option Z) : Prop :=
  balance_spec : ∀ ctx asset holder, triple I (Balance r ctx asset holder) (λ b, b = bal asset holder) E.

(** [IsFreshContract] of both implementations: [s, err := c.Status(..); return s == Fresh, err]. *)
Definition IsFresh_of {W} (r : StatusReader W) : FreshnessChecker W :=
  mkFreshnessChecker (λ ctx a, s ← StatusOf r ctx a; mret (bool_decide (s = Fresh))).

(** The two questions the rules ask; [*CachedFreshness] answers both. *)
Record contractAge (W : Type) := mkContractAge { age_fresh : FreshnessChecker W; age_reader : StatusReader W }.
Arguments mkContractAge {W} _ _.
Arguments age_fresh {W} _.
Arguments age_reader {W} _.

#[global] Instance IsFresh_of_spec {W} I E (r : StatusReader W) st :
  StatusSpec I E r st → FreshSpec I E (IsFresh_of r) st.
Proof.
  intros Hr ctx a. eapply triple_bind; [apply Hr|]. intros s ->. by apply triple_ret.
Qed.

(** ** RPCFreshness *)
Section freshness.
Context `{G : Geth} {W : Type} `{!Clock W} (reader : CodeReader W) (window timeout : Z).

Definition pastBlock (ctx : Ctx) : M W Z :=
  latest ← wrap_err "latest block: %w" [] (BlockNumber reader ctx);
  if Z.ltb latest window then mret 0%Z else mret (wrap_u64 (latest - window)).

Definition RPCStatus (ctx : Ctx) (addr : Address) : M W Status :=
  ctx ← WithTimeout ctx timeout;
  code ← wrap_err "code of %s: %w" [Address_Hex addr] (CodeAt reader ctx addr None);
  if bool_decide (length code = 0) then mret NoCode else
  past ← pastBlock ctx;
  oldCode ← wrap_err "code of %s at block %s: %w" [Address_Hex addr; pretty past]
              (CodeAt reader ctx addr (Some past));
  if bool_decide (length oldCode = 0) then mret Fresh else mret Established.

Definition RPCFreshness : StatusReader W := mkStatusReader RPCStatus.

Definition Verify_freshness (ctx : Ctx) : M W () :=
  past ← pastBlock ctx;
  _ ← wrap_err "node cannot read state at block %s (%d blocks back); use an archive node or a smaller window: %w"
        [pretty past; pretty window] (CodeAt reader ctx zero_address (Some past));
  mret ().

End freshness.

(** A chain: its height and the code of every account at every block. *)
Record Chain := mkChain { height : Z; code_at : Address → Z → list byte }.

(** The reader answers from one chain, and may fail with errors in [E]. *)
Class ReadsChain {W} (I : W → Prop) (E : error → Prop) (reader : CodeReader W) (ch : Chain) : Prop := {
  reads_height : ∀ ctx, triple I (BlockNumber reader ctx) (λ n, n = height ch) E;
  reads_latest : ∀ ctx a, triple I (CodeAt reader ctx a None) (λ c, c = code_at ch a (height ch)) E;
  reads_past : ∀ ctx a n, (0 ≤ n ≤ height ch)%Z →
    triple I (CodeAt reader ctx a (Some n)) (λ c, c = code_at ch a n) E
}.

(** The age of a contract: compare its code now and [window] blocks ago, or at genesis. *)
Definition age_status (ch : Chain) (window : Z) (a : Address) : Status :=
  if bool_decide (code_at ch a (height ch) = []) then NoCode
  else if bool_decide (code_at ch a (Z.max 0 (height ch - window)) = []) then Fresh
  else Established.

Section freshness_proofs.
Context `{G : Geth} {W : Type} `{!Clock W} (I : W → Prop) (E : error → Prop) `{!WrapClosed E}.
Context (reader : CodeReader W) (ch : Chain) {Hreads : ReadsChain I E reader ch}.
Context (window timeout : Z) (Hheight : (0 ≤ height ch < 2 ^ 64)%Z) (Hwindow : (0 ≤ window < 2 ^ 64)%Z).

Lemma pastBlock_spec ctx : triple I (pastBlock reader window ctx) (λ n, n = Z.max 0 (height ch - window)) E.
Proof using All.
  eapply triple_bind; [by apply triple_wrap; [done|]; apply reads_height|].
  intros n ->. destruct (Z.ltb_spec (height ch) window); apply triple_ret; [lia|].
  rewrite wrap_u64_id by lia. lia.
Qed.

Lemma RPCStatus_spec ctx a : triple I (RPCStatus reader window timeout ctx a) (λ s, s = age_status ch window a) E.
Proof using All.
  unfold RPCStatus, age_status. eapply triple_bind; [apply triple_WithTimeout|]. clear ctx. intros ctx _.
  eapply triple_bind; [apply triple_wrap; [done|]; apply reads_latest|].
  intros code ->. case_bool_decide as Hnow; rewrite length_zero_iff_nil in Hnow.
  { apply triple_ret. by rewrite bool_decide_eq_true_2. }
  rewrite (bool_decide_eq_false_2 (code_at ch a (height ch) = [])) by done.
  eapply triple_bind; [apply pastBlock_spec|]. intros past ->.
  eapply triple_bind; [apply triple_wrap; [done|]; apply reads_past; lia|]. intros old ->.
  case_bool_decide as Hold; rewrite length_zero_iff_nil in Hold; apply triple_ret.
  - by rewrite bool_decide_eq_true_2.
  - by rewrite bool_decide_eq_false_2.
Qed.

#[global] Instance RPCFreshness_spec : StatusSpec I E (RPCFreshness reader window timeout) (age_status ch window).
Proof using All. intros ctx a. apply RPCStatus_spec. Qed.

End freshness_proofs.

(** ** CachedFreshness

    The set [known] of established contracts lives in the world. Each locked region is one
    [get] or one [get]-[put] step. *)

(** The second locked region. *)
Definition known_store (maxEntries : Z) (addr : Address) (known : gset Address) : gset Address :=
  {[addr]} ∪ (if Z.leb maxEntries (Z.of_nat (size known)) then ∅ else known).

Section cached_freshness.
Context {W : Type} `{L : Lens W (gset Address)}.

Definition CachedStatus (next : StatusReader W) (maxEntries : Z) (ctx : Ctx) (addr : Address) : M W Status :=
  known ← get;
  if bool_decide (addr ∈ (known : gset Address)) then mret Established else
  s ← StatusOf next ctx addr;
  if bool_decide (s ≠ Established) then mret s else
  known ← get;
  _ ← put (known_store maxEntries addr known);
  mret Established.

Definition CachedIsFresh (next : StatusReader W) (maxEntries : Z) : FreshnessChecker W :=
  IsFresh_of (mkStatusReader (CachedStatus next maxEntries)).

Definition CachedFreshness (next : StatusReader W) (maxEntries : Z) : contractAge W :=
  mkContractAge (CachedIsFresh next maxEntries) (mkStatusReader (CachedStatus next maxEntries)).

Definition NewCachedFreshness (next : StatusReader W) (maxEntries : Z) : error + contractAge W :=
  if Z.leb maxEntries 0 then inl (Errorf "freshness cache size must be positive" [])
  else inr (CachedFreshness next maxEntries).

End cached_freshness.

(** A reader that does not touch the cache: it meets its specification whatever the cache
    holds, leaves it unchanged, and its invariant does not depend on it. *)
Class CacheFrame {W S} `{L : Lens W S} (I : W → Prop) : Prop :=
  cache_frame : ∀ s w, I w → I (update s w).

Section known_ok.
Context (st : Address → Status) (maxEntries : Z).

(** The cache only knows established contracts and never exceeds its bound. *)
Definition known_ok (k : gset Address) : Prop :=
  (∀ a, a ∈ k → st a = Established) ∧ (Z.of_nat (size k) ≤ Z.max 1 maxEntries)%Z.

Lemma known_ok_store k a :
  known_ok k → st a = Established → known_ok (known_store maxEntries a k).
Proof.
  unfold known_store. intros [Hk Hsize] Ha. destruct (Z.leb_spec maxEntries (Z.of_nat (size k))) as [Hge|Hlt]; split.
  - intros x [->%elem_of_singleton|?%not_elem_of_empty]%elem_of_union; done.
  - rewrite union_empty_r_L, size_singleton. lia.
  - intros x [->%elem_of_singleton|?]%elem_of_union; auto.
  - destruct (decide (a ∈ k)).
    + replace ({[a]} ∪ k) with k by set_solver. lia.
    + rewrite size_union by set_solver. rewrite size_singleton. lia.
Qed.

End known_ok.

Section cached_freshness_proofs.
Context {W : Type} `{L : Lens W (gset Address)} `{!LensLaws L}.
Context (I : W → Prop) (E : error → Prop) `{!CacheFrame I}.
Context (next : StatusReader W) (st : Address → Status) (maxEntries : Z).
Context (Hnext : ∀ k : gset Address, StatusSpec (λ w, I w ∧ view w = k) E next st).

Definition cached_inv (w : W) : Prop := I w ∧ known_ok st maxEntries (view w).

Lemma CachedStatus_run ctx a w :
  cached_inv w →
  match CachedStatus next maxEntries ctx a w with
  | (Ok s, w') => cached_inv w' ∧ s = st a
  | (Err e, w') => cached_inv w' ∧ E e
  | (Panic, _) => False
  end.
Proof using All.
  intros [HI Hk]. unfold CachedStatus, mbind, M_bind, get, put. case_bool_decide as Hin.
  { split; [by split|]. symmetry. by apply Hk. }
  pose proof (Hnext (view w) ctx a w (conj HI eq_refl)) as Hn.
  destruct (StatusOf next ctx a w) as [[s|e|] w1]; [| |done]; destruct Hn as [[HI1 Hv1] Hr].
  2: { split; [|done]. split; [done|]. by rewrite Hv1. }
  subst s. case_bool_decide as Hs.
  - split; [|done]. split; [done|]. by rewrite Hv1.
  - rewrite Hv1. split; [split|done].
    + by apply cache_frame.
    + rewrite view_update. by apply known_ok_store.
Qed.

(** A known contract is answered from the cache; an established one is known afterwards. *)
Lemma CachedStatus_hit ctx a w :
  a ∈ (view w : gset Address) → CachedStatus next maxEntries ctx a w = (Ok Established, w).
Proof using Type. intros Hin. unfold CachedStatus, mbind, M_bind, get. by rewrite bool_decide_eq_true_2. Qed.

Lemma CachedStatus_stores ctx a w w' :
  CachedStatus next maxEntries ctx a w = (Ok Established, w') → a ∈ (view w' : gset Address).
Proof using LensLaws0.
  unfold CachedStatus, mbind, M_bind, get, put. case_bool_decide as Hin; [by intros [= <-]|].
  destruct (StatusOf next ctx a w) as [[s|e|] w1]; [|done..]. case_bool_decide as Hs; [by intros [= ->]|].
  intros [= <-]. rewrite view_update. apply elem_of_union_l, elem_of_singleton. reflexivity.
Qed.

(** The cache refines the reader it wraps. *)
#[global] Instance CachedFreshness_spec : StatusSpec cached_inv E (age_reader (CachedFreshness next maxEntries)) st.
Proof using All. intros ctx a w Hw. by apply CachedStatus_run. Qed.

#[global] Instance CachedIsFresh_spec : FreshSpec cached_inv E (age_fresh (CachedFreshness next maxEntries)) st.
Proof using All. apply IsFresh_of_spec, CachedFreshness_spec. Qed.

End cached_freshness_proofs.

(** ** RPCBalances *)
Section balances.
Context `{G : Geth} {W : Type} `{!Clock W} (client : BalanceClient W) (timeout : Z).

Definition balanceOfSelector : list byte := take 4 (Keccak256 (to_bytes "balanceOf(address)")).

Definition balanceOf_calldata (holder : Address) : list byte :=
  balanceOfSelector ++ LeftPadBytes (bytes holder) 32.

Definition RPCBalance (ctx : Ctx) (asset holder : Address) : M W (option Z) :=
  ctx ← WithTimeout ctx timeout;
  if bool_decide (asset = zero_address) then
    bal ← wrap_err "ETH balance of %s: %w" [Address_Hex holder] (BalanceAt client ctx holder None);
    mret (Some bal)
  else
    r ← try_err (CallContract client ctx (mkCallMsg asset (balanceOf_calldata holder)) None);
    match r with
    | inl err =>
        match as_rpc_error err with
        | Some _ => mret None
        | None => fail (Wrapf "balance of %s in %s: %w" [Address_Hex holder; Address_Hex asset] err)
        end
    | inr out => if bool_decide (length out ≠ 32) then mret None else mret (Some (be_Z out))
    end.

Definition RPCBalances : BalanceReader W := mkBalanceReader RPCBalance.

Lemma RPCBalance_run ctx asset holder w :
  asset ≠ zero_address →
  RPCBalance ctx asset holder w =
  let '(r, w') := CallContract client (WithDeadline ctx (clock w + timeout))
                    (mkCallMsg asset (balanceOf_calldata holder)) None w in
  (match r with
   | Ok out => Ok (if bool_decide (length out = 32) then Some (be_Z out) else None)
   | Err e => if bool_decide (is_Some (as_rpc_error e)) then Ok None
              else Err (Wrapf "balance of %s in %s: %w" [Address_Hex holder; Address_Hex asset] e)
   | Panic => Panic
   end, w').
Proof.
  intros Hasset. unfold RPCBalance. rewrite bool_decide_eq_false_2 by done.
  unfold mbind, M_bind, try_err, WithTimeout, time_Now. simpl. destruct (CallContract _ _ _ _ w) as [[out|e|] w']; [| |done].
  - by repeat case_bool_decide.
  - destruct (as_rpc_error e) as [[code msg]|]; case_bool_decide as Hs; [done| |by destruct Hs|done].
    by destruct Hs.
Qed.

Lemma balanceOf_calldata_layout {HL : GethLaws G} holder :
  length (balanceOf_calldata holder) = 36 ∧
  drop 16 (balanceOf_calldata holder) = bytes holder.
Proof.
  unfold balanceOf_calldata, balanceOfSelector.
  assert (length (take 4 (Keccak256 (to_bytes "balanceOf(address)"))) = 4) as H4
    by (rewrite length_take, Keccak256_length; done).
  rewrite LeftPadBytes_pad by (rewrite length_bytes; lia). rewrite length_bytes.
  rewrite length_app, H4, length_app, length_replicate, length_bytes. split; [done|].
  rewrite app_assoc. apply drop_app_length'. rewrite length_app, H4, length_replicate. done.
Qed.

End balances.

Section chainstate_claims.
Context `{G : Geth} {W : Type} `{!Clock W} (I : W → Prop) (E : error → Prop) `{!WrapClosed E}.

(** [RPCFreshness.Status] classifies an address by the age of its code, for every 64-bit
    height and window: no code now is [NoCode]; code now but none [window] blocks ago (or at
    genesis on a younger chain) is [Fresh]; otherwise [Established]. The block subtraction
    never wraps, and no failed lookup is turned into an answer. *)
Theorem Status_classifies_age (reader : CodeReader W) (ch : Chain) (window timeout : Z) (ctx : Ctx) (a : Address)
    (Hreads : ReadsChain I E reader ch)
    (Hheight : (0 ≤ height ch < 2 ^ 64)%Z) (Hwindow : (0 ≤ window < 2 ^ 64)%Z) :
  triple I (RPCStatus reader window timeout ctx a) (λ s, s = age_status ch window a) E.
Proof. by apply RPCStatus_spec. Qed.

(** The freshness cache is transparent and bounded: around a reader that answers [st],
    every lookup through the cache returns [st] of the address, the cache only ever holds
    established contracts, and it never holds more than its maximum of entries. *)
Theorem CachedFreshness_transparent `{L : Lens W (gset Address)} `{!LensLaws L} `{!CacheFrame I}
    (next : StatusReader W) (st : Address → Status) (maxEntries : Z) (ctx : Ctx) (a : Address)
    (Hmax : (0 < maxEntries)%Z)
    (Hnext : ∀ k : gset Address, StatusSpec (λ w, I w ∧ view w = k) E next st) :
  triple (λ w, I w ∧ (∀ x, x ∈ (view w : gset Address) → st x = Established) ∧
               (Z.of_nat (size (view w : gset Address)) ≤ maxEntries)%Z)
    (CachedStatus next maxEntries ctx a) (λ s, s = st a) E ∧
  (∀ w, a ∈ (view w : gset Address) → CachedStatus next maxEntries ctx a w = (Ok Established, w)) ∧
  (∀ w w', CachedStatus next maxEntries ctx a w = (Ok Established, w') → a ∈ (view w' : gset Address)).
Proof.
  split; [|split; [apply CachedStatus_hit|apply CachedStatus_stores]]. intros w (HI & Hk & Hsize).
  pose proof (CachedStatus_run I E next st maxEntries Hnext ctx a w) as Hrun.
  unfold cached_inv, known_ok in Hrun. rewrite Z.max_r in Hrun by lia. by apply Hrun.
Qed.

(** A token balance is measured only when the node answers with exactly one 32-byte word,
    which is then its uint256 value; an answer that is an RPC error (a reverting
    [balanceOf]) or has another length makes the token unmeasurable, and a transport error
    is never treated as an answer. *)
Theorem token_balance_outcomes (client : BalanceClient W) (timeout : Z) (ctx : Ctx) (asset holder : Address) (w : W)
    (Hasset : asset ≠ zero_address) :
  match CallContract client (WithDeadline ctx (clock w + timeout))
          (mkCallMsg asset (balanceOf_calldata holder)) None w with
  | (Ok out, w') =>
      RPCBalance client timeout ctx asset holder w =
        (Ok (if bool_decide (length out = 32) then Some (be_Z out) else None), w') ∧
      (length out = 32 → (0 ≤ be_Z out < 2 ^ 256)%Z)
  | (Err e, w') => RPCBalance client timeout ctx asset holder w =
      (if bool_decide (is_Some (as_rpc_error e)) then Ok None
       else Err (Wrapf "balance of %s in %s: %w" [Address_Hex holder; Address_Hex asset] e), w')
  | (Panic, w') => RPCBalance client timeout ctx asset holder w = (Panic, w')
  end.
Proof.
  rewrite RPCBalance_run by done.
  destruct (CallContract _ _ _ _ w) as [[out|e|] w']; [|done..]. split; [done|].
  intros Hlen. pose proof (be_Z_range out) as Hr. by rewrite Hlen in Hr.
Qed.

End chainstate_claims.

(** ** Concrete instances *)
Module ChainStateExamples.
Import Toy StillTime.

Definition acct (n : Z) : Address := to_bytes_n 20 (be_bytes 20 n).

(** Account 1 has no code, 2 was deployed at block 95, 3 at genesis. *)
Definition demo_chain : Chain := mkChain 100 (λ a n,
  if bool_decide (a = acct 2) then (if Z.leb 95 n then [x60] else [])
  else if bool_decide (a = acct 3) then [x60] else []).

(** A node over the cache of established contracts: it answers from [demo_chain]. *)
Definition demo_reader {W} : CodeReader W :=
  mkCodeReader (λ _, mret (height demo_chain))
    (λ _ a n, mret (code_at demo_chain a (default (height demo_chain) n))).

Lemma demo_reads {W} (I : W → Prop) E : ReadsChain I E demo_reader demo_chain.
Proof. split; intros; by apply triple_ret. Qed.

Lemma Status_classifies_age_witness :
  triple (λ _ : unit, True) (RPCStatus demo_reader 10 Second Background (acct 2))
    (λ s, s = age_status demo_chain 10 (acct 2)) (λ _, False).
Proof.
  apply (Status_classifies_age (λ _ : unit, True) (λ _, False) demo_reader demo_chain 10 Second Background (acct 2) (demo_reads _ _));
    simpl; lia.
Defined.

Example demo_statuses :
  (λ n, (RPCStatus demo_reader 10 Second Background (acct n) tt).1) <$> [1; 2; 3]%Z = [Ok NoCode; Ok Fresh; Ok Established].
Proof. by vm_compute. Qed.

(** The world is the cache alone. *)
Definition id_lens : Lens (gset Address) (gset Address) := {| view := id; update s _ := s |}.
Lemma id_lens_laws : LensLaws id_lens.
Proof. by split. Qed.

Lemma demo_next k : StatusSpec (λ w : gset Address, True ∧ @view _ _ id_lens w = k) (λ _, False)
  (RPCFreshness demo_reader 10 Second) (age_status demo_chain 10).
Proof. apply RPCFreshness_spec; [apply _|apply demo_reads|simpl; lia|lia]. Qed.

Lemma CachedFreshness_transparent_witness :
  triple (λ w : gset Address, True ∧ (∀ x, x ∈ w → age_status demo_chain 10 x = Established) ∧
               (Z.of_nat (size w) ≤ 2)%Z)
    (CachedStatus (L := id_lens) (RPCFreshness demo_reader 10 Second) 2 Background (acct 3))
    (λ s, s = age_status demo_chain 10 (acct 3)) (λ _, False) ∧
  (∀ w, acct 3 ∈ w → CachedStatus (L := id_lens) (RPCFreshness demo_reader 10 Second) 2 Background (acct 3) w = (Ok Established, w)) ∧
  (∀ w w', CachedStatus (L := id_lens) (RPCFreshness demo_reader 10 Second) 2 Background (acct 3) w = (Ok Established, w') →
     acct 3 ∈ w').
Proof.
  apply (CachedFreshness_transparent (L := id_lens) (LensLaws0 := id_lens_laws)
    (λ _ : gset Address, True) (λ _, False) (CacheFrame0 := λ _ _ H, H)
    (RPCFreshness demo_reader 10 Second) (age_status demo_chain 10) 2 Background (acct 3)); [lia|].
  intros k. apply demo_next.
Defined.

Definition demo_client : BalanceClient unit :=
  mkBalanceClient (λ _ _ _, mret 5%Z)
    (λ _ m _, if bool_decide (msg_To m = acct 9) then mret (be_bytes 32 1000) else fail (RpcError 3 "execution reverted")).

Lemma token_balance_outcomes_witness :
  RPCBalance demo_client Second Background (acct 9) (acct 1) tt = (Ok (Some (be_Z (be_bytes 32 1000))), tt) ∧
  (length (be_bytes 32 1000) = 32 → (0 ≤ be_Z (be_bytes 32 1000) < 2 ^ 256)%Z).
Proof. apply (token_balance_outcomes demo_client Second Background (acct 9) (acct 1) tt). by vm_compute. Defined.

End ChainStateExamples.
