(* ===== verification/FreshnessCache.v ===== *)
(** * Contract age on a growing chain, and the freshness cache under concurrent requests

    [RPCFreshness.Status] asks the node up to three questions, between which the chain grows;
    [CachedFreshness.Status] runs two regions under its mutex and asks without it. The chain
    is one function from heights to code; a lookup sees it at heights that only grow. As in the
    comment of [CachedFreshness], code once deployed stays deployed (EIP-6780).
    [fresh_step] interleaves any number of callers of the cache. *)

From Stdlib Require Import ZArith Lia.
From stdpp Require Import relations.
From S2P Require Import Prelude GoLib Deadline Geth ChainState.

(** ** The age of a contract at a height *)
Section age.
Context (code : Address → Z → list byte) (window : Z).

Definition age_at (h : Z) (a : Address) : Status := age_status (mkChain h code) window a.

(** Code is never removed. *)
Definition permanent : Prop := ∀ a n m, (n ≤ m)%Z → code a n ≠ [] → code a m ≠ [].

Lemma age_at_established h a :
  age_at h a = Established ↔ code a h ≠ [] ∧ code a (Z.max 0 (h - window)) ≠ [].
Proof. unfold age_at, age_status. simpl. repeat case_bool_decide; naive_solver. Qed.

(** Established contracts stay established. *)
Lemma established_stable h h' a :
  permanent → (h ≤ h')%Z → age_at h a = Established → age_at h' a = Established.
Proof.
  rewrite !age_at_established. intros Hp Hle [Hnow Hold]. split; [by eapply Hp|].
  eapply Hp; [|exact Hold]. lia.
Qed.

End age.

(** ** A reader of a growing chain *)
Section growing.
Context `{G : Geth} {W : Type} `{!Clock W} (height : W → Z) (code : Address → Z → list byte).

(** Whatever a call does, heights only grow; an answer about the latest block is about a block
    that was the latest at some moment of the call. Block numbers are [uint64]s. *)
Class ReadsGrowing (reader : CodeReader W) : Prop := {
  growing_number : ∀ ctx w, match BlockNumber reader ctx w with
    | (Ok n, w') => (height w ≤ n ≤ height w')%Z ∧ (n < 2 ^ 64)%Z
    | (Err _, w') => (height w ≤ height w')%Z
    | (Panic, _) => False
    end;
  growing_latest : ∀ ctx a w, match CodeAt reader ctx a None w with
    | (Ok c, w') => ∃ h, (height w ≤ h ≤ height w')%Z ∧ c = code a h
    | (Err _, w') => (height w ≤ height w')%Z
    | (Panic, _) => False
    end;
  growing_past : ∀ ctx a n w, (0 ≤ n ≤ height w)%Z → match CodeAt reader ctx a (Some n) w with
    | (Ok c, w') => (height w ≤ height w')%Z ∧ c = code a n
    | (Err _, w') => (height w ≤ height w')%Z
    | (Panic, _) => False
    end
}.

(** A status reader that answers with the truth at some height of the lookup. *)
Definition answers_within (st : Z → Address → Status) (m : M W Status) (a : Address) : Prop :=
  ∀ w, (0 ≤ height w)%Z → match m w with
  | (Ok s, w') => ∃ h, (height w ≤ h ≤ height w')%Z ∧ s = st h a
  | (Err _, w') => (height w ≤ height w')%Z
  | (Panic, _) => False
  end.

Context (reader : CodeReader W) {Hreads : ReadsGrowing reader} (window timeout : Z).
Context (Hwindow : (0 ≤ window < 2 ^ 64)%Z) (Hperm : permanent code).

Lemma pastBlock_growing ctx w :
  (0 ≤ height w)%Z → match pastBlock reader window ctx w with
  | (Ok p, w') => ∃ n, (height w ≤ n ≤ height w')%Z ∧ p = Z.max 0 (n - window)
  | (Err _, w') => (height w ≤ height w')%Z
  | (Panic, _) => False
  end.
Proof using Hreads Hwindow.
  intros Hw. unfold pastBlock, mbind, M_bind, wrap_err. pose proof (growing_number ctx w) as Hn.
  destruct (BlockNumber reader ctx w) as [[n|e|] w1]; [|done..]. destruct Hn as [Hn Hmax].
  destruct (Z.ltb_spec n window); simpl; exists n; (split; [done|]); [lia|]. rewrite wrap_u64_id by lia. lia.
Qed.

Lemma RPCStatus_growing ctx a : answers_within (age_at code window) (RPCStatus reader window timeout ctx a) a.
Proof using All.
  intros w Hw. unfold RPCStatus, WithTimeout, time_Now, mbind, M_bind, wrap_err. simpl.
  set (c := WithDeadline _ _). pose proof (growing_latest c a w) as H1.
  destruct (CodeAt reader c a None w) as [[now|e|] w1]; [|done..]. destruct H1 as (h1 & Hh1 & ->).
  case_bool_decide as Hnow; rewrite length_zero_iff_nil in Hnow.
  { exists h1. split; [done|]. unfold age_at, age_status. simpl. by rewrite bool_decide_eq_true_2. }
  pose proof (pastBlock_growing c w1 ltac:(lia)) as H2.
  destruct (pastBlock reader window c w1) as [[p|e|] w2]; [|lia|done]. destruct H2 as (n & Hn & ->).
  pose proof (growing_past c a (Z.max 0 (n - window)) w2 ltac:(lia)) as H3.
  destruct (CodeAt reader c a (Some _) w2) as [[old|e|] w3]; [|lia|done]. destruct H3 as [Hw3 ->].
  assert (code a n ≠ []) as Hstill by (eapply Hperm; [|exact Hnow]; lia).
  case_bool_decide as Hold; rewrite length_zero_iff_nil in Hold; exists n; (split; [lia|]);
    unfold age_at, age_status; simpl; rewrite (bool_decide_eq_false_2 (code a n = [])) by done;
    [by rewrite bool_decide_eq_true_2|by rewrite bool_decide_eq_false_2].
Qed.

End growing.

(** ** Concurrent callers of the cache *)
Section concurrent.
Context (st : Z → Address → Status) (maxEntries : Z).

(** A caller that started at height [h0]: before the first region, after missing the cache,
    holding an answer of the reader, and done at height [h1]. *)
Inductive asker :=
| Asking (a : Address) (h0 : Z)
| Unknown (a : Address) (h0 : Z)
| Told (a : Address) (h0 : Z) (s : Status)
| Answer (a : Address) (h0 h1 : Z) (s : option Status).

Record fresh_state := mkFreshState { fs_height : Z; fs_known : gset Address; fs_askers : list asker }.

Definition fresh_init (h : Z) : fresh_state := mkFreshState h ∅ [].

Definition set_asker (i : nat) (c : asker) (s : fresh_state) : fresh_state :=
  mkFreshState (fs_height s) (fs_known s) (<[i := c]> (fs_askers s)).

Inductive fresh_step : fresh_state → fresh_state → Prop :=
| fresh_grow s d : (0 ≤ d)%Z → fresh_step s (mkFreshState (fs_height s + d) (fs_known s) (fs_askers s))
| fresh_start s a :
    fresh_step s (mkFreshState (fs_height s) (fs_known s) (fs_askers s ++ [Asking a (fs_height s)]))
| fresh_hit s i a h0 :
    fs_askers s !! i = Some (Asking a h0) → a ∈ fs_known s →
    fresh_step s (set_asker i (Answer a h0 (fs_height s) (Some Established)) s)
| fresh_miss s i a h0 :
    fs_askers s !! i = Some (Asking a h0) → a ∉ fs_known s → fresh_step s (set_asker i (Unknown a h0) s)
| fresh_fail s i a h0 :
    fs_askers s !! i = Some (Unknown a h0) → fresh_step s (set_asker i (Answer a h0 (fs_height s) None) s)
| fresh_told s i a h0 h :
    fs_askers s !! i = Some (Unknown a h0) → (h0 ≤ h ≤ fs_height s)%Z →
    fresh_step s (set_asker i (Told a h0 (st h a)) s)
| fresh_return s i a h0 x :
    fs_askers s !! i = Some (Told a h0 x) → x ≠ Established →
    fresh_step s (set_asker i (Answer a h0 (fs_height s) (Some x)) s)
| fresh_store s i a h0 :
    fs_askers s !! i = Some (Told a h0 Established) →
    fresh_step s (mkFreshState (fs_height s) (known_store maxEntries a (fs_known s))
                    (<[i := Answer a h0 (fs_height s) (Some Established)]> (fs_askers s))).

Context (Hstable : ∀ h h' a, (h ≤ h')%Z → st h a = Established → st h' a = Established).

(** [x] is the truth about [a] at a height from [h0] to [h1]. *)
Definition true_within (h0 h1 : Z) (a : Address) (x : Status) : Prop := ∃ h, (h0 ≤ h ≤ h1)%Z ∧ x = st h a.

Definition asker_ok (height : Z) (c : asker) : Prop :=
  match c with
  | Asking _ h0 | Unknown _ h0 => (h0 ≤ height)%Z
  | Told a h0 x => true_within h0 height a x
  | Answer a h0 h1 (Some x) => (h1 ≤ height)%Z ∧ true_within h0 h1 a x
  | Answer _ _ _ None => True
  end.

Record fresh_inv (s : fresh_state) : Prop := {
  finv_known : ∀ a, a ∈ fs_known s → st (fs_height s) a = Established;
  finv_askers : Forall (asker_ok (fs_height s)) (fs_askers s);
  finv_size : (Z.of_nat (size (fs_known s)) ≤ Z.max 1 maxEntries)%Z
}.

Lemma asker_ok_mono h h' c : (h ≤ h')%Z → asker_ok h c → asker_ok h' c.
Proof using Type.
  intros Hle. destruct c as [a h0|a h0|a h0 x|a h0 h1 [x|]]; simpl; [lia|lia| |intros [? ?]; split; [lia|done]|done].
  intros (k & Hk & ->). exists k. split; [lia|done].
Qed.

Lemma fresh_inv_asker s i c : fresh_inv s → asker_ok (fs_height s) c → fresh_inv (set_asker i c s).
Proof using Type. intros [Hk Ha Hs] Hc. split; [done| |done]. by apply Forall_insert. Qed.

Lemma size_known_store a known : (Z.of_nat (size known) ≤ Z.max 1 maxEntries)%Z →
  (Z.of_nat (size (known_store maxEntries a known)) ≤ Z.max 1 maxEntries)%Z.
Proof using Type.
  intros Hs. assert (known_ok (λ _, Established) maxEntries (known_store maxEntries a known)) as [_ H]; [|done].
  by apply known_ok_store; [split|].
Qed.

Lemma fresh_inv_step s s' : fresh_inv s → fresh_step s s' → fresh_inv s'.
Proof using Hstable.
  intros Hinv Hstep. pose proof Hinv as [Hk Ha Hs].
  destruct Hstep as [s d Hd|s a|s i a h0 Hi Hin|s i a h0 Hi Hin|s i a h0 Hi|s i a h0 h Hi Hh|s i a h0 x Hi Hx|s i a h0 Hi];
    try (pose proof (Forall_lookup_1 _ _ _ _ Ha Hi) as Hc; simpl in Hc).
  - split; simpl; [intros a Hin; eapply Hstable; [|by apply Hk]; lia| |done].
    eapply Forall_impl; [exact Ha|]. intros c. apply asker_ok_mono. lia.
  - split; simpl; [done| |done]. apply Forall_app. split; [done|]. constructor; [simpl; lia|constructor].
  - apply fresh_inv_asker; [done|]. simpl. split; [lia|]. exists (fs_height s). split; [lia|]. symmetry. by apply Hk.
  - by apply fresh_inv_asker.
  - by apply fresh_inv_asker.
  - apply fresh_inv_asker; [done|]. by exists h.
  - apply fresh_inv_asker; [done|]. simpl. split; [lia|done].
  - split; simpl; [| |by apply size_known_store].
    + intros x. unfold known_store. rewrite elem_of_union, elem_of_singleton. intros [->|Hx].
      * destruct Hc as (h & Hh & He). eapply Hstable; [|by symmetry]. lia.
      * apply Hk. destruct (Z.leb _ _); [set_solver|done].
    + apply Forall_insert; [done|]. simpl. split; [lia|done].
Qed.

Lemma fresh_reachable h s : rtc fresh_step (fresh_init h) s → fresh_inv s.
Proof using Hstable.
  intros Hr. assert (fresh_inv (fresh_init h)) as H0.
  { split; cbn [fresh_init fs_height fs_known fs_askers].
    - intros a. by rewrite elem_of_empty.
    - by apply Forall_nil_2.
    - rewrite size_empty. lia. }
  revert H0. induction Hr; eauto using fresh_inv_step.
Qed.

End concurrent.

(** ** The method takes these steps *)
Section method.
Context {W : Type} `{L : Lens W (gset Address)} `{!LensLaws L} (height : W → Z).
Context (st : Z → Address → Status) (next : StatusReader W) (maxEntries : Z).
Context (Hupdate : ∀ s w, height (update s w) = height w).
Context (Hnext : ∀ ctx a, answers_within height st (StatusOf next ctx a) a).
Context (Hframe : ∀ ctx a w, view (StatusOf next ctx a w).2 = (view w : gset Address)).

(** The state of the cache in a world, with the callers [cs]. *)
Definition state_of (w : W) (cs : list asker) : fresh_state := mkFreshState (height w) (view w) cs.

Lemma CachedStatus_steps ctx a w cs :
  (0 ≤ height w)%Z →
  match CachedStatus next maxEntries ctx a w with
  | (Ok s, w') => rtc (fresh_step st maxEntries) (state_of w cs) (state_of w' (cs ++ [Answer a (height w) (height w') (Some s)]))
  | (Err _, w') => rtc (fresh_step st maxEntries) (state_of w cs) (state_of w' (cs ++ [Answer a (height w) (height w') None]))
  | (Panic, _) => False
  end.
Proof using All.
  intros Hw. unfold CachedStatus, mbind, M_bind, get, put, mret, M_ret.
  assert (∀ c, (cs ++ [c]) !! length cs = Some c) as Hlast by (intros; by apply list_lookup_middle).
  assert (∀ c c', <[length cs := c']> (cs ++ [c]) = cs ++ [c']) as Hset
    by (intros; by rewrite insert_app_r_alt, Nat.sub_diag by lia).
  pose proof (fresh_start st maxEntries (state_of w cs) a) as Hstart. cbn [state_of fs_height fs_known fs_askers] in Hstart.
  case_bool_decide as Hin.
  { eapply rtc_l; [exact Hstart|]. eapply rtc_l; [apply (fresh_hit _ _ _ (length cs) a (height w)); [apply Hlast|exact Hin]|].
    unfold set_asker. cbn [fs_height fs_known fs_askers]. by rewrite Hset. }
  pose proof (Hnext ctx a w Hw) as Hn. pose proof (Hframe ctx a w) as Hf.
  destruct (StatusOf next ctx a w) as [[s|e|] w1]; [| |done]; cbn [snd] in Hf.
  - destruct Hn as (h & Hh & ->).
    assert (rtc (fresh_step st maxEntries) (state_of w cs)
              (mkFreshState (height w1) (view w) (cs ++ [Told a (height w) (st h a)]))) as Htold.
    { eapply rtc_l; [exact Hstart|]. eapply rtc_l; [apply (fresh_miss _ _ _ (length cs) a (height w)); [apply Hlast|exact Hin]|].
      unfold set_asker. cbn [fs_height fs_known fs_askers]. rewrite Hset.
      eapply rtc_l; [apply (fresh_grow _ _ _ (height w1 - height w)); lia|]. cbn [fs_height fs_known fs_askers].
      replace (height w + (height w1 - height w))%Z with (height w1) by lia.
      eapply rtc_l; [apply (fresh_told _ _ _ (length cs) a (height w) h); [apply Hlast|exact Hh]|].
      unfold set_asker. cbn [fs_height fs_known fs_askers]. by rewrite Hset. }
    case_bool_decide as Hs.
    + eapply rtc_r; [exact Htold|].
      pose proof (fresh_return st maxEntries _ (length cs) a (height w) (st h a)
        (Hlast _ : fs_askers (mkFreshState (height w1) (view w) (cs ++ [Told a (height w) (st h a)])) !! length cs = _) Hs) as Hret.
      unfold set_asker in Hret. cbn [fs_height fs_known fs_askers] in Hret. rewrite Hset in Hret.
      unfold state_of. by rewrite Hf.
    + rewrite Hs in Htold.
      eapply rtc_r; [exact Htold|].
      pose proof (fresh_store st maxEntries _ (length cs) a (height w)
        (Hlast _ : fs_askers (mkFreshState (height w1) (view w) (cs ++ [Told a (height w) Established])) !! length cs = _)) as Hst.
      cbn [fs_height fs_known fs_askers] in Hst. rewrite Hset in Hst.
      unfold state_of. by rewrite Hupdate, view_update, Hf.
  - eapply rtc_l; [exact Hstart|]. eapply rtc_l; [apply (fresh_miss _ _ _ (length cs) a (height w)); [apply Hlast|exact Hin]|].
    unfold set_asker. cbn [fs_height fs_known fs_askers]. rewrite Hset.
    eapply rtc_l; [apply (fresh_grow _ _ _ (height w1 - height w)); lia|]. cbn [fs_height fs_known fs_askers].
    replace (height w + (height w1 - height w))%Z with (height w1) by lia.
    eapply rtc_l; [apply (fresh_fail _ _ _ (length cs) a (height w)); apply Hlast|].
    unfold set_asker, state_of. cbn [fs_height fs_known fs_askers]. by rewrite Hset, Hf.
Qed.

End method.

(** ** The claims *)

(** On a chain that grows between the questions of one lookup, [RPCFreshness.Status] still
    answers with the true age of the contract at one height that was current during the lookup:
    the code it read first, the height it asked for and the old code it compared with never mix
    into an answer that was true at no moment. Deployed code is taken to stay (EIP-6780). *)
Theorem Status_true_at_some_height `{G : Geth} {W : Type} `{!Clock W} (height : W → Z)
    (code : Address → Z → list byte) (reader : CodeReader W) (window timeout : Z) (ctx : Ctx) (a : Address) (w : W)
    (Hreads : ReadsGrowing height code reader) (Hwindow : (0 ≤ window < 2 ^ 64)%Z) (Hperm : permanent code)
    (Hw : (0 ≤ height w)%Z) :
  match RPCStatus reader window timeout ctx a w with
  | (Ok s, w') => ∃ h, (height w ≤ h ≤ height w')%Z ∧ s = age_status (mkChain h code) window a
  | (Err _, w') => (height w ≤ height w')%Z
  | (Panic, _) => False
  end.
Proof. by apply (RPCStatus_growing height code reader window timeout Hwindow Hperm ctx a w). Qed.

(** C14: The freshness cache is linearizable: with any number of callers whose locked regions and
    questions to the node interleave in any order while the chain grows, every answer is the
    contract's true age at a height current between the start and the end of that lookup, even
    when it comes from the cache or when another caller evicted everything meanwhile; and the
    cache stays within its bound. *)
Theorem concurrent_lookups_true (code : Address → Z → list byte) (window maxEntries h : Z)
    (s : fresh_state) (i : nat) (a : Address) (h0 h1 : Z) (x : Status)
    (Hperm : permanent code) (Hmax : (0 < maxEntries)%Z)
    (Hreach : rtc (fresh_step (age_at code window) maxEntries) (fresh_init h) s)
    (Hanswer : fs_askers s !! i = Some (Answer a h0 h1 (Some x))) :
  (∃ k, (h0 ≤ k ≤ h1)%Z ∧ x = age_status (mkChain k code) window a) ∧
  (Z.of_nat (size (fs_known s)) ≤ maxEntries)%Z.
Proof.
  destruct (fresh_reachable (age_at code window) maxEntries) with h s as [_ Ha Hs]; [|done|].
  { intros. by eapply established_stable. }
  pose proof (Forall_lookup_1 _ _ _ _ Ha Hanswer) as Hc. split; [apply Hc|lia].
Qed.

(** C38: [CachedFreshness.Status] refines those steps: a run of the method around
    [RPCFreshness], from any contents of the cache and beside any other callers, is a sequence of
    the interleaving's own steps that starts one caller and ends with exactly the answer (or the
    failure) the method returned and the cache it left. *)
Theorem CachedStatus_refines_steps `{G : Geth} {W : Type} `{!Clock W} `{L : Lens W (gset Address)} `{!LensLaws L}
    (height : W → Z) (code : Address → Z → list byte) (reader : CodeReader W) (window timeout maxEntries : Z)
    (ctx : Ctx) (a : Address) (w : W) (others : list asker)
    (Hreads : ReadsGrowing height code reader) (Hwindow : (0 ≤ window < 2 ^ 64)%Z) (Hperm : permanent code)
    (Hupdate : ∀ s w, height (update s w) = height w)
    (Hframe : ∀ ctx a w, view (RPCStatus reader window timeout ctx a w).2 = (view w : gset Address))
    (Hw : (0 ≤ height w)%Z) :
  match CachedStatus (RPCFreshness reader window timeout) maxEntries ctx a w with
  | (Ok s, w') => rtc (fresh_step (age_at code window) maxEntries)
      (state_of height w others) (state_of height w' (others ++ [Answer a (height w) (height w') (Some s)]))
  | (Err _, w') => rtc (fresh_step (age_at code window) maxEntries)
      (state_of height w others) (state_of height w' (others ++ [Answer a (height w) (height w') None]))
  | (Panic, _) => False
  end.
Proof.
  apply (CachedStatus_steps height (age_at code window) (RPCFreshness reader window timeout)); try done.
  intros ctx' a'. by apply RPCStatus_growing.
Qed.

(** ** Concrete instances *)
Module FreshnessCacheExamples.
Import Toy StillTime.

Definition acct (n : Z) : Address := to_bytes_n 20 (be_bytes 20 n).

(** Account 2 was deployed at block 95, account 3 at genesis. *)
Definition demo_code (a : Address) (n : Z) : list byte :=
  if bool_decide (a = acct 2) then (if Z.leb 95 n then [x60] else [])
  else if bool_decide (a = acct 3) then [x60] else [].

Lemma demo_permanent : permanent demo_code.
Proof.
  intros a n m Hle. unfold demo_code. repeat case_bool_decide; try done.
  destruct (Z.leb_spec 95 n), (Z.leb_spec 95 m); try done. lia.
Qed.

(** The chain's height and the cache. *)
Definition GrowingWorld : Type := Z * gset Address.

#[global] Instance known_lens : Lens GrowingWorld (gset Address) := {| view := snd; update k w := (w.1, k) |}.
#[global] Instance known_lens_laws : LensLaws known_lens.
Proof. split; [done|by intros [h k]|done]. Qed.

(** Every question takes the node one block. *)
Definition tick (w : GrowingWorld) : GrowingWorld := (w.1 + 1, w.2)%Z.

Definition demo_reader : CodeReader GrowingWorld :=
  mkCodeReader
    (λ _ w, if Z.ltb w.1 (2 ^ 64) then (Ok w.1, tick w) else (Err (Errorf "block number overflows" []), tick w))
    (λ _ a n w, (Ok (demo_code a (default w.1 n)), tick w)).

Lemma demo_growing : ReadsGrowing fst demo_code demo_reader.
Proof.
  split; simpl.
  - intros _ w. destruct (Z.ltb_spec w.1 (2 ^ 64)); simpl; lia.
  - intros _ a w. exists w.1. split; [lia|done].
  - intros _ a n w _. split; [lia|done].
Qed.

Lemma demo_frame ctx a w : (RPCStatus demo_reader 10 Second ctx a w).2.2 = w.2.
Proof.
  unfold RPCStatus, pastBlock, WithTimeout, time_Now, wrap_err, mbind, M_bind. simpl.
  case_bool_decide; [done|]. destruct (Z.ltb _ _); [|done]. destruct (Z.ltb _ _); simpl; case_bool_decide; done.
Qed.

(** The lookup starts at height 104, where the contract is fresh, and ends at 107, where it is
    not: it asks for the height at 105. *)
Lemma Status_true_at_some_height_witness :
  match RPCStatus demo_reader 10 Second Background (acct 2) (104%Z, ∅) with
  | (Ok s, w') => ∃ h, (104 ≤ h ≤ w'.1)%Z ∧ s = age_status (mkChain h demo_code) 10 (acct 2)
  | (Err _, w') => (104 ≤ w'.1)%Z
  | (Panic, _) => False
  end.
Proof.
  apply (Status_true_at_some_height fst demo_code demo_reader 10 Second Background (acct 2) (104%Z, ∅));
    [apply demo_growing|lia|apply demo_permanent|simpl; lia].
Defined.

Example demo_lookups :
  ((λ r, (r.1, r.2.1)) <$> [RPCStatus demo_reader 10 Second Background (acct 2) (102%Z, ∅);
                            RPCStatus demo_reader 10 Second Background (acct 2) (104%Z, ∅)])
  = [(Ok Fresh, 105%Z); (Ok Established, 107%Z)].
Proof. by vm_compute. Qed.

(** Two callers ask about account 3 at once: both miss, both are told, both store it. *)
Definition raced : fresh_state :=
  mkFreshState 100 {[acct 3]} [Answer (acct 3) 100 100 (Some Established); Answer (acct 3) 100 100 (Some Established)].

Lemma raced_reachable : rtc (fresh_step (age_at demo_code 10) 2) (fresh_init 100) raced.
Proof.
  eapply rtc_l; [apply (fresh_start _ _ _ (acct 3))|].
  eapply rtc_l; [apply (fresh_start _ _ _ (acct 3))|].
  eapply rtc_l; [by apply (fresh_miss _ _ _ 0 (acct 3) 100)|].
  eapply rtc_l; [by apply (fresh_miss _ _ _ 1 (acct 3) 100)|].
  eapply rtc_l; [apply (fresh_told _ _ _ 0 (acct 3) 100 100); [done|simpl; lia]|].
  eapply rtc_l; [apply (fresh_told _ _ _ 1 (acct 3) 100 100); [done|simpl; lia]|].
  eapply rtc_l; [by apply (fresh_store _ _ _ 1 (acct 3) 100)|].
  eapply rtc_l; [by apply (fresh_store _ _ _ 0 (acct 3) 100)|].
  apply (eq_rect raced (rtc _ raced)); [apply rtc_refl|]. by vm_compute.
Qed.

Lemma concurrent_lookups_true_witness :
  (∃ k, (100 ≤ k ≤ 100)%Z ∧ Established = age_status (mkChain k demo_code) 10 (acct 3)) ∧
  (Z.of_nat (size (fs_known raced)) ≤ 2)%Z.
Proof.
  apply (concurrent_lookups_true demo_code 10 2 100 raced 1 (acct 3) 100 100 Established demo_permanent);
    [lia|apply raced_reachable|reflexivity].
Defined.

Lemma CachedStatus_refines_steps_witness :
  match CachedStatus (RPCFreshness demo_reader 10 Second) 2 Background (acct 2) (104%Z, ∅) with
  | (Ok s, w') => rtc (fresh_step (age_at demo_code 10) 2)
      (state_of fst (104%Z, ∅) []) (state_of fst w' [Answer (acct 2) 104 w'.1 (Some s)])
  | (Err _, w') => rtc (fresh_step (age_at demo_code 10) 2)
      (state_of fst (104%Z, ∅) []) (state_of fst w' [Answer (acct 2) 104 w'.1 None])
  | (Panic, _) => False
  end.
Proof.
  apply (CachedStatus_refines_steps fst demo_code demo_reader 10 Second 2 Background (acct 2) (104%Z, ∅) []);
    [apply demo_growing|lia|apply demo_permanent|reflexivity|exact demo_frame|simpl; lia].
Defined.

(** A second lookup is served from the cache: no question, no block. *)
Example demo_hit :
  (let '(_, w) := CachedStatus (RPCFreshness demo_reader 10 Second) 2 Background (acct 3) (200%Z, ∅) in
   (w.1, (CachedStatus (RPCFreshness demo_reader 10 Second) 2 Background (acct 3) w).2.1)) = (203%Z, 203%Z).
Proof. by vm_compute. Qed.

End FreshnessCacheExamples.
