(* ===== verification/Sanctions.v ===== *)
(** * Package sanctions: is an address sanctioned?

    [internal/sanctions]: the list file and its checker, the on-chain oracle, and the
    combination of checkers. The cache in front of the oracle is in [SanctionsCache]. The file
    system and the RPC client are parameters. *)

From Stdlib Require Import ZArith Lia.
From S2P Require Import Prelude GoLib Deadline Geth ChainState.

(** [type Checker interface] *)
Record Checker (W : Type) := mkChecker { IsSanctioned : Ctx → Address → M W bool }.
Arguments mkChecker {W} _.
Arguments IsSanctioned {W} _ _ _.

(** What the rule relies on: a checker answers [S] and fails only with errors in [E]. *)
Class CheckerSpec {W} (I : W → Prop) (E : error → Prop) (c : Checker W) (S : Address → bool) : Prop :=
  checker_spec : ∀ ctx a, triple I (IsSanctioned c ctx a) (λ b, b = S a) E.

(** ** ListChecker *)

Definition NewListChecker (addrs : list Address) : gset Address :=
  foldl (λ set a, {[a]} ∪ set) ∅ addrs.

Definition ListChecker {W} (set : gset Address) : Checker W :=
  mkChecker (λ _ addr, mret (bool_decide (addr ∈ set))).

Definition ListChecker_Len (set : gset Address) : nat := size set.

Section list_file.
Context `{G : Geth}.

(** The body of the scan loop: [None] skips the line. *)
Definition parse_line (lineNo : nat) (text : list byte) : error + option Address :=
  let line := TrimSpace (Cut_before x23 text) in
  if bool_decide (line = []) then inr None
  else if negb (IsHexAddress (of_bytes line))
  then inl (Errorf "line %d: invalid address %q" [pretty lineNo; of_bytes line])
  else inr (Some (HexToAddress (of_bytes line))).

Fixpoint parse_lines (lineNo : nat) (lines : list (list byte)) (addrs : list Address)
    : error + list Address :=
  match lines with
  | [] => inr addrs
  | text :: lines =>
      match parse_line lineNo text with
      | inl e => inl e
      | inr None => parse_lines (S lineNo) lines addrs
      | inr (Some a) => parse_lines (S lineNo) lines (addrs ++ [a])
      end
  end.

(** [parseList] over a reader that yields [content] and then ends, or fails with [rerr]. *)
Definition parseList (content : list byte) (rerr : option error) : error + list Address :=
  let '(lines, err) := Scanner content rerr in
  match parse_lines 1 lines [] with
  | inl e => inl e
  | inr addrs =>
      match err with
      | Some e => inl (Wrapf "read sanctions list: %w" [] e)
      | None => inr addrs
      end
  end.

(** [open] is the file system: opening a path fails or gives the content of the file and the
    error reading it ends with. *)
Definition LoadListChecker (open : string → error + (list byte * option error)) (path : string)
    : error + gset Address :=
  match open path with
  | inl e => inl (Wrapf "open sanctions list: %w" [] e)
  | inr (content, rerr) =>
      match parseList content rerr with
      | inl e => inl (Wrapf "%s: %w" [path] e)
      | inr addrs => inr (NewListChecker addrs)
      end
  end.

End list_file.

(** ** AnyChecker *)

Fixpoint AnyChecker_IsSanctioned {W} (cs : list (Checker W)) (ctx : Ctx) (addr : Address) : M W bool :=
  match cs with
  | [] => mret false
  | c :: cs =>
      hit ← IsSanctioned c ctx addr;
      if (hit : bool) then mret true else AnyChecker_IsSanctioned cs ctx addr
  end.

Definition AnyChecker {W} (cs : list (Checker W)) : Checker W := mkChecker (AnyChecker_IsSanctioned cs).

(** ** OracleChecker *)

Record ContractCaller (W : Type) := mkContractCaller {
  oracle_CallContract : Ctx → CallMsg → option Z → M W (list byte);
  oracle_CodeAt : Ctx → Address → option Z → M W (list byte)
}.
Arguments mkContractCaller {W} _ _.
Arguments oracle_CallContract {W} _ _ _ _.
Arguments oracle_CodeAt {W} _ _ _ _.

(** [for _, b := range out[:31] { if b != 0 { ... } }] *)
Definition all_zero (l : list byte) : bool := forallb (λ b, bool_decide (b = x00)) l.

(** [None] is a panic of the slice or the index. *)
Definition decodeBool (out : list byte) : option (error + bool) :=
  if bool_decide (length out ≠ 32)
  then Some (inl (Errorf "sanctions oracle: unexpected response length %d" [pretty (length out)]))
  else
    prefix ← slice 0 31 out;
    if negb (all_zero prefix) then Some (inl (Errorf "sanctions oracle: response is not a bool" []))
    else
      last ← out !! 31;
      Some (if bool_decide (last = x00) then inr false
            else if bool_decide (last = x01) then inr true
            else inl (Errorf "sanctions oracle: response is not a bool" [])).

Section oracle.
Context `{G : Geth} {W : Type} `{!Clock W} (caller : ContractCaller W) (oracle : Address) (timeout : Z).

Definition ChainalysisOracle : Address := HexToAddress "0x40C57923924B5c5c5455c48D93317139ADDaC8fb".

Definition isSanctionedSelector : list byte := take 4 (Keccak256 (to_bytes "isSanctioned(address)")).

Definition isSanctionedCalldata (addr : Address) : list byte :=
  isSanctionedSelector ++ LeftPadBytes (bytes addr) 32.

Definition Oracle_IsSanctioned (ctx : Ctx) (addr : Address) : M W bool :=
  ctx ← WithTimeout ctx timeout;
  out ← wrap_err "sanctions oracle call: %w" []
          (oracle_CallContract caller ctx (mkCallMsg oracle (isSanctionedCalldata addr)) None);
  r ← lift (decodeBool out);
  match r with inl e => fail e | inr b => mret b end.

Definition OracleChecker : Checker W := mkChecker Oracle_IsSanctioned.

Definition Verify_oracle (ctx : Ctx) : M W () :=
  code ← wrap_err "sanctions oracle: %w" [] (oracle_CodeAt caller ctx oracle None);
  if bool_decide (length code = 0)
  then fail (Errorf "sanctions oracle: no contract at %s on this chain" [Address_Hex oracle])
  else mret ().

End oracle.

(** ** Proofs: checkers *)

Lemma NewListChecker_elem addrs a : a ∈ NewListChecker addrs ↔ a ∈ addrs.
Proof.
  unfold NewListChecker.
  assert (∀ acc : gset Address, a ∈ foldl (λ set x, {[x]} ∪ set) acc addrs ↔ a ∈ acc ∨ a ∈ addrs) as Hgen.
  { induction addrs as [|x addrs IH]; intros acc; simpl.
    - rewrite elem_of_nil. tauto.
    - rewrite IH, elem_of_union, elem_of_singleton, elem_of_cons. tauto. }
  rewrite Hgen, elem_of_empty. tauto.
Qed.

#[global] Instance ListChecker_spec {W} (I : W → Prop) E set :
  CheckerSpec I E (ListChecker set) (λ a, bool_decide (a ∈ set)).
Proof. intros ctx a. by apply triple_ret. Qed.

(** Any of several checkers: the disjunction of what they answer. *)
Lemma AnyChecker_spec {W} (I : W → Prop) E (cs : list (Checker W)) (Ss : list (Address → bool)) :
  Forall2 (CheckerSpec I E) cs Ss →
  CheckerSpec I E (AnyChecker cs) (λ a, existsb (λ S, S a) Ss).
Proof.
  intros Hcs ctx a. unfold AnyChecker. simpl. induction Hcs as [|c S cs Ss Hc _ IH]; simpl.
  - by apply triple_ret.
  - eapply triple_bind; [apply Hc|]. intros hit ->. destruct (S a); [by apply triple_ret|apply IH].
Qed.

(** ** Proofs: the oracle's answer *)

Lemma all_zero_replicate l : all_zero l = true ↔ l = replicate (length l) x00.
Proof.
  unfold all_zero. induction l as [|b l IH]; simpl; [done|].
  rewrite andb_true_iff, bool_decide_eq_true, IH. split.
  - intros [-> ->]. by rewrite length_replicate.
  - intros [= -> Hl]. by split.
Qed.

Definition bool_word (b : bool) : list byte := replicate 31 x00 ++ [if b then x01 else x00].

Lemma decodeBool_no_panic out : is_Some (decodeBool out).
Proof.
  unfold decodeBool. case_bool_decide as Hlen; [by eauto|].
  rewrite slice_Some by lia. simpl. destruct (all_zero _); simpl; [|by eauto].
  destruct (lookup_lt_is_Some_2 out 31) as [last ->]; [lia|]. simpl. eauto.
Qed.

(** Only the two ABI encodings of a bool are answers. *)
Lemma decodeBool_inr out b : decodeBool out = Some (inr b) ↔ out = bool_word b.
Proof.
  split; [|by intros ->; destruct b].
  unfold decodeBool. case_bool_decide as Hlen; [done|]. rewrite slice_Some by lia.
  cbn [mbind option_bind]. destruct (all_zero (take (31 - 0) (drop 0 out))) eqn:Hz; [|done]. simpl.
  rewrite drop_0, Nat.sub_0_r in Hz. apply all_zero_replicate in Hz.
  rewrite length_take, Nat.min_l in Hz by lia.
  destruct (lookup_lt_is_Some_2 out 31) as [last Hl]; [lia|]. rewrite Hl. simpl. intros Hr.
  assert (out = replicate 31 x00 ++ [last]) as ->.
  { rewrite <-(take_drop 31 out) at 1. rewrite Hz. f_equal. apply drop_S in Hl. rewrite Hl.
    f_equal. apply drop_ge. lia. }
  unfold bool_word. f_equal. f_equal. repeat case_bool_decide; simplify_eq; done.
Qed.

(** A contract that answers with bools is a checker. *)
Lemma OracleChecker_spec `{G : Geth} {W : Type} `{!Clock W} (I : W → Prop) (E : error → Prop) `{!WrapClosed E}
    (caller : ContractCaller W) oracle timeout (S : Address → bool) :
  (∀ ctx x, triple I (oracle_CallContract caller ctx (mkCallMsg oracle (isSanctionedCalldata x)) None)
              (λ out, out = bool_word (S x)) E) →
  CheckerSpec I E (OracleChecker caller oracle timeout) S.
Proof.
  intros Hcall ctx x. cbn [OracleChecker IsSanctioned]. unfold Oracle_IsSanctioned.
  eapply triple_bind; [apply triple_WithTimeout|]. intros c _.
  eapply triple_bind; [apply triple_wrap; [done|apply Hcall]|]. intros out ->.
  rewrite (proj2 (decodeBool_inr _ _) eq_refl). by apply triple_ret.
Qed.
