(* ===== verification/SanctionsList.v ===== *)
(** * The sanctions list file: what is accepted, and that nothing listed is lost

    Proofs about [parseList] and [LoadListChecker] of [internal/sanctions/sanctions.go]. *)

From Stdlib Require Import ZArith Lia.
From S2P Require Import Prelude GoLib Deadline Geth ChainState Sanctions.

(** ** Accepted files *)
Section accepted.
Context `{G : Geth}.

(** A line without its comment and surrounding white space. *)
Definition line_text (text : list byte) : list byte := TrimSpace (Cut_before x23 text).

Definition valid_line (text : list byte) : Prop :=
  line_text text = [] ∨ IsHexAddress (of_bytes (line_text text)) = true.

Definition line_address (text : list byte) : option Address :=
  if bool_decide (line_text text = []) then None else Some (HexToAddress (of_bytes (line_text text))).

Lemma parse_lines_inr n lines acc addrs :
  parse_lines n lines acc = inr addrs ↔
  Forall valid_line lines ∧ addrs = acc ++ omap line_address lines.
Proof.
  revert n acc. induction lines as [|text lines IH]; intros n acc; simpl.
  - rewrite app_nil_r. split; [by intros [= ->]|by intros [_ ->]].
  - rewrite Forall_cons. unfold parse_line, valid_line at 1, line_address at 1. fold (line_text text).
    case_bool_decide as Hempty.
    + rewrite IH. tauto.
    + destruct (IsHexAddress (of_bytes (line_text text))); simpl.
      * rewrite IH, <-app_assoc. simpl. tauto.
      * split; [done|]. intros [[[?|?] _] _]; done.
Qed.

Lemma parseList_inr content rerr addrs :
  parseList content rerr = inr addrs ↔
  (Scanner content rerr).2 = None ∧ Forall valid_line (Scanner content rerr).1 ∧
  addrs = omap line_address (Scanner content rerr).1.
Proof.
  unfold parseList. destruct (Scanner content rerr) as [lines err]. simpl.
  destruct (parse_lines 1 lines []) as [e|addrs'] eqn:Hp.
  - split; [done|]. intros (_ & Hv & Ha).
    assert (parse_lines 1 lines [] = inr addrs) by by apply parse_lines_inr. congruence.
  - apply parse_lines_inr in Hp as [Hv ->]. simpl. destruct err; naive_solver.
Qed.

End accepted.

(** ** White space around an address *)

Lemma hex_digit_solid d :
  is_hex_digit d = true →
  is_space1 d = false ∧ (∀ b, is_space2 b d = false) ∧ (∀ b b', is_space3 b b' d = false).
Proof.
  destruct d; try (intros H; vm_compute in H; discriminate H); intros _;
    (split_and!; [done|intros b; by destruct b|intros b b'; destruct b; try done; by destruct b']).
Qed.

Lemma trim_left_spaces l rest : Forall (λ b, is_space1 b = true) l → trim_left (l ++ rest) = trim_left rest.
Proof. induction 1 as [|b l Hb _ IH]; [done|]. simpl. by rewrite Hb. Qed.

Lemma trim_left_rev_spaces l rest :
  Forall (λ b, is_space1 b = true) l → trim_left_rev (l ++ rest) = trim_left_rev rest.
Proof. induction 1 as [|b l Hb _ IH]; [done|]. simpl. by rewrite Hb. Qed.

Lemma trim_left_rev_solid d l : is_hex_digit d = true → trim_left_rev (d :: l) = d :: l.
Proof.
  intros (H1 & H2 & H3)%hex_digit_solid. simpl. rewrite H1.
  destruct l as [|b l]; [done|]. rewrite H2. destruct l as [|b' l]; [done|]. by rewrite H3.
Qed.

(** The text of an address line: nothing, or [0x] and hexadecimal digits. *)
Definition solid (mid : list byte) : Prop :=
  mid = [] ∨ ∃ ds d, mid = x30 :: x78 :: ds ++ [d] ∧ is_hex_digit d = true.

Lemma TrimSpace_pad l mid r :
  Forall (λ b, is_space1 b = true) l → Forall (λ b, is_space1 b = true) r → solid mid →
  TrimSpace (l ++ mid ++ r) = mid.
Proof.
  intros Hl Hr Hmid. unfold TrimSpace. rewrite trim_left_spaces by done.
  destruct Hmid as [->|(ds & d & -> & Hd)].
  - rewrite app_nil_l, <-(app_nil_r r), trim_left_spaces by done. done.
  - change (trim_left ((x30 :: x78 :: ds ++ [d]) ++ r))
      with (trim_left (x30 :: x78 :: ((ds ++ [d]) ++ r))).
    assert (∀ k, trim_left (x30 :: x78 :: k) = x30 :: x78 :: k) as -> by by intros [|].
    change (x30 :: x78 :: ((ds ++ [d]) ++ r)) with ((x30 :: x78 :: ds ++ [d]) ++ r).
    rewrite reverse_app, trim_left_rev_spaces by by apply Forall_reverse.
    change (x30 :: x78 :: ds ++ [d]) with ((x30 :: x78 :: ds) ++ [d]).
    rewrite reverse_snoc, trim_left_rev_solid by done. by rewrite reverse_cons, reverse_involutive.
Qed.

Lemma solid_last mid b : solid (mid ++ [b]) → is_space1 b = false.
Proof.
  intros [H|(ds & d & H & Hd)]; [by destruct mid|].
  change (x30 :: x78 :: ds ++ [d]) with ((x30 :: x78 :: ds) ++ [d]) in H.
  apply app_inj_2 in H as [_ [= ->]]; [|done]. by apply hex_digit_solid.
Qed.

(** Dropping a final carriage return does not change the text of the line. *)
Lemma drop_cr_cases l : drop_cr l = l ∨ ∃ l', l = l' ++ [x0d] ∧ drop_cr l = l'.
Proof.
  unfold drop_cr. destruct (reverse l) as [|b rest] eqn:Hl; [by left|].
  assert (l = reverse rest ++ [b]) as ->.
  { rewrite <-(reverse_involutive l), Hl. apply reverse_cons. }
  destruct b; try (by left). right. eauto.
Qed.

Lemma Cut_before_app sep l1 l2 :
  sep ∉ l1 → Cut_before sep (l1 ++ sep :: l2) = l1.
Proof.
  induction l1 as [|b l1 IH]; intros Hsep; simpl.
  - by rewrite bool_decide_eq_true_2.
  - rewrite not_elem_of_cons in Hsep. rewrite bool_decide_eq_false_2 by naive_solver. by rewrite IH by tauto.
Qed.

Lemma Cut_before_none sep l : sep ∉ l → Cut_before sep l = l.
Proof.
  induction l as [|b l IH]; intros Hsep; simpl; [done|]. rewrite not_elem_of_cons in Hsep.
  rewrite bool_decide_eq_false_2 by naive_solver. by rewrite IH by tauto.
Qed.

(** ** Rendering a list file *)
Section render.
Context `{G : Geth} {HL : GethLaws G}.

(** One line of the file: white space, possibly an address, white space, possibly a comment.
    A Windows line ending is white space before the newline. *)
Record entry := mkEntry {
  e_left : list byte;
  e_address : option Address;
  e_right : list byte;
  e_comment : option (list byte)
}.

Definition entry_text (e : entry) : list byte :=
  match e_address e with Some a => to_bytes (Address_Hex a) | None => [] end.
Definition entry_core (e : entry) : list byte := e_left e ++ entry_text e ++ e_right e.
Definition entry_line (e : entry) : list byte :=
  entry_core e ++ match e_comment e with Some c => x23 :: c | None => [] end.

Definition blank (b : byte) : Prop := is_space1 b = true ∧ b ≠ x0a.

Definition wf_entry (e : entry) : Prop :=
  Forall blank (e_left e) ∧ Forall blank (e_right e) ∧
  (∀ c, e_comment e = Some c → x0a ∉ c) ∧ (N.of_nat (length (entry_line e)) < MaxScanTokenSize)%N.

Fixpoint render (es : list entry) : list byte :=
  match es with
  | [] => []
  | e :: es => entry_line e ++ x0a :: render es
  end.

Lemma blank_spaces l : Forall blank l → Forall (λ b, is_space1 b = true) l.
Proof. intros Hl. eapply Forall_impl; [exact Hl|]. by intros b [? _]. Qed.

Lemma entry_text_solid e : solid (entry_text e).
Proof.
  unfold entry_text. destruct (e_address e) as [a|]; [right|by left].
  destruct (Address_Hex_form a) as (ds & -> & Hlen & Hds).
  destruct ds as [|d ds _] using rev_ind; [done|]. apply Forall_app in Hds as [_ Hd].
  exists ds, d. split; [done|]. by inversion Hd.
Qed.

Lemma entry_text_bytes e b : b ∈ entry_text e → b ≠ x23 ∧ b ≠ x0a.
Proof.
  unfold entry_text. destruct (e_address e) as [a|]; [|by intros ?%not_elem_of_nil].
  destruct (Address_Hex_form a) as (ds & -> & _ & Hds). rewrite !elem_of_cons.
  intros [->|[->|Hb]]; [by split..|]. rewrite Forall_forall in Hds. specialize (Hds b Hb).
  split; intros ->; discriminate Hds.
Qed.

Lemma entry_core_bytes e b : wf_entry e → b ∈ entry_core e → b ≠ x23 ∧ b ≠ x0a.
Proof.
  intros (Hl & Hr & _) Hb. unfold entry_core in Hb. rewrite !elem_of_app in Hb.
  rewrite Forall_forall in Hl, Hr. destruct Hb as [Hb|[Hb|Hb]]; [|by eapply entry_text_bytes|].
  - destruct (Hl b Hb). split; [by intros ->|done].
  - destruct (Hr b Hb). split; [by intros ->|done].
Qed.

Lemma entry_line_newline e : wf_entry e → x0a ∉ entry_line e.
Proof.
  intros Hwf. unfold entry_line. rewrite elem_of_app. intros [Hb|Hb].
  - by destruct (entry_core_bytes e x0a Hwf Hb).
  - destruct (e_comment e) as [c|] eqn:Hc; [|by apply not_elem_of_nil in Hb].
    apply elem_of_cons in Hb as [?|Hb]; [done|]. destruct Hwf as (_ & _ & Hcom & _). by apply (Hcom c).
Qed.

Lemma cut_entry e rest : wf_entry e → Cut_before x23 (entry_core e ++ x23 :: rest) = entry_core e.
Proof.
  intros Hwf. apply Cut_before_app. intros Hb. by destruct (entry_core_bytes e x23 Hwf Hb).
Qed.

(** The white space of an entry without its last byte is still white space. *)
Lemma core_snoc e c b :
  wf_entry e → is_space1 b = true → entry_core e = c ++ [b] → TrimSpace c = entry_text e.
Proof.
  intros (Hl & Hr & _) Hb Hcore. unfold entry_core in Hcore.
  pose proof (entry_text_solid e) as Hsolid. apply blank_spaces in Hl, Hr.
  destruct (e_right e) as [|b' r _] using rev_ind.
  - rewrite app_nil_r in Hcore. destruct (entry_text e) as [|d t _] using rev_ind.
    + rewrite app_nil_r in Hcore. rewrite Hcore in Hl. apply Forall_app in Hl as [Hc _].
      rewrite <-(app_nil_r c). by apply (TrimSpace_pad c [] []); [..|left].
    + rewrite app_assoc in Hcore. apply app_inj_2 in Hcore as [_ [= ->]]; [|done].
      apply solid_last in Hsolid. congruence.
  - rewrite !app_assoc in Hcore. apply app_inj_2 in Hcore as [<- _]; [|done].
    apply Forall_app in Hr as [Hr _]. rewrite <-app_assoc. by apply TrimSpace_pad.
Qed.

Lemma entry_core_trim e : wf_entry e → TrimSpace (entry_core e) = entry_text e.
Proof.
  intros (Hl & Hr & _). apply TrimSpace_pad; [by apply blank_spaces..|apply entry_text_solid].
Qed.

Lemma entry_line_text e : wf_entry e → line_text (drop_cr (entry_line e)) = entry_text e.
Proof.
  intros Hwf. unfold line_text.
  assert (x23 ∉ entry_core e) as Hhash by (intros Hb; by destruct (entry_core_bytes e x23 Hwf Hb)).
  destruct (drop_cr_cases (entry_line e)) as [->|(l' & Hl' & ->)]; unfold entry_line in *.
  - destruct (e_comment e) as [c|]; [rewrite cut_entry by done|rewrite app_nil_r, Cut_before_none by done];
      by apply entry_core_trim.
  - destruct (e_comment e) as [c|].
    + destruct c as [|b c _] using rev_ind.
      { by apply app_inj_2 in Hl' as [_ ?]. }
      change (x23 :: c ++ [b]) with ((x23 :: c) ++ [b]) in Hl'. rewrite app_assoc in Hl'.
      apply app_inj_2 in Hl' as [<- _]; [|done]. rewrite cut_entry by done. by apply entry_core_trim.
    + rewrite app_nil_r in Hl'. rewrite Cut_before_none.
      * by apply (core_snoc e l' x0d).
      * intros Hin. apply Hhash. rewrite Hl'. by apply elem_of_app; left.
Qed.

Lemma scan_lines_other max b rest cur n rerr :
  b ≠ x0a →
  scan_lines max (b :: rest) cur n rerr =
  if N.leb max (N.succ n) then ([], Some ErrTooLong) else scan_lines max rest (b :: cur) (N.succ n) rerr.
Proof. by destruct b. Qed.

Lemma scan_lines_line max line rest cur rerr :
  x0a ∉ line → (N.of_nat (length cur + length line) < max)%N →
  scan_lines max (line ++ x0a :: rest) cur (N.of_nat (length cur)) rerr =
  let '(ls, err) := scan_lines max rest [] 0%N rerr in (drop_cr (reverse cur ++ line) :: ls, err).
Proof.
  revert cur. induction line as [|b line IH]; intros cur Hnl Hlen.
  - rewrite app_nil_r. done.
  - rewrite not_elem_of_cons in Hnl. cbn [app]. rewrite scan_lines_other by naive_solver.
    simpl in Hlen. destruct (N.leb_spec max (N.succ (N.of_nat (length cur)))) as [?|_]; [lia|].
    replace (N.succ (N.of_nat (length cur))) with (N.of_nat (length (b :: cur))) by (simpl; lia).
    rewrite IH by (simpl; tauto || lia). by rewrite reverse_cons, <-app_assoc.
Qed.

Lemma Scanner_render es :
  Forall wf_entry es → Scanner (render es) None = ((λ e, drop_cr (entry_line e)) <$> es, None).
Proof.
  unfold Scanner. induction 1 as [|e es Hwf _ IH]; [done|]. cbn [render].
  pose proof (scan_lines_line MaxScanTokenSize (entry_line e) (render es) [] None) as Hline.
  change (N.of_nat (length (@nil byte))) with 0%N in Hline. rewrite Hline.
  - by rewrite IH.
  - by apply entry_line_newline.
  - destruct Hwf as (_ & _ & _ & ?). simpl. done.
Qed.

Lemma entry_line_address e :
  wf_entry e → valid_line (drop_cr (entry_line e)) ∧ line_address (drop_cr (entry_line e)) = e_address e.
Proof.
  intros Hwf. unfold valid_line, line_address. rewrite entry_line_text by done. unfold entry_text.
  destruct (e_address e) as [a|]; [|by split; [left|]].
  rewrite of_to_bytes, IsHexAddress_Hex, HexToAddress_Hex. split; [by right|].
  rewrite bool_decide_eq_false_2; [done|]. destruct (Address_Hex_form a) as (ds & -> & _). done.
Qed.

Lemma parseList_render es : Forall wf_entry es → parseList (render es) None = inr (omap e_address es).
Proof.
  intros Hwf. apply parseList_inr. rewrite Scanner_render by done. simpl. split; [done|].
  induction Hwf as [|e es He _ [IHv IHa]]; [done|]. destruct (entry_line_address e He) as [Hv Ha].
  split; [by constructor|]. csimpl. by rewrite Ha, IHa.
Qed.

End render.

(** ** Claims *)
Section sanctions_claims.
Context `{G : Geth}.

(** C29: [LoadListChecker] accepts a file exactly when it can be opened and read to its end with
    every line shorter than the scanner's buffer, and every line is, without its comment and
    surrounding white space, empty or a hexadecimal address. The checker then flags exactly
    the addresses of those lines: no entry is skipped and a malformed one is never ignored. *)
Theorem LoadListChecker_exact (open : string → error + (list byte * option error)) (path : string)
    (set : gset Address) :
  LoadListChecker open path = inr set ↔
  ∃ content rerr, open path = inr (content, rerr) ∧
    (Scanner content rerr).2 = None ∧
    Forall valid_line (Scanner content rerr).1 ∧
    (∀ a, a ∈ set ↔ Some a ∈ (line_address <$> (Scanner content rerr).1)).
Proof.
  assert (∀ a (lines : list (list byte)),
    a ∈ omap line_address lines ↔ Some a ∈ (line_address <$> lines)) as Hmem.
  { intros a lines. rewrite list_elem_of_omap, list_elem_of_fmap. naive_solver. }
  unfold LoadListChecker. destruct (open path) as [e|[content rerr]]; [naive_solver|].
  destruct (parseList content rerr) as [e|addrs] eqn:Hp; split.
  - done.
  - intros (? & ? & [= <- <-] & H1 & H2 & _).
    assert (parseList content rerr = inr (omap line_address (Scanner content rerr).1))
      by by apply parseList_inr. congruence.
  - intros [= <-]. apply parseList_inr in Hp as (H1 & H2 & ->).
    exists content, rerr. split_and!; [done..|]. intros a. by rewrite NewListChecker_elem.
  - intros (? & ? & [= <- <-] & H1 & H2 & Hset). apply parseList_inr in Hp as (_ & _ & ->).
    f_equal. apply set_eq. intros a. by rewrite NewListChecker_elem, Hset.
Qed.

(** C30: A list file written in the documented format, one address per line with any white space,
    blank lines, [#] comments and either line ending, loads, and its checker flags exactly
    the addresses written in it. *)
Theorem sanctions_file_roundtrip {HL : GethLaws G}
    (open : string → error + (list byte * option error)) (path : string) (es : list entry)
    (Hes : Forall wf_entry es) (Hopen : open path = inr (render es, None)) :
  ∃ set, LoadListChecker open path = inr set ∧
    ∀ (W : Type) (w : W) (ctx : Ctx) a,
      IsSanctioned (ListChecker set) ctx a w = (Ok (bool_decide (Some a ∈ (e_address <$> es))), w).
Proof.
  unfold LoadListChecker. rewrite Hopen, parseList_render by done. eexists. split; [done|].
  intros W w ctx a. unfold ListChecker, IsSanctioned. unfold mret, M_ret. do 2 f_equal.
  apply bool_decide_ext. rewrite NewListChecker_elem, list_elem_of_omap, list_elem_of_fmap. naive_solver.
Qed.

(** C31: The oracle's answer is taken only from the two ABI encodings of a bool, and exactly as
    they say: a failed call or any other response is an error, never "not sanctioned",
    and decoding never panics. *)
Theorem oracle_answer_exact {W} `{!Clock W} (caller : ContractCaller W) (oracle : Address) (timeout : Z) (ctx : Ctx)
    (addr : Address) (w : W) :
  match oracle_CallContract caller (WithDeadline ctx (clock w + timeout))
          (mkCallMsg oracle (isSanctionedCalldata addr)) None w with
  | (Ok out, w') => ∃ r, Oracle_IsSanctioned caller oracle timeout ctx addr w = (r, w') ∧
      (∀ b, r = Ok b ↔ out = bool_word b) ∧ r ≠ Panic
  | (Err e, w') =>
      Oracle_IsSanctioned caller oracle timeout ctx addr w = (Err (Wrapf "sanctions oracle call: %w" [] e), w')
  | (Panic, w') => Oracle_IsSanctioned caller oracle timeout ctx addr w = (Panic, w')
  end.
Proof.
  unfold Oracle_IsSanctioned, mbind, M_bind, wrap_err, WithTimeout, time_Now. simpl.
  destruct (oracle_CallContract caller _ _ _ w) as [[out|e|] w']; [|done..].
  destruct (decodeBool_no_panic out) as [r Hr]. rewrite Hr. unfold lift, mret, M_ret, fail.
  destruct r as [e|b].
  - eexists. split; [done|]. split; [|done]. intros b. split; [done|].
    rewrite <-decodeBool_inr, Hr. done.
  - eexists. split; [done|]. split; [|done]. intros b'. rewrite <-decodeBool_inr, Hr. naive_solver.
Qed.

(** The combination of several checkers answers the disjunction of their answers; an error of
    a checker that is asked is the error of the combination, so an address passes only
    after every checker answered that it is clean. *)
Theorem any_checker_disjunction {W} (I : W → Prop) (E : error → Prop)
    (cs : list (Checker W)) (Ss : list (Address → bool)) (ctx : Ctx) (a : Address)
    (Hcs : Forall2 (CheckerSpec I E) cs Ss) :
  triple I (IsSanctioned (AnyChecker cs) ctx a) (λ b, b = true ↔ ∃ S, S ∈ Ss ∧ S a = true) E.
Proof.
  eapply triple_post; [by apply (AnyChecker_spec I E cs Ss Hcs ctx a)|].
  intros b ->. rewrite existsb_exists. split; intros (S & HS & Ha); exists S; split; try done;
    by apply list_elem_of_In.
Qed.

End sanctions_claims.

(** ** Concrete instances *)
Module SanctionsExamples.
Import Toy.

Definition acct (n : Z) : Address := to_bytes_n 20 (be_bytes 20 n).

(** A comment line, an address with a comment and a Windows line ending, a blank line. *)
Definition demo_entries : list entry :=
  [mkEntry [] None [] (Some (to_bytes " OFAC list"));
   mkEntry [x20] (Some (acct 7)) [x09; x0d] None;
   mkEntry [] (Some (acct 9)) [x20] (Some (to_bytes "mixer"));
   mkEntry [] None [x0d] None].

Lemma demo_entries_wf : Forall wf_entry demo_entries.
Proof.
  repeat constructor; try (intros c [= <-]; apply (bool_decide_unpack _); by vm_compute); done.
Qed.

Definition demo_open (path : string) : error + (list byte * option error) :=
  if bool_decide (path = "sanctions.txt") then inr (render demo_entries, None)
  else inl (Errorf "no such file or directory" []).

Lemma sanctions_file_roundtrip_witness :
  ∃ set, LoadListChecker demo_open "sanctions.txt" = inr set ∧
    ∀ (W : Type) (w : W) (ctx : Ctx) a,
      IsSanctioned (ListChecker set) ctx a w = (Ok (bool_decide (Some a ∈ (e_address <$> demo_entries))), w).
Proof.
  apply (sanctions_file_roundtrip demo_open "sanctions.txt" demo_entries demo_entries_wf). by vm_compute.
Defined.

Lemma any_checker_disjunction_witness :
  triple (λ _ : unit, True)
    (IsSanctioned (AnyChecker [ListChecker {[acct 7]}; ListChecker {[acct 9]}]) Background (acct 9))
    (λ b, b = true ↔ ∃ S, S ∈ [λ a, bool_decide (a ∈ ({[acct 7]} : gset Address));
                               λ a, bool_decide (a ∈ ({[acct 9]} : gset Address))] ∧ S (acct 9) = true)
    (λ _, False).
Proof. apply (any_checker_disjunction (λ _ : unit, True) (λ _, False)). repeat constructor; apply _. Defined.

Example malformed_file_rejected :
  parseList (to_bytes "0x12 # too short") None =
  inl (Errorf "line %d: invalid address %q" ["1"; "0x12"]).
Proof. by vm_compute. Qed.

End SanctionsExamples.
