(* ===== verification/SanctionsCache.v ===== *)
(** * The cache of oracle answers, alone and under concurrent requests

    [internal/sanctions/cache.go]. The two regions the code runs under its mutex are the pure
    functions [cache_read] and [cache_store]; [CachedIsSanctioned] is the method for one
    caller, and [cache_step] interleaves any number of callers, with the clock moving and the
    wrapped checker's answer changing over time; the method is a run of it
    ([CachedIsSanctioned_steps]). *)

From Stdlib Require Import ZArith Lia.
From stdpp Require Import relations.
From S2P Require Import Prelude GoLib Deadline Geth Sanctions.

(** Times and durations are nanoseconds. *)
Record cacheEntry := mkCacheEntry { sanctioned : bool; expires : Z }.

Abbreviation Entries := (gmap Address cacheEntry).

(** [now.Before(e.expires)] *)
Definition valid_at (now : Z) (e : cacheEntry) : Prop := (now < expires e)%Z.
#[global] Instance valid_at_dec now e : Decision (valid_at now e).
Proof. unfold valid_at. apply _. Defined.

Definition evict (maxEntries now : Z) (entries : Entries) : Entries :=
  let entries := filter (λ x, valid_at now x.2) entries in
  if Z.leb maxEntries (Z.of_nat (size entries)) then ∅ else entries.

(** The first locked region and the test after it. *)
Definition cache_read (now : Z) (addr : Address) (entries : Entries) : option bool :=
  match entries !! addr with
  | Some e => if bool_decide (valid_at now e) then Some (sanctioned e) else None
  | None => None
  end.

(** The second locked region. *)
Definition cache_store (maxEntries ttl now : Z) (addr : Address) (hit : bool) (entries : Entries) : Entries :=
  let entries := if Z.leb maxEntries (Z.of_nat (size entries)) then evict maxEntries now entries else entries in
  <[addr := mkCacheEntry hit (now + ttl)]> entries.

(** ** One caller *)
Section cached_checker.
Context {W : Type} `{L : Lens W Entries}.

Definition CachedIsSanctioned (next : Checker W) (ttl maxEntries : Z) (now : M W Z) (ctx : Ctx) (addr : Address) : M W bool :=
  now ← now;
  entries ← get;
  match cache_read now addr entries with
  | Some hit => mret hit
  | None =>
      hit ← IsSanctioned next ctx addr;
      entries ← get;
      _ ← put (cache_store maxEntries ttl now addr hit entries);
      mret hit
  end.

Definition CachedChecker (next : Checker W) (ttl maxEntries : Z) (now : M W Z) : Checker W :=
  mkChecker (CachedIsSanctioned next ttl maxEntries now).

End cached_checker.

(** ** Facts about the two locked regions *)

Lemma cache_read_Some now a entries b :
  cache_read now a entries = Some b ↔
  ∃ e, entries !! a = Some e ∧ valid_at now e ∧ sanctioned e = b.
Proof.
  unfold cache_read. destruct (entries !! a) as [e|]; [|naive_solver].
  case_bool_decide; naive_solver.
Qed.

Lemma evict_subseteq maxEntries now entries : evict maxEntries now entries ⊆ entries.
Proof.
  unfold evict. destruct (Z.leb _ _); [apply map_empty_subseteq|apply map_filter_subseteq].
Qed.

Lemma cache_store_lookup maxEntries ttl now a hit entries x e :
  cache_store maxEntries ttl now a hit entries !! x = Some e →
  (x = a ∧ e = mkCacheEntry hit (now + ttl)) ∨ entries !! x = Some e.
Proof.
  unfold cache_store. rewrite lookup_insert_Some. intros [[-> <-]|[_ Hx]]; [by left|right].
  destruct (Z.leb _ _); [|done]. eapply lookup_weaken; [exact Hx|apply evict_subseteq].
Qed.

Lemma cache_store_own maxEntries ttl now a hit entries :
  cache_store maxEntries ttl now a hit entries !! a = Some (mkCacheEntry hit (now + ttl)).
Proof. unfold cache_store. apply lookup_insert_eq. Qed.

Lemma size_evict maxEntries now entries :
  (0 < maxEntries)%Z → (Z.of_nat (size (evict maxEntries now entries)) < maxEntries)%Z.
Proof.
  intros Hmax. unfold evict. destruct (Z.leb_spec maxEntries
    (Z.of_nat (size (filter (λ x, valid_at now x.2) entries)))); [rewrite map_size_empty|]; lia.
Qed.

Lemma evict_nonpos maxEntries now entries : (maxEntries ≤ 0)%Z → evict maxEntries now entries = ∅.
Proof.
  intros Hmax. unfold evict. destruct (Z.leb_spec maxEntries
    (Z.of_nat (size (filter (λ x, valid_at now x.2) entries)))); [done|lia].
Qed.

Lemma size_cache_store maxEntries ttl now a hit entries :
  (Z.of_nat (size (cache_store maxEntries ttl now a hit entries)) ≤ Z.max 1 maxEntries)%Z.
Proof.
  unfold cache_store. rewrite map_size_insert.
  destruct (Z.leb_spec maxEntries (Z.of_nat (size entries))).
  - destruct (Z.le_gt_cases maxEntries 0) as [Hm|Hm].
    + rewrite evict_nonpos, lookup_empty, map_size_empty by done. lia.
    + pose proof (size_evict maxEntries now entries Hm). destruct (evict _ _ _ !! a); unfold id; lia.
  - destruct (entries !! a); unfold id; lia.
Qed.

(** ** One caller: the cache refines the checker it wraps *)
Section cached_checker_proofs.
Context {W : Type} `{L : Lens W Entries} `{!LensLaws L}.
Context (I : W → Prop) (E : error → Prop).
Context (I_frame : ∀ s w, I w → I (update s w)).
Context (next : Checker W) (S : Address → bool) (ttl maxEntries : Z) (now : M W Z).
Context (Hnext : ∀ k : Entries, CheckerSpec (λ w, I w ∧ view w = k) E next S).
Context (Hclock : ∀ k : Entries, triple (λ w, I w ∧ view w = k) now (λ _, True) E).

Definition entries_ok (k : Entries) : Prop :=
  (∀ a e, k !! a = Some e → sanctioned e = S a) ∧ (Z.of_nat (size k) ≤ Z.max 1 maxEntries)%Z.

Definition cache_inv (w : W) : Prop := I w ∧ entries_ok (view w).

Lemma entries_ok_store t a k :
  entries_ok k → entries_ok (cache_store maxEntries ttl t a (S a) k).
Proof.
  intros [Hk _]. split; [|apply size_cache_store].
  intros x e [[-> ->]|Hx]%cache_store_lookup; [done|by apply Hk].
Qed.

Lemma CachedIsSanctioned_run ctx a w :
  cache_inv w →
  match CachedIsSanctioned next ttl maxEntries now ctx a w with
  | (Ok b, w') => cache_inv w' ∧ b = S a
  | (Err e, w') => cache_inv w' ∧ E e
  | (Panic, _) => False
  end.
Proof using All.
  intros [HI Hk]. unfold CachedIsSanctioned, mbind, M_bind, get, put.
  pose proof (Hclock (view w) w (conj HI eq_refl)) as Hc.
  destruct (now w) as [[t|e|] w1]; [| |done]; destruct Hc as [[HI1 Hv1] Hc].
  2: { split; [|done]. split; [done|by rewrite Hv1]. }
  destruct (cache_read t a (view w1)) as [b|] eqn:Hread.
  { apply cache_read_Some in Hread as (e & He & _ & <-). rewrite Hv1 in He.
    split; [split; [done|by rewrite Hv1]|by apply Hk]. }
  pose proof (Hnext (view w) ctx a w1 (conj HI1 Hv1)) as Hn.
  destruct (IsSanctioned next ctx a w1) as [[b|e|] w2]; [| |done]; destruct Hn as [[HI2 Hv2] Hr].
  2: { split; [|done]. split; [done|by rewrite Hv2]. }
  subst b. split; [split|done].
  - by apply I_frame.
  - rewrite view_update, Hv2. by apply entries_ok_store.
Qed.

#[global] Instance CachedChecker_spec : CheckerSpec cache_inv E (CachedChecker next ttl maxEntries now) S.
Proof using All. intros ctx a w Hw. by apply CachedIsSanctioned_run. Qed.

End cached_checker_proofs.

(** ** Concurrent callers

    [truth t a] is what the wrapped checker answers about [a] at time [t]. A caller is in one
    of four phases; [Done] keeps the result it returned, [None] being an error. *)
Inductive caller : Type :=
| Started (addr : Address) (now : Z)
| Missed (addr : Address) (now : Z)
| Answered (addr : Address) (now : Z) (hit : bool)
| Done (addr : Address) (now : Z) (result : option bool).

Record cache_state := mkCacheState {
  cs_clock : Z;
  cs_entries : Entries;
  cs_callers : list caller
}.

Definition set_caller (i : nat) (c : caller) (s : cache_state) : cache_state :=
  mkCacheState (cs_clock s) (cs_entries s) (<[i := c]> (cs_callers s)).

Section concurrent.
Context (truth : Z → Address → bool) (ttl maxEntries : Z).

Definition cache_init (t : Z) : cache_state := mkCacheState t ∅ [].

(** One atomic action of one caller, or time passing. The wrapped checker is asked outside the
    lock, so other callers run between [Missed] and [Answered] and before the store. *)
Inductive cache_step : cache_state → cache_state → Prop :=
| step_tick s d :
    (0 ≤ d)%Z →
    cache_step s (mkCacheState (cs_clock s + d) (cs_entries s) (cs_callers s))
| step_start s addr :
    cache_step s (mkCacheState (cs_clock s) (cs_entries s) (cs_callers s ++ [Started addr (cs_clock s)]))
| step_hit s i addr now b :
    cs_callers s !! i = Some (Started addr now) → cache_read now addr (cs_entries s) = Some b →
    cache_step s (set_caller i (Done addr now (Some b)) s)
| step_miss s i addr now :
    cs_callers s !! i = Some (Started addr now) → cache_read now addr (cs_entries s) = None →
    cache_step s (set_caller i (Missed addr now) s)
| step_answer s i addr now :
    cs_callers s !! i = Some (Missed addr now) →
    cache_step s (set_caller i (Answered addr now (truth (cs_clock s) addr)) s)
| step_fail s i addr now :
    cs_callers s !! i = Some (Missed addr now) →
    cache_step s (set_caller i (Done addr now None) s)
| step_store s i addr now hit :
    cs_callers s !! i = Some (Answered addr now hit) →
    cache_step s (mkCacheState (cs_clock s) (cache_store maxEntries ttl now addr hit (cs_entries s))
                    (<[i := Done addr now (Some hit)]> (cs_callers s))).

(** [b] was the truth about [a] at a time that satisfies [P] and has been reached. *)
Definition was_true (s_clock : Z) (P : Z → Prop) (a : Address) (b : bool) : Prop :=
  ∃ t, P t ∧ (t ≤ s_clock)%Z ∧ truth t a = b.

Definition caller_ok (clock : Z) (c : caller) : Prop :=
  match c with
  | Started _ now | Missed _ now => (now ≤ clock)%Z
  | Answered a now b => was_true clock (λ t, now ≤ t)%Z a b
  | Done a now (Some b) => was_true clock (λ t, now ≤ t ∨ now < t + ttl)%Z a b
  | Done _ _ None => True
  end.

Definition entry_ok (clock : Z) (a : Address) (e : cacheEntry) : Prop :=
  was_true clock (λ t, expires e ≤ t + ttl)%Z a (sanctioned e).

Record reach_inv (s : cache_state) : Prop := {
  inv_entries : ∀ a e, cs_entries s !! a = Some e → entry_ok (cs_clock s) a e;
  inv_callers : Forall (caller_ok (cs_clock s)) (cs_callers s);
  inv_size : (Z.of_nat (size (cs_entries s)) ≤ Z.max 1 maxEntries)%Z
}.

Lemma was_true_mono c c' (P P' : Z → Prop) a b :
  was_true c P a b → (c ≤ c')%Z → (∀ t, P t → P' t) → was_true c' P' a b.
Proof. intros (t & HP & Ht & Hb) Hc HP'. exists t. split_and!; [auto|lia|done]. Qed.

Lemma caller_ok_mono c c' t : caller_ok c t → (c ≤ c')%Z → caller_ok c' t.
Proof.
  destruct t as [? now|? now|? ? b|? ? [b|]]; simpl; intros H Hc; [lia|lia| | |done];
    (eapply was_true_mono; [exact H|done|done]).
Qed.

Lemma reach_inv_caller s i c : reach_inv s → caller_ok (cs_clock s) c → reach_inv (set_caller i c s).
Proof. intros [He Hc Hs] Hok. split; [done| |done]. by apply Forall_insert. Qed.

Lemma reach_inv_step s s' : reach_inv s → cache_step s s' → reach_inv s'.
Proof.
  intros Hinv Hstep. pose proof Hinv as [He Hc Hs].
  destruct Hstep as [s d Hd|s addr|s i addr now b Hi Hread|s i addr now Hi _|s i addr now Hi|s i addr now Hi|s i addr now hit Hi];
    try (pose proof (Forall_lookup_1 _ _ _ _ Hc Hi) as Hci; simpl in Hci).
  - split; simpl; [|by eapply Forall_impl; [exact Hc|intros; eapply caller_ok_mono; [done|lia]]|done].
    intros a e Ha. eapply was_true_mono; [by apply (He a e)|lia|done].
  - split; simpl; [done| |done]. apply Forall_app. split; [done|]. constructor; [simpl; lia|constructor].
  - apply reach_inv_caller; [done|]. apply cache_read_Some in Hread as (e & Ha & Hv & <-).
    simpl. eapply was_true_mono; [by apply (He addr e)|lia|]. unfold valid_at in Hv. simpl. intros t Ht. lia.
  - by apply reach_inv_caller.
  - apply reach_inv_caller; [done|]. simpl. exists (cs_clock s). split_and!; [lia|lia|done].
  - by apply reach_inv_caller.
  - split; simpl.
    + intros a e [[-> ->]|Ha]%cache_store_lookup; [|by apply He].
      eapply was_true_mono; [exact Hci|lia|]. simpl. intros t Ht. lia.
    + apply Forall_insert; [done|]. eapply was_true_mono; [exact Hci|lia|]. simpl. intros t Ht. by left.
    + apply size_cache_store.
Qed.

Lemma reach_inv_init t : reach_inv (cache_init t).
Proof.
  split; simpl; [|constructor|rewrite map_size_empty; lia]. intros a e. by rewrite lookup_empty.
Qed.

Lemma reachable_inv t s : rtc cache_step (cache_init t) s → reach_inv s.
Proof.
  intros Hr. remember (cache_init t) as s0 eqn:Heq.
  assert (reach_inv s0) as H0 by (subst; apply reach_inv_init). clear Heq.
  induction Hr; eauto using reach_inv_step.
Qed.

End concurrent.

(** ** The method takes these steps *)
Section method.
Context {W : Type} `{!Clock W} `{L : Lens W Entries} `{!LensLaws L} `{!Timeless L}.
Context (truth : Z → Address → bool) (next : Checker W) (ttl maxEntries : Z).

(** The wrapped checker takes time, and answers what was true meanwhile. *)
Context (Hnext : ∀ ctx a w, match IsSanctioned next ctx a w with
  | (Ok b, w') => ∃ t, (clock w ≤ t ≤ clock w')%Z ∧ b = truth t a
  | (Err _, w') => (clock w ≤ clock w')%Z
  | (Panic, _) => False
  end).
Context (Hframe : ∀ ctx a w, view (IsSanctioned next ctx a w).2 = (view w : Entries)).

Abbreviation step := (cache_step truth ttl maxEntries).

(** The state of the cache in a world, with the callers [cs]. *)
Definition cache_of (w : W) (cs : list caller) : cache_state := mkCacheState (clock w) (view w) cs.

Lemma set_last_caller c c' t k cs :
  set_caller (length cs) c' (mkCacheState t k (cs ++ [c])) = mkCacheState t k (cs ++ [c']).
Proof using Type. unfold set_caller. cbn. by rewrite insert_app_r_alt, Nat.sub_diag by lia. Qed.

Lemma last_caller (c : caller) t k cs : cs_callers (mkCacheState t k (cs ++ [c])) !! length cs = Some c.
Proof using Type. by apply list_lookup_middle. Qed.

Lemma cache_ticks t t' k cs : (t ≤ t')%Z → rtc step (mkCacheState t k cs) (mkCacheState t' k cs).
Proof using Type.
  intros Ht. eapply rtc_l; [apply (step_tick _ _ _ (mkCacheState t k cs) (t' - t)); lia|]. cbn.
  by replace (t + (t' - t))%Z with t' by lia.
Qed.

(** A miss: the caller waits for the answer. *)
Lemma cache_misses a w cs :
  cache_read (clock w) a (view w) = None →
  rtc step (cache_of w cs) (mkCacheState (clock w) (view w) (cs ++ [Missed a (clock w)])).
Proof using Type.
  intros Hread. eapply rtc_l; [apply (step_start _ _ _ (cache_of w cs) a)|]. cbn [cache_of cs_clock cs_entries cs_callers].
  eapply rtc_l; [by apply (step_miss _ _ _ _ (length cs) a (clock w)); [apply last_caller|]|]. by rewrite set_last_caller.
Qed.

(** The answer and its storing, at the end of a lookup. *)
Lemma cache_stores a now t t' k cs :
  (t ≤ t')%Z →
  rtc step (mkCacheState t k (cs ++ [Missed a now]))
    (mkCacheState t' (cache_store maxEntries ttl now a (truth t a) k) (cs ++ [Done a now (Some (truth t a))])).
Proof using Type.
  intros Ht. eapply rtc_l; [by apply (step_answer _ _ _ _ (length cs) a now), last_caller|]. rewrite set_last_caller.
  cbn [cs_clock]. etrans; [by apply (cache_ticks t t')|].
  eapply rtc_l; [by apply (step_store _ _ _ _ (length cs) a now (truth t a)), last_caller|].
  cbn [cs_clock cs_entries cs_callers]. by rewrite insert_app_r_alt, Nat.sub_diag by lia.
Qed.

(** [CachedIsSanctioned] for one caller is a run of [cache_step] that ends with what it returned
    and the cache it left. *)
Lemma CachedIsSanctioned_steps ctx a w cs :
  match CachedIsSanctioned next ttl maxEntries time_Now ctx a w with
  | (Ok b, w') => rtc step (cache_of w cs) (cache_of w' (cs ++ [Done a (clock w) (Some b)]))
  | (Err _, w') => rtc step (cache_of w cs) (cache_of w' (cs ++ [Done a (clock w) None]))
  | (Panic, _) => False
  end.
Proof using All.
  unfold CachedIsSanctioned, time_Now, mbind, M_bind, get, put, mret, M_ret.
  destruct (cache_read (clock w) a (view w)) as [b|] eqn:Hread.
  { eapply rtc_l; [apply (step_start _ _ _ (cache_of w cs) a)|]. cbn [cache_of cs_clock cs_entries cs_callers].
    eapply rtc_l; [by apply (step_hit _ _ _ _ (length cs) a (clock w) b); [apply last_caller|]|]. by rewrite set_last_caller. }
  pose proof (cache_misses a w cs Hread) as Hmiss. pose proof (Hnext ctx a w) as Hn. pose proof (Hframe ctx a w) as Hf.
  destruct (IsSanctioned next ctx a w) as [[b|e|] w1]; [| |done]; cbn [snd] in Hf.
  - destruct Hn as (t & Ht & ->). etrans; [exact Hmiss|]. etrans; [apply (cache_ticks _ t); lia|].
    unfold cache_of at 1. rewrite timeless, view_update, Hf. apply cache_stores. lia.
  - etrans; [exact Hmiss|]. etrans; [by apply (cache_ticks _ (clock w1))|].
    eapply rtc_l; [by apply (step_fail _ _ _ _ (length cs) a (clock w)), last_caller|].
    rewrite set_last_caller. unfold cache_of. by rewrite Hf.
Qed.

End method.

(** ** Claims *)
Section cache_claims.

(** For one caller the sanctions cache is transparent and bounded: around a checker that answers
    [S], every lookup through the cache returns [S] of the address whatever the clock says, a
    failed lookup is an error and never an answer, and the cache never holds more than its
    maximum of entries. *)
Theorem CachedChecker_transparent {W} `{L : Lens W Entries} `{!LensLaws L}
    (I : W → Prop) (E : error → Prop) (next : Checker W) (S : Address → bool)
    (ttl maxEntries : Z) (now : M W Z) (ctx : Ctx) (a : Address)
    (Hmax : (0 < maxEntries)%Z)
    (Hframe : ∀ (s : Entries) w, I w → I (update s w))
    (Hnext : ∀ k : Entries, CheckerSpec (λ w, I w ∧ view w = k) E next S)
    (Hclock : ∀ k : Entries, triple (λ w, I w ∧ view w = k) now (λ _, True) E) :
  triple (λ w, I w ∧ (∀ x e, (view w : Entries) !! x = Some e → sanctioned e = S x) ∧
               (Z.of_nat (size (view w : Entries)) ≤ maxEntries)%Z)
    (CachedIsSanctioned next ttl maxEntries now ctx a) (λ b, b = S a) E.
Proof.
  intros w (HI & Hk & Hsize).
  pose proof (CachedIsSanctioned_run I E Hframe next S ttl maxEntries now Hnext Hclock ctx a w) as Hrun.
  unfold cache_inv, entries_ok in Hrun. rewrite Z.max_r in Hrun by lia. by apply Hrun.
Qed.

(** C13: Under any interleaving of concurrent lookups, clock ticks, answers and failures, a lookup
    that started at [now] and returned [b] returned what the wrapped checker said about that
    address at a moment less than [ttl] before the lookup started, or later: an answer is
    never older than [ttl], is never invented and never comes from another address. *)
Theorem cache_staleness_bounded (truth : Z → Address → bool) (ttl maxEntries t0 : Z)
    (s : cache_state) (i : nat) (a : Address) (now : Z) (b : bool)
    (Hreach : rtc (cache_step truth ttl maxEntries) (cache_init t0) s)
    (Hdone : cs_callers s !! i = Some (Done a now (Some b))) :
  ∃ t, truth t a = b ∧ (t ≤ cs_clock s)%Z ∧ (now ≤ t ∨ now - t < ttl)%Z.
Proof.
  apply reachable_inv in Hreach as [_ Hc _].
  destruct (Forall_lookup_1 _ _ _ _ Hc Hdone) as (t & Ht & Hle & Hb).
  exists t. split_and!; [done..|]. lia.
Qed.

(** Under any interleaving the sanctions cache holds at most [maxEntries] answers (one when
    [maxEntries] is not positive), each of them an answer the wrapped checker gave about that
    very address and stamped to expire within [ttl] of the time it was given; a failed
    lookup leaves nothing behind. *)
Theorem cache_entries_sound (truth : Z → Address → bool) (ttl maxEntries t0 : Z) (s : cache_state)
    (Hreach : rtc (cache_step truth ttl maxEntries) (cache_init t0) s) :
  (Z.of_nat (size (cs_entries s)) ≤ Z.max 1 maxEntries)%Z ∧
  ∀ a e, cs_entries s !! a = Some e →
    ∃ t, truth t a = sanctioned e ∧ (t ≤ cs_clock s)%Z ∧ (expires e ≤ t + ttl)%Z.
Proof.
  apply reachable_inv in Hreach as [He _ Hs]. split; [done|].
  intros a e Ha. destruct (He a e Ha) as (t & Ht & Hle & Hb). by exists t.
Qed.

(** A cache made with a maximum of zero or fewer entries is not empty: after any lookup that
    reached the wrapped checker it holds that answer and nothing else. *)
Theorem nonpositive_cache_keeps_one (maxEntries ttl now : Z) (a : Address) (hit : bool) (entries : Entries)
    (Hmax : (maxEntries ≤ 0)%Z) :
  cache_store maxEntries ttl now a hit entries = {[ a := mkCacheEntry hit (now + ttl) ]}.
Proof.
  unfold cache_store. destruct (Z.leb_spec maxEntries (Z.of_nat (size entries))); [|lia].
  by rewrite evict_nonpos.
Qed.

End cache_claims.

(** ** Concrete instances *)
Module CacheExamples.

Definition acct (n : Z) : Address := to_bytes_n 20 (be_bytes 20 n).

Definition id_lens : Lens Entries Entries := {| view := id; update s _ := s |}.
Lemma cache_lens_laws : LensLaws id_lens.
Proof. by split. Qed.

Lemma CachedChecker_transparent_witness :
  triple (λ w : Entries, True ∧ (∀ x e, w !! x = Some e → sanctioned e = bool_decide (x ∈ ({[acct 7]} : gset Address))) ∧
               (Z.of_nat (size w) ≤ 2)%Z)
    (CachedIsSanctioned (L := id_lens) (ListChecker {[acct 7]}) 60 2 (mret 1000%Z) Background (acct 7))
    (λ b, b = bool_decide (acct 7 ∈ ({[acct 7]} : gset Address))) (λ _, False).
Proof.
  apply (CachedChecker_transparent (L := id_lens) (LensLaws0 := cache_lens_laws)
    (λ _ : Entries, True) (λ _, False) (ListChecker {[acct 7]}) (λ x, bool_decide (x ∈ ({[acct 7]} : gset Address)))
    60 2 (mret 1000%Z) Background (acct 7)).
  - lia.
  - done.
  - intros k. apply ListChecker_spec.
  - intros k. by apply triple_ret.
Defined.

(** Account 7 becomes sanctioned at time 5; a caller that asked at time 4 fills the cache. *)
Definition demo_truth (t : Z) (a : Address) : bool := Z.leb 5 t && bool_decide (a = acct 7).

Definition demo_state : cache_state :=
  mkCacheState 6 {[ acct 7 := mkCacheEntry false 14 ]}
    [Done (acct 7) 4 (Some false); Done (acct 7) 6 (Some false)].

(** The second caller starts after the address was sanctioned and is served the old answer. *)
Lemma demo_reach : rtc (cache_step demo_truth 10 8) (cache_init 4) demo_state.
Proof.
  eapply rtc_l; [apply (step_start _ _ _ (cache_init 4) (acct 7))|].
  eapply rtc_l; [by apply (step_miss _ _ _ _ 0 (acct 7) 4)|].
  eapply rtc_l; [by apply (step_answer _ _ _ _ 0 (acct 7) 4)|].
  eapply rtc_l; [by apply (step_store _ _ _ _ 0 (acct 7) 4)|].
  eapply rtc_l; [by apply (step_tick _ _ _ _ 2)|].
  eapply rtc_l; [apply (step_start _ _ _ _ (acct 7))|].
  eapply rtc_l; [by apply (step_hit _ _ _ _ 1 (acct 7) 6 false); vm_compute|].
  by vm_compute.
Qed.

Lemma cache_staleness_bounded_witness :
  ∃ t, demo_truth t (acct 7) = false ∧ (t ≤ 6)%Z ∧ (6 ≤ t ∨ 6 - t < 10)%Z.
Proof. by apply (cache_staleness_bounded demo_truth 10 8 4 demo_state 1 (acct 7) 6 false demo_reach). Defined.

Lemma cache_entries_sound_witness :
  (Z.of_nat (size (cs_entries demo_state)) ≤ Z.max 1 8)%Z ∧
  ∀ a e, cs_entries demo_state !! a = Some e →
    ∃ t, demo_truth t a = sanctioned e ∧ (t ≤ cs_clock demo_state)%Z ∧ (expires e ≤ t + 10)%Z.
Proof. apply (cache_entries_sound demo_truth 10 8 4 demo_state demo_reach). Defined.

Lemma nonpositive_cache_keeps_one_witness :
  cache_store 0 60 1000 (acct 7) true ∅ = {[ acct 7 := mkCacheEntry true 1060 ]}.
Proof. apply (nonpositive_cache_keeps_one 0 60 1000 (acct 7) true ∅). lia. Defined.

End CacheExamples.
