(* ===== verification/Interference.v ===== *)
(** * Requests beside other requests: rely and guarantee

    A request shares the two caches, the node and the clock with every other request. [R] is
    what may happen to the world while it waits or is preempted, and also what the request may do
    itself: [guar w0 P m Q] says that [m], in a world reached from [w0] that satisfies [P], never
    panics, changes the world as [R] allows, and returns values in [Q]. [Shared] has
    that relation for this program. *)

From Stdlib Require Import ZArith Lia.
From stdpp Require Import relations.
From S2P Require Import Prelude GoLib Deadline Geth ChainState FreshnessCache Sanctions SanctionsCache.

(** ** The logic *)
Section guarantee.
Context {W : Type} (I : W → Prop) (R : relation W) `{!PreOrder R}.

(** What stays true whatever the others do. *)
Class Stable (P : W → Prop) : Prop := stable : ∀ w w', I w → R w w' → P w → P w'.

Context {HI : Stable I}.

Definition guar (w0 : W) {A} (P : W → Prop) (m : M W A) (Q : A → W → Prop) : Prop :=
  ∀ w, I w → R w0 w → P w → match m w with
    | (Ok a, w') => R w w' ∧ Q a w'
    | (Err _, w') => R w w'
    | (Panic, _) => False
    end.

#[global] Instance stable_and P Q : Stable P → Stable Q → Stable (λ w, P w ∧ Q w).
Proof. intros HP HQ w w' Hw Hr [? ?]. split; [by eapply HP|by eapply HQ]. Qed.
#[global] Instance stable_const (P : Prop) : Stable (λ _, P).
Proof. intros w w' _ _ HP. exact HP. Qed.
#[global] Instance stable_exist {A} (P : A → W → Prop) : (∀ a, Stable (P a)) → Stable (λ w, ∃ a, P a w).
Proof. intros HP w w' Hw Hr [a Ha]. exists a. by eapply HP. Qed.
#[global] Instance stable_forall {A} (P : A → W → Prop) : (∀ a, Stable (P a)) → Stable (λ w, ∀ a, P a w).
Proof. intros HP w w' Hw Hr Ha a. by eapply HP. Qed.
#[global] Instance stable_Forall2 {A B} (P : A → B → W → Prop) xs ys :
  (∀ a b, Stable (P a b)) → Stable (λ w, Forall2 (λ a b, P a b w) xs ys).
Proof. intros HP w w' Hw Hr H. eapply Forall2_impl; [exact H|]. intros a b Hab. by eapply HP. Qed.

Context (w0 : W).

Lemma guar_ret {A} (P : W → Prop) (a : A) (Q : A → W → Prop) : (∀ w, P w → Q a w) → guar w0 P (mret a) Q.
Proof using PreOrder0. intros HQ w _ _ HP. split; [done|by apply HQ]. Qed.

(** What is true in every world the request may be in. *)
Lemma guar_ret_now {A} (P : W → Prop) (a : A) (Q : A → W → Prop) : (∀ w, I w → R w0 w → Q a w) → guar w0 P (mret a) Q.
Proof using PreOrder0. intros HQ w Hw Hr _. split; [done|by apply HQ]. Qed.

Lemma guar_fail {A} (P : W → Prop) e (Q : A → W → Prop) : guar w0 P (fail e) Q.
Proof using PreOrder0. intros w _ _ HP. simpl. done. Qed.

Lemma guar_bind {A B} (m : M W A) (f : A → M W B) P Q S :
  guar w0 P m Q → (∀ a, guar w0 (Q a) (f a) S) → guar w0 P (m ≫= f) S.
Proof using PreOrder0 HI.
  intros Hm Hf w Hw H0 HP. specialize (Hm w Hw H0 HP). unfold mbind, M_bind.
  destruct (m w) as [[a|e|] w1]; [|done..]. destruct Hm as [Hr HQ].
  assert (I w1) as Hw1 by (by eapply HI). assert (R w0 w1) as H1 by (by etrans).
  specialize (Hf a w1 Hw1 H1 HQ). destruct (f a w1) as [[b|e|] w2]; [|by etrans|done].
  destruct Hf as [? ?]. split; [by etrans|done].
Qed.

Lemma guar_conseq {A} (P P' : W → Prop) (m : M W A) (Q Q' : A → W → Prop) :
  guar w0 P m Q → (∀ w, I w → R w0 w → P' w → P w) → (∀ a w, I w → R w0 w → Q a w → Q' a w) → guar w0 P' m Q'.
Proof using PreOrder0 HI.
  intros Hm HP HQ w Hw H0 HPw. specialize (Hm w Hw H0 (HP w Hw H0 HPw)). destruct (m w) as [[a|e|] w1]; [|done..].
  destruct Hm as [Hr HQw]. split; [done|]. apply HQ; [by eapply HI|by etrans|done].
Qed.

(** What is stable need not be mentioned. *)
Lemma guar_frame {A} (F : W → Prop) `{HF : !Stable F} (P : W → Prop) (m : M W A) Q :
  guar w0 P m Q → guar w0 (λ w, F w ∧ P w) m (λ a w, F w ∧ Q a w).
Proof using Type.
  intros Hm w Hw H0 [Hf HP]. specialize (Hm w Hw H0 HP). destruct (m w) as [[a|e|] w1]; [|done..].
  destruct Hm as [Hr HQ]. split; [done|]. split; [by eapply HF|done].
Qed.

(** A call between two statements: its answer, with what was known before. *)
Lemma guar_ask {A B} (F : W → Prop) `{HF : !Stable F} (T : A → W → Prop) (m : M W A) (f : A → M W B) S :
  guar w0 (λ _, True) m T → (∀ a, guar w0 (λ w, F w ∧ T a w) (f a) S) → guar w0 F (m ≫= f) S.
Proof using PreOrder0 HI.
  intros Hm Hf. eapply guar_bind; [|exact Hf]. eapply guar_conseq; [by apply guar_frame, Hm|by intros w _ _ ?|done].
Qed.

Lemma guar_wrap {A} fmt args (P : W → Prop) (m : M W A) Q : guar w0 P m Q → guar w0 P (wrap_err fmt args m) Q.
Proof using Type.
  intros Hm w Hw H0 HP. specialize (Hm w Hw H0 HP). unfold wrap_err. by destruct (m w) as [[a|e|] w1].
Qed.

Lemma guar_try {A} (P : W → Prop) (m : M W A) (Q : A → W → Prop) (S : error + A → W → Prop) :
  guar w0 P m Q → (∀ a w, Q a w → S (inr a) w) → (∀ e w, S (inl e) w) → guar w0 P (try_err m) S.
Proof using Type.
  intros Hm Ha He w Hw H0 HP. specialize (Hm w Hw H0 HP). unfold try_err.
  destruct (m w) as [[a|e|] w1]; [|by split|done]. destruct Hm. split; [done|by apply Ha].
Qed.

Lemma guar_lift {A} (o : option A) (P : W → Prop) (Q : A → W → Prop) :
  (∀ w, P w → ∃ a, o = Some a ∧ Q a w) → guar w0 P (lift o) Q.
Proof using PreOrder0. intros Ho w _ _ HP. destruct (Ho w HP) as (a & -> & HQ). by split. Qed.

(** Loops: an invariant over the elements already visited. *)
Lemma guar_foldM {A B} (f : B → A → M W B) (J : list A → B → W → Prop) xs b :
  (∀ pre x post b, xs = pre ++ x :: post → guar w0 (J pre b) (f b x) (J (pre ++ [x]))) →
  guar w0 (J [] b) (foldM f xs b) (J xs).
Proof using PreOrder0 HI.
  intros Hstep.
  assert (∀ post pre b, xs = pre ++ post → guar w0 (J pre b) (foldM f post b) (J xs)) as Hgen; [|by apply Hgen].
  induction post as [|x post IH]; intros pre b' ->.
  - rewrite app_nil_r. cbn [foldM]. by apply guar_ret.
  - cbn [foldM]. eapply guar_bind; [by eapply Hstep|]. intros b''. apply IH. by rewrite <-app_assoc.
Qed.

(** Loops whose body appends something that is stably in relation with the element. *)
Lemma guar_foldM_appends {A C} (f : list C → A → M W (list C)) (T : A → list C → W → Prop)
    `{HT : ∀ x ys, Stable (T x ys)} xs acc :
  (∀ x acc, guar w0 (λ _, True) (f acc x) (λ acc' w, ∃ ys, acc' = acc ++ ys ∧ T x ys w)) →
  guar w0 (λ _, True) (foldM f xs acc)
    (λ acc' w, ∃ yss, Forall2 (λ x ys, T x ys w) xs yss ∧ acc' = acc ++ concat yss).
Proof using PreOrder0 HI.
  intros Hstep.
  apply guar_conseq with
    (P := λ w, ∃ yss, Forall2 (λ x ys, T x ys w) [] yss ∧ acc = acc ++ concat yss)
    (Q := λ acc' w, ∃ yss, Forall2 (λ x ys, T x ys w) xs yss ∧ acc' = acc ++ concat yss); [|..]; cycle 1.
  { intros w _ _ _. exists []. split; [constructor|by rewrite app_nil_r]. }
  { done. }
  apply (guar_foldM f (λ pre acc' w, ∃ yss, Forall2 (λ x ys, T x ys w) pre yss ∧ acc' = acc ++ concat yss)).
  intros pre x post acc' _.
  eapply guar_conseq; [|intros w _ _ H; exact (conj H Logic.I)|].
  1: exact (guar_frame (λ w, ∃ yss, Forall2 (λ x ys, T x ys w) pre yss ∧ acc' = acc ++ concat yss) _ _ _ (Hstep x acc')).
  intros acc'' w _ _ [(yss & Hyss & ->) (ys & -> & Hys)]. exists (yss ++ [ys]). split.
  - apply Forall2_app; [done|]. by constructor.
  - by rewrite concat_app, <-app_assoc; simpl; rewrite app_nil_r.
Qed.

(** A computation whose answers are in a relation with the worlds before and after it, that only
    grows weaker as time passes. *)
Lemma guar_of_run {A} (m : M W A) (T : W → W → A → Prop) :
  (∀ w1 w2 w3 a, R w1 w2 → T w2 w3 a → T w1 w3 a) →
  (∀ w, I w → match m w with
    | (Ok a, w') => R w w' ∧ T w w' a
    | (Err _, w') => R w w'
    | (Panic, _) => False
    end) →
  guar w0 (λ _, True) m (λ a w, T w0 w a).
Proof using Type.
  intros HT Hm w Hw H0 _. specialize (Hm w Hw). destruct (m w) as [[a|e|] w1]; [|done..].
  destruct Hm as [Hr Ha]. split; [done|by eapply HT].
Qed.

(** Other requests may run wherever the program may be preempted. *)
Class Yields (others : M W ()) : Prop := yields : ∀ w, I w → ∃ w', others w = (Ok (), w') ∧ R w w'.

#[global] Instance yields_not : Yields (mret ()).
Proof using PreOrder0. intros w _. by exists w. Qed.

(** Another computation, whatever it answers: what it guarantees is what this one relies on. *)
Definition meanwhile {A} (m : M W A) : M W () := λ w, (Ok (), (m w).2).

Lemma yields_meanwhile {A} (m : M W A) Q : (∀ w1, guar w1 (λ _, True) m Q) → Yields (meanwhile m).
Proof using PreOrder0.
  intros Hm w Hw. exists (m w).2. split; [done|]. specialize (Hm w w Hw (reflexivity w) Logic.I).
  destruct (m w) as [[a|e|] w1]; [by destruct Hm|done|done].
Qed.

Lemma guar_yield {B} (others : M W ()) `{!Yields others} P `{HP : !Stable P} (f : () → M W B) S :
  guar w0 P (f ()) S → guar w0 P (others ≫= f) S.
Proof using PreOrder0 HI.
  intros Hf w Hw H0 HPw. unfold mbind, M_bind. destruct (yields w Hw) as (w1 & -> & Hr).
  assert (R w0 w1) as H1 by (by etrans). specialize (Hf w1 (HI _ _ Hw Hr Hw) H1 (HP _ _ Hw Hr HPw)).
  destruct (f () w1) as [[b|e|] w2]; [|by etrans|done]. destruct Hf. split; [by etrans|done].
Qed.

End guarantee.
