(* ===== verification/Shared.v ===== *)
(** * The world that requests share, and what their lookups answer in it

    [other_step] is one thing that may happen to the world while a request waits or is preempted:
    time passes and the chain grows, or another request runs the second locked region of one of
    the caches. [shared_inv] is what the caches then always satisfy. In such a world the
    lookups of [internal/chainstate] and [internal/sanctions] move the world by such steps only,
    and answer what was true at a moment of the lookup, or, for a cached oracle answer, less
    than the time to live before it. *)

From Stdlib Require Import ZArith Lia.
From stdpp Require Import relations.
From S2P Require Import Prelude GoLib Deadline Geth ChainState FreshnessCache Sanctions SanctionsCache Interference.

(** ** What is outside, as time goes by

    The height of the chain, and what the node and the oracle contract answer at each height or
    time. [None] for a token is a call that fails with an RPC error. *)
Record Outside (W : Type) := mkOutside {
  o_height : W → Z;
  o_code : Address → Z → list byte;
  o_listed : Z → Address → bool;
  o_eth : Z → Address → Z;
  o_token : Z → Address → Address → option (list byte)
}.
Arguments mkOutside {W} _ _ _ _ _.
Arguments o_height {W} _ _.
Arguments o_code {W} _ _ _.
Arguments o_listed {W} _ _ _.
Arguments o_eth {W} _ _ _.
Arguments o_token {W} _ _ _ _.

(** The balance as [RPCBalances] understands the answers of the node. *)
Definition balance_at {W} (o : Outside W) (h : Z) (asset holder : Address) : option Z :=
  if bool_decide (asset = zero_address) then Some (o_eth o h holder) else
  match o_token o h asset holder with
  | Some out => if bool_decide (length out = 32) then Some (be_Z out) else None
  | None => None
  end.

(** The parts of the world are separate. *)
Class SharedWorld {W} `{!Clock W} `{LE : Lens W Entries} `{LK : Lens W (gset Address)} (o : Outside W) : Prop := {
  shared_entries_laws :: LensLaws LE;
  shared_known_laws :: LensLaws LK;
  shared_clock_entries :: Timeless LE;
  shared_clock_known :: Timeless LK;
  shared_height_entries : ∀ (k : Entries) w, o_height o (update k w) = o_height o w;
  shared_height_known : ∀ (k : gset Address) w, o_height o (update k w) = o_height o w;
  shared_known_entries : ∀ (k : Entries) w, (view (update k w) : gset Address) = view w;
  shared_entries_known : ∀ (k : gset Address) w, (view (update k w) : Entries) = view w;
  shared_permanent : permanent (o_code o)
}.

Section shared.
Context `{G : Geth} {W : Type} `{!Clock W} `{LE : Lens W Entries} `{LK : Lens W (gset Address)}.
Context (o : Outside W) {HS : SharedWorld o} (window ttl maxKnown maxEntries : Z).

Abbreviation age := (age_at (o_code o) window).

(** One thing that may happen. *)
Inductive other_step : relation W :=
| other_waits w w' :
    (clock w ≤ clock w')%Z → (o_height o w ≤ o_height o w')%Z →
    (view w' : Entries) = view w → (view w' : gset Address) = view w → other_step w w'
| other_known w a :
    age (o_height o w) a = Established → other_step w (update (known_store maxKnown a (view w)) w)
| other_entry w a now t :
    (now ≤ t ≤ clock w)%Z → other_step w (update (cache_store maxEntries ttl now a (o_listed o t a) (view w)) w).

Definition moves : relation W := rtc other_step.

(** What the caches hold is, or was, true. *)
Record shared_inv (w : W) : Prop := {
  sinv_height : (0 ≤ o_height o w)%Z;
  sinv_known : ∀ a, a ∈ (view w : gset Address) → age (o_height o w) a = Established;
  sinv_known_size : (Z.of_nat (size (view w : gset Address)) ≤ Z.max 1 maxKnown)%Z;
  sinv_entries : ∀ a e, (view w : Entries) !! a = Some e → entry_ok (o_listed o) ttl (clock w) a e;
  sinv_entries_size : (Z.of_nat (size (view w : Entries)) ≤ Z.max 1 maxEntries)%Z
}.

Lemma other_step_inv w w' : shared_inv w → other_step w w' → shared_inv w'.
Proof using HS.
  intros [Hh Hk Hks He Hes] Hstep. destruct Hstep as [w w' Hc Hgrow Hve Hvk|w a Ha|w a now t Ht].
  - split; [lia| |by rewrite Hvk| |by rewrite Hve].
    + intros a. rewrite Hvk. intros Hin. eapply established_stable; [apply shared_permanent|exact Hgrow|by apply Hk].
    + intros a e. rewrite Hve. intros Hin. eapply was_true_mono; [by apply (He a e)|lia|done].
  - split; rewrite ?shared_height_known, ?shared_entries_known, ?view_update, ?timeless; try done.
    + intros x. unfold known_store. rewrite elem_of_union, elem_of_singleton. intros [->|Hx]; [done|].
      apply Hk. destruct (Z.leb _ _); [set_solver|done].
    + by apply (size_known_store maxKnown).
  - split; rewrite ?shared_height_entries, ?shared_known_entries, ?view_update, ?timeless; try done.
    + intros x e [[-> ->]|Hx]%cache_store_lookup; [|by apply He].
      exists t. split_and!; [simpl; lia|lia|done].
    + apply size_cache_store.
Qed.

#[global] Instance moves_preorder : PreOrder moves.
Proof. unfold moves. apply _. Qed.

#[global] Instance shared_inv_stable : Stable shared_inv moves shared_inv.
Proof using HS. intros w w' _ Hr. induction Hr; eauto using other_step_inv. Qed.

(** Time and the chain only go forward. *)
Lemma moves_forward w w' : moves w w' → (clock w ≤ clock w')%Z ∧ (o_height o w ≤ o_height o w')%Z.
Proof using HS.
  induction 1 as [w|w w1 w2 Hstep _ IH]; [lia|].
  destruct Hstep; rewrite ?shared_height_known, ?shared_height_entries, ?timeless in IH; lia.
Qed.

Lemma moves_waits w w' :
  (clock w ≤ clock w')%Z → (o_height o w ≤ o_height o w')%Z →
  (view w' : Entries) = view w → (view w' : gset Address) = view w → moves w w'.
Proof using Type. intros. by apply rtc_once, other_waits. Qed.

(** A call to the outside that is only waited for. *)
Definition roams {A} (m : M W A) : Prop := ∀ w, shared_inv w → moves w (m w).2.

Lemma roams_ret {A} (a : A) : roams (mret a).
Proof using Type. by intros w _. Qed.
Lemma roams_fail {A} e : roams (fail e : M W A).
Proof using Type. intros w _. simpl. done. Qed.
Lemma roams_bind {A B} (m : M W A) (f : A → M W B) : roams m → (∀ a, roams (f a)) → roams (m ≫= f).
Proof using HS.
  intros Hm Hf w Hw. specialize (Hm w Hw). unfold mbind, M_bind.
  destruct (m w) as [[a|e|] w1]; [|done..]. etrans; [exact Hm|]. apply Hf. by apply (shared_inv_stable w).
Qed.
Lemma roams_wrap {A} fmt args (m : M W A) : roams m → roams (wrap_err fmt args m).
Proof using Type. intros Hm w Hw. specialize (Hm w Hw). unfold wrap_err. by destruct (m w) as [[]]. Qed.
Lemma roams_WithTimeout ctx d : roams (WithTimeout ctx d).
Proof using Type. by intros w _. Qed.

(** ** What was true *)

Definition true_status (w0 w : W) (x : Address) (s : Status) : Prop :=
  true_within age (o_height o w0) (o_height o w) x s.

(** An answer of the oracle, given [old] before [w0] at most. *)
Definition true_listed (old : Z) (w0 w : W) (x : Address) (b : bool) : Prop :=
  was_true (o_listed o) (clock w) (λ t, clock w0 ≤ t ∨ clock w0 < t + old)%Z x b.

Definition true_balance (w0 w : W) (asset holder : Address) (b : option Z) : Prop :=
  ∃ h, (o_height o w0 ≤ h ≤ o_height o w)%Z ∧ b = balance_at o h asset holder.

#[global] Instance true_status_stable w0 x s : Stable shared_inv moves (λ w, true_status w0 w x s).
Proof using HS. intros w w' _ [_ ?]%moves_forward (h & ? & ->). exists h. split; [lia|done]. Qed.
#[global] Instance true_listed_stable old w0 x b : Stable shared_inv moves (λ w, true_listed old w0 w x b).
Proof using HS. intros w w' _ [? _]%moves_forward Ht. eapply was_true_mono; [exact Ht|lia|done]. Qed.
#[global] Instance true_balance_stable w0 asset holder b : Stable shared_inv moves (λ w, true_balance w0 w asset holder b).
Proof using HS. intros w w' _ [_ ?]%moves_forward (h & ? & ->). exists h. split; [lia|done]. Qed.

(** There is always a true answer. *)
Lemma true_status_now w0 w x : moves w0 w → true_status w0 w x (age (o_height o w) x).
Proof using HS. intros [_ ?]%moves_forward. exists (o_height o w). split; [lia|done]. Qed.
Lemma true_listed_now old w0 w x : moves w0 w → true_listed old w0 w x (o_listed o (clock w) x).
Proof using HS. intros [? _]%moves_forward. exists (clock w). split_and!; [lia|lia|done]. Qed.
Lemma true_balance_now w0 w asset holder : moves w0 w → true_balance w0 w asset holder (balance_at o (o_height o w) asset holder).
Proof using HS. intros [_ ?]%moves_forward. exists (o_height o w). split; [lia|done]. Qed.

(** ** What the lookups promise to the rules *)

Abbreviation asks w0 m Q := (guar shared_inv moves w0 (λ _, True) m Q).

Class TrueStatus (r : StatusReader W) : Prop :=
  status_true : ∀ w0 ctx x, asks w0 (StatusOf r ctx x) (λ s w, true_status w0 w x s).
Class TrueFresh (r : FreshnessChecker W) : Prop :=
  fresh_true : ∀ w0 ctx x,
    asks w0 (IsFreshContract r ctx x) (λ b w, ∃ s, true_status w0 w x s ∧ b = bool_decide (s = Fresh)).
Class TrueBalance (r : BalanceReader W) : Prop :=
  balance_true : ∀ w0 ctx asset holder, asks w0 (Balance r ctx asset holder) (λ b w, true_balance w0 w asset holder b).
Class TrueChecker (old : Z) (c : Checker W) : Prop :=
  checker_true : ∀ w0 ctx x, asks w0 (IsSanctioned c ctx x) (λ b w, true_listed old w0 w x b).

#[global] Instance IsFresh_true r : TrueStatus r → TrueFresh (IsFresh_of r).
Proof using HS.
  intros Hr w0 ctx x. apply (guar_ask _ _ _ (λ _, True) (λ s w, true_status w0 w x s)); [apply Hr|].
  intros s. apply guar_ret; [apply _|]. intros w [_ Hs]. by exists s.
Qed.

(** ** Age ([chainstate.go]) *)

(** A node that is waited for, and answers truly about the latest block and old ones. *)
Class SharedReader (reader : CodeReader W) : Prop := {
  reader_growing :: ReadsGrowing (o_height o) (o_code o) reader;
  reader_number : ∀ ctx, roams (BlockNumber reader ctx);
  reader_code : ∀ ctx a n, roams (CodeAt reader ctx a n)
}.

Lemma pastBlock_roams (reader : CodeReader W) ctx : SharedReader reader → roams (pastBlock reader window ctx).
Proof using HS.
  intros Hr. apply roams_bind; [apply roams_wrap, Hr|]. intros n. destruct (Z.ltb _ _); apply roams_ret.
Qed.

Lemma RPCStatus_roams (reader : CodeReader W) timeout ctx x :
  SharedReader reader → roams (RPCStatus reader window timeout ctx x).
Proof using HS.
  intros Hr. apply roams_bind; [apply roams_WithTimeout|]. intros c.
  apply roams_bind; [apply roams_wrap, Hr|]. intros code. case_bool_decide; [apply roams_ret|].
  apply roams_bind; [by apply pastBlock_roams|]. intros past.
  apply roams_bind; [apply roams_wrap, Hr|]. intros old. case_bool_decide; apply roams_ret.
Qed.

Lemma RPCFreshness_true (reader : CodeReader W) timeout :
  SharedReader reader → (0 ≤ window < 2 ^ 64)%Z → TrueStatus (RPCFreshness reader window timeout).
Proof using HS.
  intros Hr Hwin w0 ctx x. apply (guar_of_run _ _ _ _ (λ w w' s, true_status w w' x s)).
  - intros w1 w2 w3 s [_ ?]%moves_forward (h & ? & ->). exists h. split; [lia|done].
  - intros w Hw. pose proof (RPCStatus_roams reader timeout ctx x Hr w Hw) as Hmove.
    pose proof (RPCStatus_growing (o_height o) (o_code o) reader window timeout Hwin shared_permanent ctx x w
      (sinv_height _ Hw)) as Hs. cbn [StatusOf RPCFreshness].
    destruct (RPCStatus reader window timeout ctx x w) as [[s|e|] w1]; done.
Qed.

(** The cache keeps the promise of the reader it wraps. *)
Lemma CachedStatus_true next : TrueStatus next → TrueStatus (mkStatusReader (CachedStatus next maxKnown)).
Proof using HS.
  intros Hnext w0 ctx x w Hw H0 _. cbn [StatusOf]. unfold CachedStatus, mbind, M_bind, get, put.
  case_bool_decide as Hin.
  { split; [done|]. pose proof (true_status_now w0 w x H0) as Ht. by rewrite (sinv_known _ Hw x Hin) in Ht. }
  pose proof (Hnext w0 ctx x w Hw H0 Logic.I) as Hn. destruct (StatusOf next ctx x w) as [[s|e|] w1]; [|done..].
  destruct Hn as [Hmove Hs]. case_bool_decide as Hest; [done|].
  assert (s = Established) as -> by by destruct (decide (s = Established)).
  assert (age (o_height o w1) x = Established) as Hage.
  { destruct Hs as (h & Hh & He). eapply established_stable; [apply shared_permanent| |by symmetry]. lia. }
  assert (moves w1 (update (known_store maxKnown x (view w1)) w1)) as Hstore by by apply rtc_once, other_known.
  split; [by etrans|]. unfold true_status. by rewrite shared_height_known.
Qed.

(** ** Balances *)

Class SharedBalances (client : BalanceClient W) : Prop := {
  balances_eth : ∀ ctx holder w, shared_inv w → match BalanceAt client ctx holder None w with
    | (Ok z, w') => moves w w' ∧ ∃ h, (o_height o w ≤ h ≤ o_height o w')%Z ∧ z = o_eth o h holder
    | (Err _, w') => moves w w'
    | (Panic, _) => False
    end;
  balances_token : ∀ ctx asset holder w, shared_inv w →
    match CallContract client ctx (mkCallMsg asset (balanceOf_calldata holder)) None w with
    | (Ok out, w') => moves w w' ∧ ∃ h, (o_height o w ≤ h ≤ o_height o w')%Z ∧ o_token o h asset holder = Some out
    | (Err e, w') => moves w w' ∧
        (is_Some (as_rpc_error e) → ∃ h, (o_height o w ≤ h ≤ o_height o w')%Z ∧ o_token o h asset holder = None)
    | (Panic, _) => False
    end
}.

Lemma RPCBalances_true (client : BalanceClient W) timeout : SharedBalances client → TrueBalance (RPCBalances client timeout).
Proof using HS.
  intros Hc w0 ctx asset holder. apply (guar_of_run _ _ _ _ (λ w w' b, true_balance w w' asset holder b)).
  { intros w1 w2 w3 b [_ ?]%moves_forward (h & ? & ->). exists h. split; [lia|done]. }
  intros w Hw. cbn [Balance RPCBalances]. destruct (decide (asset = zero_address)) as [->|Hasset].
  - unfold RPCBalance, WithTimeout, time_Now, mbind, M_bind, wrap_err. simpl.
    pose proof (balances_eth (WithDeadline ctx (clock w + timeout)) holder w Hw) as Hb.
    destruct (BalanceAt client _ holder None w) as [[z|e|] w1]; [|done..].
    destruct Hb as [Hmove (h & Hh & ->)]. split; [done|]. exists h. split; [done|]. done.
  - rewrite RPCBalance_run by done.
    pose proof (balances_token (WithDeadline ctx (clock w + timeout)) asset holder w Hw) as Hb.
    assert (∀ h, balance_at o h asset holder = out ← o_token o h asset holder; if bool_decide (length out = 32) then Some (be_Z out) else None)
      as Hbal by (intros h; unfold balance_at; by rewrite bool_decide_eq_false_2).
    destruct (CallContract client _ _ None w) as [[out|e|] w1]; [| |done].
    + destruct Hb as [Hmove (h & Hh & Hout)]. split; [done|]. exists h. by rewrite Hbal, Hout.
    + destruct Hb as [Hmove He]. case_bool_decide as Hrpc; [|done]. split; [done|].
      destruct (He Hrpc) as (h & Hh & Hnone). exists h. by rewrite Hbal, Hnone.
Qed.

(** ** Sanctions ([oracle.go], [cache.go]) *)

(** A node through which the oracle contract is asked: an answer that is a bool is what the
    contract said at a moment of the call. *)
Class SharedCaller (caller : ContractCaller W) (oracle : Address) : Prop :=
  shared_caller : ∀ ctx x w, shared_inv w →
    match oracle_CallContract caller ctx (mkCallMsg oracle (isSanctionedCalldata x)) None w with
    | (Ok out, w') => moves w w' ∧
        ∃ t, (clock w ≤ t ≤ clock w')%Z ∧ ∀ b, out = bool_word b → b = o_listed o t x
    | (Err _, w') => moves w w'
    | (Panic, _) => False
    end.

Lemma OracleChecker_true (caller : ContractCaller W) oracle timeout :
  SharedCaller caller oracle → TrueChecker 0 (OracleChecker caller oracle timeout).
Proof using HS.
  intros Hc w0 ctx x. apply (guar_of_run _ _ _ _ (λ w w' b, true_listed 0 w w' x b)).
  { intros w1 w2 w3 b [? _]%moves_forward Hb. eapply was_true_mono; [exact Hb|lia|]. intros t Ht. simpl in *. lia. }
  intros w Hw. cbn [IsSanctioned OracleChecker]. unfold Oracle_IsSanctioned, WithTimeout, time_Now, mbind, M_bind, wrap_err. simpl.
  pose proof (shared_caller (WithDeadline ctx (clock w + timeout)) x w Hw) as Ho.
  destruct (oracle_CallContract caller _ _ None w) as [[out|e|] w1]; [|done..].
  destruct Ho as [Hmove (t & Ht & Hout)]. destruct (decodeBool_no_panic out) as [r Hr]. rewrite Hr. simpl.
  destruct r as [e|b]; simpl; [done|]. split; [done|]. apply decodeBool_inr in Hr.
  exists t. split_and!; [lia|lia|]. symmetry. by apply Hout.
Qed.

(** A clock that is read during the lookup. *)
Definition timely (now : M W Z) : Prop := ∀ w0, asks w0 now (λ t w, (clock w0 ≤ t ≤ clock w)%Z).

Lemma CachedChecker_true next now :
  TrueChecker 0 next → timely now → TrueChecker ttl (CachedChecker next ttl maxEntries now).
Proof using HS.
  intros Hnext Hnow w0 ctx x w Hw H0 _. cbn [IsSanctioned CachedChecker].
  unfold CachedIsSanctioned, mbind, M_bind, get, put.
  pose proof (Hnow w0 w Hw H0 Logic.I) as Hn. destruct (now w) as [[t|e|] w1]; [|done..].
  destruct Hn as [Hmove1 Ht]. assert (shared_inv w1) as Hw1 by (by apply (shared_inv_stable w)).
  destruct (cache_read t x (view w1)) as [b|] eqn:Hread.
  { split; [done|]. apply cache_read_Some in Hread as (e & He & Hvalid & <-).
    eapply was_true_mono; [by apply (sinv_entries _ Hw1 x e)|done|]. unfold valid_at in Hvalid. simpl. intros t' Ht'. lia. }
  pose proof (Hnext w1 ctx x w1 Hw1 (reflexivity w1) Logic.I) as Ha.
  destruct (IsSanctioned next ctx x w1) as [[b|e|] w2]; [|by etrans|done].
  destruct Ha as [Hmove2 (t' & Ht' & Hle & Hb)]. subst b.
  assert (moves w2 (update (cache_store maxEntries ttl t x (o_listed o t' x) (view w2)) w2)) as Hstore.
  { apply rtc_once, other_entry. lia. }
  split; [etrans; [exact Hmove1|by etrans]|].
  exists t'. rewrite timeless. split_and!; [lia|lia|done].
Qed.

(** A list before another checker. *)
Definition true_sanction (oracle : bool) (set : gset Address) (w0 w : W) (x : Address) (b : bool) : Prop :=
  if oracle then ∃ h, true_listed ttl w0 w x h ∧ b = bool_decide (x ∈ set) || h else b = bool_decide (x ∈ set).

#[global] Instance true_sanction_stable oracle set w0 x b : Stable shared_inv moves (λ w, true_sanction oracle set w0 w x b).
Proof using HS. unfold true_sanction. destruct oracle; apply _. Qed.

Lemma true_sanction_now oracle set w0 w x : moves w0 w → ∃ b, true_sanction oracle set w0 w x b.
Proof using HS. intros Hr. destruct oracle; [|by eexists]. eexists _, _. split; [by apply true_listed_now|done]. Qed.

Lemma AnyChecker_true set (c : option (Checker W)) w0 ctx x :
  (∀ c', c = Some c' → TrueChecker ttl c') →
  asks w0 (IsSanctioned (AnyChecker (ListChecker set :: option_list c)) ctx x)
    (λ b w, true_sanction (bool_decide (is_Some c)) set w0 w x b).
Proof using HS.
  intros Hc w Hw H0 _. cbn [IsSanctioned AnyChecker AnyChecker_IsSanctioned ListChecker].
  unfold mbind at 1, M_bind at 1, mret at 1, M_ret at 1. unfold true_sanction.
  destruct c as [c|]; cbn [option_list AnyChecker_IsSanctioned].
  - rewrite (bool_decide_eq_true_2 (is_Some _)) by done. case_bool_decide as Hx.
    + split; [done|]. exists (o_listed o (clock w) x). split; [by apply true_listed_now|done].
    + pose proof (Hc c eq_refl w0 ctx x w Hw H0 Logic.I) as Ha.
      change (AnyChecker_IsSanctioned (option_list (Some c)) ctx x) with
        (hit ← IsSanctioned c ctx x; if (hit : bool) then mret true else mret false). unfold mbind, M_bind.
      destruct (IsSanctioned c ctx x w) as [[b|e|] w1]; [|done..]. destruct Ha as [Hmove Ha].
      destruct b; (split; [done|]); [by exists true|by exists false].
  - rewrite (bool_decide_eq_false_2 (is_Some _)) by (by intros [? ?]).
    case_bool_decide; (split; [|done]); reflexivity.
Qed.

End shared.
