(* ===== verification/Rules.v ===== *)
(** * Package rules: the screening rules

    [internal/rules]: the eight rules, each a function of the analysis that may ask a
    checker or a reader, with its exact meaning. Every rule returns its findings; a lookup that
    fails makes the rule fail. *)

From Stdlib Require Import ZArith Lia.
From S2P Require Import Prelude GoLib Deadline Geth Events TxDecode Simulate Flows FlashLoans Analysis.
From S2P Require Import ChainState Sanctions.

(** ** Findings and rules ([rules.go]) *)

Definition WeightHigh : Z := 40.
Definition WeightMedium : Z := 20.

Record Finding := mkFinding {
  fd_Rule : string;
  fd_HardBlock : bool;
  fd_Weight : Z;
  fd_Reason : string
}.

#[global] Instance Finding_eq_dec : EqDecision Finding.
Proof. solve_decision. Defined.

Section rule_type.
Context `{G : Geth}.

(** [type Rule interface] *)
Record Rule (W : Type) := mkRule {
  Name : string;
  Evaluate : Ctx → Analysis → M W (list Finding)
}.

End rule_type.
Arguments mkRule {G W} _ _.
Arguments Name {G W} _.
Arguments Evaluate {G W} _ _ _.

(** The end of every weighted rule: nothing found is no finding, otherwise one finding. *)
Definition report (name : string) (weight : Z) (prefix : string) (parts : list string) : list Finding :=
  if bool_decide (length parts = 0) then []
  else [mkFinding name false weight (prefix +:+ Join parts ", ")].

Section rules.
Context `{G : Geth} {W : Type}.

(** ** Sanctioned ([sanctioned.go]) *)

Definition sanctioned_finding (addr : Address) : Finding :=
  mkFinding "sanctioned-address" true 0 ("sanctioned address " +:+ Address_Hex addr).

Definition sanctioned_step (checker : Checker W) (ctx : Ctx) (findings : list Finding) (addr : Address) : M W (list Finding) :=
  hit ← wrap_err "check %s: %w" [Address_Hex addr] (IsSanctioned checker ctx addr);
  mret (if (hit : bool) then findings ++ [sanctioned_finding addr] else findings).

Definition Sanctioned_Evaluate (checker : Checker W) (ctx : Ctx) (a : Analysis) : M W (list Finding) :=
  foldM (sanctioned_step checker ctx) (a_Addresses a) [].

Definition Sanctioned (checker : Checker W) : Rule W :=
  mkRule "sanctioned-address" (Sanctioned_Evaluate checker).

(** ** PrivilegeChange ([privilege.go]) *)

Definition describePrivilegeChange (pc : PrivilegeChange) : string :=
  let contract := Address_Hex (pc_Contract pc) in
  if bool_decide (pc_Kind pc = OwnershipTransferred) then
    "ownership of " +:+ contract +:+ " transferred to " +:+ Address_Hex (pc_Subject pc)
  else if bool_decide (pc_Kind pc = Upgraded) then
    contract +:+ " upgraded to implementation " +:+ Address_Hex (pc_Subject pc)
  else if bool_decide (pc_Kind pc = AdminChanged) then
    "admin of " +:+ contract +:+ " changed to " +:+ Address_Hex (pc_Subject pc)
  else if bool_decide (pc_Kind pc = RoleGranted) then
    "role " +:+ Hash_Hex (pc_Role pc) +:+ " on " +:+ contract +:+ " granted to " +:+ Address_Hex (pc_Subject pc)
  else pc_Kind pc +:+ " on " +:+ contract.

Definition PrivilegeChange_Evaluate (ctx : Ctx) (a : Analysis) : M W (list Finding) :=
  let changes := foldl (λ changes pc,
    if CreatedInTx a (pc_Contract pc) then changes else changes ++ [describePrivilegeChange pc])
    [] (a_Privileged a) in
  mret (report "privilege-change" WeightHigh "privilege change: " changes).

Definition PrivilegeChangeRule : Rule W := mkRule "privilege-change" PrivilegeChange_Evaluate.

(** ** DeployAndCall ([deploycall.go]) *)

(** The local variables of the loop. *)
Record deploy_state := mkDeployState {
  deployedAt : gmap Address nat;
  reported : gset Address;
  called : list Address
}.

Definition deploy_step (a : Analysis) (s : deploy_state) (x : nat * Frame) : option deploy_state :=
  let '(i, f) := x in
  if IsCreate f then
    match deployedAt s !! f_To f with
    | Some _ => Some s
    | None =>
        e ← SubtreeEnd a i;
        Some (mkDeployState (<[f_To f := e]> (deployedAt s)) (reported s) (called s))
    end
  else
    match deployedAt s !! f_To f with
    | Some e =>
        if IsCall f && bool_decide (e ≤ i) && negb (bool_decide (f_To f ∈ reported s))
        then Some (mkDeployState (deployedAt s) ({[f_To f]} ∪ reported s) (called s ++ [f_To f]))
        else Some s
    | None => Some s
    end.

Definition DeployAndCall_Evaluate (ctx : Ctx) (a : Analysis) : M W (list Finding) :=
  s ← lift (foldO (deploy_step a) (imap pair (a_Frames a)) (mkDeployState ∅ ∅ []));
  mret (report "deploy-and-call" WeightMedium "contract deployed and called in the same transaction: "
          (Address_Hex <$> called s)).

Definition DeployAndCall : Rule W := mkRule "deploy-and-call" DeployAndCall_Evaluate.

(** ** DelegatecallToFresh and [isFresh] ([delegatecall.go], [approval.go]) *)

Definition isFresh (ctx : Ctx) (fresh : FreshnessChecker W) (a : Analysis) (addr : Address) : M W bool :=
  if CreatedInTx a addr then mret true else
  wrap_err "freshness of %s: %w" [Address_Hex addr] (IsFreshContract fresh ctx addr).

Definition is_delegate (f : Frame) : bool :=
  bool_decide (f_Type f = "DELEGATECALL") || bool_decide (f_Type f = "CALLCODE").

Definition delegate_step (fresh : FreshnessChecker W) (ctx : Ctx) (a : Analysis)
    (s : gset Address * list string) (f : Frame) : M W (gset Address * list string) :=
  let '(checked, targets) := s in
  if negb (is_delegate f) || bool_decide (f_To f ∈ checked) then mret (checked, targets) else
  b ← isFresh ctx fresh a (f_To f);
  mret ({[f_To f]} ∪ checked, if (b : bool) then targets ++ [Address_Hex (f_To f)] else targets).

Definition DelegatecallToFresh_Evaluate (fresh : FreshnessChecker W) (ctx : Ctx) (a : Analysis) : M W (list Finding) :=
  s ← foldM (delegate_step fresh ctx a) (a_Frames a) (∅, []);
  mret (report "delegatecall-to-fresh-code" WeightMedium "delegatecall into recently deployed code: " s.2).

Definition DelegatecallToFresh (fresh : FreshnessChecker W) : Rule W :=
  mkRule "delegatecall-to-fresh-code" (DelegatecallToFresh_Evaluate fresh).

(** ** UnlimitedApproval ([approval.go]) *)

Definition UnlimitedAmount : Z := Z.shiftl 1 128.

(** [checked] remembers the answer about each spender. *)
Definition approval_step (fresh : FreshnessChecker W) (ctx : Ctx) (a : Analysis)
    (s : gmap Address bool * list string) (ap : Approval) : M W (gmap Address bool * list string) :=
  let '(checked, approvals) := s in
  if Z.ltb (ap_Amount ap) UnlimitedAmount then mret (checked, approvals) else
  x ← match checked !! ap_Spender ap with
      | Some b => mret (checked, b)
      | None => b ← isFresh ctx fresh a (ap_Spender ap); mret (<[ap_Spender ap := b]> checked, b)
      end;
  mret (x.1, if (x.2 : bool)
             then approvals ++ ["token " +:+ Address_Hex (ap_Token ap) +:+ " to " +:+ Address_Hex (ap_Spender ap)]
             else approvals).

Definition UnlimitedApproval_Evaluate (fresh : FreshnessChecker W) (ctx : Ctx) (a : Analysis) : M W (list Finding) :=
  s ← foldM (approval_step fresh ctx a) (a_Approvals a) (∅, []);
  mret (report "unlimited-approval-to-fresh-contract" WeightMedium
          "unlimited approval to recently deployed contract: " s.2).

Definition UnlimitedApproval (fresh : FreshnessChecker W) : Rule W :=
  mkRule "unlimited-approval-to-fresh-contract" (UnlimitedApproval_Evaluate fresh).

(** ** NFTDrainer ([nftdrainer.go]) *)

Definition operatorKind (status : StatusReader W) (ctx : Ctx) (a : Analysis) (operator : Address) : M W string :=
  if CreatedInTx a operator then mret "recently deployed contract" else
  s ← wrap_err "status of %s: %w" [Address_Hex operator] (StatusOf status ctx operator);
  mret match s with
       | NoCode => "EOA"
       | Fresh => "recently deployed contract"
       | Established => ""
       end.

Definition grant_step (status : StatusReader W) (ctx : Ctx) (a : Analysis)
    (s : gmap Address string * list string) (ap : ApprovalForAll) : M W (gmap Address string * list string) :=
  let '(kind, grants) := s in
  if negb (afa_Approved ap) then mret (kind, grants) else
  x ← match kind !! afa_Operator ap with
      | Some k => mret (kind, k)
      | None => k ← operatorKind status ctx a (afa_Operator ap); mret (<[afa_Operator ap := k]> kind, k)
      end;
  mret (x.1, if bool_decide (x.2 ≠ "")
             then grants ++ ["collection " +:+ Address_Hex (afa_Collection ap) +:+ " to " +:+ x.2 +:+ " " +:+
                             Address_Hex (afa_Operator ap)]
             else grants).

Definition NFTDrainer_Evaluate (status : StatusReader W) (ctx : Ctx) (a : Analysis) : M W (list Finding) :=
  s ← foldM (grant_step status ctx a) (a_ApprovalsForAll a) (∅, []);
  mret (report "nft-drainer" WeightMedium "approval for all NFTs: " s.2).

Definition NFTDrainer (status : StatusReader W) : Rule W :=
  mkRule "nft-drainer" (NFTDrainer_Evaluate status).

(** ** Outflows ([outflow.go]) *)

Record Outflow := mkOutflow { of_Asset : Address; of_Holder : Address; of_Net : Z; of_Balance : Z }.

(** [big.Int.Div]: Euclidean division, a panic when the divisor is zero. *)
Definition big_Div (x y : Z) : option Z :=
  if Z.eqb y 0 then None else Some (Z.sgn y * (x / Z.abs y))%Z.

Definition Outflow_String (o : Outflow) : option string :=
  let asset := if bool_decide (of_Asset o = ETH) then "ETH" else "token " +:+ Address_Hex (of_Asset o) in
  pct ← big_Div (of_Net o * 100) (of_Balance o);
  Some (pretty pct +:+ "% of " +:+ asset +:+ " held by " +:+ Address_Hex (of_Holder o) +:+
        " (" +:+ pretty (of_Net o) +:+ " of " +:+ pretty (of_Balance o) +:+ ")").

Record OutflowDetector := mkOutflowDetector {
  od_status : StatusReader W;
  od_balances : BalanceReader W;
  od_percent : Z
}.

Definition NewOutflowDetector (status : StatusReader W) (balances : BalanceReader W) (percent : Z)
    : error + OutflowDetector :=
  if Z.ltb percent 1 || Z.ltb 100 percent
  then inl (Errorf "large outflow percentage must be between 1 and 100" [])
  else inr (mkOutflowDetector status balances percent).

Definition find_step (d : OutflowDetector) (ctx : Ctx) (a : Analysis) (found : list Outflow) (f : Flow) : M W (list Outflow) :=
  let net := NetOut f in
  if Z.leb net 0 || bool_decide (fl_Holder f = zero_address) || CreatedInTx a (fl_Holder f)
  then mret found else
  s ← wrap_err "status of %s: %w" [Address_Hex (fl_Holder f)] (StatusOf (od_status d) ctx (fl_Holder f));
  if bool_decide (s = NoCode) then mret found else
  r ← Balance (od_balances d) ctx (fl_Asset f) (fl_Holder f);
  match r with
  | None => mret found
  | Some bal =>
      if Z.eqb bal 0 then mret found
      else if Z.ltb (bal * od_percent d) (net * 100)
      then mret (found ++ [mkOutflow (fl_Asset f) (fl_Holder f) net bal])
      else mret found
  end.

Definition Find (d : OutflowDetector) (ctx : Ctx) (a : Analysis) : M W (list Outflow) :=
  foldM (find_step d ctx a) (a_Flows a) [].

Definition LargeOutflow_Evaluate (d : OutflowDetector) (ctx : Ctx) (a : Analysis) : M W (list Finding) :=
  outflows ← Find d ctx a;
  parts ← lift (mapM Outflow_String outflows);
  mret (report "large-outflow" WeightHigh "large outflow: " parts).

Definition LargeOutflow (d : OutflowDetector) : Rule W :=
  mkRule "large-outflow" (LargeOutflow_Evaluate d).

(** ** FlashLoanOutflow ([flashloan.go]) *)

Definition lenders_of (loans : list FlashLoan) : gset Address :=
  foldl (λ lenders l, {[ln_Lender l]} ∪ lenders) ∅ loans.

Definition describe_loan (l : FlashLoan) : string :=
  Address_Hex (ln_Lender l) +:+ " (" +:+ ln_Source l +:+ ")".

Definition drained_step (lenders : gset Address) (drained : list string) (o : Outflow) : option (list string) :=
  if bool_decide (of_Holder o ∈ lenders) then Some drained else
  s ← Outflow_String o; Some (drained ++ [s]).

Definition FlashLoanOutflow_Evaluate (d : OutflowDetector) (ctx : Ctx) (a : Analysis) : M W (list Finding) :=
  if bool_decide (length (a_FlashLoans a) = 0) then mret [] else
  outflows ← Find d ctx a;
  drained ← lift (foldO (drained_step (lenders_of (a_FlashLoans a))) outflows []);
  mret (report "flash-loan-outflow" WeightHigh
          ("flash loan from " +:+ Join (describe_loan <$> a_FlashLoans a) ", " +:+ " with large outflow: ") drained).

Definition FlashLoanOutflow (d : OutflowDetector) : Rule W :=
  mkRule "flash-loan-outflow" (FlashLoanOutflow_Evaluate d).

End rules.
