(* ===== verification/RulesSpec.v ===== *)
(** * What each rule reports, exactly

    For every rule of [Rules], its findings as a function of the analysis and of what the
    checker answers ([S]), the status of accounts ([st]) and balances ([bal]), without loops,
    memo tables or effects, and the theorem that the translated rule computes it. *)

From Stdlib Require Import ZArith Lia.
From S2P Require Import Prelude GoLib Deadline Geth Events TxDecode Simulate Flows FlashLoans Analysis.
From S2P Require Import ChainState Sanctions Rules.

(** ** Reference definitions *)
Section reference.
Context `{G : Geth}.

Definition sanctioned_findings (S : Address → bool) (a : Analysis) : list Finding :=
  sanctioned_finding <$> filter (λ x, S x = true) (a_Addresses a).

(** Changes made to contracts that existed before the transaction. *)
Definition privilege_findings (a : Analysis) : list Finding :=
  report "privilege-change" WeightHigh "privilege change: "
    (describePrivilegeChange <$> filter (λ pc, pc_Contract pc ∉ a_Created a) (a_Privileged a)).

(** New code: created by the transaction or younger than the freshness window. *)
Definition new_code (st : Address → Status) (a : Analysis) (x : Address) : Prop :=
  x ∈ a_Created a ∨ st x = Fresh.

#[global] Instance new_code_dec st a x : Decision (new_code st a x).
Proof. unfold new_code. apply _. Defined.

Definition delegate_targets (a : Analysis) : list Address :=
  foldl add_new [] (f_To <$> filter (λ f, is_delegate f = true) (a_Frames a)).

Definition delegate_findings (st : Address → Status) (a : Analysis) : list Finding :=
  report "delegatecall-to-fresh-code" WeightMedium "delegatecall into recently deployed code: "
    (Address_Hex <$> filter (new_code st a) (delegate_targets a)).

Definition describe_approval (ap : Approval) : string :=
  "token " +:+ Address_Hex (ap_Token ap) +:+ " to " +:+ Address_Hex (ap_Spender ap).

Definition approval_findings (st : Address → Status) (a : Analysis) : list Finding :=
  report "unlimited-approval-to-fresh-contract" WeightMedium "unlimited approval to recently deployed contract: "
    (describe_approval <$>
       filter (λ ap, (2 ^ 128 ≤ ap_Amount ap)%Z ∧ new_code st a (ap_Spender ap)) (a_Approvals a)).

Definition kind_of (st : Address → Status) (a : Analysis) (x : Address) : string :=
  if bool_decide (x ∈ a_Created a) then "recently deployed contract" else
  match st x with NoCode => "EOA" | Fresh => "recently deployed contract" | Established => "" end.

Definition describe_grant (st : Address → Status) (a : Analysis) (ap : ApprovalForAll) : string :=
  "collection " +:+ Address_Hex (afa_Collection ap) +:+ " to " +:+ kind_of st a (afa_Operator ap) +:+ " " +:+
  Address_Hex (afa_Operator ap).

(** Grants to an account without code or to new code. *)
Definition grant_findings (st : Address → Status) (a : Analysis) : list Finding :=
  report "nft-drainer" WeightMedium "approval for all NFTs: "
    (describe_grant st a <$>
       filter (λ ap, afa_Approved ap = true ∧
                     (afa_Operator ap ∈ a_Created a ∨ st (afa_Operator ap) ≠ Established))
         (a_ApprovalsForAll a)).

(** The holder had code before the transaction, its balance is known and not zero, and it lost
    more than the given percentage of it. *)
Definition outflow_of (st : Address → Status) (bal : Address → Address → option Z) (percent : Z)
    (a : Analysis) (f : Flow) : option Outflow :=
  b ← bal (fl_Asset f) (fl_Holder f);
  if bool_decide ((0 < NetOut f)%Z ∧ fl_Holder f ≠ zero_address ∧ (fl_Holder f ∉ a_Created a) ∧
                  st (fl_Holder f) ≠ NoCode ∧ b ≠ 0%Z ∧ (b * percent < NetOut f * 100)%Z)
  then Some (mkOutflow (fl_Asset f) (fl_Holder f) (NetOut f) b) else None.

Definition outflows_of st bal percent (a : Analysis) : list Outflow :=
  omap (outflow_of st bal percent a) (a_Flows a).

Definition outflow_text (o : Outflow) : string := default "" (Outflow_String o).

Definition large_findings st bal percent (a : Analysis) : list Finding :=
  report "large-outflow" WeightHigh "large outflow: " (outflow_text <$> outflows_of st bal percent a).

Definition flash_findings st bal percent (a : Analysis) : list Finding :=
  if bool_decide (a_FlashLoans a = []) then [] else
  report "flash-loan-outflow" WeightHigh
    ("flash loan from " +:+ Join (describe_loan <$> a_FlashLoans a) ", " +:+ " with large outflow: ")
    (outflow_text <$> filter (λ o, of_Holder o ∉ (ln_Lender <$> a_FlashLoans a)) (outflows_of st bal percent a)).

(** Outflows always have a balance to divide by. *)
Lemma Outflow_String_text o : of_Balance o ≠ 0%Z → Outflow_String o = Some (outflow_text o).
Proof.
  intros Hb. unfold outflow_text, Outflow_String, big_Div.
  destruct (Z.eqb_spec (of_Balance o) 0); [done|]. done.
Qed.

Lemma outflow_of_Some st bal percent a f o :
  outflow_of st bal percent a f = Some o →
  of_Asset o = fl_Asset f ∧ of_Holder o = fl_Holder f ∧ of_Net o = NetOut f ∧ (0 < NetOut f)%Z ∧
  bal (fl_Asset f) (fl_Holder f) = Some (of_Balance o) ∧ of_Balance o ≠ 0%Z ∧
  (of_Balance o * percent < of_Net o * 100)%Z.
Proof.
  unfold outflow_of. destruct (bal _ _) as [b|]; [|done]. simpl.
  case_bool_decide as H; [|done]. intros [= <-]. simpl. tauto.
Qed.

Lemma outflows_divisible st bal percent a : Forall (λ o, of_Balance o ≠ 0%Z) (outflows_of st bal percent a).
Proof.
  apply Forall_forall. intros o (f & _ & Ho)%list_elem_of_omap. apply outflow_of_Some in Ho. tauto.
Qed.

Lemma elem_of_lenders_of loans x : x ∈ lenders_of loans ↔ x ∈ (ln_Lender <$> loans).
Proof.
  unfold lenders_of.
  assert (∀ acc : gset Address,
    x ∈ foldl (λ lenders l, {[ln_Lender l]} ∪ lenders) acc loans ↔ x ∈ acc ∨ x ∈ (ln_Lender <$> loans)) as Hgen.
  { induction loans as [|l loans IH]; intros acc; simpl; [rewrite elem_of_nil; tauto|].
    rewrite IH, elem_of_union, elem_of_singleton, elem_of_cons. tauto. }
  rewrite Hgen, elem_of_empty. tauto.
Qed.

End reference.

(** ** The rules compute their reference definitions *)
Section rule_specs.
Context `{G : Geth} {W : Type} (I : W → Prop) (E : error → Prop) `{!WrapClosed E} (ctx : Ctx).

Lemma PrivilegeChange_run a (w : W) : PrivilegeChange_Evaluate ctx a w = (Ok (privilege_findings a), w).
Proof.
  unfold PrivilegeChange_Evaluate, privilege_findings, mret, M_ret. do 3 f_equal.
  etrans; [apply (foldl_appends _ id (λ pc, if bool_decide (pc_Contract pc ∉ a_Created a)
                                            then [describePrivilegeChange pc] else []))|].
  2: { simpl. apply (bind_filter (λ pc, pc_Contract pc ∉ a_Created a)). }
  - intros b pc. unfold CreatedInTx, id. repeat case_bool_decide; [done|by rewrite app_nil_r|done|done].
Qed.

Lemma Sanctioned_triple (checker : Checker W) S {HS : CheckerSpec I E checker S} a :
  triple I (Sanctioned_Evaluate checker ctx a) (λ r, r = sanctioned_findings S a) E.
Proof using All.
  eapply triple_post.
  { apply (triple_foldM_appends I E _ id
      (λ x, if bool_decide (S x = true) then [sanctioned_finding x] else []) (λ _, True)); [done|].
    intros x b _ _. eapply triple_bind; [apply triple_wrap; [done|]; apply HS|].
    intros hit ->. apply triple_ret. unfold id.
    destruct (S x) eqn:Hx; rewrite ?bool_decide_eq_true_2, ?bool_decide_eq_false_2, ?app_nil_r by done; done. }
  intros r [Hr _]. unfold id in Hr. rewrite Hr. unfold sanctioned_findings. simpl. apply (bind_filter (λ x, S x = true)).
Qed.

Section fresh_rules.
Context (fresh : FreshnessChecker W) (st : Address → Status) {Hfresh : FreshSpec I E fresh st}.

Lemma isFresh_triple a x : triple I (isFresh ctx fresh a x) (λ b, b = bool_decide (new_code st a x)) E.
Proof using All.
  unfold isFresh, CreatedInTx, new_code. case_bool_decide as Hc.
  - apply triple_ret. symmetry. apply bool_decide_eq_true_2. by left.
  - apply triple_wrap; [done|]. eapply triple_post; [apply Hfresh|]. intros b ->.
    apply bool_decide_ext. tauto.
Qed.

Lemma delegate_loop a frames :
  triple I (foldM (delegate_step fresh ctx a) frames (∅, []))
    (λ r, let ts := foldl add_new [] (f_To <$> filter (λ f, is_delegate f = true) frames) in
          (∀ x, x ∈ r.1 ↔ x ∈ ts) ∧ r.2 = Address_Hex <$> filter (new_code st a) ts) E.
Proof using All.
  apply (triple_foldM I E (delegate_step fresh ctx a) frames (∅, []) (λ pre r,
    let ts := foldl add_new [] (f_To <$> filter (λ f, is_delegate f = true) pre) in
    (∀ x, x ∈ r.1 ↔ x ∈ ts) ∧ r.2 = Address_Hex <$> filter (new_code st a) ts)).
  { simpl. split; [|done]. intros x. by rewrite elem_of_empty, elem_of_nil. }
  intros pre f post [checked targets] _ [Hc Ht]. simpl in Hc, Ht. cbv zeta.
  rewrite filter_app, fmap_app, foldl_app, filter_cons, filter_nil.
  set (ts := foldl add_new [] _) in *. unfold delegate_step.
  destruct (is_delegate f) eqn:Hd; simpl.
  2: { by apply triple_ret. }
 unfold add_new. rewrite <-(bool_decide_ext _ _ (Hc (f_To f))).
  case_bool_decide as Hin; [by apply triple_ret; split|].
  eapply triple_bind; [apply isFresh_triple|]. intros b ->. apply triple_ret. simpl. split.
  - intros x. rewrite elem_of_union, elem_of_singleton, Hc, elem_of_app, list_elem_of_singleton. tauto.
  - rewrite filter_app, filter_cons, filter_nil, fmap_app, <-Ht.
    case_bool_decide; case_decide; simpl; rewrite ?app_nil_r; done.
Qed.

Lemma DelegatecallToFresh_triple a :
  triple I (DelegatecallToFresh_Evaluate fresh ctx a) (λ r, r = delegate_findings st a) E.
Proof using All.
  eapply triple_bind; [apply delegate_loop|]. intros [checked targets] [_ Ht]. simpl in Ht.
  apply triple_ret. simpl. rewrite Ht. done.
Qed.

Lemma UnlimitedApproval_triple a :
  triple I (UnlimitedApproval_Evaluate fresh ctx a) (λ r, r = approval_findings st a) E.
Proof using All.
  eapply triple_bind.
  { apply (triple_foldM_appends I E (approval_step fresh ctx a) snd
      (λ ap, if bool_decide ((2 ^ 128 ≤ ap_Amount ap)%Z ∧ new_code st a (ap_Spender ap))
             then [describe_approval ap] else [])
      (λ s, ∀ x b, s.1 !! x = Some b → b = bool_decide (new_code st a x))).
    { intros x b. simpl. by rewrite lookup_empty. }
    intros ap [checked approvals] _ Hm. simpl in Hm. unfold approval_step.
    change UnlimitedAmount with (2 ^ 128)%Z.
    destruct (Z.ltb_spec (ap_Amount ap) (2 ^ 128)) as [Hlt|Hge].
    { apply triple_ret. rewrite (bool_decide_eq_false_2 (_ ∧ _)) by lia. simpl. by rewrite app_nil_r. }
    apply (triple_bind I E _ _ (λ x : gmap Address bool * bool,
      x.2 = bool_decide (new_code st a (ap_Spender ap)) ∧
      ∀ y b, x.1 !! y = Some b → b = bool_decide (new_code st a y))).
    - destruct (checked !! ap_Spender ap) as [b|] eqn:Hl; [by apply triple_ret; split; [apply Hm|]|].
      eapply triple_bind; [apply isFresh_triple|]. intros b ->. apply triple_ret. split; [done|].
      intros y b. simpl. rewrite lookup_insert_Some. intros [[<- <-]|[_ Hy]]; [done|by apply Hm].
    - intros [m b] [-> Hm']. apply triple_ret. simpl in *. split; [|done].
      rewrite (bool_decide_ext (_ ∧ new_code st a (ap_Spender ap)) (new_code st a (ap_Spender ap))) by tauto.
      by case_bool_decide; rewrite ?app_nil_r. }
  intros [checked approvals] [Hr _]. simpl in Hr. apply triple_ret. simpl. rewrite Hr.
  unfold approval_findings. do 2 f_equal.
  apply (bind_filter (λ ap, (2 ^ 128 ≤ ap_Amount ap)%Z ∧ new_code st a (ap_Spender ap))).
Qed.

End fresh_rules.

Section status_rules.
Context (status : StatusReader W) (st : Address → Status) {Hstatus : StatusSpec I E status st}.

Lemma operatorKind_triple a x : triple I (operatorKind status ctx a x) (λ k, k = kind_of st a x) E.
Proof using All.
  unfold operatorKind, CreatedInTx, kind_of. case_bool_decide; [by apply triple_ret|].
  eapply triple_bind; [apply triple_wrap; [done|]; apply Hstatus|]. intros s ->. by apply triple_ret.
Qed.

Lemma kind_of_suspicious a x : kind_of st a x ≠ "" ↔ x ∈ a_Created a ∨ st x ≠ Established.
Proof. unfold kind_of. case_bool_decide; [by split; [left|]|]. destruct (st x); naive_solver. Qed.

Lemma NFTDrainer_triple a : triple I (NFTDrainer_Evaluate status ctx a) (λ r, r = grant_findings st a) E.
Proof using All.
  eapply triple_bind.
  { apply (triple_foldM_appends I E (grant_step status ctx a) snd
      (λ ap, if bool_decide (afa_Approved ap = true ∧
                             (afa_Operator ap ∈ a_Created a ∨ st (afa_Operator ap) ≠ Established))
             then [describe_grant st a ap] else [])
      (λ s, ∀ x k, s.1 !! x = Some k → k = kind_of st a x)).
    { intros x k. simpl. by rewrite lookup_empty. }
    intros ap [kind grants] _ Hm. simpl in Hm. unfold grant_step.
    destruct (afa_Approved ap); cbn [negb].
    2: { apply triple_ret. rewrite (bool_decide_eq_false_2 (_ ∧ _)) by naive_solver. simpl. by rewrite app_nil_r. }
    apply (triple_bind I E _ _ (λ x : gmap Address string * string,
      x.2 = kind_of st a (afa_Operator ap) ∧ ∀ y k, x.1 !! y = Some k → k = kind_of st a y)).
    - destruct (kind !! afa_Operator ap) as [k|] eqn:Hl; [by apply triple_ret; split; [apply Hm|]|].
      eapply triple_bind; [apply operatorKind_triple|]. intros k ->. apply triple_ret. split; [done|].
      intros y k. simpl. rewrite lookup_insert_Some. intros [[<- <-]|[_ Hy]]; [done|by apply Hm].
    - intros [m k] [-> Hm']. apply triple_ret. simpl in *. split; [|done].
      assert (true = true ∧ (afa_Operator ap ∈ a_Created a ∨ st (afa_Operator ap) ≠ Established) ↔
              kind_of st a (afa_Operator ap) ≠ "") as Hk by (rewrite kind_of_suspicious; naive_solver).
      rewrite (bool_decide_ext _ _ Hk).
      by case_bool_decide; rewrite ?app_nil_r. }
  intros [kind grants] [Hr _]. simpl in Hr. apply triple_ret. simpl. rewrite Hr.
  unfold grant_findings. do 2 f_equal.
  apply (bind_filter (λ ap, afa_Approved ap = true ∧
    (afa_Operator ap ∈ a_Created a ∨ st (afa_Operator ap) ≠ Established))).
Qed.

Context (balances : BalanceReader W) (bal : Address → Address → option Z) {Hbal : BalanceSpec I E balances bal}.
Context (percent : Z).
Let d := mkOutflowDetector status balances percent.

Lemma find_step_triple a found f :
  triple I (find_step d ctx a found f)
    (λ r, r = found ++ option_list (outflow_of st bal percent a f)) E.
Proof using All.
  unfold find_step. cbv zeta. unfold outflow_of.
  destruct (Z.leb (NetOut f) 0 || bool_decide (fl_Holder f = zero_address) || CreatedInTx a (fl_Holder f)) eqn:Hskip.
  { apply triple_ret. destruct (bal _ _) as [b|]; simpl; [|by rewrite app_nil_r].
    rewrite bool_decide_eq_false_2; [by rewrite app_nil_r|]. intros (H1 & H2 & H3 & _).
    unfold CreatedInTx in Hskip. rewrite !orb_true_iff, Z.leb_le, !bool_decide_eq_true in Hskip.
    destruct Hskip as [[?|?]|?]; [lia|done|done]. }
  split_bool. unfold CreatedInTx in *. split_bool.
  eapply triple_bind; [apply triple_wrap; [done|]; apply Hstatus|]. intros s ->.
  case_bool_decide as Hcode.
  { apply triple_ret. destruct (bal _ _); simpl; [|by rewrite app_nil_r].
    rewrite bool_decide_eq_false_2 by tauto. by rewrite app_nil_r. }
  eapply triple_bind; [apply Hbal|]. intros r ->.
  destruct (bal _ _) as [b|]; simpl; [|by apply triple_ret; rewrite app_nil_r].
  destruct (Z.eqb_spec b 0) as [?|Hb].
  { apply triple_ret. rewrite bool_decide_eq_false_2 by tauto. by rewrite app_nil_r. }
  destruct (Z.ltb_spec (b * percent) (NetOut f * 100)).
  - apply triple_ret. by rewrite bool_decide_eq_true_2 by tauto.
  - apply triple_ret. rewrite bool_decide_eq_false_2 by lia. by rewrite app_nil_r.
Qed.

Lemma Find_triple a : triple I (Find d ctx a) (λ r, r = outflows_of st bal percent a) E.
Proof using All.
  eapply triple_post.
  { apply (triple_foldM_appends I E (find_step d ctx a) id
      (λ f, option_list (outflow_of st bal percent a f)) (λ _, True)); [done|].
    intros f found _ _. eapply triple_post; [apply find_step_triple|]. by intros r ->. }
  intros r [Hr _]. unfold id in Hr. rewrite Hr. simpl. unfold outflows_of. apply bind_option_list.
Qed.

Lemma LargeOutflow_triple a : triple I (LargeOutflow_Evaluate d ctx a) (λ r, r = large_findings st bal percent a) E.
Proof using All.
  eapply triple_bind; [apply Find_triple|]. intros outflows ->.
  apply (triple_bind I E _ _ (λ parts, parts = outflow_text <$> outflows_of st bal percent a));
    [|by intros parts ->; apply triple_ret].
  apply (triple_lift I E _ (outflow_text <$> outflows_of st bal percent a)); [|done].
  apply mapM_Some. pose proof (outflows_divisible st bal percent a) as Hd.
  induction Hd as [|o os Ho _ IH]; constructor; [by apply Outflow_String_text|done].
Qed.

Lemma drained_step_text (loans : list FlashLoan) o acc :
  of_Balance o ≠ 0%Z →
  drained_step (lenders_of loans) acc o =
  Some (acc ++ (outflow_text <$> filter (λ o, of_Holder o ∉ (ln_Lender <$> loans)) [o])).
Proof.
  intros Ho. unfold drained_step. rewrite filter_cons, filter_nil, Outflow_String_text by done.
  case_bool_decide as Hin; rewrite elem_of_lenders_of in Hin; case_decide as Hnot; try done.
  by rewrite app_nil_r.
Qed.

Lemma drained_loop (loans : list FlashLoan) outflows acc :
  Forall (λ o, of_Balance o ≠ 0%Z) outflows →
  foldO (drained_step (lenders_of loans)) outflows acc =
  Some (acc ++ (outflow_text <$> filter (λ o, of_Holder o ∉ (ln_Lender <$> loans)) outflows)).
Proof.
  intros Hd. revert acc. induction Hd as [|o os Ho _ IH]; intros acc; [by rewrite app_nil_r|].
  cbn [foldO]. rewrite drained_step_text by done. cbn [mbind option_bind]. rewrite IH.
  by rewrite <-app_assoc, <-fmap_app, <-filter_app.
Qed.

Lemma FlashLoanOutflow_triple a :
  triple I (FlashLoanOutflow_Evaluate d ctx a) (λ r, r = flash_findings st bal percent a) E.
Proof using All.
  unfold FlashLoanOutflow_Evaluate, flash_findings.
  rewrite (bool_decide_ext (length (a_FlashLoans a) = 0) (a_FlashLoans a = [])) by apply length_zero_iff_nil.
  case_bool_decide; [by apply triple_ret|].
  eapply triple_bind; [apply Find_triple|]. intros outflows ->.
  rewrite drained_loop by apply outflows_divisible. by apply triple_ret.
Qed.

End status_rules.

End rule_specs.

(** ** Claims *)
Section rules_claims.
Context `{G : Geth} {W : Type} (I : W → Prop) (E : error → Prop) `{!WrapClosed E}.

(** The sanctions rule reports one hard block for each address of the analysis that the checker
    says is sanctioned, in order, and nothing else; a failed lookup fails the rule and is never
    read as a clean address. *)
Theorem Sanctioned_exact (checker : Checker W) (S : Address → bool) (ctx : Ctx) (a : Analysis)
    (Hchecker : CheckerSpec I E checker S) :
  triple I (Evaluate (Sanctioned checker) ctx a)
    (λ r, r = sanctioned_finding <$> filter (λ x, S x = true) (a_Addresses a)) E.
Proof. by apply Sanctioned_triple. Qed.

(** The privilege rule never fails and reports exactly the ownership, upgrade, admin and role
    changes of contracts that were not created by the transaction, as one high-weight finding. *)
Theorem PrivilegeChange_exact (ctx : Ctx) (a : Analysis) (w : W) :
  Evaluate PrivilegeChangeRule ctx a w =
  (Ok (report "privilege-change" WeightHigh "privilege change: "
         (describePrivilegeChange <$> filter (λ pc, pc_Contract pc ∉ a_Created a) (a_Privileged a))), w).
Proof. apply PrivilegeChange_run. Qed.

(** C22: The delegatecall rule reports exactly the distinct targets of DELEGATECALL and CALLCODE frames
    whose code was created by the transaction or is younger than the freshness window, as one
    medium-weight finding, although it asks about each target only once. *)
Theorem DelegatecallToFresh_exact (fresh : FreshnessChecker W) (st : Address → Status) (ctx : Ctx) (a : Analysis)
    (Hfresh : FreshSpec I E fresh st) :
  triple I (Evaluate (DelegatecallToFresh fresh) ctx a) (λ r, ∃ targets,
    r = report "delegatecall-to-fresh-code" WeightMedium "delegatecall into recently deployed code: "
          (Address_Hex <$> targets) ∧
    NoDup targets ∧
    ∀ x, x ∈ targets ↔ (x ∈ a_Created a ∨ st x = Fresh) ∧
      ∃ f, f ∈ a_Frames a ∧ (f_Type f = "DELEGATECALL" ∨ f_Type f = "CALLCODE") ∧ f_To f = x) E.
Proof.
  eapply triple_post; [by apply DelegatecallToFresh_triple|]. intros r ->.
  exists (filter (new_code st a) (delegate_targets a)). split_and!; [done| |].
  - apply NoDup_filter, NoDup_add_new, NoDup_nil_2.
  - intros x. unfold delegate_targets. rewrite list_elem_of_filter, elem_of_add_new, elem_of_nil, list_elem_of_fmap.
    setoid_rewrite list_elem_of_filter. unfold is_delegate. setoid_rewrite orb_true_iff.
    setoid_rewrite bool_decide_eq_true. unfold new_code. naive_solver.
Qed.

(** C23: The approval rule reports exactly the ERC-20 approvals of at least 2^128 whose spender was
    created by the transaction or is younger than the freshness window, as one medium-weight
    finding; its memo table of answers never changes what is reported. *)
Theorem UnlimitedApproval_exact (fresh : FreshnessChecker W) (st : Address → Status) (ctx : Ctx) (a : Analysis)
    (Hfresh : FreshSpec I E fresh st) :
  triple I (Evaluate (UnlimitedApproval fresh) ctx a) (λ r,
    r = report "unlimited-approval-to-fresh-contract" WeightMedium "unlimited approval to recently deployed contract: "
          (describe_approval <$> filter (λ ap, (2 ^ 128 ≤ ap_Amount ap)%Z ∧
             (ap_Spender ap ∈ a_Created a ∨ st (ap_Spender ap) = Fresh)) (a_Approvals a))) E.
Proof. by apply UnlimitedApproval_triple. Qed.

(** An approval of [type(uint128).max] is not treated as unlimited: when no approval exceeds
    2^128 - 1 the rule reports nothing, whatever the spenders, without asking the node. *)
Theorem uint128_max_not_unlimited (fresh : FreshnessChecker W) (ctx : Ctx) (a : Analysis) (w : W)
    (Hmax : Forall (λ ap, (ap_Amount ap ≤ 2 ^ 128 - 1)%Z) (a_Approvals a)) :
  Evaluate (UnlimitedApproval fresh) ctx a w = (Ok [], w).
Proof.
  cbn [UnlimitedApproval Evaluate]. unfold UnlimitedApproval_Evaluate.
  assert (foldM (approval_step fresh ctx a) (a_Approvals a) (∅, []) w = (Ok (∅, []), w)) as Hloop.
  { induction Hmax as [|ap aps Hap _ IH]; [done|]. cbn [foldM]. unfold mbind, M_bind, approval_step at 1.
    change UnlimitedAmount with (2 ^ 128)%Z. destruct (Z.ltb_spec (ap_Amount ap) (2 ^ 128)); [|lia].
    unfold mret, M_ret. apply IH. }
  unfold mbind at 1, M_bind at 1. by rewrite Hloop.
Qed.

(** C24: The NFT rule reports exactly the [ApprovalForAll] grants (revocations apart) to an operator
    that has no code, was created by the transaction or is younger than the freshness window,
    naming the kind of operator, as one medium-weight finding. *)
Theorem NFTDrainer_exact (status : StatusReader W) (st : Address → Status) (ctx : Ctx) (a : Analysis)
    (Hstatus : StatusSpec I E status st) :
  triple I (Evaluate (NFTDrainer status) ctx a) (λ r,
    r = report "nft-drainer" WeightMedium "approval for all NFTs: "
          (describe_grant st a <$> filter (λ ap, afa_Approved ap = true ∧
             (afa_Operator ap ∈ a_Created a ∨ st (afa_Operator ap) ≠ Established)) (a_ApprovalsForAll a))) E.
Proof. by apply NFTDrainer_triple. Qed.

(** C20: The outflow rule accepts a percentage exactly when it is between 1 and 100, and then reports
    exactly the flows whose holder is a contract that existed before the transaction, had a
    known non-zero balance of the asset, and lost more than that percentage of it. Rendering
    them never divides by zero. *)
Theorem LargeOutflow_exact (status : StatusReader W) (st : Address → Status)
    (balances : BalanceReader W) (bal : Address → Address → option Z) (percent : Z) (ctx : Ctx) (a : Analysis)
    (Hstatus : StatusSpec I E status st) (Hbal : BalanceSpec I E balances bal) :
  match NewOutflowDetector status balances percent with
  | inl _ => (percent < 1 ∨ 100 < percent)%Z
  | inr d => (1 ≤ percent ≤ 100)%Z ∧ triple I (Evaluate (LargeOutflow d) ctx a) (λ r, ∃ os,
      r = report "large-outflow" WeightHigh "large outflow: " (outflow_text <$> os) ∧
      Forall (λ o, Outflow_String o = Some (outflow_text o)) os ∧
      ∀ o, o ∈ os ↔ ∃ f, f ∈ a_Flows a ∧ o = mkOutflow (fl_Asset f) (fl_Holder f) (NetOut f) (of_Balance o) ∧
        bal (fl_Asset f) (fl_Holder f) = Some (of_Balance o) ∧ of_Balance o ≠ 0%Z ∧
        (0 < NetOut f)%Z ∧ fl_Holder f ≠ zero_address ∧ (fl_Holder f ∉ a_Created a) ∧
        st (fl_Holder f) ≠ NoCode ∧ (of_Balance o * percent < NetOut f * 100)%Z) E
  end.
Proof.
  unfold NewOutflowDetector. destruct (Z.ltb percent 1 || Z.ltb 100 percent) eqn:Hp.
  { rewrite orb_true_iff, !Z.ltb_lt in Hp. done. }
  split_bool. split; [lia|]. eapply triple_post; [by apply LargeOutflow_triple|]. intros r ->.
  exists (outflows_of st bal percent a). split_and!; [done| |].
  - eapply Forall_impl; [apply outflows_divisible|]. intros o. apply Outflow_String_text.
  - intros o. unfold outflows_of. rewrite list_elem_of_omap. apply exist_proper. intros f. apply and_iff_compat_l.
    unfold outflow_of. destruct (bal _ _) as [b|]; [|naive_solver]. simpl. split.
    + case_bool_decide as Hc; [|done]. intros [= <-]. simpl. tauto.
    + intros (-> & [= <-] & Hrest). rewrite bool_decide_eq_true_2 by tauto. done.
Qed.

(** C25: The flash-loan rule reports nothing without a loan, and otherwise exactly the large outflows
    whose holder is not one of the lenders. *)
Theorem FlashLoanOutflow_exact (status : StatusReader W) (st : Address → Status)
    (balances : BalanceReader W) (bal : Address → Address → option Z) (percent : Z) (ctx : Ctx) (a : Analysis)
    (Hstatus : StatusSpec I E status st) (Hbal : BalanceSpec I E balances bal) :
  let d := mkOutflowDetector status balances percent in
  triple I (Find d ctx a) (λ os, os = outflows_of st bal percent a) E ∧
  triple I (Evaluate (FlashLoanOutflow d) ctx a) (λ r,
    r = if bool_decide (a_FlashLoans a = []) then [] else
        report "flash-loan-outflow" WeightHigh
          ("flash loan from " +:+ Join (describe_loan <$> a_FlashLoans a) ", " +:+ " with large outflow: ")
          (outflow_text <$> filter (λ o, of_Holder o ∉ (ln_Lender <$> a_FlashLoans a))
             (outflows_of st bal percent a))) E.
Proof.
  split; [by apply Find_triple|]. by apply FlashLoanOutflow_triple.
Qed.

End rules_claims.

(** ** Concrete instances *)
Module RulesExamples.
Import Toy EventsExamples AnalysisExamples.

(** Account 1 has no code, 20 is a recent contract, the others are old. *)
Definition demo_st (x : Address) : Status :=
  if bool_decide (x = addr 1) then NoCode else if bool_decide (x = addr 20) then Fresh else Established.
Definition demo_bal (asset holder : Address) : option Z :=
  if bool_decide (asset = addr 9) then Some 1000%Z else None.

Definition demo_status : StatusReader unit := mkStatusReader (λ _ x, mret (demo_st x)).
Definition demo_fresh : FreshnessChecker unit := IsFresh_of demo_status.
Definition demo_balances : BalanceReader unit := mkBalanceReader (λ _ x y, mret (demo_bal x y)).
Definition demo_checker : Checker unit := ListChecker {[addr 6]}.
Definition demo_S (x : Address) : bool := bool_decide (x ∈ ({[addr 6]} : gset Address)).

Lemma demo_status_spec : StatusSpec (λ _, True) (λ _, False) demo_status demo_st.
Proof. intros ctx x. by apply triple_ret. Qed.
Lemma demo_fresh_spec : FreshSpec (λ _, True) (λ _, False) demo_fresh demo_st.
Proof. apply IsFresh_of_spec, demo_status_spec. Qed.
Lemma demo_balances_spec : BalanceSpec (λ _, True) (λ _, False) demo_balances demo_bal.
Proof. intros ctx x y. by apply triple_ret. Qed.

(** A vault 30 loses 600 of its 1000 units of token 9 after a loan from 31; delegatecalls to
    20, an unlimited approval to 20 and a grant to the account 1. *)
Definition drain_analysis : Analysis :=
  mkAnalysis demo_tx [addr 1; addr 2; addr 6] false
    [mkFrame "CALL" (addr 1) (addr 2) None 0; mkFrame "DELEGATECALL" (addr 2) (addr 20) None 1;
     mkFrame "DELEGATECALL" (addr 2) (addr 20) None 1]
    [] [] []
    [mkApproval (addr 9) (addr 1) (addr 20) (2 ^ 256 - 1); mkApproval (addr 9) (addr 1) (addr 20) (2 ^ 128 - 1)]
    [mkApprovalForAll (addr 8) (addr 2) (addr 1) true]
    [mkPrivilegeChange OwnershipTransferred (addr 2) (addr 1) zero_address zero_hash]
    [mkFlow (addr 9) (addr 30) 600 0; mkFlow (addr 9) (addr 31) 700 0; mkFlow (addr 7) (addr 30) 600 0]
    [mkFlashLoan (addr 31) (addr 9) (Some 700%Z) RepaidPattern].

Lemma Sanctioned_exact_witness :
  triple (λ _, True) (Evaluate (Sanctioned demo_checker) Background drain_analysis)
    (λ r, r = sanctioned_finding <$> filter (λ x, demo_S x = true) (a_Addresses drain_analysis)) (λ _, False).
Proof. apply (Sanctioned_exact (λ _, True) (λ _, False)). apply ListChecker_spec. Defined.

Lemma DelegatecallToFresh_exact_witness :
  triple (λ _, True) (Evaluate (DelegatecallToFresh demo_fresh) Background drain_analysis) (λ r, ∃ targets,
    r = report "delegatecall-to-fresh-code" WeightMedium "delegatecall into recently deployed code: "
          (Address_Hex <$> targets) ∧
    NoDup targets ∧
    ∀ x, x ∈ targets ↔ (x ∈ a_Created drain_analysis ∨ demo_st x = Fresh) ∧
      ∃ f, f ∈ a_Frames drain_analysis ∧ (f_Type f = "DELEGATECALL" ∨ f_Type f = "CALLCODE") ∧ f_To f = x)
    (λ _, False).
Proof. apply (DelegatecallToFresh_exact (λ _, True) (λ _, False)), demo_fresh_spec. Defined.

Lemma UnlimitedApproval_exact_witness :
  triple (λ _, True) (Evaluate (UnlimitedApproval demo_fresh) Background drain_analysis) (λ r,
    r = report "unlimited-approval-to-fresh-contract" WeightMedium "unlimited approval to recently deployed contract: "
          (describe_approval <$> filter (λ ap, (2 ^ 128 ≤ ap_Amount ap)%Z ∧
             (ap_Spender ap ∈ a_Created drain_analysis ∨ demo_st (ap_Spender ap) = Fresh))
             (a_Approvals drain_analysis))) (λ _, False).
Proof. apply (UnlimitedApproval_exact (λ _, True) (λ _, False)), demo_fresh_spec. Defined.

Definition uint128_analysis : Analysis :=
  mkAnalysis demo_tx [addr 1] false [] [addr 20] [] [] [mkApproval (addr 9) (addr 1) (addr 20) (2 ^ 128 - 1)]
    [] [] [] [].

Lemma uint128_max_not_unlimited_witness :
  Evaluate (UnlimitedApproval demo_fresh) Background uint128_analysis tt = (Ok [], tt).
Proof. apply (uint128_max_not_unlimited demo_fresh Background uint128_analysis tt). constructor; [simpl; lia|constructor]. Defined.

Lemma NFTDrainer_exact_witness :
  triple (λ _, True) (Evaluate (NFTDrainer demo_status) Background drain_analysis) (λ r,
    r = report "nft-drainer" WeightMedium "approval for all NFTs: "
          (describe_grant demo_st drain_analysis <$> filter (λ ap, afa_Approved ap = true ∧
             (afa_Operator ap ∈ a_Created drain_analysis ∨ demo_st (afa_Operator ap) ≠ Established))
             (a_ApprovalsForAll drain_analysis))) (λ _, False).
Proof. apply (NFTDrainer_exact (λ _, True) (λ _, False)), demo_status_spec. Defined.

Lemma LargeOutflow_exact_witness :
  (1 ≤ 50 ≤ 100)%Z ∧
  triple (λ _, True) (Evaluate (LargeOutflow (mkOutflowDetector demo_status demo_balances 50)) Background drain_analysis) (λ r, ∃ os,
      r = report "large-outflow" WeightHigh "large outflow: " (outflow_text <$> os) ∧
      Forall (λ o, Outflow_String o = Some (outflow_text o)) os ∧
      ∀ o, o ∈ os ↔ ∃ f, f ∈ a_Flows drain_analysis ∧
        o = mkOutflow (fl_Asset f) (fl_Holder f) (NetOut f) (of_Balance o) ∧
        demo_bal (fl_Asset f) (fl_Holder f) = Some (of_Balance o) ∧ of_Balance o ≠ 0%Z ∧
        (0 < NetOut f)%Z ∧ fl_Holder f ≠ zero_address ∧ (fl_Holder f ∉ a_Created drain_analysis) ∧
        demo_st (fl_Holder f) ≠ NoCode ∧ (of_Balance o * 50 < NetOut f * 100)%Z) (λ _, False).
Proof.
  apply (LargeOutflow_exact (λ _, True) (λ _, False) demo_status demo_st demo_balances demo_bal 50 Background drain_analysis
    demo_status_spec demo_balances_spec).
Defined.

Lemma FlashLoanOutflow_exact_witness :
  let d := mkOutflowDetector demo_status demo_balances 50 in
  triple (λ _, True) (Find d Background drain_analysis) (λ os, os = outflows_of demo_st demo_bal 50 drain_analysis) (λ _, False) ∧
  triple (λ _, True) (Evaluate (FlashLoanOutflow d) Background drain_analysis) (λ r,
    r = if bool_decide (a_FlashLoans drain_analysis = []) then [] else
        report "flash-loan-outflow" WeightHigh
          ("flash loan from " +:+ Join (describe_loan <$> a_FlashLoans drain_analysis) ", " +:+ " with large outflow: ")
          (outflow_text <$> filter (λ o, of_Holder o ∉ (ln_Lender <$> a_FlashLoans drain_analysis))
             (outflows_of demo_st demo_bal 50 drain_analysis))) (λ _, False).
Proof.
  apply (FlashLoanOutflow_exact (λ _, True) (λ _, False) demo_status demo_st demo_balances demo_bal 50 Background drain_analysis
    demo_status_spec demo_balances_spec).
Defined.

(** The rules evaluate on the example. *)
Example drain_counts :
  (length (sanctioned_findings demo_S drain_analysis), length (privilege_findings drain_analysis),
   length (delegate_findings demo_st drain_analysis), length (approval_findings demo_st drain_analysis),
   length (grant_findings demo_st drain_analysis), length (large_findings demo_st demo_bal 50 drain_analysis),
   length (flash_findings demo_st demo_bal 50 drain_analysis)) = (1, 1, 1, 1, 1, 1, 1).
Proof. by vm_compute. Qed.

Example drain_texts :
  outflow_text <$> outflows_of demo_st demo_bal 50 (mkAnalysis demo_tx [] false [] [] [] [] [] [] []
    [mkFlow ETH (addr 30) 10 4; mkFlow (addr 9) (addr 1) 900 0; mkFlow (addr 9) (addr 30) 501 0] []) =
  ["50% of token 0x0000000000000000000000000000000000000009 held by 0x000000000000000000000000000000000000001e (501 of 1000)"].
Proof. by vm_compute. Qed.

End RulesExamples.
