(* ===== verification/DeployCall.v ===== *)
(** * The deploy-and-call rule

    [internal/rules/deploycall.go]: the loop of the rule over the frames of the trace, and what
    it reports in terms of the call tree. *)

From Stdlib Require Import ZArith Lia.
From S2P Require Import Prelude GoLib Deadline Geth Events TxDecode Simulate Flows FlashLoans Analysis.
From S2P Require Import Rules RulesSpec.

Section deploy.
Context `{G : Geth} (a : Analysis).
Implicit Types (pre : list Frame) (x : Address).

(** The [k]-th frame is the first one that creates [x]. *)
Definition first_create pre x (k : nat) : Prop :=
  (∃ f, pre !! k = Some f ∧ IsCreate f = true ∧ f_To f = x) ∧
  ∀ k' f', k' < k → pre !! k' = Some f' → IsCreate f' = true → f_To f' ≠ x.

(** The first constructor of [x] finishes at index [e]. *)
Definition deployed_by pre x (e : nat) : Prop := ∃ k, first_create pre x k ∧ SubtreeEnd a k = Some e.

(** Some frame calls [x] after its first constructor finished. *)
Definition called_after pre x : Prop :=
  ∃ e j f, deployed_by pre x e ∧ pre !! j = Some f ∧ IsCall f = true ∧ f_To f = x ∧ e ≤ j.

Lemma IsCreate_not_call f : IsCreate f = true → IsCall f = false.
Proof.
  unfold IsCreate, IsCall. rewrite orb_true_iff, !bool_decide_eq_true. by intros [-> | ->].
Qed.

Lemma subtree_loop_ge rest d j : j ≤ subtree_loop rest d j.
Proof.
  revert j. induction rest as [|f rest IH]; intros j; simpl; [done|].
  destruct (Nat.ltb _ _); [|done]. specialize (IH (S j)). lia.
Qed.

Lemma SubtreeEnd_after k e : SubtreeEnd a k = Some e → k < e.
Proof.
  unfold SubtreeEnd. case_bool_decide; [|intros [= <-]; lia].
  destruct (a_Frames a !! k) as [f|]; [|done]. simpl. intros [= <-]. apply subtree_loop_ge.
Qed.

Lemma SubtreeEnd_total k : is_Some (SubtreeEnd a k).
Proof.
  unfold SubtreeEnd. case_bool_decide as Hk; [|by eauto].
  destruct (lookup_lt_is_Some_2 (a_Frames a) k) as [f ->]; [lia|]. simpl. eauto.
Qed.

Lemma first_create_snoc pre f x k :
  first_create (pre ++ [f]) x k ↔
  first_create pre x k ∨
  (k = length pre ∧ IsCreate f = true ∧ f_To f = x ∧ ∀ k', ¬ first_create pre x k').
Proof.
  split.
  - intros [(g & Hg & Hc & Hx) Hfirst]. apply lookup_snoc_Some in Hg as [[Hlt Hg]|[-> ->]].
    + left. split; [by exists g|]. intros k' f' Hk' Hf'. apply (Hfirst k' f' Hk'). by apply lookup_app_l_Some.
    + right. split_and!; [done..|]. intros k' [(g' & Hg & Hc' & Hx') _].
      apply (Hfirst k' g'); [by eapply lookup_lt_Some|by apply lookup_app_l_Some|done..].
  - intros [[(g & Hg & Hc & Hx) Hfirst]|(-> & Hc & Hx & Hnone)].
    + split; [exists g; split; [by apply lookup_app_l_Some|done]|].
      intros k' f' Hk' Hf'. apply (Hfirst k' f' Hk').
      rewrite lookup_app_l in Hf' by (apply lookup_lt_Some in Hg; lia). done.
    + split; [exists f; split; [by apply list_lookup_middle|done]|].
      intros k'. induction (lt_wf k') as [k' _ IH]. intros f' Hk' Hf' Hc' Hx'.
      rewrite lookup_app_l in Hf' by done. apply (Hnone k'). split; [by exists f'|].
      intros k'' f'' Hlt Hf''. apply (IH k'' Hlt f''); [lia|by apply lookup_app_l_Some].
Qed.

Lemma deployed_by_none pre x : (∀ e, ¬ deployed_by pre x e) ↔ ∀ k, ¬ first_create pre x k.
Proof.
  split; intros H.
  - intros k Hk. destruct (SubtreeEnd_total k) as [e He]. apply (H e). by exists k.
  - intros e (k & Hk & _). by apply (H k).
Qed.

Lemma deployed_by_snoc pre f x e :
  deployed_by (pre ++ [f]) x e ↔
  deployed_by pre x e ∨
  (IsCreate f = true ∧ f_To f = x ∧ SubtreeEnd a (length pre) = Some e ∧ ∀ e', ¬ deployed_by pre x e').
Proof.
  rewrite deployed_by_none. unfold deployed_by. setoid_rewrite first_create_snoc. naive_solver.
Qed.

Lemma called_after_snoc pre f x :
  called_after (pre ++ [f]) x ↔
  called_after pre x ∨ (IsCall f = true ∧ f_To f = x ∧ ∃ e, deployed_by pre x e ∧ e ≤ length pre).
Proof.
  split.
  - intros (e & j & g & Hd & Hg & Hc & Hx & Hle).
    pose proof (lookup_lt_Some _ _ _ Hg) as Hj. rewrite length_app in Hj. simpl in Hj.
    apply deployed_by_snoc in Hd as [Hd|(_ & _ & He & _)]; [|apply SubtreeEnd_after in He; lia].
    apply lookup_snoc_Some in Hg as [[_ Hg]|[-> ->]]; [left; by exists e, j, g|right].
    split_and!; [done..|by exists e].
  - intros [(e & j & g & Hd & Hg & Hc & Hx & Hle)|(Hc & Hx & e & Hd & Hle)].
    + exists e, j, g. split_and!; [apply deployed_by_snoc; by left|by apply lookup_app_l_Some|done..].
    + exists e, (length pre), f. split_and!; [apply deployed_by_snoc; by left|by apply list_lookup_middle|done..].
Qed.

(** ** The loop *)

Record deploy_inv pre (s : deploy_state) : Prop := {
  dinv_deployed : ∀ x e, deployedAt s !! x = Some e ↔ deployed_by pre x e;
  dinv_reported : ∀ x, x ∈ reported s ↔ x ∈ called s;
  dinv_nodup : NoDup (called s);
  dinv_called : ∀ x, x ∈ called s ↔ called_after pre x
}.

Lemma deploy_inv_init : deploy_inv [] (mkDeployState ∅ ∅ []).
Proof.
  split; simpl.
  - intros x e. rewrite lookup_empty. split; [done|]. by intros (k & [(f & ? & _) _] & _).
  - intros x. by rewrite elem_of_empty, elem_of_nil.
  - apply NoDup_nil_2.
  - intros x. rewrite elem_of_nil. split; [done|]. by intros (e & j & f & _ & ? & _).
Qed.

Lemma deployed_lookup_none pre s x :
  deploy_inv pre s → deployedAt s !! x = None ↔ ∀ e, ¬ deployed_by pre x e.
Proof.
  intros [Hd _ _ _]. rewrite eq_None_not_Some. setoid_rewrite <-Hd. unfold is_Some. naive_solver.
Qed.

(** A frame that neither creates a new address nor calls a deployed one changes nothing. *)
Lemma deploy_inv_skip pre s f :
  deploy_inv pre s →
  (IsCreate f = true → is_Some (deployedAt s !! f_To f)) →
  (IsCall f = true → ∀ e, deployedAt s !! f_To f = Some e → e ≤ length pre → f_To f ∈ called s) →
  deploy_inv (pre ++ [f]) s.
Proof.
  intros [Hd Hr Hn Hc] Hcreate Hcall. split; [|done|done|].
  - intros x e. rewrite deployed_by_snoc, Hd. split; [by left|]. intros [?|(Hf & <- & _ & Hnone)]; [done|].
    destruct (Hcreate Hf) as [e' He']. apply Hd in He'. by destruct (Hnone e').
  - intros x. rewrite called_after_snoc, Hc. split; [by left|]. intros [?|(Hf & <- & e & He & Hle)]; [done|].
    apply Hc. apply (Hcall Hf e); [by apply Hd|done].
Qed.

Lemma deploy_inv_create pre s f e :
  deploy_inv pre s → IsCreate f = true → deployedAt s !! f_To f = None → SubtreeEnd a (length pre) = Some e →
  deploy_inv (pre ++ [f]) (mkDeployState (<[f_To f := e]> (deployedAt s)) (reported s) (called s)).
Proof.
  intros Hinv Hf Hnone He. pose proof Hinv as [Hd Hr Hn Hc].
  rewrite (deployed_lookup_none pre s _ Hinv) in Hnone. split; simpl; [|done|done|].
  - intros x e'. rewrite deployed_by_snoc, lookup_insert_Some, Hd. split.
    + intros [[<- <-]|[? ?]]; [right; by split_and!|by left].
    + intros [Hx|(_ & <- & He' & _)]; [|left; split; [done|congruence]].
      right. split; [|done]. intros <-. by apply (Hnone e').
  - intros x. rewrite called_after_snoc, Hc. split; [by left|]. intros [?|(Hcall & _)]; [done|].
    by rewrite (IsCreate_not_call f Hf) in Hcall.
Qed.

Lemma deploy_inv_call pre s f e :
  deploy_inv pre s → IsCreate f = false → IsCall f = true → deployedAt s !! f_To f = Some e → e ≤ length pre →
  f_To f ∉ reported s →
  deploy_inv (pre ++ [f]) (mkDeployState (deployedAt s) ({[f_To f]} ∪ reported s) (called s ++ [f_To f])).
Proof.
  intros [Hd Hr Hn Hc] Hf Hcall He Hle Hnew. rewrite Hr in Hnew. split; simpl.
  - intros x e'. rewrite deployed_by_snoc, Hd, Hf. naive_solver.
  - intros x. rewrite elem_of_union, elem_of_singleton, Hr, elem_of_app, list_elem_of_singleton. tauto.
  - apply NoDup_app. split_and!; [done| |apply NoDup_singleton].
    intros x Hx. rewrite list_elem_of_singleton. by intros ->.
  - intros x. rewrite elem_of_app, list_elem_of_singleton, called_after_snoc, Hc. split.
    + intros [?| ->]; [by left|right]. split_and!; [done..|]. exists e. split; [by apply Hd|done].
    + intros [?|(_ & <- & _)]; [by left|by right].
Qed.

Lemma deploy_step_inv pre s f :
  deploy_inv pre s → ∃ s', deploy_step a s (length pre, f) = Some s' ∧ deploy_inv (pre ++ [f]) s'.
Proof.
  intros Hinv. unfold deploy_step. destruct (IsCreate f) eqn:Hf; destruct (deployedAt s !! f_To f) as [e|] eqn:He.
  - exists s. split; [done|]. apply deploy_inv_skip; [done|by eauto|].
    intros Hcall. by rewrite (IsCreate_not_call f Hf) in Hcall.
  - destruct (SubtreeEnd_total (length pre)) as [e He']. rewrite He'. simpl. eexists. split; [done|].
    by apply deploy_inv_create.
  - destruct (IsCall f && bool_decide (e ≤ length pre) && negb (bool_decide (f_To f ∈ reported s))) eqn:Hb.
    + split_bool. eexists. split; [done|]. by apply (deploy_inv_call pre s f e).
    + exists s. split; [done|]. apply deploy_inv_skip; [done|by rewrite Hf|].
      intros Hcall e' He' Hle. rewrite He in He'. injection He' as <-. rewrite Hcall, bool_decide_eq_true_2 in Hb by done. simpl in Hb.
      split_bool. by apply (dinv_reported pre s Hinv).
  - exists s. split; [done|]. apply deploy_inv_skip; [done|by rewrite Hf|]. intros _ e. by rewrite He.
Qed.

Lemma deploy_loop post pre s :
  deploy_inv pre s →
  ∃ s', foldO (deploy_step a) (imap (λ i f, (length pre + i, f)) post) s = Some s' ∧ deploy_inv (pre ++ post) s'.
Proof.
  revert pre s. induction post as [|f post IH]; intros pre s Hinv.
  - exists s. by rewrite app_nil_r.
  - rewrite imap_cons. cbn [foldO]. rewrite Nat.add_0_r. destruct (deploy_step_inv pre s f Hinv) as (s1 & Hs1 & Hinv1).
    rewrite Hs1. cbn [mbind option_bind]. destruct (IH _ _ Hinv1) as (s2 & Hs2 & Hinv2). rewrite <-app_assoc in Hinv2.
    exists s2. split; [|done]. rewrite <-Hs2. f_equal. apply imap_ext. intros i g _. simpl.
    rewrite length_app. simpl. f_equal. lia.
Qed.

(** The addresses the rule reports. *)
Definition deploy_called : list Address :=
  default [] (called <$> foldO (deploy_step a) (imap pair (a_Frames a)) (mkDeployState ∅ ∅ [])).

Lemma deploy_called_spec :
  (∃ s, foldO (deploy_step a) (imap pair (a_Frames a)) (mkDeployState ∅ ∅ []) = Some s ∧ called s = deploy_called) ∧
  NoDup deploy_called ∧ ∀ x, x ∈ deploy_called ↔ called_after (a_Frames a) x.
Proof.
  destruct (deploy_loop (a_Frames a) [] _ deploy_inv_init) as (s & Hs & [_ _ Hn Hc]).
  unfold deploy_called.
  change (imap (λ i f, (length [] + i, f)) (a_Frames a)) with (imap pair (a_Frames a)) in Hs.
  rewrite Hs. simpl. split_and!; [by exists s|done..].
Qed.

Definition deploy_findings : list Finding :=
  report "deploy-and-call" WeightMedium "contract deployed and called in the same transaction: "
    (Address_Hex <$> deploy_called).

Lemma DeployAndCall_run {W} ctx (w : W) : DeployAndCall_Evaluate ctx a w = (Ok deploy_findings, w).
Proof.
  unfold DeployAndCall_Evaluate. destruct (proj1 deploy_called_spec) as (s & Hs & Hc).
  rewrite Hs. unfold mbind, M_bind, lift, mret, M_ret, deploy_findings. by rewrite Hc.
Qed.

End deploy.

(** ** Claims *)
Section deploy_claims.
Context `{G : Geth} {W : Type}.

(** C21: The deploy-and-call rule never fails and reports, once each, exactly the addresses that some
    frame of the trace calls after the first constructor for that address has returned,
    constructors being delimited in the call tree itself: a call made while the contract is
    still under construction does not count, and reverted frames play no part. *)
Theorem DeployAndCall_exact (tx : Decoded) (t : CallFrame) (ctx : Ctx) (a : Analysis) (w : W)
    (Hbuild : Build tx (Some t) = Some a) :
  ∃ xs, Evaluate DeployAndCall ctx a w =
      (Ok (report "deploy-and-call" WeightMedium "contract deployed and called in the same transaction: "
             (Address_Hex <$> xs)), w) ∧
    NoDup xs ∧
    ∀ x, x ∈ xs ↔
      ∃ i c d j g d', live t 0 !! i = Some (c, d) ∧ first_create (frames_of (live t 0)) x i ∧
        live t 0 !! j = Some (g, d') ∧ IsCall (new_frame g d') = true ∧ f_To (new_frame g d') = x ∧
        i + length (live c d) ≤ j.
Proof.
  rewrite Build_ref in Hbuild. injection Hbuild as <-.
  exists (deploy_called (analysis_of tx t)). split; [apply DeployAndCall_run|].
  destruct (deploy_called_spec (analysis_of tx t)) as (_ & Hn & Hc). split; [done|].
  intros x. rewrite Hc. cbn [a_Frames analysis_of]. unfold frames_of at 1. split.
  - intros (e & j & f & (i & Hi & He) & Hj & Hcall & Hx & Hle). unfold frames_of in Hi.
    apply list_lookup_fmap_Some in Hj as ([g d'] & -> & Hj). pose proof Hi as [(h & Hh & _) _].
    apply list_lookup_fmap_Some in Hh as ([c d] & -> & Hlive).
    rewrite (SubtreeEnd_live tx t i c d) in He by done. injection He as <-.
    exists i, c, d, j, g, d'. by split_and!.
  - intros (i & c & d & j & g & d' & Hlive & Hi & Hj & Hcall & Hx & Hle).
    exists (i + length (live c d)), j, (new_frame g d'). split_and!; [|by rewrite list_lookup_fmap, Hj|done..].
    exists i. split; [done|]. by apply SubtreeEnd_live.
Qed.

End deploy_claims.

(** ** Concrete instances *)
Module DeployExamples.
Import Toy EventsExamples AnalysisExamples.

Lemma DeployAndCall_exact_witness :
  ∃ xs, Evaluate DeployAndCall Background demo_analysis tt =
      (Ok (report "deploy-and-call" WeightMedium "contract deployed and called in the same transaction: "
             (Address_Hex <$> xs)), tt) ∧
    NoDup xs ∧
    ∀ x, x ∈ xs ↔
      ∃ i c d j g d', live demo_trace 0 !! i = Some (c, d) ∧ first_create (frames_of (live demo_trace 0)) x i ∧
        live demo_trace 0 !! j = Some (g, d') ∧ IsCall (new_frame g d') = true ∧ f_To (new_frame g d') = x ∧
        i + length (live c d) ≤ j.
Proof. apply (DeployAndCall_exact demo_tx demo_trace Background demo_analysis tt). by vm_compute. Defined.

(** The demo deploys 10 and then calls it; a call from the constructor alone is not reported. *)
Example deploy_demo :
  deploy_called demo_analysis = [addr 10] ∧
  deploy_called (analysis_of demo_tx
    (node "CALL" 1 2 "" [] [node "CREATE" 2 10 "" [] [node "CALL" 10 10 "" [] []]])) = [].
Proof. by vm_compute. Qed.

End DeployExamples.
