(* ===== verification/Risk.v ===== *)
(** * Package risk: from findings to a verdict

    [internal/risk/risk.go]. The engine runs the rules in order and fails when one of them
    fails; the verdict sums the weights in an [int], 64 bits wide. [RuleSpec] is what a rule
    promises to the engine; the instances below are the eight rules. *)

From Stdlib Require Import ZArith Lia.
From S2P Require Import Prelude GoLib Deadline Geth Events TxDecode Simulate Flows FlashLoans Analysis.
From S2P Require Import ChainState Sanctions Rules RulesSpec DeployCall.

Record Verdict := mkVerdict {
  vd_Block : bool;
  vd_Score : Z;
  vd_Findings : list Finding
}.

(** The body of the loop over the findings of one rule. *)
Definition add_finding (v : Verdict) (f : Finding) : Verdict :=
  mkVerdict (if fd_HardBlock f then true else vd_Block v) (wrap_i64 (vd_Score v + fd_Weight f))
    (vd_Findings v ++ [f]).

Section engine.
Context `{G : Geth} {W : Type}.

Record Engine := mkEngine { e_rules : list (Rule W); e_threshold : Z }.

Definition NewEngine (threshold : Z) (rs : list (Rule W)) : error + Engine :=
  if Z.leb threshold 0 then inl (Errorf "risk threshold must be positive" [])
  else inr (mkEngine rs threshold).

Definition run_rule (ctx : Ctx) (a : Analysis) (v : Verdict) (r : Rule W) : M W Verdict :=
  findings ← wrap_err "rule %s: %w" [Name r] (Evaluate r ctx a);
  mret (foldl add_finding v findings).

Definition Engine_Evaluate (e : Engine) (ctx : Ctx) (a : Analysis) : M W Verdict :=
  v ← foldM (run_rule ctx a) (e_rules e) (mkVerdict false 0 []);
  mret (if Z.leb (e_threshold e) (vd_Score v) then mkVerdict true (vd_Score v) (vd_Findings v) else v).

End engine.
Arguments Engine {G} W.

(** ** The verdict on a list of findings *)

Definition weight_sum (fs : list Finding) : Z := list_sum_Z (fd_Weight <$> fs).

Definition has_hard_block (fs : list Finding) : bool := existsb fd_HardBlock fs.

Definition verdict_of (threshold : Z) (fs : list Finding) : Verdict :=
  mkVerdict (has_hard_block fs || Z.leb threshold (wrap_i64 (weight_sum fs))) (wrap_i64 (weight_sum fs)) fs.

(** The verdict before the threshold is applied. *)
Definition partial_verdict (fs : list Finding) : Verdict :=
  mkVerdict (has_hard_block fs) (wrap_i64 (weight_sum fs)) fs.

Lemma wrap_i64_add x y : wrap_i64 (wrap_i64 x + y) = wrap_i64 (x + y).
Proof.
  unfold wrap_i64.
  replace ((x + 2 ^ 63) mod 2 ^ 64 - 2 ^ 63 + y + 2 ^ 63)%Z with ((x + 2 ^ 63) mod 2 ^ 64 + y)%Z by lia.
  rewrite Zplus_mod_idemp_l. f_equal. f_equal. lia.
Qed.

Lemma weight_sum_app fs gs : weight_sum (fs ++ gs) = (weight_sum fs + weight_sum gs)%Z.
Proof. unfold weight_sum. rewrite fmap_app. induction (fd_Weight <$> fs); simpl; lia. Qed.

#[global] Instance weight_sum_proper : Proper ((≡ₚ) ==> (=)) weight_sum.
Proof.
  intros fs gs. unfold weight_sum, list_sum_Z. induction 1; rewrite ?fmap_cons; cbn [foldr]; lia.
Qed.

Lemma add_findings fs gs : foldl add_finding (partial_verdict fs) gs = partial_verdict (fs ++ gs).
Proof.
  revert fs. induction gs as [|g gs IH]; intros fs; simpl; [by rewrite app_nil_r|].
  assert (add_finding (partial_verdict fs) g = partial_verdict (fs ++ [g])) as ->.
  { unfold add_finding, partial_verdict, has_hard_block. cbn [vd_Block vd_Score vd_Findings]. f_equal.
    - rewrite existsb_app. simpl. destruct (fd_HardBlock g); by rewrite ?orb_true_r, ?orb_false_r.
    - rewrite wrap_i64_add, weight_sum_app. unfold weight_sum. simpl. by rewrite Z.add_0_r. }
  by rewrite IH, <-app_assoc.
Qed.

(** ** Running the rules *)
Section engine_proofs.
Context `{G : Geth} {W : Type}.

(** Every rule ran, in order, from world [w] to world [w'], and returned findings. *)
Inductive rules_run (ctx : Ctx) (a : Analysis) : list (Rule W) → W → list (list Finding) → W → Prop :=
| run_nil w : rules_run ctx a [] w [] w
| run_cons r rs w w1 w2 fs fss :
    Evaluate r ctx a w = (Ok fs, w1) → rules_run ctx a rs w1 fss w2 → rules_run ctx a (r :: rs) w (fs :: fss) w2.

Lemma run_rule_run ctx a fs0 (r : Rule W) w :
  run_rule ctx a (partial_verdict fs0) r w =
  match Evaluate r ctx a w with
  | (Ok fs, w') => (Ok (partial_verdict (fs0 ++ fs)), w')
  | (Err e, w') => (Err (Wrapf "rule %s: %w" [Name r] e), w')
  | (Panic, w') => (Panic, w')
  end.
Proof.
  unfold run_rule, mbind, M_bind, wrap_err, mret, M_ret.
  destruct (Evaluate r ctx a w) as [[fs|e|] w']; [by rewrite add_findings|done..].
Qed.

Lemma rules_loop ctx a rs fs0 w v w' :
  foldM (run_rule ctx a) rs (partial_verdict fs0) w = (Ok v, w') ↔
  ∃ fss, rules_run ctx a rs w fss w' ∧ v = partial_verdict (fs0 ++ concat fss).
Proof.
  revert fs0 w. induction rs as [|r rs IH]; intros fs0 w.
  - simpl. unfold mret, M_ret. split.
    + intros [= <- <-]. exists []. split; [constructor|]. simpl. by rewrite app_nil_r.
    + intros (fss & Hrun & ->). inversion Hrun. subst. simpl. by rewrite app_nil_r.
  - cbn [foldM]. unfold mbind, M_bind. rewrite run_rule_run.
    destruct (Evaluate r ctx a w) as [[fs|e|] w1] eqn:Hr.
    + rewrite IH. split.
      * intros (fss & Hrun & ->). exists (fs :: fss). split; [by econstructor|]. simpl. by rewrite app_assoc.
      * intros (fss & Hrun & ->). inversion Hrun as [|? ? ? ? ? fs' fss' Hr' Hrun']. subst.
        rewrite Hr in Hr'. injection Hr' as <- <-. exists fss'. split; [done|]. simpl. by rewrite app_assoc.
    + split; [done|]. intros (fss & Hrun & _). inversion Hrun. congruence.
    + split; [done|]. intros (fss & Hrun & _). inversion Hrun. congruence.
Qed.

Lemma Engine_Evaluate_ok (e : Engine W) ctx a w v w' :
  Engine_Evaluate e ctx a w = (Ok v, w') ↔
  ∃ fss, rules_run ctx a (e_rules e) w fss w' ∧ v = verdict_of (e_threshold e) (concat fss).
Proof.
  assert (∀ fs, (let p := partial_verdict fs in
    if Z.leb (e_threshold e) (vd_Score p) then mkVerdict true (vd_Score p) (vd_Findings p) else p) =
    verdict_of (e_threshold e) fs) as Hfinal.
  { intros fs. unfold partial_verdict, verdict_of. cbn [vd_Score vd_Findings].
    destruct (Z.leb _ _); by rewrite ?orb_true_r, ?orb_false_r. }
  unfold Engine_Evaluate, mbind, M_bind. change (mkVerdict false 0 []) with (partial_verdict []).
  destruct (foldM (run_rule ctx a) (e_rules e) (partial_verdict []) w) as [r w1] eqn:Hloop. split.
  - destruct r as [p| |]; [|done..]. apply rules_loop in Hloop as (fss & Hrun & ->).
    unfold mret, M_ret. rewrite Hfinal. intros [= <- <-]. by exists fss.
  - intros (fss & Hrun & ->).
    assert (foldM (run_rule ctx a) (e_rules e) (partial_verdict []) w =
            (Ok (partial_verdict ([] ++ concat fss)), w')) as Hok by (apply rules_loop; by exists fss).
    rewrite Hloop in Hok. injection Hok as -> ->. unfold mret, M_ret. by rewrite Hfinal.
Qed.

(** What a rule promises: its findings are a function of the analysis. *)
Class RuleSpec (I : W → Prop) (E : error → Prop) (r : Rule W) (F : Analysis → list Finding) : Prop :=
  rule_spec : ∀ ctx a, triple I (Evaluate r ctx a) (λ fs, fs = F a) E.

Lemma Engine_Evaluate_triple I E `{!WrapClosed E} (e : Engine W) (Fs : list (Analysis → list Finding)) ctx a :
  Forall2 (RuleSpec I E) (e_rules e) Fs →
  triple I (Engine_Evaluate e ctx a) (λ v, v = verdict_of (e_threshold e) (Fs ≫= λ F, F a)) E.
Proof.
  intros HFs.
  assert (∀ fs0, triple I (foldM (run_rule ctx a) (e_rules e) (partial_verdict fs0))
    (λ p, p = partial_verdict (fs0 ++ (Fs ≫= λ F, F a))) E) as Hloop.
  { induction HFs as [|r F rs Fs' HF _ IH]; intros fs0.
    - simpl. rewrite app_nil_r. by apply triple_ret.
    - cbn [foldM]. apply (triple_bind I E _ _ (λ v, v = partial_verdict (fs0 ++ F a)));
        [|intros v ->; rewrite bind_cons, app_assoc; apply IH].
      eapply triple_bind; [apply triple_wrap; [done|]; apply HF|]. intros fs ->.
      apply triple_ret. apply add_findings. }
  eapply triple_bind; [apply (Hloop [])|]. intros p ->. apply triple_ret.
  unfold partial_verdict, verdict_of. cbn [vd_Score vd_Findings]. simpl.
  destruct (Z.leb _ _); by rewrite ?orb_true_r, ?orb_false_r.
Qed.

Section instances.
Context (I : W → Prop) (E : error → Prop) `{!WrapClosed E}.

#[global] Instance Sanctioned_rule checker S :
  CheckerSpec I E checker S → RuleSpec I E (Sanctioned checker) (sanctioned_findings S).
Proof using All. intros ? ctx a. by apply Sanctioned_triple. Qed.
#[global] Instance PrivilegeChange_rule : RuleSpec I E PrivilegeChangeRule privilege_findings.
Proof using All.
  intros ctx a w Hw. cbn [PrivilegeChangeRule Evaluate]. by rewrite PrivilegeChange_run.
Qed.
#[global] Instance DeployAndCall_rule : RuleSpec I E DeployAndCall deploy_findings.
Proof using All. intros ctx a w Hw. cbn [DeployAndCall Evaluate]. by rewrite DeployAndCall_run. Qed.
#[global] Instance DelegatecallToFresh_rule fresh st :
  FreshSpec I E fresh st → RuleSpec I E (DelegatecallToFresh fresh) (delegate_findings st).
Proof using All. intros ? ctx a. by apply DelegatecallToFresh_triple. Qed.
#[global] Instance UnlimitedApproval_rule fresh st :
  FreshSpec I E fresh st → RuleSpec I E (UnlimitedApproval fresh) (approval_findings st).
Proof using All. intros ? ctx a. by apply UnlimitedApproval_triple. Qed.
#[global] Instance NFTDrainer_rule status st :
  StatusSpec I E status st → RuleSpec I E (NFTDrainer status) (grant_findings st).
Proof using All. intros ? ctx a. by apply NFTDrainer_triple. Qed.
#[global] Instance LargeOutflow_rule status st balances bal percent :
  StatusSpec I E status st → BalanceSpec I E balances bal →
  RuleSpec I E (LargeOutflow (mkOutflowDetector status balances percent)) (large_findings st bal percent).
Proof using All. intros ? ? ctx a. by apply LargeOutflow_triple. Qed.
#[global] Instance FlashLoanOutflow_rule status st balances bal percent :
  StatusSpec I E status st → BalanceSpec I E balances bal →
  RuleSpec I E (FlashLoanOutflow (mkOutflowDetector status balances percent)) (flash_findings st bal percent).
Proof using All. intros ? ? ctx a. by apply FlashLoanOutflow_triple. Qed.

End instances.

End engine_proofs.

(** ** Claims *)
Section risk_claims.
Context `{G : Geth} {W : Type}.

Lemma rules_loop_err ctx a (rs : list (Rule W)) fs0 w err w' :
  foldM (run_rule ctx a) rs (partial_verdict fs0) w = (Err err, w') ↔
  ∃ pre r post fss w1 e, rs = pre ++ r :: post ∧ rules_run ctx a pre w fss w1 ∧
    Evaluate r ctx a w1 = (Err e, w') ∧ err = Wrapf "rule %s: %w" [Name r] e.
Proof.
  revert fs0 w. induction rs as [|r rs IH]; intros fs0 w.
  { split; [done|]. by intros ([|] & ? & ? & ? & ? & ? & ? & _). }
  cbn [foldM]. unfold mbind, M_bind. rewrite run_rule_run. split.
  - destruct (Evaluate r ctx a w) as [[fs|e|] w1] eqn:Hr; [| |done].
    + rewrite IH. intros (pre & r' & post & fss & w2 & e & -> & Hrun & He & ->).
      exists (r :: pre), r', post, (fs :: fss), w2, e. split_and!; [done|by econstructor|done..].
    + intros [= <- <-]. exists [], r, rs, [], w, e. split_and!; [done|constructor|done..].
  - intros ([|r0 pre] & r' & post & fss & w1 & e & [= -> ->] & Hrun & He & ->);
      inversion Hrun as [|? ? ? w2 ? fs fss' Hr Hrun']; subst.
    + by rewrite He.
    + rewrite Hr. apply IH. by exists pre, r', post, fss', w1, e.
Qed.

(** C9: The engine returns a verdict exactly when every rule, run in order, returned its findings;
    the verdict lists all of them in order, its score is the 64-bit sum of their weights, and
    it blocks when one of them is a hard block or the score reaches the threshold. The engine
    returns an error exactly when some rule fails, and it is that rule's error. *)
Theorem Engine_Evaluate_exact (e : Engine W) (ctx : Ctx) (a : Analysis) (w w' : W) :
  (∀ v, Engine_Evaluate e ctx a w = (Ok v, w') ↔
    ∃ fss, rules_run ctx a (e_rules e) w fss w' ∧
      vd_Findings v = concat fss ∧ vd_Score v = wrap_i64 (weight_sum (concat fss)) ∧
      vd_Block v = has_hard_block (concat fss) || Z.leb (e_threshold e) (vd_Score v)) ∧
  (∀ err, Engine_Evaluate e ctx a w = (Err err, w') ↔
    ∃ pre r post fss w1 e', e_rules e = pre ++ r :: post ∧ rules_run ctx a pre w fss w1 ∧
      Evaluate r ctx a w1 = (Err e', w') ∧ err = Wrapf "rule %s: %w" [Name r] e').
Proof.
  split.
  - intros v. rewrite Engine_Evaluate_ok. apply exist_proper. intros fss. apply and_iff_compat_l.
    destruct v as [b s fs]. unfold verdict_of. cbn [vd_Findings vd_Score vd_Block]. split.
    + by intros [= -> -> ->].
    + by intros (-> & -> & ->).
  - intros err. rewrite <-(rules_loop_err ctx a (e_rules e) [] w err w').
    unfold Engine_Evaluate, mbind, M_bind. change (mkVerdict false 0 []) with (partial_verdict []).
    destruct (foldM _ _ _ w) as [[v|e1|] w1]; [|done..]. unfold mret, M_ret. by split.
Qed.

(** C10: An engine can be made exactly with a positive threshold. It then blocks a transaction iff
    some finding is a hard block or the mathematical sum of the weights reaches the threshold,
    as long as weights are not negative and their sum fits an [int]; a transaction without
    findings is never blocked, and further findings never unblock one. *)
Theorem Engine_blocks_iff (threshold : Z) (rs : list (Rule W)) (e : Engine W) (ctx : Ctx) (a : Analysis) (w w' : W) (v : Verdict)
    (Hnew : NewEngine threshold rs = inr e)
    (Hrun : Engine_Evaluate e ctx a w = (Ok v, w'))
    (Hweights : Forall (λ f, 0 ≤ fd_Weight f)%Z (vd_Findings v))
    (Hsum : (weight_sum (vd_Findings v) < 2 ^ 63)%Z) :
  (0 < threshold)%Z ∧ vd_Score v = weight_sum (vd_Findings v) ∧
  (vd_Block v = true ↔
    (∃ f, f ∈ vd_Findings v ∧ fd_HardBlock f = true) ∨ (threshold ≤ weight_sum (vd_Findings v))%Z) ∧
  (vd_Findings v = [] → vd_Block v = false) ∧
  (∀ fs, fs ⊆+ vd_Findings v → vd_Block (verdict_of threshold fs) = true → vd_Block v = true).
Proof.
  unfold NewEngine in Hnew. destruct (Z.leb_spec threshold 0); [done|]. injection Hnew as <-.
  apply Engine_Evaluate_ok in Hrun as (fss & _ & ->). unfold verdict_of in *. cbn [vd_Findings vd_Score vd_Block e_threshold] in *.
  assert (∀ fs, Forall (λ f, 0 ≤ fd_Weight f)%Z fs → (0 ≤ weight_sum fs)%Z) as Hpos.
  { intros fs Hfs. apply list_sum_Z_nonneg. by apply Forall_fmap. }
  assert (∀ fs, has_hard_block fs = true ↔ ∃ f, f ∈ fs ∧ fd_HardBlock f = true) as Hhard.
  { intros fs. unfold has_hard_block. rewrite existsb_exists. by setoid_rewrite list_elem_of_In. }
  pose proof (Hpos _ Hweights). rewrite !wrap_i64_id by lia.
  split_and!; [lia|done| | |].
  - rewrite orb_true_iff, Z.leb_le, Hhard. done.
  - intros ->. simpl. apply Z.leb_gt. done.
  - intros fs Hsub. apply submseteq_Permutation in Hsub as [k Hperm].
    rewrite Hperm in Hweights. apply Forall_app in Hweights as [Hw1 Hw2].
    assert (weight_sum (concat fss) = weight_sum fs + weight_sum k)%Z as Hs.
    { by rewrite Hperm, weight_sum_app. }
    pose proof (Hpos _ Hw1). pose proof (Hpos _ Hw2). rewrite wrap_i64_id by lia.
    rewrite !orb_true_iff, !Z.leb_le, !Hhard. intros [(f & Hf & Hb)|?]; [left|right; lia].
    exists f. split; [|done]. rewrite Hperm. apply elem_of_app. by left.
Qed.

End risk_claims.

(** ** Concrete instances *)
Module RiskExamples.
Import Toy EventsExamples AnalysisExamples RulesExamples.

Definition demo_rules : list (Rule unit) :=
  [Sanctioned demo_checker; PrivilegeChangeRule; DeployAndCall; DelegatecallToFresh demo_fresh;
   UnlimitedApproval demo_fresh; NFTDrainer demo_status;
   LargeOutflow (mkOutflowDetector demo_status demo_balances 50);
   FlashLoanOutflow (mkOutflowDetector demo_status demo_balances 50)].

Definition demo_engine : Engine unit := mkEngine demo_rules 50.

Definition demo_verdict : Verdict := Eval vm_compute in
  match Engine_Evaluate demo_engine Background drain_analysis tt with (Ok v, _) => v | _ => mkVerdict false 0 [] end.

Example demo_score : vd_Block demo_verdict = true ∧ vd_Score demo_verdict = 180%Z ∧ length (vd_Findings demo_verdict) = 7.
Proof. by vm_compute. Qed.

Lemma Engine_blocks_iff_witness :
  (0 < 50)%Z ∧ vd_Score demo_verdict = weight_sum (vd_Findings demo_verdict) ∧
  (vd_Block demo_verdict = true ↔
    (∃ f, f ∈ vd_Findings demo_verdict ∧ fd_HardBlock f = true) ∨ (50 ≤ weight_sum (vd_Findings demo_verdict))%Z) ∧
  (vd_Findings demo_verdict = [] → vd_Block demo_verdict = false) ∧
  (∀ fs, fs ⊆+ vd_Findings demo_verdict → vd_Block (verdict_of 50 fs) = true → vd_Block demo_verdict = true).
Proof.
  apply (Engine_blocks_iff 50 demo_rules demo_engine Background drain_analysis tt tt demo_verdict); [done|by vm_compute|..].
  - apply (bool_decide_unpack _). by vm_compute.
  - by vm_compute.
Defined.

End RiskExamples.
