(* ===== verification/Screen.v ===== *)
(** * Package screen: simulate, analyse, judge

    [internal/screen/screen.go]. [Screener] is the interface the proxy calls; [Screen] is its
    implementation over a simulator and an engine. *)

From Stdlib Require Import ZArith Lia.
From S2P Require Import Prelude GoLib Deadline Geth Events TxDecode Simulate Flows FlashLoans Analysis.
From S2P Require Import Rules RulesSpec Risk.

(** [proxy.Screener] *)
Section screener_type.
Context `{G : Geth}.

Record Screener (W : Type) := mkScreener { ScreenTx : Ctx → Decoded → M W Verdict }.

End screener_type.
Arguments mkScreener {G W} _.
Arguments ScreenTx {G W} _ _ _.

(** The verdict on a transaction the node refuses to execute. *)
Definition simulation_failed (message : string) : Verdict :=
  mkVerdict true 0 [mkFinding "simulation" true 0 ("simulation failed: " +:+ message)].

Section screen.
Context `{G : Geth} {W : Type}.

Definition Screen (sim : Simulator W) (engine : Engine W) (ctx : Ctx) (tx : Decoded) : M W Verdict :=
  r ← try_err (Simulate sim ctx tx);
  match r with
  | inl err =>
      match as_node_error err with
      | Some message => mret (simulation_failed message)
      | None => fail err
      end
  | inr trace =>
      a ← lift (Build tx (Some trace));
      Engine_Evaluate engine ctx a
  end.

Definition NewScreener (sim : Simulator W) (engine : Engine W) : Screener W := mkScreener (Screen sim engine).

Lemma Screen_run sim engine ctx tx w :
  Screen sim engine ctx tx w =
  let '(r, w1) := Simulate sim ctx tx w in
  match r with
  | Ok trace => Engine_Evaluate engine ctx (analysis_of tx trace) w1
  | Err e => match as_node_error e with
             | Some message => (Ok (simulation_failed message), w1)
             | None => (Err e, w1)
             end
  | Panic => (Panic, w1)
  end.
Proof.
  unfold Screen, mbind, M_bind, try_err. destruct (Simulate sim ctx tx w) as [[t|e|] w1]; [| |done].
  - by rewrite Build_ref.
  - by destruct (as_node_error e).
Qed.

(** A verdict that does not block comes from the engine's verdict on the simulated trace. *)
Lemma Screen_pass sim engine ctx tx w v w' :
  Screen sim engine ctx tx w = (Ok v, w') → vd_Block v = false →
  ∃ trace w1, Simulate sim ctx tx w = (Ok trace, w1) ∧ Engine_Evaluate engine ctx (analysis_of tx trace) w1 = (Ok v, w').
Proof.
  rewrite Screen_run. destruct (Simulate sim ctx tx w) as [[t|e|] w1]; [by eauto| |done].
  destruct (as_node_error e); [|done]. by intros [= <- <-].
Qed.

(** C28: With the node as simulator (whose own errors are never this program's [NodeError]), every
    answer to [debug_traceCall] has one outcome: a trace with a top-level frame is judged by the
    engine on the analysis of that trace; a refusal (code -32000 or -32003) blocks the
    transaction and gives the node's reason; an empty trace, any other RPC error and any
    transport failure is a screening error, never a pass. *)
Theorem Screen_node_answers `{!Clock W} (client : RpcClient W) (timeout : Z) (engine : Engine W) (ctx : Ctx)
    (tx : Decoded) (w : W)
    (Hclient : ∀ c method args block cfg w1 e w2,
      CallContext client c method args block cfg w1 = (Err e, w2) → as_node_error e = None) :
  Screen (RPCSimulator client timeout) engine ctx tx w =
  let '(r, w1) := CallContext client (WithDeadline ctx (clock w + timeout)) "debug_traceCall" (newCallArgs tx) "latest" traceConfig w in
  match r with
  | Ok trace =>
      if bool_decide (cf_Type trace = "") then (Err (Errorf "debug_traceCall: empty trace" []), w1)
      else Engine_Evaluate engine ctx (analysis_of tx trace) w1
  | Err e =>
      match as_rpc_error e with
      | Some (code, message) =>
          if Z.eqb code (-32000) || Z.eqb code (-32003) then (Ok (simulation_failed message), w1)
          else (Err (Wrapf "debug_traceCall: %w" [] e), w1)
      | None => (Err (Wrapf "debug_traceCall: %w" [] e), w1)
      end
  | Panic => (Panic, w1)
  end.
Proof.
  rewrite Screen_run. cbn [RPCSimulator Simulate]. unfold RPCSimulate. rewrite trace_run.
  pose proof (Hclient (WithDeadline ctx (clock w + timeout)) "debug_traceCall" (newCallArgs tx) "latest" traceConfig w) as Hc.
  destruct (CallContext client _ _ _ _ _ w) as [[t|e|] w1]; [| |done].
  - unfold trace_answer. by case_bool_decide.
  - specialize (Hc e w1 eq_refl). unfold trace_answer.
    destruct (as_rpc_error e) as [[code message]|]; [|simpl; by rewrite Hc].
    unfold isTxRejection. destruct (_ || _); [done|simpl; by rewrite Hc].
Qed.

End screen.

(** ** Concrete instances *)
Module ScreenExamples.
Import Toy StillTime EventsExamples AnalysisExamples RulesExamples RiskExamples.

(** A node that refuses calldata starting with 0xff and traces the rest. *)
Definition demo_client : RpcClient unit := mkRpcClient unit (λ _ _ args _ _,
  match ca_Input args with
  | xff :: _ => fail (RpcError (-32000) "insufficient funds")
  | xfe :: _ => fail (RpcError (-32601) "method not found")
  | _ => mret demo_trace
  end).

Lemma demo_client_errors c method args block cfg (w1 : unit) e w2 :
  CallContext demo_client c method args block cfg w1 = (Err e, w2) → as_node_error e = None.
Proof. cbn [CallContext demo_client]. destruct (ca_Input args) as [|[] ?]; by intros [= <- <-]. Qed.

Definition refused_tx : Decoded := mkDecoded (Tx (addr 1) (Some (addr 2)) [xff] : Transaction) (addr 1).

Lemma Screen_node_answers_witness :
  Screen (RPCSimulator demo_client Second) demo_engine Background refused_tx tt =
  (Ok (simulation_failed "insufficient funds"), tt).
Proof. exact (Screen_node_answers demo_client Second demo_engine Background refused_tx tt demo_client_errors). Defined.

End ScreenExamples.
