(* ===== verification/Proxy.v ===== *)
(** * Package proxy: the screening handler

    [internal/proxy/proxy.go]. A request comes with its body and the error reading it ends
    with; the handler answers with an HTTP error, a JSON-RPC error, or hands the request to the
    reverse proxy ([Forward]), and writes log records on the way. A panic aborts the connection
    without forwarding. *)

From Stdlib Require Import ZArith Lia.
From S2P Require Import Prelude GoLib Deadline Json JsonProofs JsonRpc Logging Geth Events TxDecode Simulate Flows FlashLoans Analysis.
From S2P Require Import Rules RulesSpec Risk Screen.

Definition maxBodySize : N := N.shiftl 5 20.

(** [*http.Request]: the parts the handler reads or changes, and the headers it passes on. *)
Record HttpRequest := mkHttpRequest {
  hr_Context : Ctx;
  hr_Header : list (string * string);
  hr_Body : list byte;
  hr_BodyErr : option error;
  hr_ContentLength : Z
}.

Inductive Response :=
| HttpError (status : Z) (message : string)
| RpcReply (body : list byte)
| Forward (r : HttpRequest).

(** [io.ReadAll(http.MaxBytesReader(w, r.Body, maxBodySize))] *)
Definition read_body (r : HttpRequest) : error + list byte :=
  if N.ltb maxBodySize (N.of_nat (length (hr_Body r))) then inl (Errorf "http: request body too large" [])
  else match hr_BodyErr r with
       | Some e => inl e
       | None => inr (hr_Body r)
       end.

Definition set_body (r : HttpRequest) (body : list byte) : HttpRequest :=
  mkHttpRequest (hr_Context r) (hr_Header r) body None (Z.of_nat (length body)).

(** The handler's own logger. *)
Definition proxy_log (logger : Logger) : Logger := With logger ("component", AString "proxy").

Definition sendRawTransaction : list byte := to_bytes "eth_sendRawTransaction".

Definition rejection (reason : string) : list byte := to_bytes ("transaction rejected: " +:+ reason).

Section proxy.
Context `{G : Geth} {W : Type} `{LL : Lens W (list Line)}.

(** The attributes of the record of a transaction; [None] is a panic of the slice expression. *)
Definition transaction_attrs (d : Decoded) : option (list Attr) :=
  let tx := d_Tx d in
  let to := match tx_To tx with Some a => Address_Hex a | None => "contract creation" end in
  selector ← if bool_decide (4 ≤ length (tx_Data tx))
             then data ← slice 0 4 (tx_Data tx); Some (hexutil_Encode data)
             else Some "none";
  Some [("hash", AString (Hash_Hex (tx_Hash tx))); ("type", AInt (tx_Type tx)); ("from", AString (Address_Hex (d_From d)));
        ("to", AString to); ("value", AString (pretty (tx_Value tx))); ("selector", AString selector);
        ("nonce", AInt (tx_Nonce tx)); ("chainId", AString (pretty (tx_ChainId tx)))].

Definition logTransaction (d : Decoded) (log : Logger) : M W () :=
  attrs ← lift (transaction_attrs d); LogAt log LevelInfo "transaction" attrs.

(** The attributes of a record about a verdict. *)
Definition verdict_attrs (d : Decoded) (v : Verdict) (reasons : list string) : list Attr :=
  [("hash", AString (Hash_Hex (tx_Hash (d_Tx d)))); ("score", AInt (vd_Score v)); ("reasons", AStrings reasons)].

(** The loop over the requests: the reply that ends it, or nothing when all may pass. *)
Fixpoint screen_requests (screener : Screener W) (log : Logger) (ctx : Ctx) (reqs : list Request)
    : M W (option (list byte)) :=
  match reqs with
  | [] => mret None
  | req :: reqs =>
      if bool_decide (rq_Method req ≠ sendRawTransaction) then screen_requests screener log ctx reqs else
      match DecodeRawTransaction (rq_Params req) with
      | inl err =>
          _ ← LogAt log LevelWarn "rejected undecodable transaction" [("err", AError err)];
          mret (Some (WriteError (rq_ID req) CodeInvalidParams (to_bytes "invalid transaction")))
      | inr decoded =>
          _ ← logTransaction decoded log;
          r ← try_err (ScreenTx screener ctx decoded);
          match r with
          | inl err =>
              _ ← LogAt log LevelError "screening failed, rejecting transaction"
                    [("hash", AString (Hash_Hex (tx_Hash (d_Tx decoded)))); ("err", AError err)];
              mret (Some (WriteError (rq_ID req) CodeTxRejected (rejection "screening failed")))
          | inr verdict =>
              let reasons := fd_Reason <$> vd_Findings verdict in
              if vd_Block verdict then
                _ ← LogAt log LevelWarn "blocked transaction" (verdict_attrs decoded verdict reasons);
                mret (Some (WriteError (rq_ID req) CodeTxRejected (rejection (Join reasons "; "))))
              else
                _ ← (if bool_decide (0 < length reasons)
                     then LogAt log LevelInfo "flagged transaction" (verdict_attrs decoded verdict reasons)
                     else mret ());
                screen_requests screener log ctx reqs
          end
      end
  end.

Definition NewHandler (screener : Screener W) (logger : Logger) (r : HttpRequest) : M W Response :=
  let log := proxy_log logger in
  match read_body r with
  | inl _ => mret (HttpError 400 "request body too large or unreadable")
  | inr body =>
      match ParseRequests body with
      | inl _ => mret (RpcReply (WriteError [] CodeParseError (to_bytes "invalid JSON-RPC request")))
      | inr reqs =>
          reply ← screen_requests screener log (hr_Context r) reqs;
          match reply with
          | Some text => mret (RpcReply text)
          | None => mret (Forward (set_body r body))
          end
      end
  end.

(** The handler with its last call: [ServeHTTP] of the reverse proxy is library code. *)
Definition served (ServeHTTP : HttpRequest → M W ()) (handler : HttpRequest → M W Response) (r : HttpRequest) : M W () :=
  response ← handler r;
  match response with Forward r' => ServeHTTP r' | _ => mret () end.

(** ** Which requests pass *)

Lemma transaction_attrs_total d : is_Some (transaction_attrs d).
Proof.
  unfold transaction_attrs. case_bool_decide; [|by eauto]. rewrite slice_Some by lia. simpl. eauto.
Qed.

(** What is logged about a transaction before it is screened, and after a verdict that lets it
    pass. *)
Definition arrival_lines (log : Logger) (d : Decoded) : list Line :=
  log_lines log LevelInfo "transaction" (default [] (transaction_attrs d)).

Definition passed_lines (log : Logger) (d : Decoded) (v : Verdict) : list Line :=
  if bool_decide (vd_Findings v = []) then []
  else log_lines log LevelInfo "flagged transaction" (verdict_attrs d v (fd_Reason <$> vd_Findings v)).

(** The world after a transaction that passes: without findings nothing is written at all. *)
Definition passed (log : Logger) (d : Decoded) (v : Verdict) (w : W) : W :=
  if bool_decide (vd_Findings v = []) then w else written (passed_lines log d v) w.

(** Every transaction among the requests was decoded and screened, in order, from world [w] to
    world [w'], with verdicts that do not block. *)
Inductive cleared (screener : Screener W) (log : Logger) (ctx : Ctx) : list Request → W → W → Prop :=
| cleared_nil w : cleared screener log ctx [] w w
| cleared_other req reqs w w' :
    rq_Method req ≠ sendRawTransaction → cleared screener log ctx reqs w w' →
    cleared screener log ctx (req :: reqs) w w'
| cleared_send req reqs d v w w1 w' :
    rq_Method req = sendRawTransaction → DecodeRawTransaction (rq_Params req) = inr d →
    ScreenTx screener ctx d (written (arrival_lines log d) w) = (Ok v, w1) → vd_Block v = false →
    cleared screener log ctx reqs (passed log d v w1) w' → cleared screener log ctx (req :: reqs) w w'.

Lemma logTransaction_run d log w : logTransaction d log w = (Ok (), written (arrival_lines log d) w).
Proof.
  unfold logTransaction, arrival_lines. by destruct (transaction_attrs_total d) as [attrs ->].
Qed.

(** One request of the loop. *)
Lemma screen_requests_cons screener log ctx req reqs w :
  screen_requests screener log ctx (req :: reqs) w =
  if bool_decide (rq_Method req ≠ sendRawTransaction) then screen_requests screener log ctx reqs w else
  match DecodeRawTransaction (rq_Params req) with
  | inl e =>
      (Ok (Some (WriteError (rq_ID req) CodeInvalidParams (to_bytes "invalid transaction"))),
       written (log_lines log LevelWarn "rejected undecodable transaction" [("err", AError e)]) w)
  | inr d =>
      match ScreenTx screener ctx d (written (arrival_lines log d) w) with
      | (Ok v, w1) =>
          if vd_Block v
          then (Ok (Some (WriteError (rq_ID req) CodeTxRejected (rejection (Join (fd_Reason <$> vd_Findings v) "; ")))),
                written (log_lines log LevelWarn "blocked transaction"
                           (verdict_attrs d v (fd_Reason <$> vd_Findings v))) w1)
          else screen_requests screener log ctx reqs (passed log d v w1)
      | (Err e, w1) =>
          (Ok (Some (WriteError (rq_ID req) CodeTxRejected (rejection "screening failed"))),
           written (log_lines log LevelError "screening failed, rejecting transaction"
                      [("hash", AString (Hash_Hex (tx_Hash (d_Tx d)))); ("err", AError e)]) w1)
      | (Panic, w1) => (Panic, w1)
      end
  end.
Proof.
  cbn [screen_requests]. case_bool_decide; [done|].
  destruct (DecodeRawTransaction (rq_Params req)) as [e|d]; [done|].
  unfold mbind, M_bind, try_err. rewrite logTransaction_run.
  destruct (ScreenTx screener ctx d _) as [[v|e|] w1]; [|done..]. destruct (vd_Block v); [done|].
  unfold passed, passed_lines. rewrite length_fmap.
  destruct (vd_Findings v) as [|f fs]; [done|]. by rewrite bool_decide_eq_true_2 by (simpl; lia).
Qed.

Lemma screen_requests_none screener log ctx reqs w w' :
  screen_requests screener log ctx reqs w = (Ok None, w') ↔ cleared screener log ctx reqs w w'.
Proof.
  revert w. induction reqs as [|req reqs IH]; intros w.
  - unfold screen_requests, mret, M_ret. split; [intros [= ->]; constructor|]. intros H. by inversion H.
  - rewrite screen_requests_cons. case_bool_decide as Hm.
    + rewrite IH. split; [by constructor|]. intros H. by inversion H.
    + split.
      * destruct (DecodeRawTransaction (rq_Params req)) as [e|d] eqn:Hd; [done|].
        destruct (ScreenTx screener ctx d _) as [[v|e|] w1] eqn:Hs; [|done..].
        destruct (vd_Block v) eqn:Hv; [done|]. rewrite IH. by eapply cleared_send.
      * intros H. inversion H as [|? ? ? ? Hm' _|? ? d v ? w1 ? _ Hd Hs Hv Hc]; subst; [done|].
        rewrite Hd, Hs, Hv. by apply IH.
Qed.

(** The requests before the one that is rejected were all cleared. *)
Lemma screen_requests_app screener log ctx pre reqs w w1 :
  cleared screener log ctx pre w w1 →
  screen_requests screener log ctx (pre ++ reqs) w = screen_requests screener log ctx reqs w1.
Proof.
  induction 1 as [|req pre w w1 Hm _ IH|req pre d v w w2 w1 Hm Hd Hs Hv _ IH]; [done|..];
    cbn [app]; rewrite screen_requests_cons.
  - by rewrite bool_decide_eq_true_2.
  - rewrite bool_decide_eq_false_2 by tauto. by rewrite Hd, Hs, Hv.
Qed.

(** What is handed on is what arrived. *)
Lemma handler_body screener logger r w r' w' :
  NewHandler screener logger r w = (Ok (Forward r'), w') → hr_Body r' = hr_Body r.
Proof.
  unfold NewHandler, read_body. destruct (N.ltb _ _); [done|]. destruct (hr_BodyErr r); [done|].
  destruct (ParseRequests _); [done|]. intros (reply & w1 & _ & Hf)%bind_ok. destruct reply; [done|].
  by apply ret_ok in Hf as [[= ->] _].
Qed.

End proxy.

(** ** What is written about forwarded requests *)
Section trail.
Context `{G : Geth} {W : Type} `{LL : Lens W (list Line)} `{!LensLaws LL}.

(** The transactions among the requests with the verdicts that the screener gave: each is
    screened in the world that the ones before it and its own arrival record lead to. *)
Inductive judged (screener : Screener W) (log : Logger) (ctx : Ctx) : list Request → W → list (Decoded * Verdict) → Prop :=
| judged_nil w : judged screener log ctx [] w []
| judged_other req reqs w dvs :
    rq_Method req ≠ sendRawTransaction → judged screener log ctx reqs w dvs → judged screener log ctx (req :: reqs) w dvs
| judged_send req reqs d v w w1 dvs :
    rq_Method req = sendRawTransaction → DecodeRawTransaction (rq_Params req) = inr d →
    ScreenTx screener ctx d (written (arrival_lines log d) w) = (Ok v, w1) → vd_Block v = false →
    judged screener log ctx reqs (passed log d v w1) dvs → judged screener log ctx (req :: reqs) w ((d, v) :: dvs).

(** There is one such list. *)
Lemma judged_unique screener log ctx reqs w dvs dvs' :
  judged screener log ctx reqs w dvs → judged screener log ctx reqs w dvs' → dvs = dvs'.
Proof.
  intros Hj. revert dvs'. induction Hj as [w|req reqs w dvs Hm _ IH|req reqs d v w w1 dvs Hm Hd Hs Hv _ IH]; intros dvs' Hj'.
  - by inversion Hj'.
  - inversion Hj'; simplify_eq. by apply IH.
  - inversion Hj' as [|? ? ? ? Hm' _|? ? d' v' ? w1' dvs0 _ Hd' Hs' _ Hj0]; subst; [done|].
    rewrite Hd in Hd'. injection Hd' as <-. rewrite Hs in Hs'. injection Hs' as <- <-. f_equal. by apply IH.
Qed.

Definition trail (log : Logger) (dvs : list (Decoded * Verdict)) : list Line :=
  dvs ≫= λ dv, arrival_lines log dv.1 ++ passed_lines log dv.1 dv.2.

Lemma view_passed log d v (w : W) : view (passed log d v w) = view w ++ passed_lines log d v.
Proof.
  unfold passed, passed_lines. case_bool_decide; [by rewrite app_nil_r|]. apply view_written.
Qed.

Lemma cleared_trail screener log ctx reqs (w w' : W) :
  (∀ d x r x', ScreenTx screener ctx d x = (r, x') → (view x' : list Line) = view x) →
  cleared screener log ctx reqs w w' →
  ∃ dvs, judged screener log ctx reqs w dvs ∧ view w' = view w ++ trail log dvs.
Proof.
  intros Hquiet. induction 1 as [w|req reqs w w' Hm _ IH|req reqs d v w w1 w' Hm Hd Hs Hv _ IH].
  - exists []. split; [constructor|]. by rewrite app_nil_r.
  - destruct IH as (dvs & Hj & Hw). exists dvs. split; [by constructor|done].
  - destruct IH as (dvs & Hj & Hw). exists ((d, v) :: dvs). split; [by eapply judged_send|].
    rewrite Hw, view_passed, (Hquiet _ _ _ _ Hs), view_written. unfold trail. rewrite bind_cons. cbn [fst snd].
    by rewrite <-!app_assoc.
Qed.

End trail.

(** ** Claims *)
Section proxy_claims.
Context `{G : Geth} {W : Type} `{LL : Lens W (list Line)}.

(** C2: The proxy fails closed. It hands a request to the node if and only if the body was read within
    the size limit and parsed, and every [eth_sendRawTransaction] in it, in a batch too, was
    decoded and screened with a verdict that does not block; any decoding failure, screening
    error or block keeps the whole request away from the node. What is handed on is the
    request with exactly the bytes that were screened, and its headers as they came. *)
Theorem handler_forwards_iff (screener : Screener W) (logger : Logger) (r r' : HttpRequest) (w w' : W) :
  NewHandler screener logger r w = (Ok (Forward r'), w') ↔
  hr_BodyErr r = None ∧ (N.of_nat (length (hr_Body r)) ≤ maxBodySize)%N ∧
  r' = mkHttpRequest (hr_Context r) (hr_Header r) (hr_Body r) None (Z.of_nat (length (hr_Body r))) ∧
  ∃ reqs, ParseRequests (hr_Body r) = inr reqs ∧
    cleared screener (proxy_log logger) (hr_Context r) reqs w w'.
Proof.
  unfold NewHandler, read_body. destruct (N.ltb_spec maxBodySize (N.of_nat (length (hr_Body r)))) as [Hbig|Hsmall].
  { split; [done|]. intros (_ & Hle & _). lia. }
  destruct (hr_BodyErr r) as [e|]; [split; [done|]; by intros [? _]|].
  destruct (ParseRequests (hr_Body r)) as [e|reqs]; [split; [done|]; by intros (_ & _ & _ & ? & ? & _)|].
  unfold mbind, M_bind. destruct (screen_requests screener _ _ reqs w) as [[[text|]|e|] w1] eqn:Hs.
  - split; [done|]. intros (_ & _ & _ & reqs' & [= <-] & Hc%screen_requests_none). congruence.
  - unfold mret, M_ret, set_body. split.
    + intros [= <- <-]. split_and!; [done..|]. exists reqs. split; [done|]. by apply screen_requests_none.
    + intros (_ & _ & -> & reqs' & [= <-] & Hc%screen_requests_none). congruence.
  - split; [done|]. intros (_ & _ & _ & reqs' & [= <-] & Hc%screen_requests_none). congruence.
  - split; [done|]. intros (_ & _ & _ & reqs' & [= <-] & Hc%screen_requests_none). congruence.
Qed.

(** C26: The first transaction of a batch that cannot be passed decides the reply, under its own request
    id: -32602 when it cannot be decoded, -32003 when screening failed, and -32003 with the
    reasons of all the findings when the verdict blocks. Nothing after it is screened. The
    details of an error go to the log and are no part of the reply. *)
Theorem handler_rejects (screener : Screener W) (logger : Logger) (r : HttpRequest) (pre post : list Request)
    (req : Request) (w w1 : W)
    (Hread : read_body r = inr (hr_Body r))
    (Hparse : ParseRequests (hr_Body r) = inr (pre ++ req :: post))
    (Hpre : cleared screener (proxy_log logger) (hr_Context r) pre w w1)
    (Hmethod : rq_Method req = sendRawTransaction) :
  (∀ e, DecodeRawTransaction (rq_Params req) = inl e →
    NewHandler screener logger r w =
      (Ok (RpcReply (WriteError (rq_ID req) CodeInvalidParams (to_bytes "invalid transaction"))),
       written (log_lines (proxy_log logger) LevelWarn "rejected undecodable transaction" [("err", AError e)]) w1)) ∧
  (∀ d e w2, DecodeRawTransaction (rq_Params req) = inr d →
    ScreenTx screener (hr_Context r) d (written (arrival_lines (proxy_log logger) d) w1) = (Err e, w2) →
    NewHandler screener logger r w =
      (Ok (RpcReply (WriteError (rq_ID req) CodeTxRejected (rejection "screening failed"))),
       written (log_lines (proxy_log logger) LevelError "screening failed, rejecting transaction"
                  [("hash", AString (Hash_Hex (tx_Hash (d_Tx d)))); ("err", AError e)]) w2)) ∧
  (∀ d v w2, DecodeRawTransaction (rq_Params req) = inr d →
    ScreenTx screener (hr_Context r) d (written (arrival_lines (proxy_log logger) d) w1) = (Ok v, w2) → vd_Block v = true →
    NewHandler screener logger r w =
      (Ok (RpcReply (WriteError (rq_ID req) CodeTxRejected (rejection (Join (fd_Reason <$> vd_Findings v) "; ")))),
       written (log_lines (proxy_log logger) LevelWarn "blocked transaction" (verdict_attrs d v (fd_Reason <$> vd_Findings v))) w2)).
Proof.
  unfold NewHandler. rewrite Hread, Hparse. unfold mbind, M_bind.
  rewrite (screen_requests_app screener (proxy_log logger) (hr_Context r) pre (req :: post) w w1 Hpre), screen_requests_cons.
  rewrite bool_decide_eq_false_2 by tauto. split_and!.
  - by intros e ->.
  - by intros d e w2 -> ->.
  - by intros d v w2 -> -> ->.
Qed.

(** C27: Forwarding leaves a complete trail: when a request is forwarded over a screener that writes
    nothing itself, standard error grows by exactly one record for every transaction in it, in
    order, and after each one to which the screener gave a verdict with findings a second record
    with the score and all the reasons of that verdict, as far as the logger's level lets records
    of level Info through. The verdicts are the ones the screener returned during this run. *)
Theorem forwarded_trail `{!LensLaws LL} (screener : Screener W) (logger : Logger) (r r' : HttpRequest) (w w' : W)
    (Hquiet : ∀ d x res x', ScreenTx screener (hr_Context r) d x = (res, x') → (view x' : list Line) = view x)
    (Hforward : NewHandler screener logger r w = (Ok (Forward r'), w')) :
  ∃ reqs dvs, ParseRequests (hr_Body r') = inr reqs ∧
    judged screener (proxy_log logger) (hr_Context r) reqs w dvs ∧
    (∀ dvs', judged screener (proxy_log logger) (hr_Context r) reqs w dvs' → dvs' = dvs) ∧
    view w' = view w ++ trail (proxy_log logger) dvs.
Proof.
  unfold NewHandler in Hforward. destruct (read_body r) as [e|body] eqn:Hread; [done|].
  destruct (ParseRequests body) as [e|reqs] eqn:Hparse; [done|].
  apply bind_ok in Hforward as (reply & w2 & Hs & Hf). destruct reply; [done|]. apply ret_ok in Hf as [[= ->] <-].
  apply screen_requests_none in Hs. destruct (cleared_trail _ _ _ _ _ _ Hquiet Hs) as (dvs & Hj & Hw).
  exists reqs, dvs. split_and!; [done|done| |done]. intros dvs' Hj'. by eapply judged_unique.
Qed.

End proxy_claims.

(** ** Concrete instances *)
Module ProxyExamples.
Import Toy StillTime EventsExamples AnalysisExamples RulesExamples RiskExamples ScreenExamples JsonRpcExamples.

(** The world is standard error alone. *)
#[export] Instance line_lens : Lens (list Line) (list Line) := {| view := id; update s _ := s |}.
#[export] Instance line_laws : LensLaws line_lens.
Proof. by split. Qed.

(** Screening with the demo node and engine, which have no state. *)
Definition demo_screener {W} : Screener W := mkScreener (λ ctx d w,
  ((ScreenTx (NewScreener (RPCSimulator demo_client Second) demo_engine) ctx d tt).1, w)).

Definition demo_logger : Logger := mkLogger Text LevelInfo [].

(** The parameters of a transaction from 1 to 2 with the given calldata. *)
Definition raw_tx (data : list byte) : string := hexutil_Encode (bytes (addr 1) ++ bytes (addr 2) ++ data).

Definition demo_batch (data : list byte) : list client_request :=
  [chain_request;
   mkClientRequest (to_bytes "2.0") (TNumber (to_bytes "7")) sendRawTransaction (TArray [TString (to_bytes (raw_tx data))])].

Definition demo_request (data : list byte) : HttpRequest :=
  mkHttpRequest Background [("Host", "localhost")] (print (TArray (map request_tree (demo_batch data)))) None 0.

Lemma handler_rejects_witness :
  let req := request_of (mkClientRequest (to_bytes "2.0") (TNumber (to_bytes "7")) sendRawTransaction
                           (TArray [TString (to_bytes (raw_tx [xff]))])) in
  let log := proxy_log demo_logger in
  (∀ e, DecodeRawTransaction (rq_Params req) = inl e →
    NewHandler demo_screener demo_logger (demo_request [xff]) [] =
      (Ok (RpcReply (WriteError (rq_ID req) CodeInvalidParams (to_bytes "invalid transaction"))),
       written (log_lines log LevelWarn "rejected undecodable transaction" [("err", AError e)]) [])) ∧
  (∀ d e w2, DecodeRawTransaction (rq_Params req) = inr d →
    ScreenTx demo_screener Background d (written (arrival_lines log d) []) = (Err e, w2) →
    NewHandler demo_screener demo_logger (demo_request [xff]) [] =
      (Ok (RpcReply (WriteError (rq_ID req) CodeTxRejected (rejection "screening failed"))),
       written (log_lines log LevelError "screening failed, rejecting transaction"
                  [("hash", AString (Hash_Hex (tx_Hash (d_Tx d)))); ("err", AError e)]) w2)) ∧
  (∀ d v w2, DecodeRawTransaction (rq_Params req) = inr d →
    ScreenTx demo_screener Background d (written (arrival_lines log d) []) = (Ok v, w2) → vd_Block v = true →
    NewHandler demo_screener demo_logger (demo_request [xff]) [] =
      (Ok (RpcReply (WriteError (rq_ID req) CodeTxRejected (rejection (Join (fd_Reason <$> vd_Findings v) "; ")))),
       written (log_lines log LevelWarn "blocked transaction" (verdict_attrs d v (fd_Reason <$> vd_Findings v))) w2)).
Proof.
  apply (handler_rejects demo_screener demo_logger (demo_request [xff]) [request_of chain_request] []
    (request_of (mkClientRequest (to_bytes "2.0") (TNumber (to_bytes "7")) sendRawTransaction
       (TArray [TString (to_bytes (raw_tx [xff]))]))) [] []).
  - by vm_compute.
  - by vm_compute.
  - apply cleared_other; [by vm_compute|constructor].
  - done.
Defined.

(** The node refuses the first, cannot trace the second, and the third touches the sanctioned
    account 6. *)
Example demo_replies :
  (λ d, (NewHandler demo_screener demo_logger (demo_request d) []).1) <$> [[xff]; [xfe]; [x00]] =
  [Ok (RpcReply (json_text
     "{'jsonrpc':'2.0','id':7,'error':{'code':-32003,'message':'transaction rejected: simulation failed: insufficient funds'}}" ++ [x0a]));
   Ok (RpcReply (json_text
     "{'jsonrpc':'2.0','id':7,'error':{'code':-32003,'message':'transaction rejected: screening failed'}}" ++ [x0a]));
   Ok (RpcReply (json_text
     "{'jsonrpc':'2.0','id':7,'error':{'code':-32003,'message':'transaction rejected: sanctioned address 0x0000000000000000000000000000000000000006; contract deployed and called in the same transaction: 0x000000000000000000000000000000000000000a'}}" ++ [x0a]))].
Proof. by vm_compute. Qed.

(** A batch without transactions is forwarded. *)
Example demo_forward :
  let r := mkHttpRequest Background [] (print (request_tree chain_request)) None 0 in
  NewHandler demo_screener demo_logger r [] = (Ok (Forward (set_body r (hr_Body r))), []).
Proof. by vm_compute. Qed.

(** A screener that flags every transaction and lets it pass. *)
Definition flagging : Screener (list Line) := mkScreener (λ _ _,
  mret (mkVerdict false 40 [mkFinding "privilege-change" false 40 "privilege change: upgraded"])).

Lemma forwarded_trail_witness :
  ∃ reqs dvs, ParseRequests (hr_Body (set_body (demo_request [x00]) (hr_Body (demo_request [x00])))) = inr reqs ∧
    judged flagging (proxy_log demo_logger) Background reqs [] dvs ∧
    (∀ dvs', judged flagging (proxy_log demo_logger) Background reqs [] dvs' → dvs' = dvs) ∧
    view (NewHandler flagging demo_logger (demo_request [x00]) []).2 = view [] ++ trail (proxy_log demo_logger) dvs.
Proof.
  apply (forwarded_trail flagging demo_logger (demo_request [x00])
    (set_body (demo_request [x00]) (hr_Body (demo_request [x00])))
    [] (NewHandler flagging demo_logger (demo_request [x00]) []).2).
  - by intros d x res x' [= _ <-].
  - by vm_compute.
Defined.

(** Two records for the flagged transaction: its arrival and its reasons; none at level Warn. *)
Example demo_trail :
  (λ lvl, length (NewHandler flagging (mkLogger JSON lvl []) (demo_request [x00]) []).2) <$> [LevelInfo; LevelWarn] = [2; 0].
Proof. by vm_compute. Qed.

End ProxyExamples.
