(* ===== verification/Pipeline.v ===== *)
(** * The assembled program

    [cmd/firewall/main.go]: how the components are wired into the screening pipeline
    ([newScreener] and the constructors it calls), and what holds of the assembled program
    whatever the node and the oracle answer. The connections are parameters: dialling the
    oracle gives a [ContractCaller]; the node's simulator, age and balance readers are part of
    the configuration. *)

From Stdlib Require Import ZArith Lia.
From S2P Require Import Prelude GoLib Deadline Json JsonProofs JsonRpc Logging Geth Events TxDecode Simulate Flows FlashLoans Analysis.
From S2P Require Import ChainState Sanctions SanctionsCache Rules RulesSpec DeployCall Risk Screen Proxy.

(** Durations are nanoseconds. *)
Definition oracleVerifyTimeout : Z := 10 * Second.
Definition oracleCallTimeout : Z := 2 * Second.
Definition oracleCacheTTL : Z := 10 * Minute.
Definition oracleCacheSize : Z := 100000.

Definition upstreamVerifyTimeout : Z := 10 * Second.
Definition simulateTimeout : Z := 5 * Second.
Definition freshnessTimeout : Z := 2 * Second.
Definition freshnessCacheSize : Z := 100000.
Definition balanceTimeout : Z := 2 * Second.

Definition getEnv (env : string → string) (key fallback : string) : string :=
  if bool_decide (env key ≠ "") then env key else fallback.

Section wiring.
Context `{G : Geth} {W : Type} `{!Clock W} `{LE : Lens W Entries} `{LK : Lens W (gset Address)} `{LL : Lens W (list Line)}.

(** The connection to an oracle node. *)
Record OracleClient := mkOracleClient {
  oc_caller : ContractCaller W;
  oc_Close : M W ()
}.

(** The outside world of [newScreener]: the file system and [ethclient.DialContext]. *)
Record Host := mkHost {
  h_open : string → error + (list byte * option error);
  h_dial : Ctx → string → M W OracleClient
}.

Record screenerConfig := mkScreenerConfig {
  cfg_sanctionsFile : string;
  cfg_oracleRPC : string;
  cfg_threshold : Z;
  cfg_outflowPercent : Z;
  cfg_simulator : Simulator W;
  cfg_freshness : contractAge W;
  cfg_balances : BalanceReader W
}.

Definition newSimulator (client : RpcClient W) : M W (Simulator W) :=
  ctx ← WithTimeout Background upstreamVerifyTimeout;
  _ ← Verify_simulator client simulateTimeout ctx;
  mret (RPCSimulator client simulateTimeout).

Definition newFreshness (reader : CodeReader W) (window : Z) : M W (contractAge W) :=
  ctx ← WithTimeout Background upstreamVerifyTimeout;
  _ ← wrap_err "%w (set FRESH_CONTRACT_BLOCKS below the node's state history)" [] (Verify_freshness reader window ctx);
  of_result (NewCachedFreshness (RPCFreshness reader window freshnessTimeout) freshnessCacheSize).

Definition newOracle (h : Host) (rpcURL : string) : M W (Checker W) :=
  ctx ← WithTimeout Background oracleVerifyTimeout;
  client ← wrap_err "SANCTIONS_ORACLE_RPC: %w" [] (h_dial h ctx rpcURL);
  r ← try_err (Verify_oracle (oc_caller client) ChainalysisOracle ctx);
  match r with
  | inl err => _ ← oc_Close client; fail err
  | inr _ => mret (OracleChecker (oc_caller client) ChainalysisOracle oracleCallTimeout)
  end.

(** The rules in the order of [newScreener]. *)
Definition standard_rules (checker : Checker W) (cfg : screenerConfig) (outflows : OutflowDetector) : list (Rule W) :=
  [Sanctioned checker; PrivilegeChangeRule; DeployAndCall;
   DelegatecallToFresh (age_fresh (cfg_freshness cfg)); UnlimitedApproval (age_fresh (cfg_freshness cfg));
   NFTDrainer (age_reader (cfg_freshness cfg)); LargeOutflow outflows; FlashLoanOutflow outflows].

Definition newScreener (h : Host) (cfg : screenerConfig) (log : Logger) : M W (Screener W) :=
  list ← of_result (LoadListChecker (h_open h) (cfg_sanctionsFile cfg));
  _ ← LogAt log LevelInfo "loaded sanctions list"
        [("file", AString (cfg_sanctionsFile cfg)); ("addresses", AInt (Z.of_nat (ListChecker_Len list)))];
  checkers ← (if bool_decide (cfg_oracleRPC cfg ≠ "") then
                oracle ← newOracle h (cfg_oracleRPC cfg);
                _ ← LogAt log LevelInfo "Chainalysis sanctions oracle enabled"
                      [("contract", AString (Address_Hex ChainalysisOracle))];
                mret [ListChecker list; CachedChecker oracle oracleCacheTTL oracleCacheSize time_Now]
              else
                _ ← (if bool_decide (ListChecker_Len list = 0)
                     then LogAt log LevelWarn
                            "sanctions list is empty and the oracle is disabled, no address will be blocked" []
                     else mret ());
                mret [ListChecker list]);
  outflows ← of_result (NewOutflowDetector (age_reader (cfg_freshness cfg)) (cfg_balances cfg) (cfg_outflowPercent cfg));
  engine ← of_result (NewEngine (cfg_threshold cfg) (standard_rules (AnyChecker checkers) cfg outflows));
  mret (NewScreener (cfg_simulator cfg) engine).

Lemma newSimulator_ok client w sim w' :
  newSimulator client w = (Ok sim, w') → sim = RPCSimulator client simulateTimeout.
Proof. unfold newSimulator. by intros (ctx & w1 & _ & (u & w2 & _ & [-> _]%ret_ok)%bind_ok)%bind_ok. Qed.

Lemma newOracle_ok h rpcURL w o w' :
  newOracle h rpcURL w = (Ok o, w') →
  ∃ ctx client w1, h_dial h ctx rpcURL w = (Ok client, w1) ∧
    o = OracleChecker (oc_caller client) ChainalysisOracle oracleCallTimeout.
Proof.
  unfold newOracle. intros (ctx & w1 & Hctx & (client & w2 & Hdial%wrap_ok & H)%bind_ok)%bind_ok.
  injection Hctx as _ <-. apply bind_ok in H as (r & w3 & _ & H). exists ctx, client, w2. split; [done|].
  destruct r; [by apply bind_ok in H as (u & w4 & _ & H)|]. by apply ret_ok in H as [-> _].
Qed.

(** The checkers after the list: none without an oracle address, and otherwise the cached oracle
    that was dialled there. *)
Definition oracle_checkers (h : Host) (url : string) (cs : list (Checker W)) : Prop :=
  if bool_decide (url ≠ "") then
    ∃ ctx wa client wb, h_dial h ctx url wa = (Ok client, wb) ∧
      cs = [CachedChecker (OracleChecker (oc_caller client) ChainalysisOracle oracleCallTimeout)
              oracleCacheTTL oracleCacheSize time_Now]
  else cs = [].

Definition oracle_part (h : Host) (cs : list (Checker W)) : Prop :=
  cs = [] ∨ ∃ ctx url wa client wb, h_dial h ctx url wa = (Ok client, wb) ∧
    cs = [CachedChecker (OracleChecker (oc_caller client) ChainalysisOracle oracleCallTimeout)
            oracleCacheTTL oracleCacheSize time_Now].

(** What a pipeline that was built consists of. *)
Lemma newScreener_parts h cfg log w s w' :
  newScreener h cfg log w = (Ok s, w') →
  ∃ set cs, LoadListChecker (h_open h) (cfg_sanctionsFile cfg) = inr set ∧ oracle_checkers h (cfg_oracleRPC cfg) cs ∧
    (0 < cfg_threshold cfg)%Z ∧ (1 ≤ cfg_outflowPercent cfg ≤ 100)%Z ∧
    s = NewScreener (cfg_simulator cfg)
      (mkEngine (standard_rules (AnyChecker (ListChecker set :: cs)) cfg
        (mkOutflowDetector (age_reader (cfg_freshness cfg)) (cfg_balances cfg) (cfg_outflowPercent cfg))) (cfg_threshold cfg)).
Proof.
  unfold newScreener. intros (set & w1 & [Hlist _]%of_result_ok & H)%bind_ok.
  apply bind_ok in H as (u0 & w0 & _ & H).
  apply bind_ok in H as (checkers & w2 & Hcs & H).
  apply bind_ok in H as (d & w3 & [Hd _]%of_result_ok & H).
  apply bind_ok in H as (e & w4 & [He _]%of_result_ok & H). apply ret_ok in H as [-> _].
  assert (∃ cs, checkers = ListChecker set :: cs ∧ oracle_checkers h (cfg_oracleRPC cfg) cs) as (cs & -> & Hpart).
  { unfold oracle_checkers.
    case_bool_decide; [apply bind_ok in Hcs as (o & w5 & (ctx & client & w7 & Hdial & ->)%newOracle_ok & Hcs)|];
      apply bind_ok in Hcs as (u1 & w6 & _ & [-> _]%ret_ok); eexists; (split; [done|]);
      [by exists ctx, w0, client, w7|done]. }
  unfold NewOutflowDetector in Hd. destruct (Z.ltb _ 1 || Z.ltb 100 _) eqn:Hp; [done|]. split_bool.
  unfold NewEngine in He. destruct (Z.leb_spec (cfg_threshold cfg) 0); [done|].
  injection Hd as <-. injection He as <-. exists set, cs. split_and!; [done|done|lia..|done].
Qed.

Lemma newScreener_ok h cfg log w s w' :
  newScreener h cfg log w = (Ok s, w') →
  ∃ set cs, LoadListChecker (h_open h) (cfg_sanctionsFile cfg) = inr set ∧ oracle_part h cs ∧
    (0 < cfg_threshold cfg)%Z ∧ (1 ≤ cfg_outflowPercent cfg ≤ 100)%Z ∧
    s = NewScreener (cfg_simulator cfg)
      (mkEngine (standard_rules (AnyChecker (ListChecker set :: cs)) cfg
        (mkOutflowDetector (age_reader (cfg_freshness cfg)) (cfg_balances cfg) (cfg_outflowPercent cfg))) (cfg_threshold cfg)).
Proof.
  intros (set & cs & Hlist & Hcs & H)%newScreener_parts. exists set, cs. split_and!; [done| |apply H..].
  unfold oracle_checkers in Hcs. case_bool_decide; [|by left]. right. destruct Hcs as (ctx & wa & client & wb & ?).
  by exists ctx, (cfg_oracleRPC cfg), wa, client, wb.
Qed.

(** ** Sanctioned addresses are never passed *)

Lemma AnyChecker_list set (cs : list (Checker W)) ctx x w b w' :
  x ∈ set → AnyChecker_IsSanctioned (ListChecker set :: cs) ctx x w = (Ok b, w') → b = true.
Proof.
  intros Hx. cbn [AnyChecker_IsSanctioned]. unfold mbind, M_bind, ListChecker. cbn [IsSanctioned].
  unfold mret, M_ret. rewrite bool_decide_eq_true_2 by done. by intros [= <- <-].
Qed.

(** Whatever the other checkers do, a run of the loop that succeeds reports every listed address. *)
Lemma sanctioned_loop set (cs : list (Checker W)) ctx addrs acc w fs w' :
  foldM (sanctioned_step (AnyChecker (ListChecker set :: cs)) ctx) addrs acc w = (Ok fs, w') →
  (∀ f, f ∈ acc → f ∈ fs) ∧ ∀ x, x ∈ addrs → x ∈ set → sanctioned_finding x ∈ fs.
Proof.
  revert acc w. induction addrs as [|y addrs IH]; intros acc w; cbn [foldM].
  - intros [-> _]%ret_ok. split; [done|]. by intros x ?%not_elem_of_nil.
  - intros (acc' & w1 & (hit & w2 & Hhit%wrap_ok & [-> _]%ret_ok)%bind_ok & [Hacc Hin]%IH)%bind_ok. split.
    + intros f Hf. apply Hacc. destruct hit; [|done]. apply elem_of_app. by left.
    + intros x. rewrite elem_of_cons. intros [->|Hx]; [|by apply Hin]. intros Hset. apply Hacc.
      apply AnyChecker_list in Hhit; [|done]. subst hit. apply elem_of_app. right. by apply list_elem_of_singleton.
Qed.

Lemma Sanctioned_reports_list set (cs : list (Checker W)) ctx (a : Analysis) w fs w' x :
  Evaluate (Sanctioned (AnyChecker (ListChecker set :: cs))) ctx a w = (Ok fs, w') →
  x ∈ a_Addresses a → x ∈ set → sanctioned_finding x ∈ fs.
Proof. intros Hrun. by apply (sanctioned_loop set cs ctx (a_Addresses a) [] w fs w'). Qed.

(** A verdict of the standard engine that does not block leaves no listed address. *)
Lemma standard_engine_clean set (cs : list (Checker W)) cfg d threshold ctx (a : Analysis) w v w' :
  Engine_Evaluate (mkEngine (standard_rules (AnyChecker (ListChecker set :: cs)) cfg d) threshold) ctx a w = (Ok v, w') →
  vd_Block v = false → ∀ x, x ∈ a_Addresses a → x ∉ set.
Proof.
  intros (fss & Hrun & ->)%Engine_Evaluate_ok Hb x Hx Hset. cbn [e_rules] in Hrun.
  inversion Hrun as [|r rs w0 w1 w2 fs fss' Hr _]; subst.
  assert (sanctioned_finding x ∈ concat (fs :: fss')) as Hin
    by (simpl; apply elem_of_app; left; by eapply Sanctioned_reports_list).
  cbn [verdict_of vd_Block] in Hb. apply orb_false_iff in Hb as [Hb _].
  assert (has_hard_block (concat (fs :: fss')) = true); [|congruence].
  unfold has_hard_block. apply existsb_exists. exists (sanctioned_finding x). split; [|done]. by apply list_elem_of_In.
Qed.

(** ** The checkers together, and the engine *)
Section specs.
Context `{!LensLaws LE} (I : W → Prop) (E : error → Prop) `{!WrapClosed E}.
Context (Hframe : ∀ (k : Entries) w, I w → I (update k w)).

(** The cache of the oracle's answers holds nothing that is not so, and no more than it may. *)
Definition sound_entries (listed : Address → bool) (w : W) : Prop := cache_inv I listed oracleCacheSize w.

(** Computations that leave the cache as it is keep that up. *)
Lemma triple_sound {A} (m : M W A) (Q : A → Prop) listed :
  (∀ k, triple (λ w, I w ∧ (view w : Entries) = k) m Q E) → triple (sound_entries listed) m Q E.
Proof using Type.
  intros Hm w [Hw Hk]. specialize (Hm (view w) w (conj Hw eq_refl)). unfold sound_entries, cache_inv.
  destruct (m w) as [[a|e|] w']; [| |done]; destruct Hm as [[Hw' ->] HQ]; done.
Qed.

(** What the list and, with an address for it, the oracle say. *)
Definition says (url : string) (set : gset Address) (listed : Address → bool) (x : Address) : bool :=
  bool_decide (x ∈ set) || bool_decide (url ≠ "") && listed x.

Lemma checkers_spec h url set cs listed :
  oracle_checkers h url cs →
  (∀ c wa client wb, h_dial h c url wa = (Ok client, wb) → ∀ k ctx x,
     triple (λ w, I w ∧ (view w : Entries) = k)
       (oracle_CallContract (oc_caller client) ctx (mkCallMsg ChainalysisOracle (isSanctionedCalldata x)) None)
       (λ out, out = bool_word (listed x)) E) →
  CheckerSpec (sound_entries listed) E (AnyChecker (ListChecker set :: cs)) (says url set listed).
Proof using LensLaws0 WrapClosed0 Hframe.
  unfold oracle_checkers, says. intros Hcs Horacle ctx x. case_bool_decide as Hurl.
  - destruct Hcs as (c & wa & client & wb & Hdial & ->).
    eapply triple_post; [apply (AnyChecker_spec _ E _ [λ x, bool_decide (x ∈ set); listed])|].
    + apply Forall2_cons_2; [apply ListChecker_spec|]. apply Forall2_cons_2; [|by apply Forall2_nil_2].
      apply CachedChecker_spec; [done| |].
      * intros k. apply OracleChecker_spec; [done|]. intros c' y. by eapply Horacle.
      * intros k w Hw. by split.
    + intros b ->. cbn. by rewrite orb_false_r.
  - rewrite Hcs. eapply triple_post; [apply (AnyChecker_spec _ E _ [λ x, bool_decide (x ∈ set)])|].
    + apply Forall2_cons_2; [apply ListChecker_spec|by apply Forall2_nil_2].
    + intros b ->. done.
Qed.

End specs.

(** The engine over lookups with fixed answers. *)
Lemma standard_engine_spec (I : W → Prop) (E : error → Prop) `{!WrapClosed E} checker S cfg threshold percent st bal ctx a :
  CheckerSpec I E checker S → StatusSpec I E (age_reader (cfg_freshness cfg)) st →
  FreshSpec I E (age_fresh (cfg_freshness cfg)) st → BalanceSpec I E (cfg_balances cfg) bal →
  triple I (Engine_Evaluate (mkEngine (standard_rules checker cfg
      (mkOutflowDetector (age_reader (cfg_freshness cfg)) (cfg_balances cfg) percent)) threshold) ctx a)
    (λ v, v = verdict_of threshold
       (sanctioned_findings S a ++ privilege_findings a ++ deploy_findings a ++ delegate_findings st a ++
        approval_findings st a ++ grant_findings st a ++ large_findings st bal percent a ++ flash_findings st bal percent a)) E.
Proof.
  intros Hchecker Hstatus Hfresh Hbal.
  pose proof (Engine_Evaluate_triple I E (mkEngine (standard_rules checker cfg
      (mkOutflowDetector (age_reader (cfg_freshness cfg)) (cfg_balances cfg) percent)) threshold)
    [sanctioned_findings S; privilege_findings; deploy_findings; delegate_findings st; approval_findings st;
     grant_findings st; large_findings st bal percent; flash_findings st bal percent] ctx a) as Heng.
  cbn [e_rules e_threshold mbind list_bind] in Heng. rewrite app_nil_r in Heng. apply Heng.
  unfold standard_rules. repeat (apply Forall2_cons_2); [apply _..|by apply Forall2_nil_2].
Qed.

(** ** The score of the standard rules *)

Lemma report_weight name weight prefix parts :
  (0 ≤ weight)%Z → (0 ≤ weight_sum (report name weight prefix parts) ≤ weight)%Z.
Proof. intros Hw. unfold report. case_bool_decide; cbn; lia. Qed.

(** A rule whose runs add at most [cap] to the score. *)
Definition weighs (cap : Z) (r : Rule W) : Prop :=
  ∀ ctx a w fs w', Evaluate r ctx a w = (Ok fs, w') → (0 ≤ weight_sum fs ≤ cap)%Z.

Lemma weighs_sanctioned checker : weighs 0 (Sanctioned checker).
Proof.
  intros ctx a w fs w'. cbn [Sanctioned Evaluate]. unfold Sanctioned_Evaluate.
  assert (∀ addrs acc w, weight_sum acc = 0%Z →
    foldM (sanctioned_step checker ctx) addrs acc w = (Ok fs, w') → weight_sum fs = 0%Z) as Hloop.
  { induction addrs as [|y addrs IH]; intros acc w0 Hacc; cbn [foldM]; [by intros [-> _]%ret_ok|].
    intros (acc' & w1 & (hit & w2 & _ & [-> _]%ret_ok)%bind_ok & H)%bind_ok. apply IH in H; [done|].
    destruct hit; [|done]. rewrite weight_sum_app, Hacc. done. }
  intros H. rewrite (Hloop _ [] w eq_refl H). lia.
Qed.

Lemma weighs_standard checker cfg d :
  Forall2 weighs [0; 40; 20; 20; 20; 20; 40; 40]%Z (standard_rules checker cfg d).
Proof.
  unfold standard_rules. repeat (apply Forall2_cons_2); [apply weighs_sanctioned|..|by apply Forall2_nil_2];
    intros ctx a w fs w' H; cbn [PrivilegeChangeRule DeployAndCall DelegatecallToFresh UnlimitedApproval NFTDrainer
      LargeOutflow FlashLoanOutflow Evaluate] in H.
  - apply ret_ok in H as [-> _]. by apply report_weight.
  - apply bind_ok in H as (s & w1 & _ & [-> _]%ret_ok). by apply report_weight.
  - apply bind_ok in H as (s & w1 & _ & [-> _]%ret_ok). by apply report_weight.
  - apply bind_ok in H as (s & w1 & _ & [-> _]%ret_ok). by apply report_weight.
  - apply bind_ok in H as (s & w1 & _ & [-> _]%ret_ok). by apply report_weight.
  - apply bind_ok in H as (s & w1 & _ & (p & w2 & _ & [-> _]%ret_ok)%bind_ok). by apply report_weight.
  - unfold FlashLoanOutflow_Evaluate in H. case_bool_decide; [apply ret_ok in H as [-> _]; cbn; lia|].
    apply bind_ok in H as (s & w1 & _ & (p & w2 & _ & [-> _]%ret_ok)%bind_ok). by apply report_weight.
Qed.

Lemma rules_run_weight caps rs ctx (a : Analysis) w fss w' :
  Forall2 weighs caps rs → rules_run ctx a rs w fss w' → (0 ≤ weight_sum (concat fss) ≤ list_sum_Z caps)%Z.
Proof.
  intros Hcaps. revert w fss. induction Hcaps as [|cap r caps rs Hr _ IH]; intros w fss Hrun.
  - inversion Hrun. subst. cbn. lia.
  - inversion Hrun as [|? ? ? w1 ? fs fss' He Hrun']; subst. apply Hr in He. apply IH in Hrun'.
    simpl. rewrite weight_sum_app. lia.
Qed.

End wiring.
Arguments OracleClient W : clear implicits.
Arguments Host W : clear implicits.
Arguments screenerConfig {G} W.

(** ** Claims *)
Section pipeline_claims.
Context `{G : Geth} {W : Type} `{!Clock W} `{LE : Lens W Entries} `{LL : Lens W (list Line)}.

(** An address a transaction touches: its sender, its recipient, the target of a call that takes
    effect, or the recipient of a token transfer logged by one. *)
Definition touched (d : Decoded) (t : CallFrame) (x : Address) : Prop :=
  x = d_From d ∨ tx_To (d_Tx d) = Some x ∨
  (∃ f, takes_effect t f ∧ cf_To f = Some x) ∨
  (∃ f l tr, takes_effect t f ∧ l ∈ cf_Logs f ∧
    DecodeTransfer (log_Address l) (log_Topics l) (log_Data l) = Some (Some tr) ∧ tr_To tr = x).

Lemma touched_addresses d t x : touched d t x ↔ x ∈ a_Addresses (analysis_of d t).
Proof.
  unfold touched, analysis_of. cbn [a_Addresses]. rewrite elem_of_add_new, FromTx_addresses, elem_of_touched.
  unfold log_transfer. setoid_rewrite DecodeTransfer_ref. setoid_rewrite (inj_iff Some). tauto.
Qed.

Lemma cleared_screened (s : Screener W) log ctx reqs w w' req :
  cleared s log ctx reqs w w' → req ∈ reqs → rq_Method req = sendRawTransaction →
  ∃ d v w1 w2, DecodeRawTransaction (rq_Params req) = inr d ∧ ScreenTx s ctx d w1 = (Ok v, w2) ∧ vd_Block v = false.
Proof.
  induction 1 as [|q reqs w w' Hm _ IH|q reqs d v w w1 w' Hm Hd Hs Hv _ IH]; rewrite ?elem_of_nil, ?elem_of_cons;
    [done|..]; (intros [->|Hin] Hreq; [|by apply IH]); [done|]. by exists d, v, (written (arrival_lines log d) w), w1.
Qed.

(** No transaction that touches a listed address reaches the node. When the pipeline was built and
    its proxy hands a request on, every transaction in it was decoded and simulated, and no
    address it touches (its sender and recipient, every call target and token recipient of the
    simulated trace outside reverted calls) is on the sanctions file, whatever the node, the
    oracle and the caches answered. *)
Theorem forwarded_transactions_clean (h : Host W) (cfg : screenerConfig W) (log logger : Logger) (w0 w1 w w' : W)
    (s : Screener W) (r r' : HttpRequest)
    (Hbuilt : newScreener h cfg log w0 = (Ok s, w1))
    (Hforward : NewHandler s logger r w = (Ok (Forward r'), w')) :
  ∃ set reqs, LoadListChecker (h_open h) (cfg_sanctionsFile cfg) = inr set ∧
    ParseRequests (hr_Body r') = inr reqs ∧
    ∀ req, req ∈ reqs → rq_Method req = sendRawTransaction →
      ∃ d trace wa wb, DecodeRawTransaction (rq_Params req) = inr d ∧
        Simulate (cfg_simulator cfg) (hr_Context r) d wa = (Ok trace, wb) ∧
        ∀ x, touched d trace x → x ∉ set.
Proof.
  apply newScreener_ok in Hbuilt as (set & cs & Hlist & _ & _ & _ & ->).
  unfold NewHandler in Hforward. destruct (read_body r) as [e|body] eqn:Hread; [done|].
  destruct (ParseRequests body) as [e|reqs] eqn:Hparse; [done|].
  apply bind_ok in Hforward as (reply & w2 & Hs & Hf). destruct reply; [done|]. apply ret_ok in Hf as [[= ->] _].
  apply screen_requests_none in Hs. exists set, reqs. split_and!; [done..|].
  intros req Hin Hm. destruct (cleared_screened _ _ _ _ _ _ _ Hs Hin Hm) as (d & v & wa & wb & Hd & Hscreen & Hv).
  apply Screen_pass in Hscreen as (trace & wc & Hsim & Heng); [|done].
  exists d, trace, wa, wc. split_and!; [done..|]. intros x Hx.
  eapply standard_engine_clean; [exact Heng|done|]. by apply touched_addresses.
Qed.

(** C40: The score of a verdict by the assembled engine never overflows: whatever the transaction, each
    of the seven weighted rules counts at most once, so the score is the exact sum of the
    weights and lies between 0 and 200. *)
Theorem standard_score_bounded (checker : Checker W) (cfg : screenerConfig W) (d : OutflowDetector)
    (threshold : Z) (ctx : Ctx) (a : Analysis) (w w' : W) (v : Verdict)
    (Hrun : Engine_Evaluate (mkEngine (standard_rules checker cfg d) threshold) ctx a w = (Ok v, w')) :
  vd_Score v = weight_sum (vd_Findings v) ∧ (0 ≤ vd_Score v ≤ 200)%Z ∧
  vd_Block v = has_hard_block (vd_Findings v) || Z.leb threshold (weight_sum (vd_Findings v)).
Proof.
  apply Engine_Evaluate_ok in Hrun as (fss & Hrun & ->). cbn [verdict_of vd_Score vd_Findings vd_Block e_threshold].
  apply (rules_run_weight _ _ ctx a w fss w' (weighs_standard checker cfg d)) in Hrun.
  change (list_sum_Z [0; 40; 20; 20; 20; 20; 40; 40]%Z) with 200%Z in Hrun. rewrite wrap_i64_id by lia. split_and!; [done|lia..|done].
Qed.

(** C4: The assembled pipeline refines its specification. Over a simulator, an age reader and a balance
    reader that answer [trace_of], [st] and [bal], and, when an oracle is configured, an oracle
    contract that answers [listed], screening a transaction returns exactly the verdict on what
    the eight reference rules report for the analysis of its trace, in order: the sanctions rule
    for addresses on the file or, with an oracle, listed by it, whether it is asked or its cache
    is. It returns an error only for a failed lookup, never panics, and leaves the cache sound
    for the next transaction; an empty cache is. *)
Theorem pipeline_verdict_exact `{!LensLaws LE} (I : W → Prop) (E : error → Prop) `{!WrapClosed E}
    (h : Host W) (cfg : screenerConfig W) (log : Logger) (w0 w1 : W) (s : Screener W) (set : gset Address)
    (trace_of : Decoded → CallFrame) (st : Address → Status) (bal : Address → Address → option Z)
    (listed : Address → bool) (ctx : Ctx) (d : Decoded)
    (Hbuilt : newScreener h cfg log w0 = (Ok s, w1))
    (Hlist : LoadListChecker (h_open h) (cfg_sanctionsFile cfg) = inr set)
    (Hframe : ∀ (k : Entries) w, I w → I (update k w))
    (Hsim : ∀ k, triple (λ w, I w ∧ (view w : Entries) = k) (Simulate (cfg_simulator cfg) ctx d) (λ t, t = trace_of d) E)
    (Hstatus : ∀ k, StatusSpec (λ w, I w ∧ (view w : Entries) = k) E (age_reader (cfg_freshness cfg)) st)
    (Hfresh : ∀ k, FreshSpec (λ w, I w ∧ (view w : Entries) = k) E (age_fresh (cfg_freshness cfg)) st)
    (Hbal : ∀ k, BalanceSpec (λ w, I w ∧ (view w : Entries) = k) E (cfg_balances cfg) bal)
    (Horacle : ∀ c wa client wb, h_dial h c (cfg_oracleRPC cfg) wa = (Ok client, wb) → ∀ k c' x,
       triple (λ w, I w ∧ (view w : Entries) = k)
         (oracle_CallContract (oc_caller client) c' (mkCallMsg ChainalysisOracle (isSanctionedCalldata x)) None)
         (λ out, out = bool_word (listed x)) E)
    (HE : ∀ e, E e → as_node_error e = None) :
  let a := analysis_of d (trace_of d) in
  (∀ w, I w → (view w : Entries) = ∅ → sound_entries I listed w) ∧
  triple (sound_entries I listed) (ScreenTx s ctx d) (λ v, v = verdict_of (cfg_threshold cfg)
    (sanctioned_findings (λ x, bool_decide (x ∈ set) || bool_decide (cfg_oracleRPC cfg ≠ "") && listed x) a ++
     privilege_findings a ++ deploy_findings a ++
     delegate_findings st a ++ approval_findings st a ++ grant_findings st a ++
     large_findings st bal (cfg_outflowPercent cfg) a ++ flash_findings st bal (cfg_outflowPercent cfg) a)) E.
Proof.
  intros a. split.
  { intros w Hw Hempty. split; [done|]. rewrite Hempty. split; [|by rewrite map_size_empty].
    intros x e. by rewrite lookup_empty. }
  apply newScreener_parts in Hbuilt as (set' & cs & Hlist' & Hcs & _ & _ & ->).
  rewrite Hlist in Hlist'. injection Hlist' as <-.
  pose proof (checkers_spec I E Hframe h _ set cs listed Hcs Horacle) as Hchecker.
  cbn [NewScreener ScreenTx]. intros w Hw. rewrite Screen_run.
  pose proof (triple_sound I E _ _ listed Hsim w Hw) as Hs.
  destruct (Simulate (cfg_simulator cfg) ctx d w) as [[t|err|] w6]; [| |done]; destruct Hs as [Hw6 Ht]; [subst t|by rewrite (HE err Ht)].
  refine (standard_engine_spec (sound_entries I listed) E _ _ cfg (cfg_threshold cfg) (cfg_outflowPercent cfg)
    st bal ctx a Hchecker _ _ _ w6 Hw6).
  - intros c x. by apply triple_sound; intros k; apply Hstatus.
  - intros c x. by apply triple_sound; intros k; apply Hfresh.
  - intros c x y. by apply triple_sound; intros k; apply Hbal.
Qed.

End pipeline_claims.

(** ** Concrete instances *)
Module PipelineExamples.
Import Toy EventsExamples AnalysisExamples RulesExamples JsonRpcExamples.

(** The world: the two caches, standard error and the time. *)
Record World := mkWorld {
  w_entries : Entries;
  w_known : gset Address;
  w_stderr : list Line;
  w_time : Z
}.
Definition world0 : World := mkWorld ∅ ∅ [] 0.

#[export] Instance world_clock : Clock World := w_time.
#[export] Instance entries_lens : Lens World Entries :=
  {| view := w_entries; update s w := mkWorld s (w_known w) (w_stderr w) (w_time w) |}.
#[export] Instance known_lens : Lens World (gset Address) :=
  {| view := w_known; update s w := mkWorld (w_entries w) s (w_stderr w) (w_time w) |}.
#[export] Instance stderr_lens : Lens World (list Line) :=
  {| view := w_stderr; update s w := mkWorld (w_entries w) (w_known w) s (w_time w) |}.

#[export] Instance entries_laws : LensLaws entries_lens.
Proof. split; [done|by intros []|done]. Qed.
#[export] Instance known_laws : LensLaws known_lens.
Proof. split; [done|by intros []|done]. Qed.
#[export] Instance stderr_laws : LensLaws stderr_lens.
Proof. split; [done|by intros []|done]. Qed.

Definition file_text : list byte := to_bytes "0x0000000000000000000000000000000000000006 # mixer".

Definition demo_host : Host World := mkHost
  (λ path, if bool_decide (path = "sanctions.txt") then inr (file_text, None) else inl (Errorf "no such file" []))
  (λ _ _, fail (Errorf "connection refused" [])).

(** A node that traces a plain call for empty calldata, and the demo otherwise. *)
Definition plain_trace (d : Decoded) : CallFrame :=
  match tx_Data (d_Tx d) with [] => node "CALL" 1 2 "" [erc20_log 9 5 8 100] [] | _ => demo_trace end.

Definition demo_config : screenerConfig World := mkScreenerConfig "sanctions.txt" "" 50 50
  (mkSimulator World (λ _ d, mret (plain_trace d)))
  (mkContractAge (IsFresh_of (mkStatusReader (λ _ x, mret (demo_st x)))) (mkStatusReader (λ _ x, mret (demo_st x))))
  (mkBalanceReader (λ _ x y, mret (demo_bal x y))).

Definition demo_set : gset Address := NewListChecker [addr 6].
Definition demo_detector : OutflowDetector :=
  mkOutflowDetector (age_reader (cfg_freshness demo_config)) (cfg_balances demo_config) 50.
Definition demo_pipeline : Screener World :=
  NewScreener (cfg_simulator demo_config)
    (mkEngine (standard_rules (AnyChecker [ListChecker demo_set]) demo_config demo_detector) 50).

Lemma demo_list : LoadListChecker (h_open demo_host) "sanctions.txt" = inr demo_set.
Proof.
  assert (parseList file_text None = inr [addr 6]) as Hp by by vm_compute.
  unfold LoadListChecker. change (h_open demo_host "sanctions.txt") with (@inr error _ (file_text, @None error)).
  cbv beta iota. by rewrite Hp.
Qed.

Definition demo_log : Logger := mkLogger Text LevelInfo [].

(** The list has one address, so that building writes one record and no warning. *)
Definition built_lines : list Line :=
  [LogRecord Text LevelInfo "loaded sanctions list" [("file", AString "sanctions.txt"); ("addresses", AInt 1)]].

Lemma demo_built w : newScreener demo_host demo_config demo_log w = (Ok demo_pipeline, written built_lines w).
Proof.
  unfold newScreener. cbn [cfg_sanctionsFile demo_config]. rewrite demo_list.
  assert (ListChecker_Len demo_set = 1) as Hlen by by vm_compute.
  unfold mbind, M_bind. cbn [of_result]. unfold mret, M_ret. rewrite Hlen. reflexivity.
Qed.

Definition plain_tx (data : list byte) : client_request :=
  mkClientRequest (to_bytes "2.0") (TNumber (to_bytes "1")) sendRawTransaction
    (TArray [TString (to_bytes (hexutil_Encode (bytes (addr 1) ++ bytes (addr 2) ++ data)))]).

Definition http (data : list byte) : HttpRequest := mkHttpRequest Background [] (print (request_tree (plain_tx data))) None 0.

Lemma forwarded_transactions_clean_witness :
  ∃ set reqs, LoadListChecker (h_open demo_host) (cfg_sanctionsFile demo_config) = inr set ∧
    ParseRequests (hr_Body (set_body (http []) (hr_Body (http [])))) = inr reqs ∧
    ∀ req, req ∈ reqs → rq_Method req = sendRawTransaction →
      ∃ d trace wa wb, DecodeRawTransaction (rq_Params req) = inr d ∧
        Simulate (cfg_simulator demo_config) Background d wa = (Ok trace, wb) ∧
        ∀ x, touched d trace x → x ∉ set.
Proof.
  apply (forwarded_transactions_clean demo_host demo_config demo_log demo_log world0 (written built_lines world0) world0
    (NewHandler demo_pipeline demo_log (http []) world0).2 demo_pipeline
    (http []) (set_body (http []) (hr_Body (http []))) (demo_built _)). by vm_compute.
Defined.

(** The same proxy rejects the transaction whose trace pays the listed account 6. *)
Example listed_rejected :
  (NewHandler demo_pipeline demo_log (http [x00]) world0).1 = Ok (RpcReply (json_text
    "{'jsonrpc':'2.0','id':1,'error':{'code':-32003,'message':'transaction rejected: sanctioned address 0x0000000000000000000000000000000000000006; contract deployed and called in the same transaction: 0x000000000000000000000000000000000000000a'}}" ++ [x0a])).
Proof. by vm_compute. Qed.

Definition drain_verdict : Verdict := Eval vm_compute in
  match Engine_Evaluate (mkEngine (standard_rules (AnyChecker [ListChecker demo_set]) demo_config demo_detector) 50)
          Background drain_analysis world0 with
  | (Ok v, _) => v
  | _ => mkVerdict false 0 []
  end.

Lemma standard_score_bounded_witness :
  vd_Score drain_verdict = weight_sum (vd_Findings drain_verdict) ∧ (0 ≤ vd_Score drain_verdict ≤ 200)%Z ∧
  vd_Block drain_verdict = has_hard_block (vd_Findings drain_verdict) || Z.leb 50 (weight_sum (vd_Findings drain_verdict)).
Proof.
  apply (standard_score_bounded (AnyChecker [ListChecker demo_set]) demo_config demo_detector 50 Background drain_analysis
    world0 world0 drain_verdict). by vm_compute.
Defined.

(** An oracle that lists account 8, the recipient of the transfer in [plain_trace]. *)
Definition oracle_lists (x : Address) : bool := bool_decide (x = addr 8).

Definition oracle_client : OracleClient World := mkOracleClient
  (mkContractCaller (λ _ m _, mret (bool_word (oracle_lists (to_bytes_n 20 (msg_Data m))))) (λ _ _ _, mret [x60])) (mret ()).
Definition oracle_host : Host World := mkHost (h_open demo_host) (λ _ _, mret oracle_client).
Definition oracle_config : screenerConfig World := mkScreenerConfig "sanctions.txt" "http://oracle" 50 50
  (cfg_simulator demo_config) (cfg_freshness demo_config) (cfg_balances demo_config).
Definition oracle_pipeline : Screener World :=
  NewScreener (cfg_simulator demo_config)
    (mkEngine (standard_rules (AnyChecker [ListChecker demo_set;
       CachedChecker (OracleChecker (oc_caller oracle_client) ChainalysisOracle oracleCallTimeout) oracleCacheTTL oracleCacheSize time_Now])
     oracle_config demo_detector) 50).

Lemma oracle_built w : (newScreener oracle_host oracle_config demo_log w).1 = Ok oracle_pipeline.
Proof.
  unfold newScreener. cbn [cfg_sanctionsFile oracle_config oracle_host h_open]. rewrite demo_list. reflexivity.
Qed.

Lemma calldata_address x : to_bytes_n 20 (isSanctionedCalldata x) = x.
Proof.
  assert (∃ prefix, isSanctionedCalldata x = prefix ++ bytes x) as [prefix ->].
  { unfold isSanctionedCalldata. rewrite LeftPadBytes_pad by (rewrite length_bytes; lia). rewrite app_assoc. by eexists. }
  apply bytes_inj. unfold to_bytes_n, crop. cbn [bytes]. rewrite length_app, length_bytes.
  replace (20 - (length prefix + 20)) with 0 by lia. replace (length prefix + 20 - 20) with (length prefix) by lia.
  by rewrite drop_app_length.
Qed.

Lemma pipeline_verdict_exact_witness :
  let a := analysis_of demo_tx (plain_trace demo_tx) in
  (∀ w : World, True → (view w : Entries) = ∅ → sound_entries (λ _, True) oracle_lists w) ∧
  triple (sound_entries (λ _ : World, True) oracle_lists) (ScreenTx oracle_pipeline Background demo_tx) (λ v, v = verdict_of (cfg_threshold oracle_config)
    (sanctioned_findings (λ x, bool_decide (x ∈ demo_set) || bool_decide (cfg_oracleRPC oracle_config ≠ "") && oracle_lists x) a ++ privilege_findings a ++ deploy_findings a ++
     delegate_findings demo_st a ++ approval_findings demo_st a ++ grant_findings demo_st a ++
     large_findings demo_st demo_bal (cfg_outflowPercent oracle_config) a ++ flash_findings demo_st demo_bal (cfg_outflowPercent oracle_config) a)) (λ _, False).
Proof.
  apply (pipeline_verdict_exact (λ _, True) (λ _, False) oracle_host oracle_config demo_log world0
    (newScreener oracle_host oracle_config demo_log world0).2
    oracle_pipeline demo_set plain_trace demo_st demo_bal oracle_lists Background demo_tx).
  - rewrite (surjective_pairing (newScreener _ _ _ _)), oracle_built. done.
  - exact demo_list.
  - done.
  - intros k. by apply triple_ret.
  - intros k ctx x. by apply triple_ret.
  - intros k. apply IsFresh_of_spec. intros ctx x. by apply triple_ret.
  - intros k ctx x y. by apply triple_ret.
  - intros c wa client wb [= <- _] k c' x. cbn [oc_caller oracle_client oracle_CallContract msg_Data].
    rewrite calldata_address. by apply triple_ret.
  - done.
Defined.

(** The oracle blocks what the list alone lets pass, and its answers are cached. *)
Example oracle_blocks :
  (match (ScreenTx demo_pipeline Background demo_tx world0).1 with Ok v => vd_Block v | _ => true end,
   match ScreenTx oracle_pipeline Background demo_tx world0 with (Ok v, w) => (vd_Block v, size (w_entries w)) | _ => (false, 0) end)
  = (false, (true, 3)).
Proof. by vm_compute. Qed.

End PipelineExamples.
