(* ===== verification/SharedRules.v ===== *)
(** * The rules beside other requests

    Each rule of [Rules] over lookups that answer truly while the world moves ([Shared]): its
    findings are those of its reference definition in [RulesSpec] for answers each of which was
    true while the rule ran. A rule that keeps a memo table asks each question once, so that one
    function describes what it was told; the outflow rules may be told twice about a holder of
    two assets, so their answers are per flow. *)

From Stdlib Require Import ZArith Lia.
From stdpp Require Import functions relations.
From S2P Require Import Prelude GoLib Deadline Geth Events TxDecode Simulate Flows FlashLoans Analysis.
From S2P Require Import ChainState FreshnessCache Sanctions SanctionsCache Rules RulesSpec DeployCall Risk.
From S2P Require Import Interference Shared.

(** ** Loops with a memo table *)
Section memo.
Context {W E B : Type} (skip : E → bool) (key : E → Address) (ask : Address → M W B) (out : E → B → list string).

(** One round of such a loop: [UnlimitedApproval] and [NFTDrainer] are instances. *)
Definition memo_step (s : gmap Address B * list string) (e : E) : M W (gmap Address B * list string) :=
  let '(table, found) := s in
  if skip e then mret (table, found) else
  x ← match table !! key e with
      | Some b => mret (table, b)
      | None => b ← ask (key e); mret (<[key e := b]> table, b)
      end;
  mret (x.1, found ++ out e x.2).

End memo.

Lemma foldM_ext {W A B} (f g : B → A → M W B) xs b w :
  (∀ b x w, f b x w = g b x w) → foldM f xs b w = foldM g xs b w.
Proof.
  intros Hfg. revert b w. induction xs as [|x xs IH]; intros b w; [done|]. cbn [foldM]. unfold mbind, M_bind.
  rewrite Hfg. destruct (g b x w) as [[b'|e|] w']; [apply IH|done..].
Qed.

Section memo_instances.
Context `{G : Geth} {W : Type} (ctx : Ctx).

Definition approval_skip (ap : Approval) : bool := Z.ltb (ap_Amount ap) UnlimitedAmount.
Definition approval_out (ap : Approval) (b : bool) : list string := if b then [describe_approval ap] else [].

Lemma approval_memo (fresh : FreshnessChecker W) a s ap w :
  approval_step fresh ctx a s ap w = memo_step approval_skip ap_Spender (isFresh ctx fresh a) approval_out s ap w.
Proof.
  destruct s as [checked approvals]. unfold approval_step, memo_step, approval_skip. destruct (Z.ltb _ _); [done|].
  unfold mbind, M_bind. destruct (checked !! ap_Spender ap) as [b|];
    [|destruct (isFresh ctx fresh a (ap_Spender ap) w) as [[b|e|] w1]; [|done..]];
    unfold mret, M_ret, approval_out; cbn [fst snd]; destruct b; by rewrite ?app_nil_r.
Qed.

Definition grant_out (ap : ApprovalForAll) (k : string) : list string :=
  if bool_decide (k ≠ "")
  then ["collection " +:+ Address_Hex (afa_Collection ap) +:+ " to " +:+ k +:+ " " +:+ Address_Hex (afa_Operator ap)] else [].

Lemma grant_memo (status : StatusReader W) a s ap w :
  grant_step status ctx a s ap w =
  memo_step (λ ap, negb (afa_Approved ap)) afa_Operator (operatorKind status ctx a) grant_out s ap w.
Proof.
  destruct s as [kind grants]. unfold grant_step, memo_step. destruct (afa_Approved ap); [|done]. cbn [negb].
  unfold mbind, M_bind. destruct (kind !! afa_Operator ap) as [k|];
    [|destruct (operatorKind status ctx a (afa_Operator ap) w) as [[k|e|] w1]; [|done..]];
    unfold mret, M_ret, grant_out; cbn [fst snd]; case_bool_decide; by rewrite ?app_nil_r.
Qed.

End memo_instances.

(** ** The rules *)
Section rules.
Context `{G : Geth} {W : Type} `{!Clock W} `{LE : Lens W Entries} `{LK : Lens W (gset Address)}.
Context (o : Outside W) {HS : SharedWorld o} (window ttl maxKnown maxEntries : Z) (w0 : W) (ctx : Ctx).

Abbreviation moves := (moves o window ttl maxKnown maxEntries).
Abbreviation inv := (shared_inv o window ttl maxKnown maxEntries).
Abbreviation asks m Q := (guar inv moves w0 (λ _, True) m Q).
Abbreviation true_status := (true_status o window).
Abbreviation g_ret := (guar_ret inv moves w0).
Abbreviation g_bind := (guar_bind inv moves w0).
Abbreviation g_ask := (guar_ask inv moves w0).
Abbreviation g_conseq := (guar_conseq inv moves w0).
Abbreviation g_foldM := (guar_foldM inv moves w0).

(** What the outflow rules are told about a flow: the status of its holder and its balance. *)
Definition true_answers (w : W) (f : Flow) (A : Status * option Z) : Prop :=
  true_status w0 w (fl_Holder f) A.1 ∧ true_balance o w0 w (fl_Asset f) (fl_Holder f) A.2.

(** What the reference says of a flow given the answers about it. *)
Definition outflow_with (percent : Z) (a : Analysis) (f : Flow) (A : Status * option Z) : option Outflow :=
  outflow_of (λ _, A.1) (λ _ _, A.2) percent a f.

Definition outflows_with (percent : Z) (a : Analysis) (F : Flow → Status * option Z) : list Outflow :=
  omap (λ f, outflow_with percent a f (F f)) (a_Flows a).

Definition large_with (percent : Z) (a : Analysis) (F : Flow → Status * option Z) : list Finding :=
  report "large-outflow" WeightHigh "large outflow: " (outflow_text <$> outflows_with percent a F).

Definition flash_with (percent : Z) (a : Analysis) (F : Flow → Status * option Z) : list Finding :=
  if bool_decide (a_FlashLoans a = []) then [] else
  report "flash-loan-outflow" WeightHigh
    ("flash loan from " +:+ Join (describe_loan <$> a_FlashLoans a) ", " +:+ " with large outflow: ")
    (outflow_text <$> filter (λ x, of_Holder x ∉ (ln_Lender <$> a_FlashLoans a)) (outflows_with percent a F)).

Definition answers_now (w : W) (f : Flow) : Status * option Z :=
  (age_at (o_code o) window (o_height o w) (fl_Holder f), balance_at o (o_height o w) (fl_Asset f) (fl_Holder f)).

Lemma answers_now_true w : moves w0 w → ∀ f, true_answers w f (answers_now w f).
Proof using HS. intros Hr f. split; [by eapply true_status_now|by eapply true_balance_now]. Qed.

#[global] Instance true_answers_stable f A : Stable inv moves (λ w, true_answers w f A).
Proof using HS. unfold true_answers. apply _. Qed.

(** Learning one more true answer. *)
Definition true_statuses (w : W) (st : Address → Status) : Prop := ∀ x, true_status w0 w x (st x).

#[global] Instance true_statuses_stable st : Stable inv moves (λ w, true_statuses w st).
Proof using HS. unfold true_statuses. apply _. Qed.

Lemma true_statuses_insert w st x s : true_statuses w st → true_status w0 w x s → true_statuses w (<[x := s]> st).
Proof using Type. intros Hst Hs y. destruct (decide (x = y)) as [<-|Hy]; by rewrite ?fn_lookup_insert, ?fn_lookup_insert_ne. Qed.

Lemma true_statuses_now w : moves w0 w → ∃ st, true_statuses w st.
Proof using HS. intros Hr. eexists (λ x, _). intros x. by eapply true_status_now. Qed.

(** The answers in the table are what the function says, and the function is right about every
    element that was looked at. *)
Lemma memo_loop {E B} (skip : E → bool) (key : E → Address) (ask : Address → M W B) (out : E → B → list string)
    (val : Address → Status → B) es :
  (∀ x, asks (ask x) (λ b w, ∃ s, true_status w0 w x s ∧ b = val x s)) →
  asks (foldM (memo_step skip key ask out) es (∅, []))
    (λ r w, ∃ st, true_statuses w st ∧
       r.2 = es ≫= λ e, if skip e then [] else out e (val (key e) (st (key e)))).
Proof using HS.
  intros Hask. set (g := λ (st : Address → Status) e, if skip e then [] else out e (val (key e) (st (key e)))).
  set (J := λ pre (r : gmap Address B * list string) w, ∃ st, true_statuses w st ∧ r.2 = pre ≫= g st ∧
    (∀ x b, r.1 !! x = Some b → b = val x (st x)) ∧ ∀ e, e ∈ (pre : list E) → skip e = false → is_Some (r.1 !! key e)).
  apply (g_conseq (J [] (∅, [])) _ _ (J es)); [| |by intros r w _ _ (st & Hst & Hr & _); exists st]; cycle 1.
  { intros w _ Hr _. destruct (true_statuses_now w Hr) as [st Hst]. exists st. split_and!; [done|done| |].
    - intros x b. simpl. by rewrite lookup_empty.
    - by intros e ?%not_elem_of_nil. }
  apply g_foldM. intros pre e post [table found] _. unfold memo_step.
  assert (∀ st, (pre ++ [e]) ≫= g st = (pre ≫= g st) ++ g st e) as Happ
    by (intros st; rewrite bind_app; simpl; by rewrite app_nil_r).
  destruct (skip e) eqn:Hskip.
  { apply g_ret. intros w (st & Hst & Hf & Ht & Hseen). exists st. split_and!; [done| |done|].
    - rewrite Happ. unfold g at 2. by rewrite Hskip, app_nil_r.
    - intros e'. rewrite elem_of_app, list_elem_of_singleton. intros [?| ->]; [by apply Hseen|congruence]. }
  destruct (table !! key e) as [b|] eqn:Hlook.
  { eapply (g_bind _ _ _ (λ x w, x = (table, b) ∧ J pre (table, found) w)); [apply g_ret; by split|].
    intros x. apply g_ret. intros w [-> (st & Hst & Hf & Ht & Hseen)]. exists st. split_and!; [done| |done|].
    - rewrite Happ. unfold g at 2. rewrite Hskip. cbn [fst snd] in *. by rewrite Hf, <-(Ht _ _ Hlook).
    - intros e'. rewrite elem_of_app, list_elem_of_singleton. intros [?| ->] ?; [by apply Hseen|by eexists]. }
  eapply (g_bind _ _ _ (λ x w, ∃ b, x = (<[key e := b]> table, b) ∧
    J pre (table, found) w ∧ ∃ s, true_status w0 w (key e) s ∧ b = val (key e) s)).
  { apply (g_ask (J pre (table, found)) _ _ _ _ (Hask (key e))). intros b. apply g_ret. by exists b. }
  intros x. apply g_ret. intros w (b & -> & (st & Hst & Hf & Ht & Hseen) & s & Hs & ->). cbn [fst snd] in *.
  exists (<[key e := s]> st). split_and!; [by apply true_statuses_insert| | |].
  - rewrite Happ. unfold g at 2. rewrite Hskip, fn_lookup_insert, Hf. cbn [fst snd]. f_equal.
    apply bind_ext_elem. intros e' He'. unfold g. destruct (skip e') eqn:Hskip'; [done|].
    destruct (Hseen e' He' Hskip') as [b' Hb']. rewrite fn_lookup_insert_ne by (intros Heq; congruence). done.
  - intros x b. cbn [fst]. rewrite lookup_insert_Some. intros [[<- <-]|[Hne Hx]]; [by rewrite fn_lookup_insert|].
    rewrite fn_lookup_insert_ne by done. by apply Ht.
  - intros e'. cbn [fst]. rewrite elem_of_app, list_elem_of_singleton, lookup_insert_is_Some'.
    intros [He'| ->] Hskip'; [right; by apply Hseen|by left].
Qed.

(** ** Sanctioned *)

Lemma Sanctioned_true (checker : Checker W) (T : W → Address → bool → Prop) (d : W → Address → bool) a :
  (∀ x b, Stable inv moves (λ w, T w x b)) → (∀ w x, moves w0 w → T w x (d w x)) → NoDup (a_Addresses a) →
  (∀ x, asks (IsSanctioned checker ctx x) (λ b w, T w x b)) →
  asks (Evaluate (Sanctioned checker) ctx a) (λ r w, ∃ S, (∀ x, T w x (S x)) ∧ r = sanctioned_findings S a).
Proof using HS.
  intros HT Hd Hnd Hc. set (g := λ x (b : bool), if b then [sanctioned_finding x] else []).
  eapply g_conseq; [apply (guar_foldM_appends inv moves w0 _ (λ x ys w, ∃ b, T w x b ∧ ys = g x b))|done|].
  - intros x acc. apply (g_ask (λ _, True) (λ b w, T w x b)); [by apply guar_wrap, Hc|].
    intros hit. apply g_ret. intros w [_ Hhit]. exists (g x hit). split; [by destruct hit; rewrite ?app_nil_r|by exists hit].
  - intros r w _ Hr (yss & Hyss & ->). destruct (Forall2_choose (T w) g (d w) _ _ Hnd (λ x, Hd w x Hr) Hyss) as (S & HS' & Heq).
    exists S. split; [done|]. cbn [app]. rewrite Heq. unfold sanctioned_findings.
    rewrite <-(bind_filter (λ x, S x = true)). apply bind_ext_elem. intros x _. unfold g. by destruct (S x).
Qed.

(** ** The rules that ask about age *)
Section fresh_rules.
Context (fresh : FreshnessChecker W) {Hfresh : TrueFresh o window ttl maxKnown maxEntries fresh}.

Lemma isFresh_true a x :
  asks (isFresh ctx fresh a x) (λ b w, ∃ s, true_status w0 w x s ∧ b = bool_decide (x ∈ a_Created a ∨ s = Fresh)).
Proof using All.
  unfold isFresh, CreatedInTx. case_bool_decide as Hc.
  - apply (guar_ret_now inv moves w0). intros w _ Hr. eexists. split; [by eapply true_status_now|]. symmetry. apply bool_decide_eq_true_2. by left.
  - apply guar_wrap. eapply g_conseq; [apply Hfresh|done|]. intros b w _ _ (s & Hs & ->). exists s. split; [done|].
    apply bool_decide_ext. tauto.
Qed.

Lemma UnlimitedApproval_true a :
  asks (Evaluate (UnlimitedApproval fresh) ctx a) (λ r w, ∃ st, true_statuses w st ∧ r = approval_findings st a).
Proof using All.
  cbn [UnlimitedApproval Evaluate]. unfold UnlimitedApproval_Evaluate.
  eapply g_bind.
  - intros w Hw Hr _. rewrite (foldM_ext _ _ _ _ w (approval_memo ctx fresh a)).
    by apply (memo_loop _ _ _ _ (λ x s, bool_decide (x ∈ a_Created a ∨ s = Fresh)) _ (isFresh_true a)).
  - intros s. apply g_ret. intros w (st & Hst & ->). exists st. split; [done|]. unfold approval_findings. do 2 f_equal.
    rewrite <-(bind_filter (λ ap, (2 ^ 128 ≤ ap_Amount ap)%Z ∧ new_code st a (ap_Spender ap))).
    apply bind_ext_elem. intros ap _. unfold approval_skip, approval_out. change UnlimitedAmount with (2 ^ 128)%Z.
    destruct (Z.ltb_spec (ap_Amount ap) (2 ^ 128)); [by rewrite bool_decide_eq_false_2 by lia|].
    unfold new_code. do 2 case_bool_decide; try done; tauto.
Qed.

Lemma delegate_true a :
  asks (foldM (delegate_step fresh ctx a) (a_Frames a) (∅, []))
    (λ r w, ∃ st, true_statuses w st ∧ r.2 = Address_Hex <$> filter (new_code st a) (delegate_targets a)).
Proof using All.
  set (ts := λ pre, foldl add_new [] (f_To <$> filter (λ f, is_delegate f = true) pre)).
  set (J := λ (pre : list Frame) (r : gset Address * list string) w, ∃ st, true_statuses w st ∧
    (∀ x, x ∈ r.1 ↔ x ∈ ts pre) ∧ r.2 = Address_Hex <$> filter (new_code st a) (ts pre)).
  apply (g_conseq (J [] (∅, [])) _ _ (J (a_Frames a))); [| |by intros r w _ _ (st & Hst & _ & Hr); exists st]; cycle 1.
  { intros w _ Hr _. destruct (true_statuses_now w Hr) as [st Hst]. exists st. split_and!; [done| |done].
    intros x. cbn [fst]. change (ts []) with (@nil Address). by rewrite elem_of_empty, elem_of_nil. }
  apply g_foldM. intros pre f post [checked targets] _. unfold delegate_step.
  assert (ts (pre ++ [f]) = if is_delegate f then add_new (ts pre) (f_To f) else ts pre) as Hts.
  { unfold ts. rewrite filter_app, fmap_app, foldl_app, filter_cons, filter_nil. by destruct (is_delegate f). }
  destruct (is_delegate f) eqn:Hd; cbn [negb orb].
  2: { apply g_ret. intros w (st & Hst & Hc & Ht). exists st. by rewrite Hts. }
  case_bool_decide as Hin.
  { apply g_ret. intros w (st & Hst & Hc & Ht). exists st. rewrite Hts. unfold add_new.
    by rewrite bool_decide_eq_true_2 by by apply Hc. }
  apply (g_ask (J pre (checked, targets)) _ _ _ _ (isFresh_true a (f_To f))). intros b. apply g_ret.
  intros w [(st & Hst & Hc & Ht) (s & Hs & ->)]. cbn [fst snd] in *.
  exists (<[f_To f := s]> st). rewrite Hts. unfold add_new. rewrite (bool_decide_eq_false_2 (f_To f ∈ ts pre)) by (intros ?; by apply Hin, Hc).
  split_and!; [by apply true_statuses_insert| |].
  - intros x. cbn [fst]. rewrite elem_of_union, elem_of_singleton, Hc, elem_of_app, list_elem_of_singleton. tauto.
  - cbn [snd]. rewrite filter_app, filter_cons, filter_nil, fmap_app.
    rewrite (filter_ext_elem (new_code (<[f_To f := s]> st) a) (new_code st a)), <-Ht.
    + assert (new_code (<[f_To f := s]> st) a (f_To f) ↔ f_To f ∈ a_Created a ∨ s = Fresh) as Hnew
        by (unfold new_code; by rewrite fn_lookup_insert).
      case_bool_decide; case_decide; rewrite ?app_nil_r; tauto.
    + intros x Hx. unfold new_code. rewrite fn_lookup_insert_ne; [done|]. intros Heq. apply Hin, Hc. by rewrite Heq.
Qed.

Lemma DelegatecallToFresh_true a :
  asks (Evaluate (DelegatecallToFresh fresh) ctx a) (λ r w, ∃ st, true_statuses w st ∧ r = delegate_findings st a).
Proof using All.
  eapply g_bind; [apply delegate_true|]. intros s. apply g_ret. intros w (st & Hst & Hr).
  exists st. split; [done|]. by rewrite Hr.
Qed.

End fresh_rules.

(** ** NFTDrainer *)
Section status_rules.
Context (status : StatusReader W) {Hstatus : TrueStatus o window ttl maxKnown maxEntries status}.

Definition kind_seen (a : Analysis) (x : Address) (s : Status) : string := kind_of (λ _, s) a x.

Lemma operatorKind_true a x :
  asks (operatorKind status ctx a x) (λ k w, ∃ s, true_status w0 w x s ∧ k = kind_seen a x s).
Proof using All.
  unfold operatorKind, CreatedInTx, kind_seen, kind_of. case_bool_decide as Hc.
  - apply (guar_ret_now inv moves w0). intros w _ Hr. eexists. split; [by eapply true_status_now|done].
  - apply (g_ask (λ _, True) (λ s w, true_status w0 w x s)); [apply guar_wrap, Hstatus|].
    intros s. apply g_ret. intros w [_ Hs]. by exists s.
Qed.

Lemma NFTDrainer_true a :
  asks (Evaluate (NFTDrainer status) ctx a) (λ r w, ∃ st, true_statuses w st ∧ r = grant_findings st a).
Proof using All.
  cbn [NFTDrainer Evaluate]. unfold NFTDrainer_Evaluate.
  eapply g_bind.
  - intros w Hw Hr _. rewrite (foldM_ext _ _ _ _ w (grant_memo ctx status a)).
    by apply (memo_loop _ _ _ _ (kind_seen a) _ (operatorKind_true a)).
  - intros s. apply g_ret. intros w (st & Hst & ->). exists st. split; [done|]. unfold grant_findings. do 2 f_equal.
    rewrite <-(bind_filter (λ ap, afa_Approved ap = true ∧
      (afa_Operator ap ∈ a_Created a ∨ st (afa_Operator ap) ≠ Established))).
    apply bind_ext_elem. intros ap _. destruct (afa_Approved ap); cbn [negb];
      [|by rewrite bool_decide_eq_false_2 by naive_solver].
    unfold grant_out, describe_grant. change (kind_seen a ?x (st ?x)) with (kind_of st a (afa_Operator ap)).
    assert (kind_of st a (afa_Operator ap) ≠ "" ↔
      true = true ∧ (afa_Operator ap ∈ a_Created a ∨ st (afa_Operator ap) ≠ Established)) as Hk
      by (rewrite kind_of_suspicious; tauto).
    rewrite (bool_decide_ext _ _ Hk). done.
Qed.

(** ** Outflows *)
Context (balances : BalanceReader W) {Hbal : TrueBalance o window ttl maxKnown maxEntries balances} (percent : Z).
Let d := mkOutflowDetector status balances percent.

(** One pass of the loop over a flow, once its questions are answered [s] and [b]. *)
Lemma find_step_answers s b a found f :
  find_step (mkOutflowDetector (mkStatusReader (λ _ _, mret s)) (mkBalanceReader (λ _ _ _, mret b)) percent) ctx a found f tt =
  (Ok (found ++ option_list (outflow_of (λ _, s) (λ _ _, b) percent a f)), tt).
Proof.
  assert (StatusSpec (λ _ : unit, True) (λ _, False) (mkStatusReader (λ _ _, mret s)) (λ _, s)) as Hs
    by (intros c x; by apply triple_ret).
  assert (BalanceSpec (λ _ : unit, True) (λ _, False) (mkBalanceReader (λ _ _ _, mret b)) (λ _ _, b)) as Hb
    by (intros c x y; by apply triple_ret).
  destruct (triple_total (λ _ : unit, True) _ _ tt (find_step_triple _ _ ctx _ _ _ _ percent a found f) Logic.I)
    as (r & [] & Hrun & _ & ->). exact Hrun.
Qed.

Lemma find_step_true a found f :
  asks (find_step d ctx a found f) (λ r w, ∃ ys, r = found ++ ys ∧
    ∃ A, true_answers w f A ∧ ys = option_list (outflow_with percent a f A)).
Proof using All.
  intros w Hw Hr _. pose proof (λ s b, find_step_answers s b a found f) as Hpure.
  unfold find_step, mbind, M_bind, wrap_err in *. cbv zeta in *. cbn [d od_status od_balances od_percent StatusOf Balance] in *.
  destruct (Z.leb (NetOut f) 0 || bool_decide (fl_Holder f = zero_address) || CreatedInTx a (fl_Holder f)).
  { split; [done|]. pose proof (answers_now_true w Hr f) as HA.
    eexists. split; [|by eexists]. specialize (Hpure (answers_now w f).1 (answers_now w f).2). by injection Hpure. }
  pose proof (Hstatus w0 ctx (fl_Holder f) w Hw Hr Logic.I) as Hs.
  destruct (StatusOf status ctx (fl_Holder f) w) as [[s|e|] w1]; [|done..]. destruct Hs as [Hm1 Hs].
  assert (inv w1) as Hw1 by (by eapply shared_inv_stable). assert (moves w0 w1) as Hr1 by by etrans.
  specialize (Hpure s). unfold mret at 1, M_ret at 1 in Hpure. case_bool_decide as Hcode.
  { split; [done|]. destruct (answers_now_true w1 Hr1 f) as [_ Hb].
    eexists. split; [|by eexists (s, _)]. specialize (Hpure (answers_now w1 f).2). by injection Hpure. }
  pose proof (Hbal w0 ctx (fl_Asset f) (fl_Holder f) w1 Hw1 Hr1 Logic.I) as Hb.
  destruct (Balance balances ctx (fl_Asset f) (fl_Holder f) w1) as [[b|e|] w2]; [|by etrans|done].
  destruct Hb as [Hm2 Hb]. specialize (Hpure b). unfold mret at 1, M_ret at 1 in Hpure.
  assert (true_status w0 w2 (fl_Holder f) s) as Hs2 by (by eapply true_status_stable).
  assert (moves w w2) as Hm by by etrans.
  destruct b as [bal|]; [destruct (Z.eqb bal 0); [|destruct (Z.ltb (bal * percent) (NetOut f * 100))]|];
    injection Hpure as Hpure; (split; [done|]); eexists; (split; [exact Hpure|]); by eexists (s, _).
Qed.

Lemma Find_true a :
  NoDup (a_Flows a) →
  asks (Find d ctx a) (λ r w, ∃ F, (∀ f, true_answers w f (F f)) ∧ r = outflows_with percent a F).
Proof using All.
  intros Hnd. eapply g_conseq;
    [apply (guar_foldM_appends inv moves w0 _ (λ f ys w, ∃ A, true_answers w f A ∧ ys = option_list (outflow_with percent a f A)))|done|].
  - intros f found. apply find_step_true.
  - intros r w _ Hr (yss & Hyss & ->).
    destruct (Forall2_choose (true_answers w) (λ f A, option_list (outflow_with percent a f A)) _ _ _ Hnd
      (answers_now_true w Hr) Hyss) as (F & HF & Heq).
    exists F. split; [done|]. cbn [app]. rewrite Heq. apply bind_option_list.
Qed.

Lemma outflows_with_divisible F a : Forall (λ x, of_Balance x ≠ 0%Z) (outflows_with percent a F).
Proof. apply Forall_forall. intros x (f & _ & Hx)%list_elem_of_omap. unfold outflow_with in Hx. apply outflow_of_Some in Hx. tauto. Qed.

Lemma LargeOutflow_true a :
  NoDup (a_Flows a) →
  asks (Evaluate (LargeOutflow d) ctx a) (λ r w, ∃ F, (∀ f, true_answers w f (F f)) ∧ r = large_with percent a F).
Proof using All.
  intros Hnd. apply (g_bind _ _ _ _ _ (Find_true a Hnd)). intros outflows.
  apply (g_bind _ _ _ (λ parts w, ∃ F, (∀ f, true_answers w f (F f)) ∧ parts = outflow_text <$> outflows_with percent a F)).
  - apply guar_lift; [apply _|]. intros w (F & HF & ->). exists (outflow_text <$> outflows_with percent a F).
    split; [|by exists F]. apply mapM_Some. pose proof (outflows_with_divisible F a) as Hd.
    induction Hd as [|x xs Hx _ IH]; constructor; [by apply Outflow_String_text|done].
  - intros parts. apply g_ret. intros w (F & HF & ->). by exists F.
Qed.

Lemma FlashLoanOutflow_true a :
  NoDup (a_Flows a) →
  asks (Evaluate (FlashLoanOutflow d) ctx a) (λ r w, ∃ F, (∀ f, true_answers w f (F f)) ∧ r = flash_with percent a F).
Proof using All.
  intros Hnd. cbn [FlashLoanOutflow Evaluate]. unfold FlashLoanOutflow_Evaluate, flash_with.
  rewrite (bool_decide_ext (length (a_FlashLoans a) = 0) (a_FlashLoans a = [])) by apply length_zero_iff_nil.
  case_bool_decide.
  { apply (guar_ret_now inv moves w0). intros w _ Hr.
    exists (answers_now w). split; [by apply answers_now_true|done]. }
  apply (g_bind _ _ _ _ _ (Find_true a Hnd)). intros outflows.
  apply (g_bind _ _ _ (λ drained w, ∃ F, (∀ f, true_answers w f (F f)) ∧ drained =
    outflow_text <$> filter (λ x, of_Holder x ∉ (ln_Lender <$> a_FlashLoans a)) (outflows_with percent a F))).
  - apply guar_lift; [apply _|]. intros w (F & HF & ->). eexists. split; [|by exists F].
    by rewrite drained_loop by apply outflows_with_divisible.
  - intros drained. apply g_ret. intros w (F & HF & ->). by exists F.
Qed.

End status_rules.

End rules.
