(* ===== verification/Concurrent.v ===== *)
(** * Whole requests beside other requests

    The pipeline of [cmd/firewall/main.go] over the two caches it shares between requests, with
    other requests running wherever it waits or may be preempted: [shared_screener] has the
    computation [others] before and inside every locked region's lookup, and the calls to the
    node may change the world as [Shared.moves] allows. The theorems hold for any [others] that
    stays within [moves], and a request is itself such a computation. *)

From Stdlib Require Import ZArith Lia.
From stdpp Require Import relations.
From S2P Require Import Prelude GoLib Deadline Json JsonProofs JsonRpc Logging Geth Events TxDecode Simulate Flows FlashLoans Analysis WellFormed.
From S2P Require Import ChainState FreshnessCache Sanctions SanctionsCache Rules RulesSpec DeployCall Risk Screen Proxy Pipeline.
From S2P Require Import Interference Shared SharedRules.

(** ** The engine *)
Section engine.
Context `{G : Geth} {W : Type} (I : W → Prop) (R : relation W) `{!PreOrder R} {HI : Stable I R I} (w0 : W) (ctx : Ctx) (a : Analysis).

(** Every rule's findings satisfy its own stable promise in the end. *)
Lemma Engine_guar threshold (rs : list (Rule W)) (Qs : list (list Finding → W → Prop)) :
  Forall (λ Q, ∀ fs, Stable I R (Q fs)) Qs →
  Forall2 (λ r Q, guar I R w0 (λ _, True) (Evaluate r ctx a) Q) rs Qs →
  guar I R w0 (λ _, True) (Engine_Evaluate (mkEngine rs threshold) ctx a)
    (λ v w, ∃ fss, Forall2 (λ (Q : list Finding → W → Prop) fs, Q fs w) Qs fss ∧ v = verdict_of threshold (concat fss)).
Proof using PreOrder0 HI.
  intros Hst Hrs.
  assert (∀ (F : list (list Finding) → W → Prop) fs0, (∀ fss, Stable I R (F fss)) →
    guar I R w0 (F fs0) (foldM (run_rule ctx a) rs (partial_verdict (concat fs0)))
      (λ p w, ∃ fss, F fs0 w ∧ Forall2 (λ (Q : list Finding → W → Prop) fs, Q fs w) Qs fss ∧
                     p = partial_verdict (concat (fs0 ++ fss)))) as Hloop.
  { induction Hrs as [|r Q rs Qs Hr _ IH]; intros F fs0 HF.
    - apply (guar_ret I R w0). intros w Hw. exists []. split_and!; [done|constructor|by rewrite app_nil_r].
    - apply Forall_cons in Hst as [HQ Hst]. cbn [foldM].
      apply (guar_bind I R w0 _ _ _ (λ p w, ∃ fs, F fs0 w ∧ Q fs w ∧ p = partial_verdict (concat (fs0 ++ [fs])))).
      + apply (guar_ask I R w0 (F fs0) _ _ _ _ (guar_wrap I R w0 _ _ _ _ _ Hr)).
        intros fs. apply (guar_ret I R w0). intros w [Hw Hfs]. exists fs. split_and!; [done|done|].
        by rewrite add_findings, concat_app, concat_cons, concat_nil, app_nil_r.
      + intros p w Hw Hr0 (fs & HFw & HQw & ->).
        pose proof (IH Hst (λ _ w, F fs0 w ∧ Q fs w) (fs0 ++ [fs]) _ w Hw Hr0 (conj HFw HQw)) as Hrun.
        destruct (foldM _ rs _ w) as [[p|e|] w']; [|done..]. destruct Hrun as [Hm (fss & [HF' HQ'] & Hfss & ->)].
        split; [done|]. exists (fs :: fss). split_and!; [done|by constructor|]. by rewrite <-app_assoc. }
  apply (guar_bind I R w0 _ _ _ _ _ (Hloop (λ _ _, True) [] _)). intros p. apply (guar_ret I R w0).
  intros w (fss & _ & Hfss & ->). exists fss. split; [done|]. unfold partial_verdict, verdict_of. cbn [vd_Score vd_Findings app e_threshold].
  destruct (Z.leb _ _); by rewrite ?orb_true_r, ?orb_false_r.
Qed.

End engine.

(** ** The pipeline with its points of preemption *)

(** The connections of the program, the oracle's being optional. *)
Record Clients {G : Geth} (W : Type) := mkClients {
  cl_node : RpcClient W;
  cl_reader : CodeReader W;
  cl_balances : BalanceClient W;
  cl_oracle : option (ContractCaller W)
}.
Arguments mkClients {G W} _ _ _ _.
Arguments cl_node {G W} _.
Arguments cl_reader {G W} _.
Arguments cl_balances {G W} _.
Arguments cl_oracle {G W} _.

Section pipeline.
Context `{G : Geth} {W : Type} `{!Clock W} `{LE : Lens W Entries} `{LK : Lens W (gset Address)}.

Section wiring.
Context (others : M W ()) (cl : Clients W) (set : gset Address) (window threshold percent : Z).

(** Others run before the first locked region of the freshness cache; between its regions the
    node is asked. *)
Definition shared_reader : StatusReader W :=
  mkStatusReader (λ ctx x, _ ← others;
    CachedStatus (RPCFreshness (cl_reader cl) window freshnessTimeout) freshnessCacheSize ctx x).

Definition shared_freshness : contractAge W := mkContractAge (IsFresh_of shared_reader) shared_reader.

(** Others run before the time is taken and before the sanctions cache is locked. *)
Definition preempted_Now : M W Z := _ ← others; t ← time_Now; _ ← others; mret t.

Definition shared_oracle (caller : ContractCaller W) : Checker W :=
  CachedChecker (OracleChecker caller ChainalysisOracle oracleCallTimeout) oracleCacheTTL oracleCacheSize preempted_Now.

Definition shared_checker : Checker W := AnyChecker (ListChecker set :: option_list (shared_oracle <$> cl_oracle cl)).

Definition shared_detector : OutflowDetector :=
  mkOutflowDetector shared_reader (RPCBalances (cl_balances cl) balanceTimeout) percent.

Definition shared_config : screenerConfig W :=
  mkScreenerConfig "" "" threshold percent (RPCSimulator (cl_node cl) simulateTimeout) shared_freshness
    (RPCBalances (cl_balances cl) balanceTimeout).

Definition shared_screener : Screener W :=
  NewScreener (RPCSimulator (cl_node cl) simulateTimeout)
    (mkEngine (standard_rules shared_checker shared_config shared_detector) threshold).

End wiring.

(** Without others it is what [newScreener] builds from the configuration of [main]. *)
Lemma shared_screener_alone `{LL : Lens W (list Line)} (h : Host W) file url threshold percent node reader balances window log w s w' :
  newScreener h (mkScreenerConfig file url threshold percent (RPCSimulator node simulateTimeout)
    (CachedFreshness (RPCFreshness reader window freshnessTimeout) freshnessCacheSize)
    (RPCBalances balances balanceTimeout)) log w = (Ok s, w') →
  ∃ set caller, s = shared_screener (mret ()) (mkClients node reader balances caller) set window threshold percent ∧
    (caller = None ∨ ∃ ctx wa client wb url', h_dial h ctx url' wa = (Ok client, wb) ∧ caller = Some (oc_caller client)).
Proof.
  intros (set & cs & _ & [->|(ctx & url' & wa & client & wb & Hdial & ->)] & _ & _ & ->)%newScreener_ok; exists set.
  - exists None. split; [reflexivity|by left].
  - exists (Some (oc_caller client)). split; [reflexivity|]. right. by exists ctx, wa, client, wb, url'.
Qed.

(** ** What a request is told *)
Context (o : Outside W) {HS : SharedWorld o} (window : Z).

Abbreviation moves := (moves o window oracleCacheTTL freshnessCacheSize oracleCacheSize).
Abbreviation inv := (shared_inv o window oracleCacheTTL freshnessCacheSize oracleCacheSize).
Abbreviation asks w0 m Q := (guar inv moves w0 (λ _, True) m Q).

Lemma inv_moves w w' : inv w → moves w w' → inv w'.
Proof using HS. intros Hw Hr. by apply (shared_inv_stable o window _ _ _ w). Qed.

(** The verdict of the eight reference rules over answers each of which was true at some moment
    between [w0] and [w], or, for the oracle's, less than its time to live before. *)
Definition true_verdict (oracle : bool) (set : gset Address) (threshold percent : Z) (a : Analysis) (w0 w : W) (v : Verdict) : Prop :=
  ∃ S st1 st2 st3 F1 F2,
    (∀ x, true_sanction o oracleCacheTTL oracle set w0 w x (S x)) ∧
    (∀ x, true_status o window w0 w x (st1 x) ∧ true_status o window w0 w x (st2 x) ∧ true_status o window w0 w x (st3 x)) ∧
    (∀ f, true_answers o window w0 w f (F1 f) ∧ true_answers o window w0 w f (F2 f)) ∧
    v = verdict_of threshold
      (sanctioned_findings S a ++ privilege_findings a ++ deploy_findings a ++ delegate_findings st1 a ++
       approval_findings st2 a ++ grant_findings st3 a ++ large_with percent a F1 ++ flash_with percent a F2).

(** A true verdict that does not block has no address that is listed all the time. *)
Lemma true_verdict_unlisted oracle set threshold percent a w0 w v x :
  true_verdict oracle set threshold percent a w0 w v → vd_Block v = false → x ∈ a_Addresses a →
  ¬ (x ∈ set ∨ oracle = true ∧ ∀ t, (clock w0 - oracleCacheTTL < t ≤ clock w)%Z → o_listed o t x = true).
Proof using Type.
  intros (S & st1 & st2 & st3 & F1 & F2 & HS' & _ & _ & ->) Hv Hx Hlisted.
  cbn [verdict_of vd_Block] in Hv. apply orb_false_iff in Hv as [Hv _]. specialize (HS' x).
  assert (S x = true) as HSx.
  { unfold true_sanction in HS'. destruct oracle.
    - destruct HS' as (h & (t & Ht & Hle & <-) & ->). destruct Hlisted as [Hset|[_ Hlong]].
      + by rewrite bool_decide_eq_true_2.
      + apply orb_true_iff. right. apply Hlong. change oracleCacheTTL with 600000000000%Z in *. lia.
    - destruct Hlisted as [Hset|[? _]]; [|done]. rewrite HS'. by apply bool_decide_eq_true_2. }
  apply not_true_iff_false in Hv. apply Hv. unfold has_hard_block. apply existsb_exists. exists (sanctioned_finding x).
  split; [|done]. apply list_elem_of_In, elem_of_app. left. unfold sanctioned_findings.
  apply list_elem_of_fmap_2, list_elem_of_filter. done.
Qed.

(** The connections are waited for, and answer truly. *)
Class SharedClients (cl : Clients W) : Prop := {
  clients_node : ∀ ctx method args block cfg w, inv w →
    match CallContext (cl_node cl) ctx method args block cfg w with (Panic, _) => False | (_, w') => moves w w' end;
  clients_reader :: SharedReader o window oracleCacheTTL freshnessCacheSize oracleCacheSize (cl_reader cl);
  clients_balances :: SharedBalances o window oracleCacheTTL freshnessCacheSize oracleCacheSize (cl_balances cl);
  clients_oracle : ∀ caller, cl_oracle cl = Some caller →
    SharedCaller o window oracleCacheTTL freshnessCacheSize oracleCacheSize caller ChainalysisOracle
}.

Context (others : M W ()) {Hothers : Yields inv moves others}.
Context (cl : Clients W) {Hcl : SharedClients cl} (set : gset Address) (threshold percent : Z).
Context (Hwindow : (0 ≤ window < 2 ^ 64)%Z).

Abbreviation screener := (shared_screener others cl set window threshold percent).
Abbreviation oracle := (bool_decide (is_Some (cl_oracle cl))).

Lemma shared_reader_true : TrueStatus o window oracleCacheTTL freshnessCacheSize oracleCacheSize (shared_reader others cl window).
Proof using All.
  intros w0 ctx x. apply (guar_yield inv moves w0 others (λ _, True)).
  by apply (CachedStatus_true o window), (RPCFreshness_true o window _ _ _ _ _ clients_reader).
Qed.

Lemma preempted_Now_timely : timely o window oracleCacheTTL freshnessCacheSize oracleCacheSize (preempted_Now others).
Proof using HS Hothers.
  intros w0. apply (guar_yield inv moves w0 others (λ _, True)).
  apply (guar_bind inv moves w0 _ _ _ (λ t w, (clock w0 ≤ t ≤ clock w)%Z)).
  - intros w _ [? _]%(moves_forward o) _. split; [done|]. simpl. lia.
  - intros t. assert (Stable inv moves (λ w, (clock w0 ≤ t ≤ clock w)%Z)) by (intros w w' _ [? _]%(moves_forward o) ?; lia).
    apply (guar_yield inv moves w0 others (λ w, (clock w0 ≤ t ≤ clock w)%Z)). by apply (guar_ret inv moves w0).
Qed.

Lemma shared_checker_true w0 ctx x :
  asks w0 (IsSanctioned (shared_checker others cl set) ctx x) (λ b w, true_sanction o oracleCacheTTL oracle set w0 w x b).
Proof using All.
  unfold shared_checker.
  replace oracle with (bool_decide (is_Some (shared_oracle others <$> cl_oracle cl)))
    by (apply bool_decide_ext, fmap_is_Some).
  apply (AnyChecker_true o window). intros c (caller & Hc & ->)%fmap_Some.
  apply (CachedChecker_true o window _ _ _ _ _ (OracleChecker_true o window _ _ _ _ _ _ (clients_oracle _ Hc))), preempted_Now_timely.
Qed.

(** ** The engine and the screener *)

Lemma Engine_shared w0 ctx (a : Analysis) :
  wf_analysis a →
  asks w0 (Engine_Evaluate (mkEngine (standard_rules (shared_checker others cl set)
      (shared_config others cl window threshold percent) (shared_detector others cl window percent)) threshold) ctx a)
    (λ v w, true_verdict oracle set threshold percent a w0 w v).
Proof using All.
  intros Hwf. pose proof shared_reader_true as Hreader.
  pose proof (RPCBalances_true o window oracleCacheTTL freshnessCacheSize oracleCacheSize (cl_balances cl) balanceTimeout _) as Hbal.
  pose proof (IsFresh_true o window _ _ _ _ Hreader) as Hfresh.
  assert (NoDup (a_Flows a)) as Hflows by (eapply NoDup_fmap_1; apply Hwf).
  eapply (guar_conseq inv moves w0); [apply (Engine_guar inv moves w0 ctx a threshold _
    [λ r w, ∃ S, (∀ x, true_sanction o oracleCacheTTL oracle set w0 w x (S x)) ∧ r = sanctioned_findings S a;
     λ r _, r = privilege_findings a; λ r _, r = deploy_findings a;
     λ r w, ∃ st, true_statuses o window w0 w st ∧ r = delegate_findings st a;
     λ r w, ∃ st, true_statuses o window w0 w st ∧ r = approval_findings st a;
     λ r w, ∃ st, true_statuses o window w0 w st ∧ r = grant_findings st a;
     λ r w, ∃ F, (∀ f, true_answers o window w0 w f (F f)) ∧ r = large_with percent a F;
     λ r w, ∃ F, (∀ f, true_answers o window w0 w f (F f)) ∧ r = flash_with percent a F])|done|].
  - repeat (apply Forall_cons_2); [intros fs; apply _..|by apply Forall_nil_2].
  - unfold standard_rules. repeat (apply Forall2_cons_2); [..|by apply Forall2_nil_2].
    + apply (Sanctioned_true o window oracleCacheTTL freshnessCacheSize oracleCacheSize w0 ctx _ _
        (λ w x, if oracle then bool_decide (x ∈ set) || o_listed o (clock w) x else bool_decide (x ∈ set))); [apply _| |apply Hwf|apply shared_checker_true].
      intros w x Hr. unfold true_sanction. destruct oracle; [|done]. eexists. split; [by eapply true_listed_now|done].
    + intros w Hw Hr _. cbn [PrivilegeChangeRule Evaluate]. by rewrite PrivilegeChange_run.
    + intros w Hw Hr _. cbn [DeployAndCall Evaluate]. by rewrite DeployAndCall_run.
    + exact (DelegatecallToFresh_true o window _ _ _ w0 ctx (IsFresh_of _) a).
    + exact (UnlimitedApproval_true o window _ _ _ w0 ctx (IsFresh_of _) a).
    + exact (NFTDrainer_true o window _ _ _ w0 ctx (shared_reader others cl window) a).
    + exact (LargeOutflow_true o window _ _ _ w0 ctx (shared_reader others cl window) (RPCBalances _ _) percent a Hflows).
    + exact (FlashLoanOutflow_true o window _ _ _ w0 ctx (shared_reader others cl window) (RPCBalances _ _) percent a Hflows).
  - intros v w _ _ (fss & Hfss & ->).
    apply Forall2_cons_inv_l in Hfss as (r1 & fs1 & (S & HS' & ->) & Hfss & ->).
    apply Forall2_cons_inv_l in Hfss as (r2 & fs2 & -> & Hfss & ->).
    apply Forall2_cons_inv_l in Hfss as (r3 & fs3 & -> & Hfss & ->).
    apply Forall2_cons_inv_l in Hfss as (r4 & fs4 & (st1 & Hst1 & ->) & Hfss & ->).
    apply Forall2_cons_inv_l in Hfss as (r5 & fs5 & (st2 & Hst2 & ->) & Hfss & ->).
    apply Forall2_cons_inv_l in Hfss as (r6 & fs6 & (st3 & Hst3 & ->) & Hfss & ->).
    apply Forall2_cons_inv_l in Hfss as (r7 & fs7 & (F1 & HF1 & ->) & Hfss & ->).
    apply Forall2_cons_inv_l in Hfss as (r8 & fs8 & (F2 & HF2 & ->) & Hfss & ->).
    apply Forall2_nil_inv_l in Hfss as ->. cbn [concat]. rewrite app_nil_r.
    exists S, st1, st2, st3, F1, F2. split_and!; [exact HS'| | |reflexivity].
    + intros x. split_and!; [apply Hst1|apply Hst2|apply Hst3].
    + intros f. split; [apply HF1|apply HF2].
Qed.

Context {HL : GethLaws G}.

(** What a screening that returned a verdict saw: a trace and a true verdict on it, or a refusal. *)
Definition screened (ctx : Ctx) (d : Decoded) (w w' : W) (v : Verdict) : Prop :=
  let '(r, w1) := Simulate (RPCSimulator (cl_node cl) simulateTimeout) ctx d w in
  moves w w1 ∧ moves w1 w' ∧
  match r with
  | Ok trace => true_verdict oracle set threshold percent (analysis_of d trace) w1 w' v
  | Err e => ∃ message, as_node_error e = Some message ∧ v = simulation_failed message
  | Panic => False
  end.

Lemma Simulate_shared ctx d w :
  inv w →
  match Simulate (RPCSimulator (cl_node cl) simulateTimeout) ctx d w with (Panic, _) => False | (_, w') => moves w w' end.
Proof using Hcl.
  intros Hw. cbn [RPCSimulator Simulate]. unfold RPCSimulate. rewrite trace_run.
  pose proof (clients_node (WithDeadline ctx (clock w + simulateTimeout)) "debug_traceCall" (newCallArgs d) "latest" traceConfig w Hw) as Hn.
  destruct (CallContext (cl_node cl) _ _ _ _ _ w) as [[t|e|] w1]; [| |done]; unfold trace_answer.
  - by case_bool_decide.
  - destruct (as_rpc_error e) as [[code message]|]; [by destruct (isTxRejection code)|done].
Qed.

Lemma Screen_shared ctx d w :
  inv w →
  match ScreenTx screener ctx d w with
  | (Ok v, w') => moves w w' ∧ screened ctx d w w' v
  | (Err _, w') => moves w w'
  | (Panic, _) => False
  end.
Proof using All.
  intros Hw. cbn [shared_screener NewScreener ScreenTx]. rewrite Screen_run. unfold screened.
  pose proof (Simulate_shared ctx d w Hw) as Hs.
  destruct (Simulate (RPCSimulator (cl_node cl) simulateTimeout) ctx d w) as [[t|e|] w1]; [| |done].
  - pose proof (inv_moves _ _ Hw Hs) as Hw1.
    assert (wf_analysis (analysis_of d t)) as Hwf by (apply (Build_well_formed d (Some t)), Build_ref).
    pose proof (Engine_shared w1 ctx (analysis_of d t) Hwf w1 Hw1 (reflexivity w1) Logic.I) as He.
    destruct (Engine_Evaluate _ ctx (analysis_of d t) w1) as [[v|e|] w2]; [|by etrans|done].
    destruct He as [Hm Hv]. split; [by etrans|done].
  - destruct (as_node_error e) as [message|] eqn:Hmsg; [|done]. split; [done|]. split_and!; [done|done|by eexists].
Qed.

(** ** The handler *)
Context `{LL : Lens W (list Line)}.

(** Writing to standard error is no part of what the requests share. *)
Class SharedLog : Prop := {
  log_clock : ∀ ls w, clock (written ls w) = clock w;
  log_height : ∀ ls w, o_height o (written ls w) = o_height o w;
  log_entries : ∀ ls w, (view (written ls w) : Entries) = view w;
  log_known : ∀ ls w, (view (written ls w) : gset Address) = view w
}.
Context {Hlog : SharedLog}.

Lemma moves_written ls w : moves w (written ls w).
Proof using Hlog. apply moves_waits; [by rewrite log_clock|by rewrite log_height|apply log_entries|apply log_known]. Qed.

Lemma moves_passed log d v w : moves w (passed log d v w).
Proof using Hlog. unfold passed. case_bool_decide; [done|apply moves_written]. Qed.

Lemma screen_requests_shared log ctx reqs w :
  inv w →
  match screen_requests screener log ctx reqs w with
  | (Ok _, w') => moves w w'
  | _ => False
  end.
Proof using All.
  revert w. induction reqs as [|req reqs IH]; intros w Hw; [change (moves w w); done|]. rewrite screen_requests_cons.
  case_bool_decide; [by apply IH|]. destruct (DecodeRawTransaction (rq_Params req)) as [e|d]; [apply moves_written|].
  pose proof (moves_written (arrival_lines log d) w) as Hm1.
  assert (inv (written (arrival_lines log d) w)) as Hw1 by exact (inv_moves _ _ Hw Hm1).
  pose proof (Screen_shared ctx d _ Hw1) as Hs.
  destruct (ScreenTx screener ctx d _) as [[v|e|] w2]; [| |done].
  - destruct Hs as [Hm2 _]. assert (moves w w2) as Hm by by etrans.
    destruct (vd_Block v); [etrans; [exact Hm|apply moves_written]|].
    pose proof (moves_passed log d v w2) as Hm3. assert (moves w (passed log d v w2)) as Hm' by by etrans.
    specialize (IH (passed log d v w2) (inv_moves _ _ Hw Hm')).
    destruct (screen_requests screener log ctx reqs _) as [[r|e|] w4]; [|done..]. by etrans.
  - etrans; [exact Hm1|]. etrans; [exact Hs|apply moves_written].
Qed.

(** A transaction of a request that was handed on: decoded and screened, between [w] and [w'],
    with a verdict that does not block. *)
Definition passed_truly (ctx : Ctx) (w w' : W) (req : Request) : Prop :=
  ∃ d v w1 w2, DecodeRawTransaction (rq_Params req) = inr d ∧ moves w w1 ∧ moves w2 w' ∧
    screened ctx d w1 w2 v ∧ vd_Block v = false.

Lemma cleared_shared log ctx reqs w w' :
  cleared screener log ctx reqs w w' → inv w →
  moves w w' ∧ ∀ req, req ∈ reqs → rq_Method req = sendRawTransaction → passed_truly ctx w w' req.
Proof using All.
  induction 1 as [w|req reqs w w' Hm _ IH|req reqs d v w w1 w' Hm Hd Hs Hv _ IH]; intros Hw.
  - split; [done|]. by intros req ?%not_elem_of_nil.
  - destruct (IH Hw) as [Hr Hall]. split; [done|]. intros q [->|Hq]%elem_of_cons; [done|by apply Hall].
  - pose proof (moves_written (arrival_lines log d) w) as Hm1.
    assert (inv (written (arrival_lines log d) w)) as Hw1 by exact (inv_moves _ _ Hw Hm1).
    pose proof (Screen_shared ctx d _ Hw1) as Hrun. rewrite Hs in Hrun. destruct Hrun as [Hm2 Hsc].
    pose proof (inv_moves _ _ Hw1 Hm2) as Hw2.
    pose proof (moves_passed log d v w1) as Hm3.
    assert (moves w (passed log d v w1)) as Hm4 by (etrans; [exact Hm1|by etrans]).
    destruct (IH (inv_moves _ _ Hw Hm4)) as [Hr Hall].
    split; [by etrans|]. intros q [->|Hq]%elem_of_cons Hq'.
    + exists d, v, (written (arrival_lines log d) w), w1. split_and!; [done|done|by etrans|done|done].
    + destruct (Hall q Hq Hq') as (d' & v' & wa & wb & ? & ? & ? & ? & ?). exists d', v', wa, wb.
      split_and!; [done|by etrans|done..].
Qed.

(** One request, from the connection to the reply. *)
Lemma handler_run logger r w :
  inv w → ∃ response w', NewHandler screener logger r w = (Ok response, w') ∧ moves w w' ∧
    ∀ r', response = Forward r' → ∃ reqs, ParseRequests (hr_Body r') = inr reqs ∧
      ∀ req, req ∈ reqs → rq_Method req = sendRawTransaction → passed_truly (hr_Context r) w w' req.
Proof using All.
  intros Hw. unfold NewHandler. destruct (read_body r) as [e|body] eqn:Hbody; [by eexists _, w|].
  destruct (ParseRequests body) as [e|reqs] eqn:Hparse; [by eexists _, w|].
  pose proof (screen_requests_shared (proxy_log logger) (hr_Context r) reqs w Hw) as Hs. unfold mbind, M_bind.
  destruct (screen_requests screener (proxy_log logger) (hr_Context r) reqs w) as [[[text|]|e|] w1] eqn:Hrun; [by eexists _, w1| |done..].
  eexists _, w1. split_and!; [done|done|]. intros r' [= <-]. exists reqs. split; [done|].
  apply screen_requests_none, cleared_shared in Hrun; [|done]. apply Hrun.
Qed.

Lemma handler_shared logger r w0 : asks w0 (NewHandler screener logger r) (λ _ _, True).
Proof using All. intros w Hw _ _. destruct (handler_run logger r w Hw) as (response & w' & -> & Hm & _). done. Qed.

End pipeline.

(** ** Claims *)
Section concurrent_claims.
Context `{G : Geth} {HL : GethLaws G} {W : Type} `{!Clock W} `{LE : Lens W Entries} `{LK : Lens W (gset Address)}.
Context `{LL : Lens W (list Line)}.

(** C5: A verdict reached beside any other requests is true. Whatever runs while this request waits
    for the node or is preempted around the locked regions of the two shared caches, and
    however the chain grows meanwhile, screening never panics, changes what is shared only as
    any request may, and returns the refusal of the node or exactly the verdict of the eight
    reference rules on the simulated trace over answers each of which was true: ages and
    balances at a height current between the simulation and the verdict, oracle answers at a
    time after the request started or less than the time to live before. *)
Theorem concurrent_verdict_true (o : Outside W) `{!SharedWorld o} (window : Z) (others : M W ()) (cl : Clients W)
    (set : gset Address) (threshold percent : Z) (ctx : Ctx) (d : Decoded) (w : W)
    (Hwindow : (0 ≤ window < 2 ^ 64)%Z)
    (Hothers : Yields (shared_inv o window oracleCacheTTL freshnessCacheSize oracleCacheSize)
                      (moves o window oracleCacheTTL freshnessCacheSize oracleCacheSize) others)
    (Hclients : SharedClients o window cl)
    (Hw : shared_inv o window oracleCacheTTL freshnessCacheSize oracleCacheSize w) :
  match ScreenTx (shared_screener others cl set window threshold percent) ctx d w with
  | (Ok v, w') =>
      moves o window oracleCacheTTL freshnessCacheSize oracleCacheSize w w' ∧
      screened o window cl set threshold percent ctx d w w' v
  | (Err _, w') => moves o window oracleCacheTTL freshnessCacheSize oracleCacheSize w w'
  | (Panic, _) => False
  end.
Proof. by apply (Screen_shared o window others cl). Qed.

(** C7: Requests can be each other's environment. Over such connections the handler never panics or
    fails; it leaves the shared caches sound and bounded, and has changed the world only in
    steps that any other request is proved to withstand, so that it may itself run, as often as
    one likes, at every preemption point of another; and when it forwards a request, every
    transaction in it was decoded and screened with a true verdict that does not block. *)
Theorem concurrent_requests_safe (o : Outside W) `{!SharedWorld o, !SharedLog o} (window : Z) (others : M W ()) (cl : Clients W)
    (set : gset Address) (threshold percent : Z) (logger : Logger) (r : HttpRequest) (w : W)
    (Hwindow : (0 ≤ window < 2 ^ 64)%Z)
    (Hothers : Yields (shared_inv o window oracleCacheTTL freshnessCacheSize oracleCacheSize)
                      (moves o window oracleCacheTTL freshnessCacheSize oracleCacheSize) others)
    (Hclients : SharedClients o window cl)
    (Hw : shared_inv o window oracleCacheTTL freshnessCacheSize oracleCacheSize w) :
  let handler := NewHandler (shared_screener others cl set window threshold percent) logger in
  Yields (shared_inv o window oracleCacheTTL freshnessCacheSize oracleCacheSize)
         (moves o window oracleCacheTTL freshnessCacheSize oracleCacheSize) (meanwhile (handler r)) ∧
  ∃ response w', handler r w = (Ok response, w') ∧
    shared_inv o window oracleCacheTTL freshnessCacheSize oracleCacheSize w' ∧
    moves o window oracleCacheTTL freshnessCacheSize oracleCacheSize w w' ∧
    ∀ r', response = Forward r' → ∃ reqs, ParseRequests (hr_Body r') = inr reqs ∧
      ∀ req, req ∈ reqs → rq_Method req = sendRawTransaction →
        passed_truly o window cl set threshold percent (hr_Context r) w w' req.
Proof.
  intros handler. pose proof (handler_shared o window others cl set threshold percent Hwindow logger r) as Hh. split.
  { by apply (yields_meanwhile _ _ _ _ Hh). }
  destruct (handler_run o window others cl set threshold percent Hwindow logger r w Hw) as (response & w' & Hrun & Hm & Hfwd).
  exists response, w'. split_and!; [done| |done|done]. by apply (inv_moves o window w).
Qed.

(** C3: No interleaving lets a listed address through. When the proxy forwards a request beside any
    other requests, no transaction in it touches an address of the sanctions file, nor, with an
    oracle, one that the contract has listed for at least the time to live of the cache when the
    request arrived and until it was forwarded: neither entries that other requests cached, nor
    their evictions, nor the order of lookups can hide it. *)
Theorem concurrent_requests_clean (o : Outside W) `{!SharedWorld o, !SharedLog o} (window : Z) (others : M W ()) (cl : Clients W)
    (set : gset Address) (threshold percent : Z) (logger : Logger) (r r' : HttpRequest) (x : Address) (w w' : W)
    (Hwindow : (0 ≤ window < 2 ^ 64)%Z)
    (Hothers : Yields (shared_inv o window oracleCacheTTL freshnessCacheSize oracleCacheSize)
                      (moves o window oracleCacheTTL freshnessCacheSize oracleCacheSize) others)
    (Hclients : SharedClients o window cl)
    (Hw : shared_inv o window oracleCacheTTL freshnessCacheSize oracleCacheSize w)
    (Hlisted : x ∈ set ∨ is_Some (cl_oracle cl) ∧
       ∀ t, (clock w - oracleCacheTTL < t ≤ clock w')%Z → o_listed o t x = true)
    (Hforward : NewHandler (shared_screener others cl set window threshold percent) logger r w = (Ok (Forward r'), w')) :
  ∃ reqs, ParseRequests (hr_Body r') = inr reqs ∧
    ∀ req, req ∈ reqs → rq_Method req = sendRawTransaction →
      ∃ d trace wa wb, DecodeRawTransaction (rq_Params req) = inr d ∧
        Simulate (RPCSimulator (cl_node cl) simulateTimeout) (hr_Context r) d wa = (Ok trace, wb) ∧ ¬ touched d trace x.
Proof.
  destruct (handler_run o window others cl set threshold percent Hwindow logger r w Hw) as (response & w1 & Hrun & _ & Hfwd).
  rewrite Hforward in Hrun. injection Hrun as <- <-. destruct (Hfwd r' eq_refl) as (reqs & Hparse & Hall).
  exists reqs. split; [done|]. intros req Hin Hm.
  destruct (Hall req Hin Hm) as (d & v & wa & wb & Hd & Hma & Hmb & Hscreen & Hv).
  exists d. unfold screened in Hscreen. destruct (Simulate _ _ d wa) as [r1 w1] eqn:Hsim. destruct Hscreen as (Hm1 & Hm2 & Hr1).
  destruct r1 as [trace|e|]; [|by destruct Hr1 as (message & _ & ->)|done].
  exists trace, wa, w1. split_and!; [done|done|]. rewrite touched_addresses. intros Hx.
  eapply true_verdict_unlisted; [exact Hr1|done|exact Hx|].
  destruct Hlisted as [?|[Ho Hlong]]; [by left|right]. split; [by apply bool_decide_eq_true_2|].
  pose proof (moves_forward o _ _ _ _ _ _ Hma). pose proof (moves_forward o _ _ _ _ _ _ Hm1).
  pose proof (moves_forward o _ _ _ _ _ _ Hmb). intros t Ht. apply Hlong. lia.
Qed.

End concurrent_claims.

(** ** Concrete instances *)
Module ConcurrentExamples.
Import Toy EventsExamples AnalysisExamples RulesExamples PipelineExamples.
Import FreshnessCacheExamples (demo_code, demo_permanent).

(** Every call takes one unit of time and one block. *)
Definition tick (w : World) : World := mkWorld (w_entries w) (w_known w) (w_stderr w) (w_time w + 1).

(** The oracle lists account 7 from long ago and account 8 from time 1000 on; token 9 answers, other tokens revert. *)
Definition outside : Outside World := mkOutside w_time demo_code
  (λ t x, (Z.ltb (100 - oracleCacheTTL) t && bool_decide (x = addr 7)) || (Z.leb 1000 t && bool_decide (x = addr 8))) (λ _ _, 5%Z)
  (λ _ asset _, if bool_decide (asset = addr 9) then Some (be_bytes 32 1000) else None).

Definition clients : Clients World := mkClients
  (mkRpcClient World (λ _ _ args _ _ w,
     (match ca_Input args with [] => Ok (plain_trace demo_tx) | _ => Err (RpcError (-32000) "insufficient funds") end, tick w)))
  (mkCodeReader
     (λ _ w, if Z.ltb (w_time w) (2 ^ 64) then (Ok (w_time w), tick w) else (Err (Errorf "block number overflows" []), tick w))
     (λ _ a n w, (Ok (demo_code a (default (w_time w) n)), tick w)))
  (mkBalanceClient (λ _ _ _ w, (Ok 5%Z, tick w))
     (λ _ m _ w, (match o_token outside 0 (msg_To m) zero_address with Some out => Ok out | None => Err (RpcError 3 "execution reverted") end, tick w)))
  (Some (mkContractCaller
     (λ _ m _ w, (Ok (bool_word (o_listed outside (w_time w) (to_bytes_n 20 (msg_Data m)))), tick w))
     (λ _ _ _ w, (Ok [x60], tick w)))).

#[export] Instance outside_shared : SharedWorld outside.
Proof. split; try apply _; try done. apply demo_permanent. Qed.
#[export] Instance outside_log : SharedLog outside.
Proof. by split. Qed.

Abbreviation moves := (moves outside 10 oracleCacheTTL freshnessCacheSize oracleCacheSize).
Abbreviation inv := (shared_inv outside 10 oracleCacheTTL freshnessCacheSize oracleCacheSize).

Lemma tick_after w : (w_time w ≤ w_time (tick w))%Z.
Proof. unfold tick. cbn [w_time]. lia. Qed.

Lemma moves_tick w : moves w (tick w).
Proof. apply moves_waits; [apply tick_after|apply tick_after|done|done]. Qed.

#[export] Instance clients_shared : SharedClients outside 10 clients.
Proof.
  split.
  - intros c method args block cfg w _. cbn [cl_node clients CallContext]. destruct (ca_Input args); apply moves_tick.
  - split; [split| |].
    + intros c w. cbn [cl_reader clients BlockNumber outside o_height]. pose proof (tick_after w).
      destruct (Z.ltb_spec (w_time w) (2 ^ 64)); lia.
    + intros c a w. cbn [cl_reader clients CodeAt outside o_height o_code]. pose proof (tick_after w). exists (w_time w). split; [lia|done].
    + intros c a n w _. cbn [cl_reader clients CodeAt outside o_height o_code]. split; [apply tick_after|done].
    + intros c w _. cbn [cl_reader clients BlockNumber]. destruct (Z.ltb _ _); apply moves_tick.
    + intros c a n w _. apply moves_tick.
  - split.
    + intros c holder w _. cbn [cl_balances clients BalanceAt outside o_eth o_height]. split; [apply moves_tick|].
      exists (w_time w). pose proof (tick_after w). split; [lia|done].
    + intros c asset holder w _. cbn [cl_balances clients CallContract outside o_token o_height msg_To]. pose proof (tick_after w).
      case_bool_decide; (split; [apply moves_tick|]); [|intros _]; exists (w_time w); (split; [lia|done]).
  - intros caller [= <-] c x w _. cbn [oracle_CallContract msg_Data]. split; [apply moves_tick|].
    exists (w_time w). pose proof (tick_after w). split; [change (clock ?u) with (w_time u); lia|].
    intros b Hb. rewrite calldata_address in Hb. apply (f_equal last) in Hb. revert Hb.
    unfold bool_word. rewrite !last_snoc. cbn [o_listed outside]. by destruct (_ || _), b.
Qed.

Lemma inv_start t : (0 ≤ t)%Z → inv (mkWorld ∅ ∅ [] t).
Proof.
  intros Ht. split; cbn [outside o_height w_time view known_lens entries_lens w_known w_entries].
  - done.
  - intros a. by rewrite elem_of_empty.
  - by rewrite size_empty.
  - intros a e. by rewrite lookup_empty.
  - by rewrite map_size_empty.
Qed.

Definition start : World := mkWorld ∅ ∅ [] 100.

(** A request alone, and one that another request interrupts at every point of preemption. *)
Definition alone : Screener World := shared_screener (mret ()) clients demo_set 10 50 50.
Definition another : M World () := meanwhile (NewHandler alone demo_log (http [])).
Definition beside : Screener World := shared_screener another clients demo_set 10 50 50.

Lemma another_yields : Yields inv moves another.
Proof.
  apply (yields_meanwhile inv moves _ (λ _ _, True)). intros w1.
  exact (handler_shared outside 10 (mret ()) clients demo_set 50 50 ltac:(lia) demo_log (http []) w1).
Qed.

Lemma small_window : (0 ≤ 10 < 2 ^ 64)%Z.
Proof. lia. Qed.
Lemma start_inv : inv start.
Proof. apply inv_start. lia. Qed.

Lemma concurrent_verdict_true_witness :
  match ScreenTx beside Background demo_tx start with
  | (Ok v, w') => moves start w' ∧ screened outside 10 clients demo_set 50 50 Background demo_tx start w' v
  | (Err _, w') => moves start w'
  | (Panic, _) => False
  end.
Proof.
  exact (concurrent_verdict_true outside 10 another clients demo_set 50 50 Background demo_tx start
    small_window another_yields clients_shared start_inv).
Defined.

Lemma concurrent_requests_safe_witness :
  let handler := NewHandler (shared_screener another clients demo_set 10 50 50) demo_log in
  Yields inv moves (meanwhile (handler (http []))) ∧
  ∃ response w', handler (http []) start = (Ok response, w') ∧ inv w' ∧ moves start w' ∧
    ∀ r', response = Forward r' → ∃ reqs, ParseRequests (hr_Body r') = inr reqs ∧
      ∀ req, req ∈ reqs → rq_Method req = sendRawTransaction →
        passed_truly outside 10 clients demo_set 50 50 (hr_Context (http [])) start w' req.
Proof.
  exact (concurrent_requests_safe outside 10 another clients demo_set 50 50 demo_log (http []) start
    small_window another_yields clients_shared start_inv).
Defined.

Lemma forwarded_beside :
  NewHandler beside demo_log (http []) start =
  (Ok (Forward (set_body (http []) (hr_Body (http [])))), (NewHandler beside demo_log (http []) start).2).
Proof. by vm_compute. Qed.

Lemma seven_listed t : (100 - oracleCacheTTL < t)%Z → o_listed outside t (addr 7) = true.
Proof.
  intros Ht. cbn [o_listed outside]. rewrite (proj2 (Z.ltb_lt _ _) Ht). by vm_compute.
Qed.

Lemma concurrent_requests_clean_witness :
  ∃ reqs, ParseRequests (hr_Body (set_body (http []) (hr_Body (http [])))) = inr reqs ∧
    ∀ req, req ∈ reqs → rq_Method req = sendRawTransaction →
      ∃ d trace wa wb, DecodeRawTransaction (rq_Params req) = inr d ∧
        Simulate (RPCSimulator (cl_node clients) simulateTimeout) Background d wa = (Ok trace, wb) ∧ ¬ touched d trace (addr 7).
Proof.
  exact (concurrent_requests_clean outside 10 another clients demo_set 50 50 demo_log (http [])
    (set_body (http []) (hr_Body (http []))) (addr 7) start _ small_window another_yields clients_shared start_inv
    (or_intror (conj (mk_is_Some _ _ eq_refl) (λ t Ht, seven_listed t (proj1 Ht)))) forwarded_beside).
Defined.

(** The same request takes longer beside another, and ends with the same answer. *)
Example durations :
  (w_time (NewHandler alone demo_log (http []) start).2, w_time (NewHandler beside demo_log (http []) start).2) = (105, 119)%Z.
Proof. by vm_compute. Qed.

(** Once account 8 is listed, at time 1000, a request is blocked when the caches are empty, and
    passes on an answer that an earlier request cached less than the time to live before. *)
Definition later (w : World) : World := mkWorld (w_entries w) (w_known w) (w_stderr w) 1001.

Definition passes (w : World) : bool :=
  match (NewHandler alone demo_log (http []) w).1 with Ok (Forward _) => true | _ => false end.

Example stale_within_ttl :
  (passes (later start), passes (later (NewHandler alone demo_log (http []) start).2)) = (false, true).
Proof. by vm_compute. Qed.

End ConcurrentExamples.
