(* ===== verification/Questions.v ===== *)
(** * What the rules ask, and in which order

    Lookups cost a round trip to the node, and the oracle is only asked about addresses the list
    does not have. Over lookups that write down every question, each rule of [Rules] is run as
    it is: the theorem gives the exact sequence of its questions together with its findings. *)

From Stdlib Require Import ZArith Lia.
From S2P Require Import Prelude GoLib Deadline Geth Events TxDecode Simulate Flows FlashLoans Analysis WellFormed.
From S2P Require Import ChainState FreshnessCache Sanctions SanctionsCache Rules RulesSpec DeployCall Risk Pipeline.
From S2P Require Import Interference Shared SharedRules.

(** ** Questions *)

Inductive Question := AskSanction (x : Address) | AskStatus (x : Address) | AskBalance (asset holder : Address).

#[global] Instance Question_eq_dec : EqDecision Question.
Proof. solve_decision. Defined.

(** ** Loops *)

Lemma noted_loop {A B} (f : B → A → M (list Question) B) (g : B → A → B) (qs : A → list Question) xs b log :
  (∀ b x log, f b x log = (Ok (g b x), log ++ qs x)) →
  foldM f xs b log = (Ok (foldl g b xs), log ++ (xs ≫= qs)).
Proof.
  intros Hf. revert b log. induction xs as [|x xs IH]; intros b log; [simpl; by rewrite app_nil_r|].
  cbn [foldM foldl]. unfold mbind at 1, M_bind at 1. by rewrite Hf, IH, bind_cons, app_assoc.
Qed.

(** The keys that are not in [seen] yet, each once. *)
Fixpoint new_keys (seen keys : list Address) : list Address :=
  match keys with
  | [] => []
  | k :: keys => if bool_decide (k ∈ seen) then new_keys seen keys else k :: new_keys (seen ++ [k]) keys
  end.

Lemma add_new_keys seen keys : foldl add_new seen keys = seen ++ new_keys seen keys.
Proof.
  revert seen. induction keys as [|k keys IH]; intros seen; [by rewrite app_nil_r|].
  cbn [foldl new_keys]. unfold add_new at 2. case_bool_decide; rewrite IH; [done|]. by rewrite <-app_assoc.
Qed.

Section memo_questions.
Context `{G : Geth} {E B : Type} (skip : E → bool) (key : E → Address) (ask : Address → M (list Question) B) (out : E → B → list string).
Context (val : Address → B) (a : Analysis).
Context (Hask : ∀ x log, ask x log = (Ok (val x), log ++ if bool_decide (x ∈ a_Created a) then [] else [AskStatus x])).

Lemma memo_questions es seen table found log :
  (∀ x, table !! x = if bool_decide (x ∈ seen) then Some (val x) else None) →
  ∃ table', foldM (memo_step skip key ask out) es (table, found) log =
    (Ok (table', found ++ (es ≫= λ e, if skip e then [] else out e (val (key e)))),
     log ++ (AskStatus <$> filter (λ x, x ∉ a_Created a) (new_keys seen (key <$> filter (λ e, skip e = false) es)))).
Proof using Hask.
  revert seen table found log. induction es as [|e es IH]; intros seen table found log Ht.
  { exists table. cbn. by rewrite !app_nil_r. }
  rewrite bind_cons, filter_cons. cbn [foldM]. unfold mbind at 1, M_bind at 1. unfold memo_step at 1.
  destruct (skip e) eqn:Hskip.
  { unfold mret, M_ret. rewrite decide_False by done. by apply IH. }
  rewrite decide_True, fmap_cons by done. cbn [new_keys]. unfold mbind at 1, M_bind at 1. rewrite Ht.
  case_bool_decide as Hseen; unfold mret, M_ret; cbn [fst snd].
  - destruct (IH seen table (found ++ out e (val (key e))) log Ht) as [table' ->]. exists table'. by rewrite app_assoc.
  - unfold mbind at 1, M_bind at 1. rewrite Hask. cbn [fst snd]. destruct (IH (seen ++ [key e]) (<[key e := val (key e)]> table) (found ++ out e (val (key e)))
      (log ++ if bool_decide (key e ∈ a_Created a) then [] else [AskStatus (key e)])) as [table' ->].
    { intros x. destruct (decide (x = key e)) as [->|Hx].
      - rewrite lookup_insert_eq, bool_decide_eq_true_2; [done|set_solver].
      - rewrite lookup_insert_ne, Ht by done. by rewrite (bool_decide_ext (x ∈ seen) (x ∈ seen ++ [key e])) by set_solver. }
    exists table'. rewrite <-!app_assoc, filter_cons.
    case_bool_decide; [rewrite decide_False by tauto|rewrite decide_True by done]; done.
Qed.

End memo_questions.

(** ** Lookups that write down their questions *)
Section questions.
Context `{G : Geth} (set : gset Address) (S : Address → bool) (st : Address → Status) (bal : Address → Address → option Z).

Definition noting {A} (q : Question) (x : A) : M (list Question) A := λ log, (Ok x, log ++ [q]).

(** The oracle behind the list. *)
Definition noted_oracle : Checker (list Question) := mkChecker (λ _ x, noting (AskSanction x) (S x)).
Definition noted_checker : Checker (list Question) := AnyChecker [ListChecker set; noted_oracle].
Definition sanctioned_by (x : Address) : bool := bool_decide (x ∈ set) || S x.
Definition noted_status : StatusReader (list Question) := mkStatusReader (λ _ x, noting (AskStatus x) (st x)).
Definition noted_balances : BalanceReader (list Question) :=
  mkBalanceReader (λ _ asset holder, noting (AskBalance asset holder) (bal asset holder)).
Definition noted_detector (percent : Z) : OutflowDetector := mkOutflowDetector noted_status noted_balances percent.

Lemma noted_checker_run ctx x log :
  IsSanctioned noted_checker ctx x log =
  (Ok (sanctioned_by x), log ++ if bool_decide (x ∈ set) then [] else [AskSanction x]).
Proof.
  unfold noted_checker, AnyChecker, sanctioned_by. cbn [IsSanctioned AnyChecker_IsSanctioned ListChecker noted_oracle].
  unfold mbind, M_bind, noting, mret, M_ret. case_bool_decide; [by rewrite app_nil_r|]. by destruct (S x).
Qed.

#[local] Instance noted_checker_spec : CheckerSpec (λ _, True) (λ _, False) noted_checker sanctioned_by.
Proof. intros ctx x log _. by rewrite noted_checker_run. Qed.
#[local] Instance noted_status_spec : StatusSpec (λ _, True) (λ _, False) noted_status st.
Proof. done. Qed.
#[local] Instance noted_fresh_spec : FreshSpec (λ _, True) (λ _, False) (IsFresh_of noted_status) st.
Proof. apply IsFresh_of_spec, _. Qed.
#[local] Instance noted_balances_spec : BalanceSpec (λ _, True) (λ _, False) noted_balances bal.
Proof. done. Qed.

(** ** The questions of each rule *)

(** The keys a memo table has to ask about: each the first time it occurs, unless it was created
    by the transaction. *)
Definition asked_once (a : Analysis) (keys : list Address) : list Question :=
  AskStatus <$> filter (λ x, x ∉ a_Created a) (foldl add_new [] keys).

Definition sanctioned_questions (a : Analysis) : list Question := AskSanction <$> filter (λ x, x ∉ set) (a_Addresses a).

Definition delegate_questions (a : Analysis) : list Question :=
  asked_once a (f_To <$> filter (λ f, is_delegate f = true) (a_Frames a)).

Definition approval_questions (a : Analysis) : list Question :=
  asked_once a (ap_Spender <$> filter (λ ap, 2 ^ 128 ≤ ap_Amount ap)%Z (a_Approvals a)).

Definition grant_questions (a : Analysis) : list Question :=
  asked_once a (afa_Operator <$> filter (λ ap, afa_Approved ap = true) (a_ApprovalsForAll a)).

(** The holder first; the balance only of an account with code. *)
Definition flow_questions (a : Analysis) (f : Flow) : list Question :=
  if bool_decide ((0 < NetOut f)%Z ∧ fl_Holder f ≠ zero_address ∧ fl_Holder f ∉ a_Created a)
  then AskStatus (fl_Holder f) ::
       (if bool_decide (st (fl_Holder f) = NoCode) then [] else [AskBalance (fl_Asset f) (fl_Holder f)])
  else [].

Definition outflow_questions (a : Analysis) : list Question := a_Flows a ≫= flow_questions a.

(** ** The runs *)
Context (ctx : Ctx).

(** The findings are known from [RulesSpec]; what remains is the log. *)
Lemma run_of_triple {A} (m : M (list Question) A) x log qs :
  triple (λ _, True) m (λ r, r = x) (λ _, False) → (m log).2 = log ++ qs → m log = (Ok x, log ++ qs).
Proof.
  intros Hm Hlog. destruct (triple_total _ _ _ log Hm Logic.I) as (r & log' & Hrun & _ & ->).
  rewrite Hrun in *. simpl in Hlog. by rewrite Hlog.
Qed.

(** A rule is its loop followed by pure code. *)
Lemma bind_log {A B} (m : M (list Question) A) (f : A → M (list Question) B) x log log' :
  m log = (Ok x, log') → (∀ log, (f x log).2 = log) → ((m ≫= f) log).2 = log'.
Proof. intros Hm Hf. unfold mbind, M_bind. by rewrite Hm. Qed.

Lemma Sanctioned_questions a log :
  Evaluate (Sanctioned noted_checker) ctx a log = (Ok (sanctioned_findings sanctioned_by a), log ++ sanctioned_questions a).
Proof.
  apply run_of_triple; [exact (Sanctioned_triple (λ _, True) (λ _, False) ctx noted_checker sanctioned_by a)|]. cbn [Sanctioned Evaluate]. unfold Sanctioned_Evaluate.
  rewrite (noted_loop _ (λ fs x, if sanctioned_by x then fs ++ [sanctioned_finding x] else fs)
    (λ x, if bool_decide (x ∉ set) then [AskSanction x] else [])).
  - cbn [snd]. f_equal. apply (bind_filter (λ x, x ∉ set)).
  - intros fs x log'. unfold sanctioned_step, mbind, M_bind, wrap_err. rewrite noted_checker_run. unfold mret, M_ret.
    by repeat case_bool_decide.
Qed.

Lemma isFresh_noted a x log :
  isFresh ctx (IsFresh_of noted_status) a x log =
  (Ok (bool_decide (new_code st a x)), log ++ if bool_decide (x ∈ a_Created a) then [] else [AskStatus x]).
Proof.
  apply run_of_triple; [exact (isFresh_triple (λ _, True) (λ _, False) ctx _ st a x)|]. unfold isFresh, CreatedInTx. case_bool_decide; [simpl; by rewrite app_nil_r|done].
Qed.

Lemma UnlimitedApproval_questions a log :
  Evaluate (UnlimitedApproval (IsFresh_of noted_status)) ctx a log = (Ok (approval_findings st a), log ++ approval_questions a).
Proof.
  apply run_of_triple; [exact (UnlimitedApproval_triple (λ _, True) (λ _, False) ctx _ st a)|]. cbn [UnlimitedApproval Evaluate]. unfold UnlimitedApproval_Evaluate.
  destruct (memo_questions approval_skip ap_Spender _ approval_out _ a (isFresh_noted a) (a_Approvals a) [] ∅ [] log) as [table Hrun].
  { intros x. by rewrite lookup_empty. }
  eapply bind_log; [rewrite (foldM_ext _ _ _ _ log (approval_memo ctx _ a)), Hrun; f_equal|done].
  unfold approval_questions, asked_once. rewrite (add_new_keys []). do 4 f_equal. cbn [app].
  do 2 f_equal. apply filter_ext_elem. intros ap _. unfold approval_skip. change UnlimitedAmount with (2 ^ 128)%Z. by rewrite Z.ltb_ge.
Qed.

(** The targets that are checked are those of the table. *)
Lemma delegate_loop_log a frames checked targets seen log :
  (∀ x, x ∈ (checked : gset Address) ↔ x ∈ (seen : list Address)) →
  (foldM (delegate_step (IsFresh_of noted_status) ctx a) frames (checked, targets) log).2 =
  log ++ (AskStatus <$> filter (λ x, x ∉ a_Created a) (new_keys seen (f_To <$> filter (λ f, is_delegate f = true) frames))).
Proof.
  revert checked targets seen log. induction frames as [|f frames IH]; intros checked targets seen log Hc; [simpl; by rewrite app_nil_r|].
  cbn [foldM]. unfold mbind at 1, M_bind at 1. unfold delegate_step at 1. rewrite filter_cons.
  destruct (is_delegate f) eqn:Hd; cbn [negb orb].
  2: { unfold mret, M_ret. rewrite decide_False by done. by apply IH. }
  rewrite decide_True, fmap_cons by done. cbn [new_keys]. rewrite (bool_decide_ext _ _ (Hc (f_To f))).
  case_bool_decide as Hseen; [unfold mret, M_ret; by apply IH|]. unfold mbind at 1, M_bind at 1. rewrite isFresh_noted.
  unfold mret, M_ret. rewrite (IH _ _ (seen ++ [f_To f])) by set_solver. rewrite <-!app_assoc, filter_cons.
  case_bool_decide; [rewrite decide_False by tauto|rewrite decide_True by done]; done.
Qed.

Lemma DelegatecallToFresh_questions a log :
  Evaluate (DelegatecallToFresh (IsFresh_of noted_status)) ctx a log = (Ok (delegate_findings st a), log ++ delegate_questions a).
Proof.
  apply run_of_triple; [exact (DelegatecallToFresh_triple (λ _, True) (λ _, False) ctx _ st a)|].
  cbn [DelegatecallToFresh Evaluate]. unfold DelegatecallToFresh_Evaluate.
  pose proof (delegate_loop_log a (a_Frames a) ∅ [] [] log ltac:(set_solver)) as Hlog.
  destruct (triple_total _ _ _ log (delegate_loop (λ _, True) (λ _, False) ctx (IsFresh_of noted_status) st a (a_Frames a)) Logic.I)
    as (s & log' & Hrun & _ & _).
  eapply bind_log; [|done]. unfold delegate_questions, asked_once. rewrite (add_new_keys []). cbn [app].
  rewrite Hrun in *. cbn [snd] in Hlog. by rewrite Hlog.
Qed.

Lemma operatorKind_noted a x log :
  operatorKind noted_status ctx a x log =
  (Ok (kind_of st a x), log ++ if bool_decide (x ∈ a_Created a) then [] else [AskStatus x]).
Proof.
  apply run_of_triple; [exact (operatorKind_triple (λ _, True) (λ _, False) ctx _ st a x)|]. unfold operatorKind, CreatedInTx. case_bool_decide; [simpl; by rewrite app_nil_r|done].
Qed.

Lemma NFTDrainer_questions a log :
  Evaluate (NFTDrainer noted_status) ctx a log = (Ok (grant_findings st a), log ++ grant_questions a).
Proof.
  apply run_of_triple; [exact (NFTDrainer_triple (λ _, True) (λ _, False) ctx _ st a)|]. cbn [NFTDrainer Evaluate]. unfold NFTDrainer_Evaluate.
  destruct (memo_questions (λ ap, negb (afa_Approved ap)) afa_Operator _ grant_out _ a (operatorKind_noted a)
    (a_ApprovalsForAll a) [] ∅ [] log) as [table Hrun].
  { intros x. by rewrite lookup_empty. }
  eapply bind_log; [rewrite (foldM_ext _ _ _ _ log (grant_memo ctx _ a)), Hrun; f_equal|done].
  unfold grant_questions, asked_once. rewrite (add_new_keys []). do 4 f_equal. cbn [app].
  do 2 f_equal. apply filter_ext_elem. intros ap _. by destruct (afa_Approved ap).
Qed.

Lemma find_step_noted percent a found f log :
  find_step (noted_detector percent) ctx a found f log =
  (Ok (found ++ option_list (outflow_of st bal percent a f)), log ++ flow_questions a f).
Proof.
  apply run_of_triple; [exact (find_step_triple (λ _, True) (λ _, False) ctx _ st _ bal percent a found f)|]. unfold find_step, flow_questions, CreatedInTx.
  cbn [od_status od_balances noted_detector noted_status noted_balances StatusOf Balance].
  destruct (Z.leb (NetOut f) 0 || bool_decide (fl_Holder f = zero_address) || bool_decide (fl_Holder f ∈ a_Created a)) eqn:Hskip.
  { rewrite bool_decide_eq_false_2; [simpl; by rewrite app_nil_r|]. intros (? & ? & ?).
    rewrite !orb_true_iff, Z.leb_le, !bool_decide_eq_true in Hskip. destruct Hskip as [[?|?]|?]; [lia|done|done]. }
  split_bool. rewrite (bool_decide_eq_true_2 (_ ∧ _)) by (split_and!; [lia|done|done]).
  unfold mbind, M_bind, wrap_err, noting.
  case_bool_decide; [done|]. rewrite <-app_assoc. destruct (bal _ _) as [b|]; [|done].
  destruct (Z.eqb b 0); [done|]. by destruct (Z.ltb _ _).
Qed.

Lemma Find_noted percent a log :
  Find (noted_detector percent) ctx a log = (Ok (outflows_of st bal percent a), log ++ outflow_questions a).
Proof.
  apply run_of_triple; [exact (Find_triple (λ _, True) (λ _, False) ctx _ st _ bal percent a)|]. unfold Find, outflow_questions.
  by rewrite (noted_loop _ _ _ _ _ _ (find_step_noted percent a)).
Qed.

Lemma lift_log {A} (o : option A) log : (lift o log : outcome A * list Question).2 = log.
Proof. by destruct o. Qed.

Lemma LargeOutflow_questions percent a log :
  Evaluate (LargeOutflow (noted_detector percent)) ctx a log = (Ok (large_findings st bal percent a), log ++ outflow_questions a).
Proof.
  apply run_of_triple; [exact (LargeOutflow_triple (λ _, True) (λ _, False) ctx _ st _ bal percent a)|]. eapply bind_log; [apply Find_noted|].
  intros log'. unfold mbind, M_bind. by destruct (mapM Outflow_String _).
Qed.

Lemma FlashLoanOutflow_questions percent a log :
  Evaluate (FlashLoanOutflow (noted_detector percent)) ctx a log =
  (Ok (flash_findings st bal percent a), log ++ if bool_decide (a_FlashLoans a = []) then [] else outflow_questions a).
Proof.
  apply run_of_triple; [exact (FlashLoanOutflow_triple (λ _, True) (λ _, False) ctx _ st _ bal percent a)|]. cbn [FlashLoanOutflow Evaluate]. unfold FlashLoanOutflow_Evaluate.
  rewrite (bool_decide_ext (length (a_FlashLoans a) = 0) (a_FlashLoans a = [])) by apply length_zero_iff_nil.
  case_bool_decide; [simpl; by rewrite app_nil_r|]. eapply bind_log; [apply Find_noted|].
  intros log'. unfold mbind, M_bind. by destruct (foldO _ _ _).
Qed.

(** ** The engine *)

Definition noted_config (sim : Simulator (list Question)) (threshold percent : Z) : screenerConfig (list Question) :=
  mkScreenerConfig "" "" threshold percent sim (mkContractAge (IsFresh_of noted_status) noted_status) noted_balances.

Definition noted_engine (sim : Simulator (list Question)) (threshold percent : Z) : Engine (list Question) :=
  mkEngine (standard_rules noted_checker (noted_config sim threshold percent) (noted_detector percent)) threshold.

(** What a screening asks. *)
Definition screening_questions (a : Analysis) : list Question :=
  sanctioned_questions a ++ delegate_questions a ++ approval_questions a ++ grant_questions a ++
  outflow_questions a ++ (if bool_decide (a_FlashLoans a = []) then [] else outflow_questions a).

Lemma asked_once_nodup a keys : NoDup (asked_once a keys).
Proof.
  apply NoDup_fmap; [by intros ? ? [=]|]. apply NoDup_filter, NoDup_add_new, NoDup_nil_2.
Qed.

Lemma rules_loop_run a (rs : list (Rule (list Question))) (fqs : list (list Finding * list Question)) fs0 log :
  Forall2 (λ r fq, ∀ log, Evaluate r ctx a log = (Ok fq.1, log ++ fq.2)) rs fqs →
  foldM (run_rule ctx a) rs (partial_verdict fs0) log =
  (Ok (partial_verdict (fs0 ++ (fqs ≫= fst))), log ++ (fqs ≫= snd)).
Proof.
  intros Hrs. revert fs0 log. induction Hrs as [|r [fs qs] rs fqs Hr _ IH]; intros fs0 log; [simpl; by rewrite !app_nil_r|].
  cbn [foldM]. unfold mbind at 1, M_bind at 1. rewrite run_rule_run, Hr. cbn [fst snd]. rewrite IH, !bind_cons.
  by rewrite <-!app_assoc.
Qed.

Lemma engine_questions sim threshold percent a log :
  Engine_Evaluate (noted_engine sim threshold percent) ctx a log =
  (Ok (verdict_of threshold
     (sanctioned_findings sanctioned_by a ++ privilege_findings a ++ deploy_findings a ++ delegate_findings st a ++
      approval_findings st a ++ grant_findings st a ++ large_findings st bal percent a ++ flash_findings st bal percent a)),
   log ++ screening_questions a).
Proof.
  set (fqs := [(sanctioned_findings sanctioned_by a, sanctioned_questions a); (privilege_findings a, []); (deploy_findings a, []);
    (delegate_findings st a, delegate_questions a); (approval_findings st a, approval_questions a);
    (grant_findings st a, grant_questions a); (large_findings st bal percent a, outflow_questions a);
    (flash_findings st bal percent a, if bool_decide (a_FlashLoans a = []) then [] else outflow_questions a)]).
  assert (Forall2 (λ r fq, ∀ log, Evaluate r ctx a log = (Ok fq.1, log ++ fq.2)) (e_rules (noted_engine sim threshold percent)) fqs) as Hrs.
  { repeat (apply Forall2_cons_2); [..|by apply Forall2_nil_2]; intros log'; cbn [fst snd].
    - apply Sanctioned_questions.
    - cbn [PrivilegeChangeRule Evaluate]. by rewrite PrivilegeChange_run, app_nil_r.
    - cbn [DeployAndCall Evaluate]. by rewrite DeployAndCall_run, app_nil_r.
    - apply DelegatecallToFresh_questions.
    - apply UnlimitedApproval_questions.
    - apply NFTDrainer_questions.
    - apply LargeOutflow_questions.
    - apply FlashLoanOutflow_questions. }
  pose proof (rules_loop_run a _ fqs [] log Hrs) as Hloop.
  unfold Engine_Evaluate, mbind at 1, M_bind at 1. change (mkVerdict false 0 []) with (partial_verdict []). rewrite Hloop.
  unfold mret, M_ret, partial_verdict, verdict_of, screening_questions. cbn [vd_Score vd_Findings e_threshold noted_engine app].
  unfold fqs. cbn [mbind list_bind fst snd app]. rewrite !app_nil_r.
  f_equal. f_equal. destruct (Z.leb _ _); by rewrite ?orb_true_r, ?orb_false_r.
Qed.

End questions.

(** ** Each balance once *)

Definition is_balance (q : Question) : bool := match q with AskBalance _ _ => true | _ => false end.

Lemma balances_asked_once `{G : Geth} (st : Address → Status) (a : Analysis) :
  NoDup (Flows.key <$> a_Flows a) → NoDup (filter (λ q, is_balance q = true) (outflow_questions st a)).
Proof.
  unfold outflow_questions. induction (a_Flows a) as [|f fs IH]; [by intros; apply NoDup_nil_2|].
  rewrite fmap_cons, NoDup_cons, bind_cons, filter_app. intros [Hf Hfs].
  assert (∀ f q, q ∈ filter (λ q, is_balance q = true) (flow_questions st a f) → q = AskBalance (fl_Asset f) (fl_Holder f)) as Hone.
  { intros g q [Hq Hin]%list_elem_of_filter. unfold flow_questions in Hin.
    repeat case_bool_decide; rewrite ?elem_of_cons, ?elem_of_nil in Hin; destruct_or?; by subst. }
  apply NoDup_app. split_and!; [| |by apply IH].
  - unfold flow_questions. repeat case_bool_decide; rewrite ?filter_cons, ?filter_nil; cbn [is_balance];
      rewrite ?decide_True, ?decide_False by done; first [apply NoDup_nil_2|apply NoDup_singleton].
  - intros q Hq [Hb (g & Hg & Hin)%list_elem_of_bind]%list_elem_of_filter. apply Hf.
    apply list_elem_of_fmap. exists g. split; [|done]. apply Hone in Hq as ->.
    assert (AskBalance (fl_Asset f) (fl_Holder f) = AskBalance (fl_Asset g) (fl_Holder g)) as [= Ha Hh]
      by (apply Hone, list_elem_of_filter; done).
    unfold Flows.key. congruence.
Qed.

(** ** The claim *)

(** C15: A screening asks exactly what it needs, in a fixed order. The engine over the list, an oracle, a
    status and a balance reader asks the oracle about every touched address that the list does
    not have, each once; then the age of each delegatecall target, of each spender of an
    unlimited approval and of each operator, by rule, each once and none that the transaction
    created; then for each flow out of an existing account its holder's status and, when that
    is a contract, its balance, each balance once; and the last a second time only when there
    is a flash loan. It returns the verdict of the reference rules on those answers. *)
Theorem screening_asks_exactly `{G : Geth} `{HL : !GethLaws G} (set : gset Address) (S : Address → bool) (st : Address → Status)
    (bal : Address → Address → option Z) (sim : Simulator (list Question)) (threshold percent : Z) (ctx : Ctx)
    (tx : Decoded) (trace : option CallFrame) (a : Analysis) (log : list Question) (Hbuild : Build tx trace = Some a) :
  Engine_Evaluate (noted_engine set S st bal sim threshold percent) ctx a log =
  (Ok (verdict_of threshold
     (sanctioned_findings (λ x, bool_decide (x ∈ set) || S x) a ++ privilege_findings a ++ deploy_findings a ++
      delegate_findings st a ++ approval_findings st a ++ grant_findings st a ++
      large_findings st bal percent a ++ flash_findings st bal percent a)),
   log ++ (AskSanction <$> filter (λ x, x ∉ set) (a_Addresses a)) ++
     delegate_questions a ++ approval_questions a ++ grant_questions a ++ outflow_questions st a ++
     (if bool_decide (a_FlashLoans a = []) then [] else outflow_questions st a)) ∧
  NoDup (AskSanction <$> filter (λ x, x ∉ set) (a_Addresses a)) ∧
  NoDup (delegate_questions a) ∧ NoDup (approval_questions a) ∧ NoDup (grant_questions a) ∧
  NoDup (filter (λ q, is_balance q = true) (outflow_questions st a)).
Proof.
  pose proof (Build_well_formed tx trace a Hbuild) as Hwf. split; [apply engine_questions|].
  split_and!; [|apply asked_once_nodup..|apply balances_asked_once, Hwf].
  apply NoDup_fmap; [by intros ? ? [=]|]. apply NoDup_filter, Hwf.
Qed.

(** ** Concrete instances *)
Module QuestionsExamples.
Import Toy EventsExamples AnalysisExamples RulesExamples.

Definition no_node : Simulator (list Question) := mkSimulator (list Question) (λ _ _, fail (Errorf "offline" [])).

Lemma demo_build : Build demo_tx (Some demo_trace) = Some demo_analysis.
Proof. by vm_compute. Qed.

Lemma screening_asks_exactly_witness :
  Engine_Evaluate (noted_engine {[addr 6]} demo_S demo_st demo_bal no_node 50 50) Background demo_analysis [] =
  (Ok (verdict_of 50
     (sanctioned_findings (λ x, bool_decide (x ∈ ({[addr 6]} : gset Address)) || demo_S x) demo_analysis ++
      privilege_findings demo_analysis ++ deploy_findings demo_analysis ++
      delegate_findings demo_st demo_analysis ++ approval_findings demo_st demo_analysis ++ grant_findings demo_st demo_analysis ++
      large_findings demo_st demo_bal 50 demo_analysis ++ flash_findings demo_st demo_bal 50 demo_analysis)),
   [] ++ (AskSanction <$> filter (λ x, x ∉ ({[addr 6]} : gset Address)) (a_Addresses demo_analysis)) ++
     delegate_questions demo_analysis ++ approval_questions demo_analysis ++ grant_questions demo_analysis ++
     outflow_questions demo_st demo_analysis ++
     (if bool_decide (a_FlashLoans demo_analysis = []) then [] else outflow_questions demo_st demo_analysis)) ∧
  NoDup (AskSanction <$> filter (λ x, x ∉ ({[addr 6]} : gset Address)) (a_Addresses demo_analysis)) ∧
  NoDup (delegate_questions demo_analysis) ∧ NoDup (approval_questions demo_analysis) ∧ NoDup (grant_questions demo_analysis) ∧
  NoDup (filter (λ q, is_balance q = true) (outflow_questions demo_st demo_analysis)).
Proof.
  exact (screening_asks_exactly {[addr 6]} demo_S demo_st demo_bal no_node 50 50 Background demo_tx (Some demo_trace)
    demo_analysis [] demo_build).
Defined.

(** The questions about the example with a loan: the delegatecall target that is called twice is
    asked about once, the approval below the limit not at all, each flow by each outflow rule. *)
Example drain_questions :
  (λ q, match q with AskSanction _ => 1 | AskStatus _ => 2 | AskBalance _ _ => 3 end) <$>
    (Engine_Evaluate (noted_engine ∅ demo_S demo_st demo_bal no_node 50 50) Background drain_analysis []).2 =
  [1; 1; 1; 2; 2; 2; 2; 3; 2; 3; 2; 3; 2; 3; 2; 3; 2; 3].
Proof. by vm_compute. Qed.

End QuestionsExamples.
