(* ===== verification/Timing.v ===== *)
(** * How long a lookup takes

    Every call to a node or oracle is made under a context with a deadline. Over clients that
    honour contexts, each lookup costs at most its timeout and the slack of its calls. Rules
    follow in [Budget], transactions and requests in [Response]. Time is what the program spends
    waiting; its own computing is not counted. *)

From Stdlib Require Import ZArith Lia.
From S2P Require Import Prelude GoLib Deadline Json JsonProofs JsonRpc Logging Geth Events TxDecode Simulate Flows FlashLoans Analysis.
From S2P Require Import ChainState Sanctions SanctionsCache Rules RulesSpec DeployCall Risk Screen Proxy Pipeline.

(** ** What the clients promise *)
Section clients.
Context `{G : Geth} {W : Type} `{!Clock W} (slack : Z).

Class TimelyCode (r : CodeReader W) : Prop := {
  timely_height : Honours slack (BlockNumber r);
  timely_code : ∀ a n, Honours slack (λ ctx, CodeAt r ctx a n)
}.
Class TimelyBalances (c : BalanceClient W) : Prop := {
  timely_eth : ∀ a n, Honours slack (λ ctx, BalanceAt c ctx a n);
  timely_call : ∀ msg n, Honours slack (λ ctx, CallContract c ctx msg n)
}.
Class TimelyOracle (c : ContractCaller W) : Prop := {
  timely_oracle : ∀ msg n, Honours slack (λ ctx, oracle_CallContract c ctx msg n);
  timely_oracle_code : ∀ a n, Honours slack (λ ctx, oracle_CodeAt c ctx a n)
}.
Class TimelyRpc (c : RpcClient W) : Prop :=
  timely_rpc : ∀ method args block cfg, Honours slack (λ ctx, CallContext c ctx method args block cfg).

End clients.

(** What the components promise to the rules: a lookup costs at most [c]. *)
Section interfaces.
Context `{G : Geth} {W : Type} `{!Clock W} (c : Z).

Class TimelyStatus (r : StatusReader W) : Prop :=
  timely_status : ∀ ctx a, spends c (StatusOf r ctx a) (λ _, 0%Z).
Class TimelyFresh (r : FreshnessChecker W) : Prop :=
  timely_fresh : ∀ ctx a, spends c (IsFreshContract r ctx a) (λ _, 0%Z).
Class TimelyBalance (r : BalanceReader W) : Prop :=
  timely_balance : ∀ ctx asset holder, spends c (Balance r ctx asset holder) (λ _, 0%Z).
Class TimelyChecker (r : Checker W) : Prop :=
  timely_checker : ∀ ctx a, spends c (IsSanctioned r ctx a) (λ _, 0%Z).
Class TimelySimulator (s : Simulator W) : Prop :=
  timely_simulator : ∀ ctx tx, spends c (Simulate s ctx tx) (λ _, 0%Z).

End interfaces.

(** ** Lookups *)
Section lookups.
Context `{G : Geth} {W : Type} `{!Clock W} (slack : Z) (Hslack : (0 ≤ slack)%Z).

Lemma until_le {A} t n k (m : M W A) : n ≤ k → until slack t n m → until slack t k m.
Proof using Hslack.
  intros Hk Hm w. specialize (Hm w). assert (Z.of_nat n * slack ≤ Z.of_nat k * slack)%Z by nia.
  destruct (m w) as [[a|e|] w1]; [lia|lia|done].
Qed.

Lemma pastBlock_until reader window `{!TimelyCode slack reader} t ctx :
  expires_by t ctx → until slack t 1 (pastBlock reader window ctx).
Proof using Hslack.
  intros Hc. apply (until_bind slack Hslack t 1 0).
  - apply until_wrap. apply (until_call slack t (BlockNumber reader)); [by apply timely_height|done].
  - intros n. destruct (Z.ltb n window); by apply until_ret.
Qed.

Lemma RPCStatus_spends reader window timeout `{!TimelyCode slack reader} ctx a :
  (0 ≤ timeout)%Z → spends (timeout + 3 * slack) (RPCStatus reader window timeout ctx a) (λ _, 0%Z).
Proof using Hslack.
  intros Ht. apply (spends_WithTimeout slack ctx timeout 3); [done|]. intros t c Hc.
  apply (until_bind slack Hslack t 1 2).
  { apply until_wrap. apply (until_call slack t (λ c, CodeAt reader c a None)); [by apply timely_code|done]. }
  intros code. case_bool_decide; [by apply until_ret|].
  apply (until_bind slack Hslack t 1 1); [by apply pastBlock_until|]. intros past.
  apply (until_bind slack Hslack t 1 0).
  { apply until_wrap. apply (until_call slack t (λ c, CodeAt reader c a (Some past))); [by apply timely_code|done]. }
  intros old. case_bool_decide; by apply until_ret.
Qed.

Lemma RPCBalance_spends client timeout `{!TimelyBalances slack client} ctx asset holder :
  (0 ≤ timeout)%Z → spends (timeout + slack) (RPCBalance client timeout ctx asset holder) (λ _, 0%Z).
Proof using Hslack.
  intros Ht. replace (timeout + slack)%Z with (timeout + Z.of_nat 1 * slack)%Z by lia.
  apply spends_WithTimeout; [done|]. intros t c Hc. case_bool_decide.
  - apply (until_bind slack Hslack t 1 0); [|intros; by apply until_ret].
    apply until_wrap. apply (until_call slack t (λ c, BalanceAt client c holder None)); [by apply timely_eth|done].
  - apply (until_bind slack Hslack t 1 0).
    + apply until_try.
      apply (until_call slack t (λ c, CallContract client c (mkCallMsg asset (balanceOf_calldata holder)) None));
        [by apply timely_call|done].
    + intros [err|out]; [destruct (as_rpc_error err)|case_bool_decide]; by (apply until_ret || apply until_fail).
Qed.

Lemma Oracle_spends caller oracle timeout `{!TimelyOracle slack caller} ctx a :
  (0 ≤ timeout)%Z → spends (timeout + slack) (Oracle_IsSanctioned caller oracle timeout ctx a) (λ _, 0%Z).
Proof using Hslack.
  intros Ht. replace (timeout + slack)%Z with (timeout + Z.of_nat 1 * slack)%Z by lia.
  apply spends_WithTimeout; [done|]. intros t c Hc. apply (until_bind slack Hslack t 1 0).
  - apply until_wrap.
    apply (until_call slack t (λ c, oracle_CallContract caller c (mkCallMsg oracle (isSanctionedCalldata a)) None));
      [by apply timely_oracle|done].
  - intros out. destruct (decodeBool_no_panic out) as [[e|b] ->];
      [exact (until_fail slack Hslack t 0 e)|exact (until_ret slack Hslack t 0 b)].
Qed.

Lemma trace_spends client timeout `{!TimelyRpc slack client} ctx args :
  (0 ≤ timeout)%Z → spends (timeout + slack) (trace client timeout ctx args) (λ _, 0%Z).
Proof using Hslack.
  intros Ht. replace (timeout + slack)%Z with (timeout + Z.of_nat 1 * slack)%Z by lia.
  apply spends_WithTimeout; [done|]. intros t c Hc. apply (until_bind slack Hslack t 1 0).
  - apply until_try.
    apply (until_call slack t (λ c, CallContext client c "debug_traceCall" args "latest" traceConfig)); [by apply timely_rpc|done].
  - intros [err|f]; [destruct (as_rpc_error err) as [[code msg]|]; [destruct (isTxRejection code)|]|case_bool_decide];
      by (apply until_ret || apply until_fail).
Qed.

End lookups.

(** The caches add nothing to what they wrap. *)
Section caches.
Context `{G : Geth} {W : Type} `{!Clock W}.

Lemma CachedStatus_spends `{L : Lens W (gset Address)} `{!Timeless L} c next maxEntries ctx a :
  (0 ≤ c)%Z → TimelyStatus c next → spends c (CachedStatus next maxEntries ctx a) (λ _, 0%Z).
Proof.
  intros Hc Hnext. eapply spends_bind; [apply spends_get|]. intros known. case_bool_decide; [by apply spends_ret|].
  eapply spends_bind; [apply Hnext|]. intros s. case_bool_decide; [by apply spends_ret|].
  eapply spends_bind; [apply spends_get|]. intros known'. cbv zeta.
  eapply spends_bind; [by apply spends_put|]. intros []. by apply spends_ret.
Qed.

Lemma CachedIsSanctioned_spends `{L : Lens W Entries} `{!Timeless L} c next ttl maxEntries ctx a :
  (0 ≤ c)%Z → TimelyChecker c next → spends c (CachedIsSanctioned next ttl maxEntries time_Now ctx a) (λ _, 0%Z).
Proof.
  intros Hc Hnext. eapply spends_bind; [apply spends_now|]. intros now.
  eapply spends_bind; [apply spends_get|]. intros entries. destruct (cache_read now a entries); [by apply spends_ret|].
  eapply spends_bind; [apply Hnext|]. intros hit. eapply spends_bind; [apply spends_get|]. intros entries'.
  eapply spends_bind; [by apply spends_put|]. intros []. by apply spends_ret.
Qed.

Lemma IsFresh_of_spends c (r : StatusReader W) : TimelyStatus c r → TimelyFresh c (IsFresh_of r).
Proof.
  intros Hr ctx a. eapply spends_bind; [apply Hr|]. intros s. by apply spends_ret.
Qed.

Lemma ListChecker_timely set : TimelyChecker 0 (ListChecker set : Checker W).
Proof. intros ctx a. by apply spends_ret. Qed.

Lemma AnyChecker_spends costs (cs : list (Checker W)) :
  Forall2 (λ c r, (0 ≤ c)%Z ∧ TimelyChecker c r) costs cs → TimelyChecker (list_sum_Z costs) (AnyChecker cs).
Proof.
  intros Hcs ctx a. unfold AnyChecker. cbn [IsSanctioned]. induction Hcs as [|c r costs cs [Hc Hr] Hcs IH].
  - by apply spends_ret.
  - assert (0 ≤ list_sum_Z costs)%Z as Hpos.
    { clear -Hcs. induction Hcs as [|x y ? ? [? _] _ IH]; [done|]. unfold list_sum_Z in *. simpl. lia. }
    eapply (spends_bind _ _ _ (λ _, list_sum_Z costs)).
    + eapply spends_conseq; [apply Hr|unfold list_sum_Z in *; simpl; lia|]. intros b. unfold list_sum_Z. simpl. lia.
    + intros [|]; [by apply spends_ret|apply IH].
Qed.

End caches.
