(* ===== verification/Budget.v ===== *)
(** * What each rule may cost

    Over readers and checkers whose lookups cost at most a known time ([Timing]), the cost of
    every rule as a function of the analysis: one lookup for each distinct account it has to ask
    about, two for each suspicious flow. Tables of earlier answers are what makes the accounts
    distinct: a loop is paid in advance for the accounts its table does not hold yet. *)

From Stdlib Require Import ZArith Lia.
From S2P Require Import Prelude GoLib Deadline Geth Events TxDecode Simulate Flows FlashLoans Analysis.
From S2P Require Import ChainState Sanctions Rules RulesSpec DeployCall Risk Screen Timing.

(** ** Loops with a table of answers *)

Lemma size_list_to_set_le {K} `{Countable K} (l : list K) : size (list_to_set (C := gset K) l) ≤ length l.
Proof.
  induction l as [|x l IH]; [done|]. cbn [list_to_set length]. rewrite size_union_alt, size_singleton.
  assert (size (list_to_set (C := gset K) l ∖ {[x]}) ≤ size (list_to_set (C := gset K) l)); [|lia].
  by apply subseteq_size, subseteq_difference_l.
Qed.

Section asked.
Context {A : Type} (k : A → Address) (need : A → bool).

(** The accounts to ask about. *)
Definition asked (l : list A) : gset Address := list_to_set (k <$> filter (λ x, need x = true) l).

Lemma asked_cons x l : asked (x :: l) = (if need x then {[k x]} else ∅) ∪ asked l.
Proof.
  unfold asked. rewrite filter_cons. destruct (need x); case_decide; try done. set_solver.
Qed.

Lemma size_asked l : size (asked l) ≤ length l.
Proof.
  unfold asked. etrans; [apply size_list_to_set_le|]. rewrite length_fmap. apply length_filter.
Qed.

Context (c : Z) (Hc : (0 ≤ c)%Z).

(** What asking about those not in the table costs. *)
Definition owed (l : list A) (memo : gset Address) : Z := c * Z.of_nat (size (asked l ∖ memo)).

Lemma owed_nonneg l memo : (0 ≤ owed l memo)%Z.
Proof using Hc. unfold owed. nia. Qed.

(** Passing over an element never costs anything. *)
Lemma owed_skip x l memo : (owed l memo ≤ owed (x :: l) memo)%Z.
Proof using Hc.
  unfold owed. apply Z.mul_le_mono_nonneg_l; [done|]. apply inj_le, subseteq_size. rewrite asked_cons. set_solver.
Qed.

(** A new entry of the table pays for itself. *)
Lemma owed_pay x l memo :
  k x ∉ memo → ((if need x then c else 0) + owed l ({[k x]} ∪ memo) ≤ owed (x :: l) memo)%Z.
Proof using Hc.
  intros Hx. unfold owed. rewrite asked_cons. destruct (need x).
  - replace (({[k x]} ∪ asked l) ∖ memo) with ({[k x]} ∪ (asked l ∖ ({[k x]} ∪ memo)))
      by (apply leibniz_equiv; intros y; destruct (decide (y = k x)); set_solver).
    rewrite (size_union {[k x]} (asked l ∖ ({[k x]} ∪ memo))) by set_solver. rewrite size_singleton. lia.
  - assert (size (asked l ∖ ({[k x]} ∪ memo)) ≤ size ((∅ ∪ asked l) ∖ memo)) by (apply subseteq_size; set_solver). nia.
Qed.

Lemma owed_le_length l memo : (owed l memo ≤ c * Z.of_nat (length l))%Z.
Proof using Hc.
  unfold owed. apply Z.mul_le_mono_nonneg_l; [done|]. apply inj_le.
  etrans; [by apply subseteq_size, (subseteq_difference_l (asked l))|]. apply size_asked.
Qed.

End asked.

(** ** The budgets of the rules *)
Section budgets.
Context `{G : Geth} (cc cs cb : Z).

(** A checker costs [cc], a status [cs] and a balance [cb]. *)
Definition sanctioned_budget (a : Analysis) : Z := cc * Z.of_nat (length (a_Addresses a)).

Definition delegate_needs (a : Analysis) (f : Frame) : bool := is_delegate f && negb (CreatedInTx a (f_To f)).
Definition delegate_budget (a : Analysis) : Z := owed f_To (delegate_needs a) cs (a_Frames a) ∅.

Definition approval_needs (a : Analysis) (ap : Approval) : bool :=
  negb (Z.ltb (ap_Amount ap) UnlimitedAmount) && negb (CreatedInTx a (ap_Spender ap)).
Definition approval_budget (a : Analysis) : Z := owed ap_Spender (approval_needs a) cs (a_Approvals a) ∅.

Definition grant_needs (a : Analysis) (ap : ApprovalForAll) : bool :=
  afa_Approved ap && negb (CreatedInTx a (afa_Operator ap)).
Definition grant_budget (a : Analysis) : Z := owed afa_Operator (grant_needs a) cs (a_ApprovalsForAll a) ∅.

Definition flow_needs (a : Analysis) (f : Flow) : bool :=
  negb (Z.leb (NetOut f) 0 || bool_decide (fl_Holder f = zero_address) || CreatedInTx a (fl_Holder f)).
Definition flows_cost (a : Analysis) (fs : list Flow) : Z :=
  (cs + cb) * Z.of_nat (length (filter (λ f, flow_needs a f = true) fs)).
Definition outflow_budget (a : Analysis) : Z := flows_cost a (a_Flows a).
Definition flash_budget (a : Analysis) : Z := if bool_decide (length (a_FlashLoans a) = 0) then 0 else outflow_budget a.

End budgets.

(** ** The rules keep within their budgets *)
Section rules_spend.
Context `{G : Geth} {W : Type} `{!Clock W} (cc cs cb : Z) (Hcc : (0 ≤ cc)%Z) (Hcs : (0 ≤ cs)%Z) (Hcb : (0 ≤ cb)%Z).

(** A rule's bound depends on the analysis. *)
Class TimelyRule (budget : Analysis → Z) (r : Rule W) : Prop :=
  timely_rule : ∀ ctx a, spends (budget a) (Evaluate r ctx a) (λ _, 0%Z).

#[global] Instance Sanctioned_timely checker :
  TimelyChecker cc checker → TimelyRule (sanctioned_budget cc) (Sanctioned checker).
Proof using Hcc.
  intros Hch ctx a. cbn [Sanctioned Evaluate]. unfold Sanctioned_Evaluate, sanctioned_budget.
  apply (spends_foldM _ (λ l _, (cc * Z.of_nat (length l))%Z)); [simpl; lia|]. intros x rest b. cbn [length].
  eapply (spends_bind _ _ _ (λ _, cc * Z.of_nat (length rest))%Z); [|intros []; by apply spends_ret].
  apply spends_wrap. eapply spends_conseq; [apply Hch|lia|]. intros. lia.
Qed.

#[global] Instance Privilege_timely : TimelyRule (λ _, 0%Z) (PrivilegeChangeRule : Rule W).
Proof using Type. intros ctx a. by apply spends_ret. Qed.

#[global] Instance DeployAndCall_timely : TimelyRule (λ _, 0%Z) (DeployAndCall : Rule W).
Proof using Type. intros ctx a w. cbn [DeployAndCall Evaluate]. rewrite DeployAndCall_run. simpl. lia. Qed.

Lemma isFresh_spends fresh ctx a x :
  TimelyFresh cs fresh → spends (if CreatedInTx a x then 0 else cs)%Z (isFresh ctx fresh a x) (λ _, 0%Z).
Proof using Type.
  intros Hf. unfold isFresh. destruct (CreatedInTx a x); [by apply spends_ret|]. apply spends_wrap, Hf.
Qed.

#[global] Instance DelegatecallToFresh_timely fresh :
  TimelyFresh cs fresh → TimelyRule (delegate_budget cs) (DelegatecallToFresh fresh).
Proof using Hcs.
  intros Hf ctx a. cbn [DelegatecallToFresh Evaluate]. unfold DelegatecallToFresh_Evaluate, delegate_budget.
  eapply spends_bind; [|intros s; by apply (spends_ret 0)].
  apply (spends_foldM _ (λ l s, owed f_To (delegate_needs a) cs l s.1) _ (∅, []) (λ _, 0%Z)); [intros; by apply owed_nonneg|].
  intros f rest [checked targets]. cbn [fst]. unfold delegate_step.
  destruct (negb (is_delegate f) || bool_decide (f_To f ∈ checked)) eqn:Hskip.
  { apply spends_ret. by apply owed_skip. }
  apply orb_false_iff in Hskip as [Hd Hin]. split_bool.
  pose proof (owed_pay f_To (delegate_needs a) cs Hcs f rest checked Hin) as Hpay.
  unfold delegate_needs at 1 in Hpay. rewrite Hd in Hpay. cbn [andb] in Hpay.
  eapply (spends_bind _ _ _ (λ _, owed f_To (delegate_needs a) cs rest ({[f_To f]} ∪ checked)));
    [|intros b; by apply spends_ret].
  pose proof (owed_nonneg f_To (delegate_needs a) cs Hcs rest ({[f_To f]} ∪ checked)).
  eapply spends_conseq; [by apply isFresh_spends|destruct (CreatedInTx a (f_To f)); simpl in *; lia|].
  intros b. destruct (CreatedInTx a (f_To f)); simpl in *; lia.
Qed.

(** A lookup through a table: the rest of the loop is still paid for. *)
Lemma memo_spends {A B} (k : A → Address) (need : A → bool) x rest (memo : gmap Address B) (m : M W B)
    (free : bool) (cost := (if free then 0 else cs)%Z) :
  need x = negb free → spends cost m (λ _, 0%Z) →
  spends (owed k need cs (x :: rest) (dom memo))
    (match memo !! k x with
     | Some b => mret (memo, b)
     | None => b ← m; mret (<[k x := b]> memo, b)
     end)
    (λ r, owed k need cs rest (dom r.1)).
Proof using Hcs.
  intros Hneed Hm. destruct (memo !! k x) as [b|] eqn:Hl; [apply spends_ret; by apply owed_skip|].
  apply not_elem_of_dom in Hl. pose proof (owed_pay k need cs Hcs x rest (dom memo) Hl) as Hpay.
  pose proof (owed_nonneg k need cs Hcs rest ({[k x]} ∪ dom memo)).
  eapply (spends_bind _ _ _ (λ _, owed k need cs rest ({[k x]} ∪ dom memo)));
    [|intros b; apply spends_ret; cbn [fst]; by rewrite dom_insert_L].
  rewrite Hneed in Hpay. eapply spends_conseq; [exact Hm|unfold cost; destruct free; simpl in *; lia|].
  intros b. unfold cost. destruct free; simpl in *; lia.
Qed.

#[global] Instance UnlimitedApproval_timely fresh :
  TimelyFresh cs fresh → TimelyRule (approval_budget cs) (UnlimitedApproval fresh).
Proof using Hcs.
  intros Hf ctx a. cbn [UnlimitedApproval Evaluate]. unfold UnlimitedApproval_Evaluate, approval_budget.
  eapply spends_bind; [|intros s; by apply (spends_ret 0)]. rewrite <-(dom_empty_L (D := gset Address) (A := bool)).
  apply (spends_foldM _ (λ l s, owed ap_Spender (approval_needs a) cs l (dom s.1)) _ (∅, []) (λ _, 0%Z)); [intros; by apply owed_nonneg|].
  intros ap rest [checked approvals]. cbn [fst]. unfold approval_step.
  destruct (Z.ltb (ap_Amount ap) UnlimitedAmount) eqn:Hlt; [apply spends_ret; by apply owed_skip|].
  apply (spends_bind _ _ _ (λ r, owed ap_Spender (approval_needs a) cs rest (dom r.1))); [|intros x; by apply spends_ret].
  apply (memo_spends ap_Spender (approval_needs a) ap rest checked _ (CreatedInTx a (ap_Spender ap))).
  - unfold approval_needs. by rewrite Hlt.
  - by apply isFresh_spends.
Qed.

#[global] Instance NFTDrainer_timely status :
  TimelyStatus cs status → TimelyRule (grant_budget cs) (NFTDrainer status).
Proof using Hcs.
  intros Hs ctx a. cbn [NFTDrainer Evaluate]. unfold NFTDrainer_Evaluate, grant_budget.
  eapply spends_bind; [|intros s; by apply (spends_ret 0)]. rewrite <-(dom_empty_L (D := gset Address) (A := string)).
  apply (spends_foldM _ (λ l s, owed afa_Operator (grant_needs a) cs l (dom s.1)) _ (∅, []) (λ _, 0%Z)); [intros; by apply owed_nonneg|].
  intros ap rest [kind grants]. cbn [fst]. unfold grant_step.
  destruct (afa_Approved ap) eqn:Ha; cbn [negb]; [|apply spends_ret; by apply owed_skip].
  apply (spends_bind _ _ _ (λ r, owed afa_Operator (grant_needs a) cs rest (dom r.1))); [|intros x; by apply spends_ret].
  apply (memo_spends afa_Operator (grant_needs a) ap rest kind _ (CreatedInTx a (afa_Operator ap))).
  - unfold grant_needs. by rewrite Ha.
  - unfold operatorKind. destruct (CreatedInTx a _); [by apply spends_ret|].
    eapply spends_bind; [apply spends_wrap, Hs|]. intros s. by apply spends_ret.
Qed.

Context (status : StatusReader W) (balances : BalanceReader W) (percent : Z).
Context {Hstatus : TimelyStatus cs status} {Hbal : TimelyBalance cb balances}.

Lemma Find_spends ctx a :
  spends (outflow_budget cs cb a) (Find (mkOutflowDetector status balances percent) ctx a) (λ _, 0%Z).
Proof using Hcs Hcb Hstatus Hbal.
  unfold Find, outflow_budget.
  apply (spends_foldM _ (λ l _, flows_cost cs cb a l)); [intros; unfold flows_cost; simpl; lia|].
  intros f rest found. unfold find_step. cbv zeta. cbn [od_status od_balances od_percent].
  assert (flows_cost cs cb a (f :: rest) =
    (if flow_needs a f then cs + cb else 0) + flows_cost cs cb a rest)%Z as Hcost.
  { unfold flows_cost. rewrite filter_cons. destruct (flow_needs a f) eqn:Hn; case_decide; cbn [length]; lia || congruence. }
  rewrite Hcost. unfold flow_needs. destruct (_ || _ || _); cbn [negb]; [apply spends_ret; lia|].
  assert (0 ≤ flows_cost cs cb a rest)%Z by (unfold flows_cost; nia).
  eapply (spends_bind _ _ _ (λ _, cb + flows_cost cs cb a rest)%Z).
  { apply spends_wrap. eapply spends_conseq; [apply Hstatus|lia|]. intros; cbv beta; lia. }
  intros s. case_bool_decide; [apply spends_ret; lia|].
  eapply (spends_bind _ _ _ (λ _, flows_cost cs cb a rest)).
  { eapply spends_conseq; [apply Hbal|lia|]. intros; cbv beta; lia. }
  intros [bal|]; [|by apply spends_ret]. destruct (Z.eqb bal 0); [by apply spends_ret|].
  destruct (Z.ltb _ _); by apply spends_ret.
Qed.

(** Whatever the readers answer, an outflow that is found has a balance to divide by. *)
Lemma Find_divisible ctx a w os w' :
  Find (mkOutflowDetector status balances percent) ctx a w = (Ok os, w') → Forall (λ o, of_Balance o ≠ 0%Z) os.
Proof using Type.
  unfold Find. assert (Forall (λ o, of_Balance o ≠ 0%Z) []) as Hnil by constructor. revert Hnil.
  generalize (@nil Outflow) as found. revert w. induction (a_Flows a) as [|f fs IH]; intros w found Hfound; cbn [foldM].
  { by intros [-> _]%ret_ok. }
  intros (found' & w1 & Hstep & H)%bind_ok. apply IH in H; [done|]. clear H IH. revert Hstep. unfold find_step. cbv zeta.
  destruct (_ || _ || _); [by intros [-> _]%ret_ok|]. intros (s & w2 & _ & Hs)%bind_ok. revert Hs.
  case_bool_decide; [by intros [-> _]%ret_ok|]. intros (r & w3 & _ & Hr)%bind_ok. revert Hr.
  destruct r as [bal|]; [|by intros [-> _]%ret_ok]. destruct (Z.eqb_spec bal 0); [by intros [-> _]%ret_ok|].
  destruct (Z.ltb _ _); intros [-> _]%ret_ok; [|done]. apply Forall_app. split; [done|]. by constructor.
Qed.

Lemma outflow_texts os : Forall (λ o, of_Balance o ≠ 0%Z) os → is_Some (mapM Outflow_String os).
Proof using Type.
  induction 1 as [|o os Ho _ [ts IH]]; [by eexists|]. cbn [mapM]. rewrite (Outflow_String_text _ Ho), IH. by eexists.
Qed.

Lemma drained_total lenders os acc :
  Forall (λ o, of_Balance o ≠ 0%Z) os → is_Some (foldO (drained_step lenders) os acc).
Proof using Type.
  intros Hos. revert acc. induction Hos as [|o os Ho _ IH]; intros acc; [by eexists|]. cbn [foldO].
  assert (is_Some (drained_step lenders acc o)) as [acc' ->]; [|apply IH].
  unfold drained_step. rewrite (Outflow_String_text _ Ho). case_bool_decide; by eexists.
Qed.

#[global] Instance LargeOutflow_timely :
  TimelyRule (outflow_budget cs cb) (LargeOutflow (mkOutflowDetector status balances percent)).
Proof using Hcs Hcb Hstatus Hbal.
  intros ctx a. cbn [LargeOutflow Evaluate].
  eapply spends_bind_post; [apply Find_spends|apply Find_divisible|]. intros os Hos. cbv beta.
  eapply (spends_bind _ _ _ (λ _, 0%Z)); [apply spends_lift; [by apply outflow_texts|done]|].
  intros parts. by apply spends_ret.
Qed.

#[global] Instance FlashLoanOutflow_timely :
  TimelyRule (flash_budget cs cb) (FlashLoanOutflow (mkOutflowDetector status balances percent)).
Proof using Hcs Hcb Hstatus Hbal.
  intros ctx a. cbn [FlashLoanOutflow Evaluate]. unfold FlashLoanOutflow_Evaluate, flash_budget.
  case_bool_decide; [by apply spends_ret|].
  eapply spends_bind_post; [apply Find_spends|apply Find_divisible|]. intros os Hos. cbv beta.
  eapply (spends_bind _ _ _ (λ _, 0%Z)); [apply spends_lift; [by apply drained_total|done]|].
  intros parts. by apply spends_ret.
Qed.

End rules_spend.

(** ** The engine and the screener *)
Section engine_spends.
Context `{G : Geth} {W : Type} `{!Clock W}.

Lemma rules_spend (budgets : list (Analysis → Z)) (rs : list (Rule W)) ctx a v :
  Forall2 TimelyRule budgets rs → Forall (λ b, ∀ a, 0 ≤ b a)%Z budgets →
  spends (list_sum_Z ((λ b, b a) <$> budgets)) (foldM (run_rule ctx a) rs v) (λ _, 0%Z).
Proof.
  intros Hrs. revert v. induction Hrs as [|b r budgets rs Hr _ IH]; intros v; [by intros _; apply spends_ret|].
  intros [Hb Hbs]%Forall_cons. cbn [foldM fmap list_fmap list_sum_Z foldr].
  assert (0 ≤ list_sum_Z ((λ b, b a) <$> budgets))%Z as Hpos.
  { apply list_sum_Z_nonneg, Forall_fmap. eapply Forall_impl; [exact Hbs|]. intros b' Hb'. apply Hb'. }
  eapply (spends_bind _ _ _ (λ _, list_sum_Z ((λ b, b a) <$> budgets))); [|intros v'; by apply IH].
  unfold run_rule. eapply (spends_bind _ _ _ (λ _, list_sum_Z ((λ b, b a) <$> budgets)));
    [|intros fs; by apply spends_ret].
  apply spends_wrap. eapply spends_conseq; [apply Hr|unfold list_sum_Z in *; lia|]. intros fs. unfold list_sum_Z in *. lia.
Qed.

Lemma Engine_spends budgets (e : Engine W) ctx a :
  Forall2 TimelyRule budgets (e_rules e) → Forall (λ b, ∀ a, 0 ≤ b a)%Z budgets →
  spends (list_sum_Z ((λ b, b a) <$> budgets)) (Engine_Evaluate e ctx a) (λ _, 0%Z).
Proof.
  intros Hrs Hpos. eapply spends_bind; [by apply rules_spend|]. intros v. by apply spends_ret.
Qed.

(** Screening costs the simulation and, for the trace it yields, the budgets of the rules. *)
Lemma Screen_spends cost sim (e : Engine W) budgets bound ctx tx :
  TimelySimulator cost sim → Forall2 TimelyRule budgets (e_rules e) → Forall (λ b, ∀ a, 0 ≤ b a)%Z budgets →
  (∀ w t w', Simulate sim ctx tx w = (Ok t, w') → list_sum_Z ((λ b, b (analysis_of tx t)) <$> budgets) ≤ bound)%Z →
  (0 ≤ bound)%Z →
  spends (cost + bound) (Screen sim e ctx tx) (λ _, 0%Z).
Proof.
  intros Hsim Hrs Hpos Hbound Hb w. rewrite Screen_run. specialize (Hsim ctx tx w).
  destruct (Simulate sim ctx tx w) as [[t|err|] w1] eqn:Hrun; [| |done].
  - specialize (Hbound w t w1 Hrun). pose proof (Engine_spends budgets e ctx (analysis_of tx t) Hrs Hpos w1) as He.
    destruct (Engine_Evaluate e ctx (analysis_of tx t) w1) as [[v|err|] w2]; [lia|lia|done].
  - destruct (as_node_error err); lia.
Qed.

End engine_spends.

(** ** Budgets and the size of a trace *)
Section sizes.
Context `{G : Geth}.

(** The calls and logs of a trace that take effect. *)
Definition trace_size (t : CallFrame) : nat := length (live t 0) + length (live_logs (live t 0)).

Lemma length_omap_le {A B} (f : A → option B) l : length (omap f l) ≤ length l.
Proof. induction l as [|x l IH]; [done|]. csimpl. destruct (f x); csimpl; lia. Qed.

Lemma length_add_new {A} `{EqDecision A} (l xs : list A) : length (foldl add_new l xs) ≤ length l + length xs.
Proof.
  revert l. induction xs as [|x xs IH]; intros l; simpl; [lia|]. rewrite IH. unfold add_new.
  case_bool_decide; rewrite ?length_app; simpl; lia.
Qed.

Lemma length_touched L : length (L ≫= frame_touched) ≤ length L + length (live_logs L).
Proof.
  induction L as [|p L IH]; [done|]. unfold live_logs in *. rewrite !bind_cons, !length_app. cbn [length].
  assert (length (frame_touched p) ≤ 1 + length (cf_Logs p.1)) as Hp; [|lia].
  unfold frame_touched. rewrite length_app.
  assert (length (cf_Logs p.1 ≫= log_recipients) ≤ length (cf_Logs p.1)).
  { induction (cf_Logs p.1) as [|l ls IHl]; [done|]. rewrite bind_cons, length_app. unfold log_recipients at 1.
    destruct (log_transfer l); simpl in *; lia. }
  destruct (cf_To p.1); simpl in *; lia.
Qed.

Lemma length_flows ms : length (foldl bump_move [] ms) ≤ 2 * length ms.
Proof.
  rewrite <-(length_fmap key), keys_moves. etrans; [apply length_add_new|]. simpl.
  unfold move_keys. induction ms as [|m ms IH]; [done|]. rewrite bind_cons. simpl in *. lia.
Qed.

Lemma addresses_le tx t : length (a_Addresses (analysis_of tx t)) ≤ 2 + trace_size t.
Proof.
  unfold analysis_of, trace_size. cbn [a_Addresses]. etrans; [apply length_add_new|].
  assert (length (a_Addresses (FromTx tx)) ≤ 2) by (unfold FromTx; simpl; repeat case_match; simpl; lia).
  pose proof (length_touched (live t 0)). lia.
Qed.

Lemma flows_le tx t : length (a_Flows (analysis_of tx t)) ≤ 2 * trace_size t.
Proof.
  unfold analysis_of, trace_size. cbn [a_Flows]. etrans; [apply length_flows|]. apply Nat.mul_le_mono_l.
  unfold moves_of. etrans; [apply length_filter|]. rewrite length_app.
  pose proof (length_omap_le eth_move (frames_of (live t 0))) as He. unfold frames_of in *. rewrite length_fmap in He.
  pose proof (length_omap_le erc20_move (omap log_transfer (live_logs (live t 0)))).
  pose proof (length_omap_le log_transfer (live_logs (live t 0))). lia.
Qed.

Context (cc cs cb u : Z) (Hcc : (0 ≤ cc ≤ u)%Z) (Hcs : (0 ≤ cs ≤ u)%Z) (Hcb : (0 ≤ cb ≤ u)%Z).

(** The budgets of the standard rules, in the order of the rules. *)
Definition standard_budgets : list (Analysis → Z) :=
  [sanctioned_budget cc; λ _, 0%Z; λ _, 0%Z; delegate_budget cs; approval_budget cs; grant_budget cs;
   outflow_budget cs cb; flash_budget cs cb].

Lemma flows_cost_le a fs : (0 ≤ flows_cost cs cb a fs ≤ 2 * u * Z.of_nat (length fs))%Z.
Proof using Hcs Hcb.
  unfold flows_cost. pose proof (length_filter (λ f, flow_needs a f = true) fs) as Hle%inj_le. nia.
Qed.

Lemma standard_budgets_nonneg : Forall (λ b, ∀ a, 0 ≤ b a)%Z standard_budgets.
Proof using Hcc Hcs Hcb.
  unfold standard_budgets. repeat (apply Forall_cons_2; [intros a|]); [..|apply Forall_nil_2]; try done.
  - unfold sanctioned_budget. nia.
  - apply owed_nonneg. lia.
  - apply owed_nonneg. lia.
  - apply owed_nonneg. lia.
  - apply flows_cost_le.
  - unfold flash_budget. case_bool_decide; [done|]. apply flows_cost_le.
Qed.

(** Screening a trace of size [n] takes at most [2 + 12 n] lookups. *)
Lemma standard_budgets_le tx t :
  (list_sum_Z ((λ b, b (analysis_of tx t)) <$> standard_budgets) ≤ u * (2 + 12 * Z.of_nat (trace_size t)))%Z.
Proof using Hcc Hcs Hcb.
  set (a := analysis_of tx t).
  pose proof (addresses_le tx t) as Ha%inj_le. pose proof (flows_le tx t) as Hf%inj_le. fold a in Ha, Hf.
  pose proof (owed_le_length f_To (delegate_needs a) cs (proj1 Hcs) (a_Frames a) ∅) as Hd.
  pose proof (owed_le_length ap_Spender (approval_needs a) cs (proj1 Hcs) (a_Approvals a) ∅) as Hap.
  pose proof (owed_le_length afa_Operator (grant_needs a) cs (proj1 Hcs) (a_ApprovalsForAll a) ∅) as Hg.
  assert (length (a_Frames a) ≤ trace_size t) as Hlf%inj_le.
  { unfold a, analysis_of, frames_of, trace_size. cbn [a_Frames]. rewrite length_fmap. lia. }
  assert (length (a_Approvals a) ≤ trace_size t) as Hla%inj_le.
  { unfold a, analysis_of, trace_size. cbn [a_Approvals]. pose proof (length_omap_le log_approval (live_logs (live t 0))). lia. }
  assert (length (a_ApprovalsForAll a) ≤ trace_size t) as Hlg%inj_le.
  { unfold a, analysis_of, trace_size. cbn [a_ApprovalsForAll].
    pose proof (length_omap_le log_approval_for_all (live_logs (live t 0))). lia. }
  pose proof (flows_cost_le a (a_Flows a)) as Hfc.
  assert (flash_budget cs cb a ≤ flows_cost cs cb a (a_Flows a))%Z as Hfl.
  { unfold flash_budget, outflow_budget. case_bool_decide; [lia|done]. }
  unfold standard_budgets, sanctioned_budget, delegate_budget, approval_budget, grant_budget, outflow_budget.
  cbn [fmap list_fmap list_sum_Z foldr]. nia.
Qed.

End sizes.
