(* ===== verification/Response.v ===== *)
(** * Every request is decided in bounded time

    The proxy over the assembled pipeline, when the node and the oracle honour the contexts they
    are called with: the handler always decides, which is to answer the request itself or to hand
    it to the reverse proxy, and within a time that is linear in the number of transactions of
    the request and in the size of their traces. The program sets no deadline for what the reverse
    proxy then does; how long that takes is a parameter. *)

From Stdlib Require Import ZArith Lia.
From S2P Require Import Prelude GoLib Deadline Json JsonProofs JsonRpc Logging Geth Events TxDecode Simulate Flows FlashLoans Analysis.
From S2P Require Import ChainState Sanctions SanctionsCache Rules RulesSpec DeployCall Risk Screen Proxy Pipeline Timing Budget.

(** ** The handler over any screener *)
Section handler.
Context `{G : Geth} {W : Type} `{!Clock W} `{LL : Lens W (list Line)} `{!Timeless LL}.

Class TimelyScreener (c : Z) (s : Screener W) : Prop :=
  timely_screener : ∀ ctx d, spends c (ScreenTx s ctx d) (λ _, 0%Z).

(** The transactions among the requests of a body. *)
Definition send_count (reqs : list Request) : nat :=
  length (filter (λ q, rq_Method q = sendRawTransaction) reqs).

Definition transactions (body : list byte) : nat :=
  match ParseRequests body with inl _ => 0 | inr reqs => send_count reqs end.

Lemma clock_written ls (w : W) : clock (written ls w) = clock w.
Proof. apply timeless. Qed.

Lemma clock_passed log d v (w : W) : clock (passed log d v w) = clock w.
Proof. unfold passed. case_bool_decide; [done|]. apply clock_written. Qed.

Lemma screen_requests_bounded c s log ctx reqs w :
  (0 ≤ c)%Z → TimelyScreener c s →
  ∃ reply w', screen_requests s log ctx reqs w = (Ok reply, w') ∧
    (clock w ≤ clock w' ≤ clock w + Z.of_nat (send_count reqs) * c)%Z.
Proof.
  intros Hc Hs. revert w. induction reqs as [|req reqs IH]; intros w.
  { exists None, w. split; [done|]. unfold send_count. simpl. lia. }
  rewrite screen_requests_cons. unfold send_count. rewrite filter_cons. case_bool_decide as Hm.
  { case_decide; [done|]. apply IH. }
  case_decide as Hsend; [|by destruct Hm]. cbn [length].
  assert (0 ≤ Z.of_nat (send_count reqs) * c)%Z by nia.
  destruct (DecodeRawTransaction (rq_Params req)) as [e|d].
  { eexists _, _. split; [done|]. rewrite clock_written. unfold send_count in *. lia. }
  pose proof (Hs ctx d (written (arrival_lines log d) w)) as Hscreen. rewrite clock_written in Hscreen.
  destruct (ScreenTx s ctx d _) as [[v|e|] w1]; [| |done].
  - destruct (vd_Block v).
    + eexists _, _. split; [done|]. rewrite clock_written. unfold send_count in *. lia.
    + destruct (IH (passed log d v w1)) as (reply & w' & -> & Hw). rewrite clock_passed in Hw.
      exists reply, w'. split; [done|]. unfold send_count in *. lia.
  - eexists _, _. split; [done|]. rewrite clock_written. unfold send_count in *. lia.
Qed.

Lemma handler_bounded c s logger r w :
  (0 ≤ c)%Z → TimelyScreener c s →
  ∃ resp w', NewHandler s logger r w = (Ok resp, w') ∧
    (clock w ≤ clock w' ≤ clock w + Z.of_nat (transactions (hr_Body r)) * c)%Z.
Proof.
  intros Hc Hs. unfold NewHandler, transactions.
  assert (0 ≤ Z.of_nat (transactions (hr_Body r)) * c)%Z as Hpos by nia. unfold transactions in Hpos.
  unfold read_body. destruct (N.ltb _ _); [by exists (HttpError 400 "request body too large or unreadable"), w; split; [done|lia]|].
  destruct (hr_BodyErr r); [by exists (HttpError 400 "request body too large or unreadable"), w; split; [done|lia]|].
  destruct (ParseRequests (hr_Body r)) as [e|reqs]; [by eexists _, w; split; [done|lia]|].
  destruct (screen_requests_bounded c s (proxy_log logger) (hr_Context r) reqs w Hc Hs) as (reply & w' & Hrun & Hw).
  unfold mbind, M_bind. rewrite Hrun. destruct reply; eexists _, w'; (split; [reflexivity|exact Hw]).
Qed.

Lemma handler_spends c s logger r :
  (0 ≤ c)%Z → TimelyScreener c s →
  spends (Z.of_nat (transactions (hr_Body r)) * c) (NewHandler s logger r) (λ _, 0%Z).
Proof.
  intros Hc Hs w. destruct (handler_bounded c s logger r w Hc Hs) as (resp & w' & -> & Hw). lia.
Qed.

Lemma served_bounded c s logger ServeHTTP u r w :
  (0 ≤ c)%Z → (0 ≤ u)%Z → TimelyScreener c s → (∀ r', spends u (ServeHTTP r') (λ _, 0%Z)) →
  (served ServeHTTP (NewHandler s logger) r w).1 ≠ Panic ∧
  (clock w ≤ clock (served ServeHTTP (NewHandler s logger) r w).2 ≤
     clock w + Z.of_nat (transactions (hr_Body r)) * c + u)%Z.
Proof.
  intros Hc Hu Hs Hserve. set (p := (Z.of_nat (transactions (hr_Body r)) * c)%Z).
  assert (spends (p + u) (served ServeHTTP (NewHandler s logger) r) (λ _, 0%Z)) as Hall.
  { apply (spends_bind _ _ _ (λ _, u)).
    - eapply spends_conseq; [exact (handler_spends c s logger r Hc Hs)|unfold p; lia|]. intros. unfold p. cbv beta. lia.
    - intros [status msg|text|r']; cbv beta iota; [apply spends_ret; exact Hu|apply spends_ret; exact Hu|apply Hserve]. }
  destruct (spends_run _ _ _ w Hall) as [Hp Hle]; [done|]. split; [done|lia].
Qed.

End handler.

(** ** The standard rules *)
Section standard.
Context `{G : Geth} {W : Type} `{!Clock W}.

(** A screener of the standard rules whose lookups cost at most [u] each. *)
Lemma standard_timely u cc cost n threshold percent sim checker (cfg : screenerConfig W) :
  (0 ≤ cc ≤ u)%Z → TimelyChecker cc checker → TimelySimulator cost sim →
  TimelyStatus u (age_reader (cfg_freshness cfg)) → TimelyFresh u (age_fresh (cfg_freshness cfg)) →
  TimelyBalance u (cfg_balances cfg) →
  (∀ ctx d w t w', Simulate sim ctx d w = (Ok t, w') → trace_size t ≤ n) →
  TimelyScreener (cost + u * (2 + 12 * Z.of_nat n))
    (NewScreener sim (mkEngine (standard_rules checker cfg
       (mkOutflowDetector (age_reader (cfg_freshness cfg)) (cfg_balances cfg) percent)) threshold)).
Proof.
  intros Hcc Hchecker Hsim Hreader Hfresh Hbal Hsize ctx d. assert (0 ≤ u ≤ u)%Z as Hu by lia.
  cbn [NewScreener ScreenTx]. apply (Screen_spends _ _ _ (standard_budgets cc u u)); [done| | | |nia].
  - unfold standard_rules, standard_budgets.
    repeat (apply Forall2_cons_2); [apply Sanctioned_timely; [lia|done]|apply Privilege_timely|apply DeployAndCall_timely|
      apply DelegatecallToFresh_timely; [lia|done]|apply UnlimitedApproval_timely; [lia|done]|
      apply NFTDrainer_timely; [lia|done]|apply LargeOutflow_timely; (done || lia)|
      apply FlashLoanOutflow_timely; (done || lia)|by apply Forall2_nil_2].
  - by apply (standard_budgets_nonneg cc u u u).
  - intros w t w' Ht%Hsize. etrans; [by apply (standard_budgets_le cc u u u)|].
    apply Z.mul_le_mono_nonneg_l; lia.
Qed.

End standard.

(** ** The assembled pipeline *)
Section pipeline.
Context `{G : Geth} {W : Type} `{!Clock W} `{LE : Lens W Entries} `{LK : Lens W (gset Address)} `{LL : Lens W (list Line)}.
Context `{!Timeless LE} `{!Timeless LK} `{!Timeless LL}.
Context (slack : Z) (Hslack : (0 ≤ slack)%Z).

(** The longest a lookup takes: [freshnessTimeout], [balanceTimeout] or [oracleCallTimeout], two
    seconds each, and the slack of at most three calls. *)
Definition lookup_time : Z := 2 * Second + 3 * slack.

(** The longest a transaction takes whose trace has size [n]. *)
Definition screening_time (n : nat) : Z :=
  simulateTimeout + slack + lookup_time * (2 + 12 * Z.of_nat n).

Lemma oracle_part_timely h set cs :
  (∀ ctx url w c w', h_dial h ctx url w = (Ok c, w') → TimelyOracle slack (oc_caller c)) →
  oracle_part h cs → ∃ cc, (0 ≤ cc ≤ lookup_time)%Z ∧ TimelyChecker cc (AnyChecker (ListChecker set :: cs)).
Proof using All.
  intros Hdial [->|(ctx & url & wa & client & wb & Hd & ->)].
  - exists 0%Z. split; [unfold lookup_time, Second; lia|]. apply (AnyChecker_spends [0%Z]).
    constructor; [split; [done|apply ListChecker_timely]|constructor].
  - pose proof (Hdial _ _ _ _ _ Hd) as Hclient. exists (2 * Second + slack)%Z. split; [unfold lookup_time, Second; lia|].
    replace (2 * Second + slack)%Z with (list_sum_Z [0; 2 * Second + slack])%Z by (unfold list_sum_Z; simpl; lia).
    apply AnyChecker_spends. constructor; [split; [done|apply ListChecker_timely]|]. constructor; [|constructor].
    split; [unfold Second; lia|]. intros ctx' a. apply CachedIsSanctioned_spends; [unfold Second; lia|].
    intros ctx'' a'. apply Oracle_spends; [done|done|unfold oracleCallTimeout, Second; lia].
Qed.

Context (h : Host W) (cfg : screenerConfig W) (client : RpcClient W) (reader : CodeReader W) (window : Z) (balances : BalanceClient W).
Context (Hsim : cfg_simulator cfg = RPCSimulator client simulateTimeout).
Context (Hage : cfg_freshness cfg = CachedFreshness (RPCFreshness reader window freshnessTimeout) freshnessCacheSize).
Context (Hbalances : cfg_balances cfg = RPCBalances balances balanceTimeout).
Context {Hclient : TimelyRpc slack client} {Hreader : TimelyCode slack reader} {Hbal : TimelyBalances slack balances}.
Context (Hdial : ∀ ctx url w c w', h_dial h ctx url w = (Ok c, w') → TimelyOracle slack (oc_caller c)).

Lemma age_reader_timely : TimelyStatus lookup_time (age_reader (cfg_freshness cfg)).
Proof using Hslack Hage Hreader Timeless1.
  rewrite Hage. intros ctx a. apply CachedStatus_spends; [unfold lookup_time, Second; lia|].
  intros ctx' a'. apply RPCStatus_spends; [done|done|unfold freshnessTimeout, Second; lia].
Qed.

Lemma age_fresh_timely : TimelyFresh lookup_time (age_fresh (cfg_freshness cfg)).
Proof using Hslack Hage Hreader Timeless1.
  pose proof age_reader_timely as Hr. rewrite Hage in *. by apply IsFresh_of_spends.
Qed.

Lemma balances_timely : TimelyBalance lookup_time (cfg_balances cfg).
Proof using Hslack Hbalances Hbal.
  rewrite Hbalances. intros ctx asset holder. eapply spends_conseq;
    [apply (RPCBalance_spends slack); [done|done|]|unfold lookup_time, balanceTimeout, Second; lia|];
    unfold lookup_time, balanceTimeout, Second; [lia|]. intros. lia.
Qed.

Lemma pipeline_timely n log w0 w1 s :
  newScreener h cfg log w0 = (Ok s, w1) →
  (∀ ctx d w t w', Simulate (cfg_simulator cfg) ctx d w = (Ok t, w') → trace_size t ≤ n) →
  TimelyScreener (screening_time n) s.
Proof using All.
  intros (set & cs & _ & Hpart & _ & _ & ->)%newScreener_ok Hsize.
  destruct (oracle_part_timely h set cs Hdial Hpart) as (cc & Hcc & Hchecker). unfold screening_time.
  apply (standard_timely lookup_time cc); [done|done| |apply age_reader_timely|apply age_fresh_timely|apply balances_timely|done].
  rewrite Hsim. intros ctx tx. apply trace_spends; [done|done|unfold simulateTimeout, Second; lia].
Qed.

End pipeline.

(** ** Claims *)
Section response_claims.
Context `{G : Geth} {W : Type} `{!Clock W} `{LE : Lens W Entries} `{LK : Lens W (gset Address)} `{LL : Lens W (list Line)}.
Context `{!Timeless LE} `{!Timeless LK} `{!Timeless LL}.

(** C6: Every request is decided. Over a node and an oracle that return at most [slack] after the
    deadline of the context they are called with, the handler of the assembled pipeline answers
    every request whatsoever itself or hands it to the reverse proxy: it neither fails nor
    panics, and until then it waits at most five seconds and the slack for the trace of each
    transaction in the body and, for a trace with at most [n] calls and logs that take effect, two
    seconds and three slacks for each of at most 2 + 12 n lookups. When the reverse proxy takes
    at most [u] for a request it is handed, and does not panic, the handler has served every
    request within that time and [u]; without such a [u], nothing is said of forwarded requests. *)
Theorem every_request_decided (slack : Z) (n : nat) (h : Host W) (cfg : screenerConfig W) (log logger : Logger)
    (client : RpcClient W) (reader : CodeReader W) (window : Z) (balances : BalanceClient W)
    (w0 w1 : W) (s : Screener W)
    (Hslack : (0 ≤ slack)%Z)
    (Hbuilt : newScreener h cfg log w0 = (Ok s, w1))
    (Hsim : cfg_simulator cfg = RPCSimulator client simulateTimeout)
    (Hage : cfg_freshness cfg = CachedFreshness (RPCFreshness reader window freshnessTimeout) freshnessCacheSize)
    (Hbalances : cfg_balances cfg = RPCBalances balances balanceTimeout)
    (Hclient : TimelyRpc slack client) (Hreader : TimelyCode slack reader) (Hbal : TimelyBalances slack balances)
    (Hdial : ∀ ctx url w c w', h_dial h ctx url w = (Ok c, w') → TimelyOracle slack (oc_caller c))
    (Hsize : ∀ ctx d w t w', Simulate (cfg_simulator cfg) ctx d w = (Ok t, w') → trace_size t ≤ n) :
  let bound r := (Z.of_nat (transactions (hr_Body r)) *
    (5 * Second + slack + (2 * Second + 3 * slack) * (2 + 12 * Z.of_nat n)))%Z in
  (∀ r w, ∃ resp w', NewHandler s logger r w = (Ok resp, w') ∧ (clock w ≤ clock w' ≤ clock w + bound r)%Z) ∧
  ∀ u ServeHTTP, (0 ≤ u)%Z → (∀ r', spends u (ServeHTTP r') (λ _, 0%Z)) →
    ∀ r w, (served ServeHTTP (NewHandler s logger) r w).1 ≠ Panic ∧
      (clock w ≤ clock (served ServeHTTP (NewHandler s logger) r w).2 ≤ clock w + bound r + u)%Z.
Proof.
  assert (0 ≤ screening_time slack n)%Z as Hpos.
  { unfold screening_time, lookup_time, simulateTimeout, Second. nia. }
  assert (TimelyScreener (screening_time slack n) s) as Hs by by eapply pipeline_timely.
  split; [intros r w; by apply (handler_bounded (screening_time slack n))|].
  intros u ServeHTTP Hu Hserve r w.
  exact (served_bounded (screening_time slack n) s logger ServeHTTP u r w Hpos Hu Hs Hserve).
Qed.

End response_claims.

(** ** Concrete instances *)
Module ResponseExamples.
Import Toy EventsExamples AnalysisExamples RulesExamples PipelineExamples.

#[export] Instance entries_timeless : Timeless entries_lens.
Proof. done. Qed.
#[export] Instance known_timeless : Timeless known_lens.
Proof. done. Qed.
#[export] Instance stderr_timeless : Timeless stderr_lens.
Proof. done. Qed.

Definition at_time (t : Z) (w : World) : World := mkWorld (w_entries w) (w_known w) (w_stderr w) t.

(** A call that takes [d], and fails at the deadline when that comes first. *)
Definition slow {A} (d : Z) (a : A) (ctx : Ctx) : M World A := λ w,
  let t := (w_time w + Z.max 0 d)%Z in
  match ctx_deadline ctx with
  | Some dl => if Z.ltb dl t then (Err (Errorf "context deadline exceeded" []), at_time (Z.max (w_time w) dl) w)
               else (Ok a, at_time t w)
  | None => (Ok a, at_time t w)
  end.

Lemma slow_honours {A} d (a : A) slack : (0 ≤ slack)%Z → Honours slack (slow d a).
Proof.
  intros Hs ctx w. unfold slow, clock, world_clock. destruct (ctx_deadline ctx) as [dl|]; simpl; [|lia || (split; [lia|done])].
  destruct (Z.ltb_spec dl (w_time w + Z.max 0 d)); simpl; (split; [lia|]); intros t [= <-]; lia.
Qed.

(** A node that traces within a second and takes 900 ms for everything else. *)
Definition node_rpc : RpcClient World := mkRpcClient World (λ ctx _ _ _ _, slow Second demo_trace ctx).
Definition node_code : CodeReader World :=
  mkCodeReader (slow 900000000 100%Z) (λ ctx _ _, slow 900000000 [x60] ctx).
Definition node_balances : BalanceClient World :=
  mkBalanceClient (λ ctx _ _, slow 900000000 5%Z ctx) (λ ctx _ _, slow 900000000 (be_bytes 32 1000) ctx).

Definition timed_host : Host World := mkHost (h_open demo_host) (λ _ _, mret (mkOracleClient
  (mkContractCaller (λ ctx _ _, slow 900000000 (bool_word false) ctx) (λ ctx _ _, slow 900000000 [x60] ctx)) (mret ()))).

Definition timed_config : screenerConfig World := mkScreenerConfig "sanctions.txt" "http://oracle" 50 50
  (RPCSimulator node_rpc simulateTimeout)
  (CachedFreshness (RPCFreshness node_code 10 freshnessTimeout) freshnessCacheSize)
  (RPCBalances node_balances balanceTimeout).

Definition timed_screener : Screener World := NewScreener (RPCSimulator node_rpc simulateTimeout)
  (mkEngine (standard_rules (AnyChecker [ListChecker demo_set;
       CachedChecker (OracleChecker (mkContractCaller (λ ctx _ _, slow 900000000 (bool_word false) ctx)
         (λ ctx _ _, slow 900000000 [x60] ctx)) ChainalysisOracle oracleCallTimeout) oracleCacheTTL oracleCacheSize time_Now])
     timed_config (mkOutflowDetector (age_reader (cfg_freshness timed_config)) (cfg_balances timed_config) 50)) 50).

Lemma timed_built : (newScreener timed_host timed_config (mkLogger Text LevelError []) world0).1 = Ok timed_screener.
Proof.
  unfold newScreener. cbn [cfg_sanctionsFile timed_config timed_host h_open]. rewrite demo_list. reflexivity.
Qed.

(** A reverse proxy over a node that takes three seconds for every request. *)
Definition three_seconds (r : HttpRequest) : M World () := λ w, (Ok (), at_time (w_time w + 3 * Second) w).

Lemma every_request_decided_witness :
  let bound r := (Z.of_nat (transactions (hr_Body r)) *
    (5 * Second + 0 + (2 * Second + 3 * 0) * (2 + 12 * Z.of_nat (trace_size demo_trace))))%Z in
  ((∀ r w, ∃ resp w', NewHandler timed_screener demo_log r w = (Ok resp, w') ∧ (clock w ≤ clock w' ≤ clock w + bound r)%Z) ∧
   ∀ u ServeHTTP, (0 ≤ u)%Z → (∀ r', spends u (ServeHTTP r') (λ _, 0%Z)) →
     ∀ r w, (served ServeHTTP (NewHandler timed_screener demo_log) r w).1 ≠ Panic ∧
       (clock w ≤ clock (served ServeHTTP (NewHandler timed_screener demo_log) r w).2 ≤ clock w + bound r + u)%Z) ∧
  (0 ≤ 3 * Second)%Z ∧ ∀ r', spends (3 * Second) (three_seconds r') (λ _, 0%Z).
Proof.
  split; [|split; [done|intros r' w; unfold three_seconds, clock, world_clock, at_time, Second; cbn [w_time]; lia]].
  eapply (every_request_decided 0 (trace_size demo_trace) timed_host timed_config (mkLogger Text LevelError []) demo_log
    node_rpc node_code 10 node_balances world0 _ timed_screener).
  - done.
  - rewrite (surjective_pairing (newScreener _ _ _ _)), timed_built. reflexivity.
  - done.
  - done.
  - done.
  - intros method args block cfg. by apply (slow_honours Second demo_trace).
  - split; [by apply slow_honours|]. intros a n. by apply (slow_honours 900000000 [x60]).
  - split; intros a n; [by apply (slow_honours 900000000 5%Z)|by apply (slow_honours 900000000 (be_bytes 32 1000))].
  - intros ctx url w c w' [= <- <-]. split; intros a n;
      [by apply (slow_honours 900000000 (bool_word false))|by apply (slow_honours 900000000 [x60])].
  - intros ctx d w t w'. cbn [cfg_simulator timed_config RPCSimulator Simulate]. unfold RPCSimulate. rewrite trace_run.
    cbn [CallContext node_rpc]. unfold slow. destruct (ctx_deadline _); [destruct (Z.ltb _ _)|]; simpl; try done;
      by intros [= <- _].
Defined.

(** A plain request only takes the time of the reverse proxy. *)
Example served_run :
  w_time (served three_seconds (NewHandler timed_screener demo_log)
            (mkHttpRequest Background [] (print (request_tree JsonRpcExamples.chain_request)) None 0) world0).2 = (3 * Second)%Z.
Proof. by vm_compute. Qed.

(** The demo transaction is rejected after 6.6 seconds: one for the trace, 900 ms for each of the
    four addresses that are not on the list, and a status lookup of three calls that runs into
    its deadline of two seconds. *)
Example timed_run :
  (λ r, (match r.1 with Ok (RpcReply _) => true | _ => false end, w_time r.2))
    (NewHandler timed_screener demo_log (http [x00]) world0) = (true, 6600000000%Z).
Proof. by vm_compute. Qed.

End ResponseExamples.
