(* ===== verification/Progress.v ===== *)
(** * Every request is decided, beside any other requests

    The time bound of [Response] for requests that share the caches with others ([Concurrent]):
    when whatever runs at a point of preemption gives the processor back within [delta], a lookup
    costs at most [2 * delta] more than alone. A request keeps such a bound itself, so that it
    may run inside another: a chain of requests each of which interrupts the one before at every
    point of preemption is decided within [nested_time], which grows with its length. *)

From Stdlib Require Import ZArith Lia.
From stdpp Require Import relations.
From S2P Require Import Prelude GoLib Deadline Json JsonProofs JsonRpc Logging Geth Events TxDecode Simulate Flows FlashLoans Analysis.
From S2P Require Import ChainState Sanctions SanctionsCache Rules RulesSpec DeployCall Risk Screen Proxy Pipeline.
From S2P Require Import Interference Shared SharedRules Concurrent Timing Budget Response.

(** ** Waiting for others *)
Section others.
Context {W : Type} `{!Clock W}.

Lemma spends_nonneg {A} p (m : M W A) q (w : W) : spends p m q → (∀ a, 0 ≤ q a)%Z → (0 ≤ p)%Z.
Proof. intros Hm Hq. destruct (spends_run p m q w Hm Hq) as [_ ?]. lia. Qed.

Lemma spends_meanwhile {A} p (m : M W A) q : spends p m q → (∀ a, 0 ≤ q a)%Z → spends p (meanwhile m) (λ _, 0%Z).
Proof. intros Hm Hq w. destruct (spends_run p m q w Hm Hq) as [_ Hle]. simpl. lia. Qed.

Lemma spends_after {A} delta p (others : M W ()) (m : M W A) :
  spends delta others (λ _, 0%Z) → (0 ≤ p)%Z → spends p m (λ _, 0%Z) → spends (delta + p) (_ ← others; m) (λ _, 0%Z).
Proof.
  intros Ho Hp Hm. apply (spends_bind _ _ _ (λ _, p)); [|done].
  eapply spends_conseq; [exact Ho|lia|]. intros; cbv beta; lia.
Qed.

End others.

(** ** The pipeline with its points of preemption *)
Section pipeline.
Context `{G : Geth} {W : Type} `{!Clock W} `{LE : Lens W Entries} `{LK : Lens W (gset Address)}.
Context `{!Timeless LE} `{!Timeless LK}.
Context (slack delta : Z) (Hslack : (0 ≤ slack)%Z) (Hdelta : (0 ≤ delta)%Z).
Context (others : M W ()) (Hothers : spends delta others (λ _, 0%Z)).
Context (cl : Clients W) (set : gset Address) (window threshold percent : Z).
Context {Hnode : TimelyRpc slack (cl_node cl)} {Hreader : TimelyCode slack (cl_reader cl)} {Hbal : TimelyBalances slack (cl_balances cl)}.
Context (Horacle : ∀ caller, cl_oracle cl = Some caller → TimelyOracle slack caller).

(** The longest a lookup takes. *)
Definition shared_lookup_time : Z := 2 * Second + 3 * slack + 2 * delta.

(** The longest a transaction takes whose trace has size [n]. *)
Definition shared_screening_time (n : nat) : Z := 5 * Second + slack + shared_lookup_time * (2 + 12 * Z.of_nat n).

Lemma spends_preempted_Now p : (0 ≤ p)%Z → spends (p + 2 * delta) (preempted_Now others) (λ _, p).
Proof using Hothers Hdelta.
  intros Hp. apply (spends_bind _ _ _ (λ _, p + delta)%Z).
  { eapply spends_conseq; [exact Hothers|lia|]. intros; cbv beta; lia. }
  intros []. apply (spends_bind _ _ _ (λ _, p + delta)%Z); [apply spends_now|]. intros t.
  apply (spends_bind _ _ _ (λ _, p)); [|intros []; by apply spends_ret].
  eapply spends_conseq; [exact Hothers|lia|]. intros; cbv beta; lia.
Qed.

Lemma shared_reader_timely : TimelyStatus shared_lookup_time (shared_reader others cl window).
Proof using Hslack Hdelta Hothers Hreader Timeless1.
  intros ctx a. unfold shared_lookup_time. cbn [shared_reader StatusOf].
  eapply spends_conseq; [apply (spends_after delta (2 * Second + 3 * slack) _ _ Hothers)|lia|intros; cbv beta; lia].
  - unfold Second. lia.
  - apply CachedStatus_spends; [unfold Second; lia|]. intros ctx' a'.
    apply RPCStatus_spends; [done|done|unfold freshnessTimeout, Second; lia].
Qed.

Lemma shared_oracle_timely caller :
  TimelyOracle slack caller → TimelyChecker (2 * delta + (2 * Second + slack)) (shared_oracle others caller).
Proof using Hslack Hdelta Hothers Timeless0.
  intros Hcaller ctx a. cbn [shared_oracle CachedChecker IsSanctioned].
  set (c := (2 * Second + slack)%Z). assert (0 ≤ c)%Z by (unfold c, Second; lia).
  eapply (spends_bind _ _ _ (λ _, c)). { rewrite Z.add_comm. by apply spends_preempted_Now. }
  intros now. eapply spends_bind; [apply spends_get|]. intros entries. destruct (cache_read now a entries); [by apply spends_ret|].
  eapply spends_bind; [apply Oracle_spends; [done|done|unfold oracleCallTimeout, Second; lia]|].
  intros hit. eapply spends_bind; [apply spends_get|]. intros entries'.
  eapply spends_bind; [by apply spends_put|]. intros []. by apply spends_ret.
Qed.

Lemma shared_checker_timely : ∃ cc, (0 ≤ cc ≤ shared_lookup_time)%Z ∧ TimelyChecker cc (shared_checker others cl set).
Proof using Hslack Hdelta Hothers Horacle Timeless0.
  unfold shared_checker, shared_lookup_time. destruct (cl_oracle cl) as [caller|] eqn:Hc.
  - exists (list_sum_Z [0; 2 * delta + (2 * Second + slack)])%Z.
    split; [unfold list_sum_Z, Second; cbn [foldr]; lia|]. apply AnyChecker_spends.
    constructor; [split; [done|apply ListChecker_timely]|]. constructor; [|constructor].
    split; [unfold Second; lia|]. by apply shared_oracle_timely, Horacle.
  - exists (list_sum_Z [0%Z]). split; [unfold list_sum_Z, Second; cbn [foldr]; lia|]. apply AnyChecker_spends.
    constructor; [split; [done|apply ListChecker_timely]|constructor].
Qed.

Lemma shared_screener_timely n :
  (∀ ctx d w t w', Simulate (RPCSimulator (cl_node cl) simulateTimeout) ctx d w = (Ok t, w') → trace_size t ≤ n) →
  TimelyScreener (shared_screening_time n) (shared_screener others cl set window threshold percent).
Proof using All.
  intros Hsize. destruct shared_checker_timely as (cc & Hcc & Hchecker). pose proof shared_reader_timely as Hr.
  apply (standard_timely shared_lookup_time cc (5 * Second + slack) n threshold percent _ _
    (shared_config others cl window threshold percent)); [done|done| |exact Hr|by apply IsFresh_of_spends| |done].
  - intros ctx tx. apply (trace_spends slack Hslack _ simulateTimeout). unfold simulateTimeout, Second. lia.
  - intros ctx asset holder. eapply spends_conseq; [apply (RPCBalance_spends slack); [done|done|]| |];
      unfold shared_lookup_time, balanceTimeout, Second; [lia..|]. intros; cbv beta; lia.
Qed.

End pipeline.

(** ** Claims *)
Section progress_claims.
Context `{G : Geth} {W : Type} `{!Clock W} `{LE : Lens W Entries} `{LK : Lens W (gset Address)} `{LL : Lens W (list Line)}.
Context `{!Timeless LE} `{!Timeless LK} `{!Timeless LL}.

(** Requests nested in each other: [others] at every point of preemption of the last one, and
    each one, run to its end, at every point of preemption of the one before it. *)
Fixpoint nested (others : M W ()) (cl : Clients W) (set : gset Address) (window threshold percent : Z) (logger : Logger)
    (rs : list HttpRequest) : M W () :=
  match rs with
  | [] => others
  | r :: rs =>
      meanwhile (NewHandler (shared_screener (nested others cl set window threshold percent logger rs)
                               cl set window threshold percent) logger r)
  end.

Fixpoint nested_time (slack delta : Z) (n : nat) (rs : list HttpRequest) : Z :=
  match rs with
  | [] => delta
  | r :: rs => Z.of_nat (transactions (hr_Body r)) *
      (5 * Second + slack + (2 * Second + 3 * slack + 2 * nested_time slack delta n rs) * (2 + 12 * Z.of_nat n))
  end.

Lemma handler_beside slack delta n others cl set window threshold percent logger r (w : W) :
  (0 ≤ slack)%Z → spends delta others (λ _, 0%Z) →
  TimelyRpc slack (cl_node cl) → TimelyCode slack (cl_reader cl) → TimelyBalances slack (cl_balances cl) →
  (∀ caller, cl_oracle cl = Some caller → TimelyOracle slack caller) →
  (∀ ctx d w t w', Simulate (RPCSimulator (cl_node cl) simulateTimeout) ctx d w = (Ok t, w') → trace_size t ≤ n) →
  (0 ≤ shared_screening_time slack delta n)%Z ∧
  spends (nested_time slack delta n [r]) (NewHandler (shared_screener others cl set window threshold percent) logger r) (λ _, 0%Z).
Proof.
  intros Hslack Hothers Hnode Hreader Hbal Horacle Hsize.
  assert (0 ≤ delta)%Z as Hdelta by (by eapply (spends_nonneg _ _ _ w Hothers)).
  assert (0 ≤ shared_screening_time slack delta n)%Z by (unfold shared_screening_time, shared_lookup_time, Second; nia).
  split; [done|]. apply (handler_spends (shared_screening_time slack delta n)); [done|]. by apply shared_screener_timely.
Qed.

(** C8: Others only delay a decision by as long as they run. Let the node and the oracle return at most
    [slack] after their deadlines, and let whatever runs at the points of preemption of a
    request give the processor back within [delta] each time. Then the handler answers every
    request itself or hands it to the reverse proxy, without failing or panicking, within five
    seconds and the slack for the trace of each transaction and, for a trace with at most [n]
    calls and logs that take effect, two seconds, three slacks and two [delta] for each of at
    most 2 + 12 n lookups. Among what may run there are other requests: in a finite chain of
    requests, each of which runs to its end at every point of preemption of the one before, with
    such an interference inside the last one, every one is decided within a bound
    ([nested_time]) that depends on the requests after it. *)
Theorem requests_decided_beside_others (slack delta : Z) (n : nat) (others : M W ()) (cl : Clients W)
    (set : gset Address) (window threshold percent : Z) (logger : Logger) (w : W)
    (Hslack : (0 ≤ slack)%Z)
    (Hothers : spends delta others (λ _, 0%Z))
    (Hnode : TimelyRpc slack (cl_node cl)) (Hreader : TimelyCode slack (cl_reader cl))
    (Hbal : TimelyBalances slack (cl_balances cl))
    (Horacle : ∀ caller, cl_oracle cl = Some caller → TimelyOracle slack caller)
    (Hsize : ∀ ctx d w t w', Simulate (RPCSimulator (cl_node cl) simulateTimeout) ctx d w = (Ok t, w') → trace_size t ≤ n) :
  let handler rs := NewHandler (shared_screener (nested others cl set window threshold percent logger rs)
                                  cl set window threshold percent) logger in
  (∀ r, ∃ response w', NewHandler (shared_screener others cl set window threshold percent) logger r w = (Ok response, w') ∧
     (clock w ≤ clock w' ≤ clock w + Z.of_nat (transactions (hr_Body r)) *
        (5 * Second + slack + (2 * Second + 3 * slack + 2 * delta) * (2 + 12 * Z.of_nat n)))%Z) ∧
  (∀ r rs, ∃ response w', handler rs r w = (Ok response, w') ∧
     (clock w ≤ clock w' ≤ clock w + nested_time slack delta n (r :: rs))%Z).
Proof.
  intros handler.
  assert (∀ rs, spends (nested_time slack delta n rs) (nested others cl set window threshold percent logger rs) (λ _, 0%Z)) as Hnested.
  { induction rs as [|r rs IH]; [done|].
    by eapply spends_meanwhile; [eapply (handler_beside slack (nested_time slack delta n rs)); eauto|]. }
  assert (∀ r rs, ∃ response w', handler rs r w = (Ok response, w') ∧
     (clock w ≤ clock w' ≤ clock w + nested_time slack delta n (r :: rs))%Z) as Hall.
  { intros r rs. pose proof (Hnested rs) as Hrs. assert (0 ≤ nested_time slack delta n rs)%Z by (by eapply (spends_nonneg _ _ _ w Hrs)).
    apply (handler_bounded (shared_screening_time slack (nested_time slack delta n rs) n)).
    - unfold shared_screening_time, shared_lookup_time, Second. nia.
    - by apply shared_screener_timely. }
  split; [|done]. intros r. apply (Hall r []).
Qed.

End progress_claims.

(** ** Concrete instances *)
Module ProgressExamples.
Import Toy EventsExamples AnalysisExamples RulesExamples PipelineExamples ResponseExamples.

(** The node of [ResponseExamples], which honours its deadlines. *)
Definition oracle_caller : ContractCaller World :=
  mkContractCaller (λ ctx _ _, slow 900000000 (bool_word false) ctx) (λ ctx _ _, slow 900000000 [x60] ctx).
Definition timed_clients : Clients World := mkClients node_rpc node_code node_balances (Some oracle_caller).

Lemma timed_node : TimelyRpc 0 (cl_node timed_clients).
Proof. intros method args block cfg. by apply (slow_honours Second demo_trace). Qed.
Lemma timed_reader : TimelyCode 0 (cl_reader timed_clients).
Proof. split; [by apply slow_honours|]. intros a n. by apply (slow_honours 900000000 [x60]). Qed.
Lemma timed_balances : TimelyBalances 0 (cl_balances timed_clients).
Proof. split; intros a n; [by apply (slow_honours 900000000 5%Z)|by apply (slow_honours 900000000 (be_bytes 32 1000))]. Qed.
Lemma timed_oracle caller : cl_oracle timed_clients = Some caller → TimelyOracle 0 caller.
Proof.
  intros [= <-]. split; intros a n; [by apply (slow_honours 900000000 (bool_word false))|by apply (slow_honours 900000000 [x60])].
Qed.

Lemma timed_traces ctx d w t w' :
  Simulate (RPCSimulator (cl_node timed_clients) simulateTimeout) ctx d w = (Ok t, w') → trace_size t ≤ trace_size demo_trace.
Proof.
  cbn [RPCSimulator Simulate]. unfold RPCSimulate. rewrite trace_run. cbn [CallContext cl_node timed_clients node_rpc].
  unfold slow. destruct (ctx_deadline _); [destruct (Z.ltb _ _)|]; simpl; try done; by intros [= <- _].
Qed.

Definition request : HttpRequest := http [x00].

Lemma requests_decided_beside_others_witness :
  let handler rs := NewHandler (shared_screener (nested (mret ()) timed_clients demo_set 10 50 50 demo_log rs)
                                  timed_clients demo_set 10 50 50) demo_log in
  (∀ r, ∃ response w', NewHandler (shared_screener (mret ()) timed_clients demo_set 10 50 50) demo_log r world0 = (Ok response, w') ∧
     (clock world0 ≤ clock w' ≤ clock world0 + Z.of_nat (transactions (hr_Body r)) *
        (5 * Second + 0 + (2 * Second + 3 * 0 + 2 * 0) * (2 + 12 * Z.of_nat (trace_size demo_trace))))%Z) ∧
  (∀ r rs, ∃ response w', handler rs r world0 = (Ok response, w') ∧
     (clock world0 ≤ clock w' ≤ clock world0 + nested_time 0 0 (trace_size demo_trace) (r :: rs))%Z).
Proof.
  apply (requests_decided_beside_others 0 0 (trace_size demo_trace) (mret ()) timed_clients
    demo_set 10 50 50 demo_log world0).
  - done.
  - by apply spends_ret.
  - exact timed_node.
  - exact timed_reader.
  - exact timed_balances.
  - exact timed_oracle.
  - exact timed_traces.
Defined.

(** Alone the request takes 6.6 seconds, as in [ResponseExamples], and with itself at every point
    of preemption 33.6: what one of the runs caches, the next ones need not ask again. *)
Example nested_durations :
  (λ rs, let r := NewHandler (shared_screener (nested (mret ()) timed_clients demo_set 10 50 50 demo_log rs)
                                timed_clients demo_set 10 50 50) demo_log request world0 in
         (match r.1 with Ok (RpcReply _) => true | _ => false end, w_time r.2))
    <$> [[]; [request]]
  = [(true, 6600000000%Z); (true, 33600000000%Z)].
Proof. by vm_compute. Qed.

End ProgressExamples.
