(* ===== verification/Main.v ===== *)
(** * Startup: configuration and wiring

    [cmd/firewall/main.go]: reading the environment, the checks that stop the process, and the
    server that is started. A step that may end the process is a computation of type [exits A]:
    it yields the exit status or a value. Dialling the upstream node, [url.Parse] and
    [ListenAndServe] are parameters. *)

From Stdlib Require Import ZArith Lia.
From S2P Require Import Prelude GoLib Deadline Json JsonProofs JsonRpc Logging Geth Events TxDecode Simulate Flows FlashLoans Analysis.
From S2P Require Import ChainState Sanctions SanctionsCache Rules RulesSpec DeployCall Risk Screen Proxy Pipeline.

(** ** Steps that may end the process *)
Abbreviation exits W A := (M W (Z + A)).

Section exits.
Context {W : Type} `{LL : Lens W (list Line)}.

Definition os_Exit {A} (status : Z) : exits W A := mret (inl status).
Definition proceed {A} (a : A) : exits W A := mret (inr a).

Definition and_then {A B} (m : exits W A) (k : A → exits W B) : exits W B :=
  r ← m; match r with inl status => os_Exit status | inr a => k a end.

(** [log.Error(message, attrs...); os.Exit(1)] *)
Definition fatal {A} (log : Logger) (message : string) (attrs : list Attr) : exits W A :=
  _ ← LogAt log LevelError message attrs; os_Exit 1.

(** [x, err := m; if err != nil { log.Error(message, "err", err); os.Exit(1) }] *)
Definition or_exit {A} (log : Logger) (message : string) (m : M W A) : exits W A :=
  r ← try_err m;
  match r with
  | inl err => fatal log message [("err", AError err)]
  | inr a => proceed a
  end.

Definition mustGetEnv (logger : Logger) (env : string → string) (key : string) : exits W string :=
  let v := env key in
  if bool_decide (v = "") then fatal logger "missing required environment variable" [("key", AString key)]
  else proceed v.

(** [strconv.Atoi] of a variable; the error keeps the text it was given. *)
Definition int_setting (log : Logger) (message value : string) : exits W Z :=
  match Atoi (to_bytes value) with
  | None => fatal log message [("err", AError (Errorf "strconv.Atoi: parsing %q" [value]))]
  | Some n => proceed n
  end.

Lemma and_then_ok {A B} (m : exits W A) (k : A → exits W B) w b w' :
  and_then m k w = (Ok (inr b), w') ↔ ∃ a w1, m w = (Ok (inr a), w1) ∧ k a w1 = (Ok (inr b), w').
Proof.
  unfold and_then, mbind, M_bind, os_Exit, mret, M_ret. split.
  - destruct (m w) as [[[st|a]|e|] w1]; [done|by eauto|done..].
  - by intros (a & w1 & -> & H).
Qed.

Lemma proceed_ok {A} (a b : A) w w' : proceed a w = (Ok (inr b), w') ↔ b = a ∧ w' = w.
Proof. unfold proceed, mret, M_ret. naive_solver. Qed.

Lemma fatal_ok {A} log message attrs w (a : A) w' : fatal log message attrs w ≠ (Ok (inr a), w').
Proof. done. Qed.

Lemma or_exit_ok {A} log message (m : M W A) w a w' :
  or_exit log message m w = (Ok (inr a), w') ↔ m w = (Ok a, w').
Proof.
  unfold or_exit, mbind, M_bind, try_err. destruct (m w) as [[x|e|] w1]; [|done..].
  unfold proceed, mret, M_ret. naive_solver.
Qed.

Lemma mustGetEnv_ok logger env key w v w' :
  mustGetEnv logger env key w = (Ok (inr v), w') ↔ v = env key ∧ env key ≠ "" ∧ w' = w.
Proof.
  unfold mustGetEnv. case_bool_decide as Hv; [|rewrite proceed_ok; tauto].
  split; [done|]. by intros (_ & ? & _).
Qed.

Lemma int_setting_ok log message value w n w' :
  int_setting log message value w = (Ok (inr n), w') ↔ Atoi (to_bytes value) = Some n ∧ w' = w.
Proof.
  unfold int_setting. destruct (Atoi (to_bytes value)) as [x|]; [rewrite proceed_ok; naive_solver|naive_solver].
Qed.

End exits.

Notation "x '←!' m ; k" := (and_then m (λ x, k)) (at level 100, m at next level, k at level 200, right associativity) : fw_scope.
Local Open Scope fw_scope.

(** ** [main] *)
Section main.
Context `{G : Geth} {W : Type} `{!Clock W} `{LE : Lens W Entries} `{LK : Lens W (gset Address)} `{LL : Lens W (list Line)}.

(** The connection to the upstream node, as the clients made from it use it. *)
Record NodeClient := mkNodeClient {
  nc_rpc : RpcClient W;
  nc_code : CodeReader W;
  nc_balance : BalanceClient W
}.

(** [http.Server], with the timeouts in nanoseconds. *)
Record Server := mkServer {
  srv_Addr : string;
  srv_Handler : HttpRequest → M W Response;
  srv_ReadHeaderTimeout : Z;
  srv_ReadTimeout : Z;
  srv_WriteTimeout : Z
}.

(** What [main] finds outside: the environment, files and the oracle's network, [rpc.DialContext],
    [url.Parse] (scheme and host), and [ListenAndServe], which only returns with an error. *)
Record Machine := mkMachine {
  m_env : string → string;
  m_host : Host W;
  m_dial : Ctx → string → M W NodeClient;
  m_url : string → error + (string * string);
  m_listen : Server → M W ()
}.

Definition dialUpstream (m : Machine) (rpcURL : string) : M W NodeClient :=
  ctx ← WithTimeout Background upstreamVerifyTimeout; m_dial m ctx rpcURL.

Definition url_setting (m : Machine) (log : Logger) (upstreamURL : string) : exits W () :=
  let bad := fatal log "UPSTREAM_URL must be a full URL like http://host:port" [("url", AString upstreamURL)] in
  match m_url m upstreamURL with
  | inl _ => bad
  | inr (scheme, host) => if bool_decide (scheme = "") || bool_decide (host = "") then bad else proceed ()
  end.

Definition window_setting (m : Machine) (log : Logger) : exits W Z :=
  let bad := fatal log "FRESH_CONTRACT_BLOCKS must be a positive integer"
               [("value", AString (m_env m "FRESH_CONTRACT_BLOCKS"))] in
  match ParseUint (to_bytes (getEnv (m_env m) "FRESH_CONTRACT_BLOCKS" "7200")) with
  | None => bad
  | Some freshBlocks => if Z.eqb freshBlocks 0 then bad else proceed freshBlocks
  end.

(** [main] up to the call of [ListenAndServe]. *)
Definition startup (m : Machine) : exits W (Logger * Server) :=
  let env := m_env m in
  match logging_New (getEnv env "LOG_FORMAT" "pretty") (getEnv env "LOG_LEVEL" "info") with
  | inl err => _ ← write_lines [Printed err]; os_Exit 1
  | inr logger =>
    let log := With logger ("component", AString "main") in
    upstreamURL ←! mustGetEnv logger env "UPSTREAM_URL";
    listenAddr ←! mustGetEnv logger env "LISTEN_ADDR";
    sanctionsFile ←! mustGetEnv logger env "SANCTIONS_FILE";
    _ ←! url_setting m log upstreamURL;
    threshold ←! int_setting log "RISK_THRESHOLD must be an integer" (getEnv env "RISK_THRESHOLD" "50");
    freshBlocks ←! window_setting m log;
    outflowPercent ←! int_setting log "LARGE_OUTFLOW_PERCENT must be an integer" (getEnv env "LARGE_OUTFLOW_PERCENT" "50");
    client ←! or_exit log "cannot connect to the upstream node" (dialUpstream m upstreamURL);
    sim ←! or_exit log "cannot simulate transactions on the upstream node" (newSimulator (nc_rpc client));
    freshness ←! or_exit log "cannot check contract age on the upstream node" (newFreshness (nc_code client) freshBlocks);
    screener ←! or_exit log "cannot build screening pipeline"
      (newScreener (m_host m) (mkScreenerConfig sanctionsFile (env "SANCTIONS_ORACLE_RPC") threshold outflowPercent
         sim freshness (RPCBalances (nc_balance client) balanceTimeout)) log);
    _ ←! (_ ← LogAt log LevelInfo "proxy listening" [("addr", AString listenAddr); ("upstream", AString upstreamURL)];
          proceed ());
    proceed (log, mkServer listenAddr (NewHandler screener logger) (5 * Second) (10 * Second) (30 * Second))
  end.

(** The exit status of the process. *)
Definition main (m : Machine) : M W Z :=
  r ← startup m;
  match r with
  | inl status => mret status
  | inr (log, server) =>
      r ← try_err (m_listen m server);
      match r with
      | inl err => _ ← LogAt log LevelError "server stopped" [("err", AError err)]; mret 1%Z
      | inr _ => mret 0%Z
      end
  end.

Lemma url_setting_ok m log u w w' :
  url_setting m log u w = (Ok (inr ()), w') ↔
  (∃ scheme host, m_url m u = inr (scheme, host) ∧ scheme ≠ "" ∧ host ≠ "") ∧ w' = w.
Proof.
  unfold url_setting. destruct (m_url m u) as [e|[scheme host]]; [naive_solver|].
  destruct (_ || _) eqn:Hp; [|split_bool; rewrite proceed_ok; naive_solver].
  split; [done|]. intros [(sc & h & [= <- <-] & ? & ?) _]. apply orb_true_iff in Hp as [?|?]; by split_bool.
Qed.

Lemma window_setting_ok m log w n w' :
  window_setting m log w = (Ok (inr n), w') ↔
  ParseUint (to_bytes (getEnv (m_env m) "FRESH_CONTRACT_BLOCKS" "7200")) = Some n ∧ (0 < n)%Z ∧ w' = w.
Proof.
  unfold window_setting. destruct (ParseUint _) as [k|] eqn:Hk; [|naive_solver]. apply ParseUint_range in Hk.
  destruct (Z.eqb_spec k 0) as [->|Hne]; [|rewrite proceed_ok; naive_solver lia].
  split; [done|]. intros ([= <-] & ? & _). lia.
Qed.

End main.
Arguments NodeClient W : clear implicits.
Arguments Machine W : clear implicits.
Arguments Server W : clear implicits.

(** ** What a startup that reaches the server has done *)
Section started.
Context `{G : Geth} {W : Type} `{!Clock W} `{LE : Lens W Entries} `{LK : Lens W (gset Address)} `{LL : Lens W (list Line)}.

Lemma startup_ok (m : Machine W) (w w' : W) (log : Logger) (srv : Server W) :
  startup m w = (Ok (inr (log, srv)), w') ↔
  ∃ logger threshold window percent client sim freshness screener w1 w2 w3 w4,
    logging_New (getEnv (m_env m) "LOG_FORMAT" "pretty") (getEnv (m_env m) "LOG_LEVEL" "info") = inr logger ∧
    log = With logger ("component", AString "main") ∧
    m_env m "UPSTREAM_URL" ≠ "" ∧ m_env m "LISTEN_ADDR" ≠ "" ∧ m_env m "SANCTIONS_FILE" ≠ "" ∧
    (∃ scheme host, m_url m (m_env m "UPSTREAM_URL") = inr (scheme, host) ∧ scheme ≠ "" ∧ host ≠ "") ∧
    Atoi (to_bytes (getEnv (m_env m) "RISK_THRESHOLD" "50")) = Some threshold ∧ (0 < threshold < 2 ^ 63)%Z ∧
    ParseUint (to_bytes (getEnv (m_env m) "FRESH_CONTRACT_BLOCKS" "7200")) = Some window ∧ (0 < window < 2 ^ 64)%Z ∧
    Atoi (to_bytes (getEnv (m_env m) "LARGE_OUTFLOW_PERCENT" "50")) = Some percent ∧ (1 ≤ percent ≤ 100)%Z ∧
    dialUpstream m (m_env m "UPSTREAM_URL") w = (Ok client, w1) ∧
    newSimulator (nc_rpc client) w1 = (Ok sim, w2) ∧
    newFreshness (nc_code client) window w2 = (Ok freshness, w3) ∧
    newScreener (m_host m) (mkScreenerConfig (m_env m "SANCTIONS_FILE") (m_env m "SANCTIONS_ORACLE_RPC") threshold
      percent sim freshness (RPCBalances (nc_balance client) balanceTimeout)) log w3 = (Ok screener, w4) ∧
    w' = written (log_lines log LevelInfo "proxy listening"
           [("addr", AString (m_env m "LISTEN_ADDR")); ("upstream", AString (m_env m "UPSTREAM_URL"))]) w4 ∧
    srv = mkServer (m_env m "LISTEN_ADDR") (NewHandler screener logger) (5 * Second) (10 * Second) (30 * Second).
Proof.
  unfold startup. destruct (logging_New _ _) as [err|logger]; [split; [done|naive_solver]|]. cbv zeta. split.
  - intros H. apply and_then_ok in H as (u & wa & (-> & H1 & ->)%mustGetEnv_ok & H).
    apply and_then_ok in H as (la & wb & (-> & H2 & ->)%mustGetEnv_ok & H).
    apply and_then_ok in H as (sf & wc & (-> & H3 & ->)%mustGetEnv_ok & H).
    apply and_then_ok in H as ([] & wd & (Hurl & ->)%url_setting_ok & H).
    apply and_then_ok in H as (threshold & we & (Ht & ->)%int_setting_ok & H).
    apply and_then_ok in H as (window & wf & (Hw & Hpos & ->)%window_setting_ok & H).
    apply and_then_ok in H as (percent & wg & (Hp & ->)%int_setting_ok & H).
    apply and_then_ok in H as (client & w1 & Hdial%or_exit_ok & H).
    apply and_then_ok in H as (sim & w2 & Hsim%or_exit_ok & H).
    apply and_then_ok in H as (freshness & w3 & Hfresh%or_exit_ok & H).
    apply and_then_ok in H as (screener & w4 & Hscreen%or_exit_ok & H).
    apply and_then_ok in H as ([] & w5 & [= <-] & [[= -> ->] ->]%proceed_ok).
    pose proof (newScreener_ok _ _ _ _ _ _ Hscreen) as (set & cs & _ & _ & Hthr & Hpct & _).
    cbn [cfg_threshold cfg_outflowPercent] in *. apply Atoi_range in Ht as Htr. apply ParseUint_range in Hw as Hwr.
    exists logger, threshold, window, percent, client, sim, freshness, screener, w1, w2, w3, w4.
    split_and!; try done; lia.
  - intros (lg & threshold & window & percent & client & sim & freshness & screener & w1 & w2 & w3 & w4 & [= <-] & -> &
      H1 & H2 & H3 & Hurl & Ht & _ & Hw & Hwin & Hp & _ & Hdial & Hsim & Hfresh & Hscreen & -> & ->).
    apply and_then_ok. eexists _, w. split; [by apply mustGetEnv_ok|].
    apply and_then_ok. eexists _, w. split; [by apply mustGetEnv_ok|].
    apply and_then_ok. eexists _, w. split; [by apply mustGetEnv_ok|].
    apply and_then_ok. exists (), w. split; [by apply url_setting_ok|].
    apply and_then_ok. exists threshold, w. split; [by apply int_setting_ok|].
    apply and_then_ok. exists window, w. split; [apply window_setting_ok; split_and!; [done|lia|done]|].
    apply and_then_ok. exists percent, w. split; [by apply int_setting_ok|].
    apply and_then_ok. exists client, w1. split; [by apply or_exit_ok|].
    apply and_then_ok. exists sim, w2. split; [by apply or_exit_ok|].
    apply and_then_ok. exists freshness, w3. split; [by apply or_exit_ok|].
    apply and_then_ok. exists screener, w4. split; [by apply or_exit_ok|].
    apply and_then_ok. eexists (), _. split; [done|]. by apply proceed_ok.
Qed.

Lemma trace_ok (client : RpcClient W) timeout ctx args w t w' :
  trace client timeout ctx args w = (Ok t, w') →
  ∃ ctx', CallContext client ctx' "debug_traceCall" args "latest" traceConfig w = (Ok t, w').
Proof.
  rewrite trace_run. set (ctx' := WithDeadline _ _). intros H. exists ctx'. revert H.
  destruct (CallContext _ _ _ _ _ _ _) as [[f|e|] w1]; cbn [trace_answer]; [| |done].
  - case_bool_decide; [done|]. by intros [= -> ->].
  - by destruct (as_rpc_error e) as [[c ?]|]; [destruct (isTxRejection c)|].
Qed.

End started.

(** ** Claims *)
Section main_claims.
Context `{G : Geth} {W : Type} `{!Clock W} `{LE : Lens W Entries} `{LK : Lens W (gset Address)} `{LL : Lens W (list Line)}.

(** C1: No transaction that touches a sanctioned address reaches the node. Once the process serves
    requests, whatever request arrives: if its handler hands it to the node, the bytes are the
    ones that arrived, and for every transaction in them the upstream node dialled at startup
    returned a call trace in which no touched address (the sender and recipient, every call
    target and token recipient outside reverted calls) is in the sanctions file, whatever else
    the node and the oracle answered and the caches held. *)
Theorem served_requests_clean (m : Machine W) (w w' w1 w2 : W) (log : Logger) (srv : Server W) (r r' : HttpRequest)
    (Hstart : startup m w = (Ok (inr (log, srv)), w'))
    (Hforward : srv_Handler srv r w1 = (Ok (Forward r'), w2)) :
  hr_Body r' = hr_Body r ∧
  ∃ set reqs client wd, LoadListChecker (h_open (m_host m)) (m_env m "SANCTIONS_FILE") = inr set ∧
    dialUpstream m (m_env m "UPSTREAM_URL") w = (Ok client, wd) ∧ ParseRequests (hr_Body r) = inr reqs ∧
    ∀ req, req ∈ reqs → rq_Method req = sendRawTransaction →
      ∃ d ctx t wa wb, DecodeRawTransaction (rq_Params req) = inr d ∧
        CallContext (nc_rpc client) ctx "debug_traceCall" (newCallArgs d) "latest" traceConfig wa = (Ok t, wb) ∧
        ∀ x, touched d t x → x ∉ set.
Proof.
  apply startup_ok in Hstart as (logger & threshold & window & percent & client & sim & freshness & screener &
    wd & w4 & w5 & w6 & _ & _ & _ & _ & _ & _ & _ & _ & _ & _ & _ & _ & Hdial & Hsim & _ & Hscreen & _ & ->).
  cbn [srv_Handler] in Hforward. apply handler_body in Hforward as Hbody.
  destruct (forwarded_transactions_clean _ _ _ _ _ _ _ _ _ _ _ Hscreen Hforward) as (set & reqs & Hlist & Hparse & Hclean).
  split; [done|]. exists set, reqs, client, wd. rewrite <-Hbody. split_and!; [done..|]. intros req Hin Hm.
  destruct (Hclean req Hin Hm) as (d & t & wa & wb & Hd & Ht & Hx). apply newSimulator_ok in Hsim as ->.
  apply trace_ok in Ht as [ctx Ht]. by exists d, ctx, t, wa, wb.
Qed.

(** C39: The process serves exactly a checked configuration. Startup reaches the server if and only if
    the log settings and the URL are valid, the required variables are set, the threshold is a
    positive [int], the freshness window a positive [uint64] and the outflow percentage between
    1 and 100 (each the value of its variable or the default), the node passes the startup
    checks, and [newScreener] builds a screener from those values; requests are then handled by
    the proxy over that screener, under the server's timeouts. *)
Theorem startup_serves_iff (m : Machine W) (w w' : W) (log : Logger) (srv : Server W) :
  startup m w = (Ok (inr (log, srv)), w') ↔
  ∃ logger threshold window percent client sim freshness screener w1 w2 w3 w4,
    logging_New (getEnv (m_env m) "LOG_FORMAT" "pretty") (getEnv (m_env m) "LOG_LEVEL" "info") = inr logger ∧
    log = With logger ("component", AString "main") ∧
    m_env m "UPSTREAM_URL" ≠ "" ∧ m_env m "LISTEN_ADDR" ≠ "" ∧ m_env m "SANCTIONS_FILE" ≠ "" ∧
    (∃ scheme host, m_url m (m_env m "UPSTREAM_URL") = inr (scheme, host) ∧ scheme ≠ "" ∧ host ≠ "") ∧
    Atoi (to_bytes (getEnv (m_env m) "RISK_THRESHOLD" "50")) = Some threshold ∧ (0 < threshold < 2 ^ 63)%Z ∧
    ParseUint (to_bytes (getEnv (m_env m) "FRESH_CONTRACT_BLOCKS" "7200")) = Some window ∧ (0 < window < 2 ^ 64)%Z ∧
    Atoi (to_bytes (getEnv (m_env m) "LARGE_OUTFLOW_PERCENT" "50")) = Some percent ∧ (1 ≤ percent ≤ 100)%Z ∧
    dialUpstream m (m_env m "UPSTREAM_URL") w = (Ok client, w1) ∧
    newSimulator (nc_rpc client) w1 = (Ok sim, w2) ∧
    newFreshness (nc_code client) window w2 = (Ok freshness, w3) ∧
    newScreener (m_host m) (mkScreenerConfig (m_env m "SANCTIONS_FILE") (m_env m "SANCTIONS_ORACLE_RPC") threshold
      percent sim freshness (RPCBalances (nc_balance client) balanceTimeout)) log w3 = (Ok screener, w4) ∧
    w' = written (log_lines log LevelInfo "proxy listening"
           [("addr", AString (m_env m "LISTEN_ADDR")); ("upstream", AString (m_env m "UPSTREAM_URL"))]) w4 ∧
    srv = mkServer (m_env m "LISTEN_ADDR") (NewHandler screener logger) (5 * Second) (10 * Second) (30 * Second).
Proof. apply startup_ok. Qed.

End main_claims.

(** ** Concrete instances *)
Module MainExamples.
Import Toy EventsExamples AnalysisExamples PipelineExamples.

Definition demo_node : NodeClient World := mkNodeClient
  (mkRpcClient World (λ _ _ _ _ _, mret demo_trace))
  (mkCodeReader (λ _, mret 100%Z) (λ _ _ _, mret []))
  (mkBalanceClient (λ _ _ _, mret 0%Z) (λ _ _ _, mret [])).

Definition demo_env (threshold : string) (key : string) : string :=
  if bool_decide (key = "UPSTREAM_URL") then "http://node:8545"
  else if bool_decide (key = "LISTEN_ADDR") then ":8080"
  else if bool_decide (key = "SANCTIONS_FILE") then "sanctions.txt"
  else if bool_decide (key = "RISK_THRESHOLD") then threshold
  else "".

Definition demo_machine (threshold : string) : Machine World := mkMachine (demo_env threshold) demo_host
  (λ _ _, mret demo_node) (λ _, inr ("http", "node:8545")) (λ _, fail (Errorf "address already in use" [])).

(** A node in whose traces nothing is listed. *)
Definition clean_machine : Machine World := mkMachine (demo_env "50") demo_host
  (λ _ _, mret (mkNodeClient (mkRpcClient World (λ _ _ _ _ _, mret (node "CALL" 1 2 "" [] [])))
                  (nc_code demo_node) (nc_balance demo_node)))
  (λ _, inr ("http", "node:8545")) (λ _, fail (Errorf "address already in use" [])).

Lemma served_requests_clean_witness :
  match startup clean_machine world0 with
  | (Ok (inr (_, srv)), w1) =>
      match srv_Handler srv (http []) w1 with
      | (Ok (Forward r'), _) =>
          hr_Body r' = hr_Body (http []) ∧
          ∃ set reqs client wd, LoadListChecker (h_open (m_host clean_machine)) (m_env clean_machine "SANCTIONS_FILE") = inr set ∧
            dialUpstream clean_machine (m_env clean_machine "UPSTREAM_URL") world0 = (Ok client, wd) ∧
            ParseRequests (hr_Body (http [])) = inr reqs ∧
            ∀ req, req ∈ reqs → rq_Method req = sendRawTransaction →
              ∃ d ctx t wa wb, DecodeRawTransaction (rq_Params req) = inr d ∧
                CallContext (nc_rpc client) ctx "debug_traceCall" (newCallArgs d) "latest" traceConfig wa = (Ok t, wb) ∧
                ∀ x, touched d t x → x ∉ set
      | _ => False
      end
  | _ => False
  end.
Proof.
  assert (match startup clean_machine world0 with
          | (Ok (inr (_, srv)), w1) => match (srv_Handler srv (http []) w1).1 with Ok (Forward _) => True | _ => False end
          | _ => False
          end) as Hruns by (by vm_compute).
  destruct (startup clean_machine world0) as [[[st|[log srv]]|e|] w1] eqn:Hstart; [destruct Hruns| |destruct Hruns..].
  destruct (srv_Handler srv (http []) w1) as [[[| |r']|e|] w2] eqn:Hforward; [destruct Hruns..| |destruct Hruns|destruct Hruns].
  exact (served_requests_clean clean_machine world0 w1 w1 w2 log srv (http []) r' Hstart Hforward).
Defined.

(** With the defaults the server starts; a threshold that is zero, not a number or too large for
    an [int] stops the process with status 1. *)
Example demo_starts :
  (λ t, match (startup (demo_machine t) world0).1 with
        | Ok (inr (_, srv)) => inr (srv_Addr srv)
        | Ok (inl status) => inl status
        | _ => inl (-1)%Z
        end) <$> [""; "50"; "0"; "5O"; "9223372036854775808"] =
  [inr ":8080"; inr ":8080"; inl 1%Z; inl 1%Z; inl 1%Z].
Proof. by vm_compute. Qed.

(** What the process writes when the port is taken. *)
Example demo_run :
  (λ r, (r.1, (λ l, match l with LogRecord _ _ msg _ => msg | Printed _ => "" end) <$> w_stderr r.2))
    (main (demo_machine "50") world0) = (Ok 1%Z, ["loaded sanctions list"; "proxy listening"; "server stopped"]).
Proof. by vm_compute. Qed.

Example demo_levels :
  (λ l, parse_level (to_bytes l)) <$> ["info"; "WARN+2"; "Debug-4"; "trace"] = [Some 0%Z; Some 6%Z; Some (-8)%Z; None].
Proof. by vm_compute. Qed.

End MainExamples.
